(** * BashSpark: a shallow embedding of the shell core

    The development follows the C++ sources of BashSpark:
    - [shell_status.h]            status codes and [SHELL_MAX_DEPTH];
    - [shell_node.h], [shell_node.cpp]   the node model, the constructors
      that check their arguments and [shell_node_operator::make];
    - [shell_def.h], [shell_tools.h], [utf.h], [fakestream.h]   helpers
      on texts and the input cursor;
    - [shell_env.h], [shell_var.h], [shell_arg.h], [shell_vtable.h],
      [shell_session.h]           the session and its derivations;
    - [shell_parser_exception.cpp]  the diagnostic message;
    - [shell_tokenizer.cpp], [token_holder.h], [shell_keyword.h],
      [shell_parser.cpp]          the tokenizer and the parser with its
      depth guard;
    - [shell_node_expand.cpp], [shell_node_evaluate.cpp], [command.cpp],
      [command_fcall.cpp], [command_var.cpp], [command_env.cpp],
      [command_seq.cpp], [shell.cpp]   expansion, evaluation, the built-in
      commands and the entry points.

    [std::size_t] values are integers in [Z] reduced modulo [2^64] where the
    source can wrap; [std::shared_ptr] objects live in an explicit store and
    are named by their address; C++ exceptions are an explicit outcome;
    loops and recursion of the source are functions on a fuel counter. *)

From stdpp Require Import gmap strings list.
From Stdlib Require Import ZArith String Ascii DecimalString.

Open Scope string_scope.
Open Scope list_scope.
Open Scope Z_scope.

(** ** Status codes ([shell_status.h]) *)

Definition SHELL_MAX_DEPTH : Z := 16.

(** [enum class shell_status : std::uint32_t]; several command families
    reuse the same numeric values, so a status is its number. *)
Definition shell_status := Z.

Module Status.
Definition SHELL_SUCCESS : shell_status := 0.
Definition SHELL_ERROR : shell_status := 1.
Definition SHELL_ERROR_SYNTAX_ERROR : shell_status := 2.
Definition SHELL_ERROR_SYNTAX_ERROR_UNCLOSED_SIMPLE_QUOTES : shell_status := 3.
Definition SHELL_ERROR_SYNTAX_ERROR_UNCLOSED_DOUBLE_QUOTES : shell_status := 4.
Definition SHELL_ERROR_SYNTAX_ERROR_UNCLOSED_BACK_QUOTES : shell_status := 5.
Definition SHELL_ERROR_SYNTAX_ERROR_UNCLOSED_PARENTHESES : shell_status := 6.
Definition SHELL_ERROR_SYNTAX_ERROR_UNCLOSED_BRACKETS : shell_status := 7.
Definition SHELL_ERROR_SYNTAX_ERROR_UNCLOSED_SQR_BRACKETS : shell_status := 8.
Definition SHELL_ERROR_SYNTAX_ERROR_UNCLOSED_SUBCOMMAND : shell_status := 9.
Definition SHELL_ERROR_SYNTAX_ERROR_UNCLOSED_VARIABLE : shell_status := 10.
Definition SHELL_ERROR_SYNTAX_ERROR_INVALID_VARIABLE_NAME : shell_status := 11.
Definition SHELL_ERROR_SYNTAX_ERROR_UNEXPECTED_TOKEN : shell_status := 12.
Definition SHELL_ERROR_SYNTAX_ERROR_UNEXPECTED_EOF : shell_status := 13.
Definition SHELL_ERROR_SYNTAX_ERROR_ARG_OUT_OF_RANGE : shell_status := 14.
Definition SHELL_ERROR_SYNTAX_ERROR_EMPTY_BLOCK : shell_status := 15.
Definition SHELL_ERROR_SYNTAX_ERROR_UNFINISHED_KEYWORD_IF : shell_status := 16.
Definition SHELL_ERROR_SYNTAX_ERROR_MISSING_KEYWORD_THEN : shell_status := 17.
Definition SHELL_ERROR_SYNTAX_ERROR_UNFINISHED_KEYWORD_LOOP : shell_status := 18.
Definition SHELL_ERROR_SYNTAX_ERROR_UNFINISHED_KEYWORD_FOR : shell_status := 19.
Definition SHELL_ERROR_SYNTAX_ERROR_MISSING_KEYWORD_IN : shell_status := 20.
Definition SHELL_ERROR_SYNTAX_ERROR_UNFINISHED_KEYWORD_WHILE : shell_status := 21.
Definition SHELL_ERROR_SYNTAX_ERROR_UNFINISHED_KEYWORD_UNTIL : shell_status := 22.
Definition SHELL_ERROR_SYNTAX_ERROR_MISSING_KEYWORD_DO : shell_status := 23.
Definition SHELL_ERROR_SYNTAX_ERROR_INVALID_FUNCTION_NAME : shell_status := 24.
Definition SHELL_ERROR_SYNTAX_ERROR_INVALID_FUNCTION_BODY : shell_status := 25.
Definition SHELL_ERROR_BAD_ENCODING : shell_status := 26.
Definition SHELL_ERROR_COMMAND_NOT_FOUND : shell_status := 27.
Definition SHELL_ERROR_MAX_DEPTH_REACHED : shell_status := 28.
Definition SHELL_CMD_ERROR : shell_status := 42.
Definition SHELL_CMD_ERROR_FCALL_PARAM_NUMBER : shell_status := 43.
Definition SHELL_CMD_ERROR_FCALL_FUNCTION_NOT_FOUND : shell_status := 44.
Definition SHELL_CMD_ERROR_GETENV_PARAM_NUMBER : shell_status := 43.
Definition SHELL_CMD_ERROR_GETENV_VARIABLE_NAME_INVALID : shell_status := 44.
Definition SHELL_CMD_ERROR_GETVAR_PARAM_NUMBER : shell_status := 43.
Definition SHELL_CMD_ERROR_SETENV_PARAM_NUMBER : shell_status := 43.
Definition SHELL_CMD_ERROR_SETVAR_PARAM_NUMBER : shell_status := 43.
Definition SHELL_CMD_ERROR_SEQ_PARAM_NUMBER : shell_status := 43.
Definition SHELL_CMD_ERROR_SEQ_INVALID_INT_FORMAT : shell_status := 44.
Definition SHELL_CMD_ERROR_SEQ_INT_OUT_OF_BOUNDS : shell_status := 45.
Definition SHELL_CMD_ERROR_SEQ_ITERATION_LOGIC : shell_status := 46.
End Status.
Import Status.

(** ** Node model ([shell_node.h]) *)

Inductive shell_node_type :=
| SNT_COMMAND_EXPRESSION | SNT_STR_SIMPLE | SNT_STR_DOUBLE | SNT_STR_BACK
| SNT_WORD | SNT_UNICODE | SNT_ARG | SNT_VARIABLE | SNT_DOLLAR_SPECIAL
| SNT_DOLLAR_VARIABLE | SNT_DOLLAR_VARIABLE_DHOP | SNT_DOLLAR_ARG
| SNT_DOLLAR_ARG_DHOP | SNT_DOLLAR_COMMAND | SNT_BACKGROUND | SNT_AND
| SNT_PIPE | SNT_OR | SNT_IF | SNT_TEST | SNT_FOR | SNT_WHILE | SNT_UNTIL
| SNT_BREAK | SNT_CONTINUE | SNT_FUNCTION | SNT_NULL_COMMAND | SNT_COMMAND
| SNT_COMMAND_BLOCK | SNT_COMMAND_BLOCK_SUBSHELL.

(** A [std::unique_ptr] field that a constructor checks against [nullptr]
    is a plain child; one that may hold [nullptr] is an [option].  The two
    children of an operator are filled in after construction by
    [shell_node_operator::make], so they are options; the constructors of
    the two block nodes take their vector of children unchecked. *)
#[warnings="-register-all"] Inductive expandable : Type :=
| shell_node_command_expression (m_vChildren : list (option expandable))
| shell_node_str_simple (nPos : Z) (m_vChildren : list expandable)
| shell_node_str_double (nPos : Z) (m_vChildren : list expandable)
| shell_node_str_back (nPos : Z) (m_pCommand : evaluable)
| shell_node_word (nPos : Z) (m_sText : string)
| shell_node_unicode (nPos : Z) (m_cCharacter : Z)
| shell_node_arg (nPos : Z) (m_nArg : Z)
| shell_node_variable (nPos : Z) (m_sVariable : string)
| shell_node_dollar_special (nPos : Z) (m_cItem : ascii)
| shell_node_dollar_variable (nPos : Z) (m_sVariable : string)
| shell_node_dollar_variable_dhop (nPos : Z) (m_sVariable : string)
| shell_node_dollar_arg (nPos : Z) (m_nArg : Z)
| shell_node_dollar_arg_dhop (nPos : Z) (m_nArg : Z)
| shell_node_dollar_command (nPos : Z) (m_pCommand : evaluable)
with evaluable : Type :=
| shell_node_null_command (nPos : Z)
| shell_node_command (m_pCommand : expandable)
| shell_node_command_block (nPos : Z) (m_vSubCommands : list (option evaluable))
| shell_node_command_block_subshell (nPos : Z)
    (m_vSubCommands : list (option evaluable))
| shell_node_background (nPos : Z) (m_pCommand : evaluable)
| shell_node_operator (nType : shell_node_type) (nPos : Z) (m_nPriority : Z)
    (m_pLeft m_pRight : option evaluable)
| shell_node_test (nPos : Z) (m_pTest : expandable)
| shell_node_if (nPos : Z) (m_pCondition m_pCaseIf : evaluable)
    (m_pCaseElse : option evaluable)
| shell_node_for (nPos : Z) (m_sVariable : string) (m_pSequence : expandable)
    (m_pIterative : evaluable)
| shell_node_while (nPos : Z) (m_pCondition m_pIterative : evaluable)
| shell_node_until (nPos : Z) (m_pCondition m_pIterative : evaluable)
| shell_node_continue (nPos : Z)
| shell_node_break (nPos : Z)
| shell_node_function (nPos : Z) (m_pName : expandable) (m_pBody : evaluable).

(** ** Exceptions and outcomes

    [shell_parser_exception] carries the status, the command text and the
    position it was built from ([shell_parser_exception.h]). *)
Record shell_parser_exception := mk_parser_exception {
  m_nStatus : shell_status;
  m_sCommand : string;
  m_nPos : Z
}.

(** The exceptions that travel through the modelled code. *)
Inductive exn :=
| continue_signal
| break_signal
| parser_exception (e : shell_parser_exception)
| node_invalid_argument (what : string)
| std_out_of_range (what : string)
| std_invalid_argument (what : string).

(** What running a piece of code leads to: a value, a thrown exception,
    undefined behaviour of the C++ program (a read outside a vector, a null
    dereference), or a model that ran out of fuel. *)
Inductive outcome (A : Type) : Type :=
| Ok (a : A)
| Throw (x : exn)
| Undefined (why : string)
| OutOfFuel.
Arguments Ok {A} a.
Arguments Throw {A} x.
Arguments Undefined {A} why.
Arguments OutOfFuel {A}.

Definition outcome_bind {A B : Type} (f : A -> outcome B) (m : outcome A) : outcome B :=
  match m with
  | Ok a => f a
  | Throw x => Throw x
  | Undefined why => Undefined why
  | OutOfFuel => OutOfFuel
  end.

#[global] Instance outcome_mbind : MBind outcome := @outcome_bind.
#[global] Instance outcome_mret : MRet outcome := @Ok.

(** ** Operators and [shell_node_operator::make] ([shell_node.cpp]) *)

Module Operator.

Definition PRIORITY_PIPE : Z := 5.
Definition PRIORITY_AND : Z := 4.
Definition PRIORITY_OR : Z := 3.

(** [new shell_node_and(nPos)] and its siblings: the protected
    constructor leaves both children null. *)
Definition shell_node_and (nPos : Z) : evaluable :=
  shell_node_operator SNT_AND nPos PRIORITY_AND None None.
Definition shell_node_or (nPos : Z) : evaluable :=
  shell_node_operator SNT_OR nPos PRIORITY_OR None None.
Definition shell_node_pipe (nPos : Z) : evaluable :=
  shell_node_operator SNT_PIPE nPos PRIORITY_PIPE None None.

(** [dynamic_cast<shell_node_operator *>(p)] is non-null exactly on the
    operator nodes. *)
Definition is_operator (p : evaluable) : bool :=
  match p with shell_node_operator _ _ _ _ _ => true | _ => false end.

Definition get_priority (p : evaluable) : Z :=
  match p with shell_node_operator _ _ prio _ _ => prio | _ => 0 end.

Definition get_left (p : evaluable) : option evaluable :=
  match p with shell_node_operator _ _ _ l _ => l | _ => None end.

Definition get_right (p : evaluable) : option evaluable :=
  match p with shell_node_operator _ _ _ _ r => r | _ => None end.

(** [p->m_pLeft = v] and [p->m_pRight = v]: the old child is destroyed. *)
Definition set_m_pLeft (p : evaluable) (v : option evaluable) : evaluable :=
  match p with
  | shell_node_operator t pos prio _ r => shell_node_operator t pos prio v r
  | _ => p
  end.

Definition set_m_pRight (p : evaluable) (v : option evaluable) : evaluable :=
  match p with
  | shell_node_operator t pos prio l _ => shell_node_operator t pos prio l v
  | _ => p
  end.

(** The [switch (nType)] that constructs the central node. *)
Definition make_central (nType : shell_node_type) (nPos : Z)
  : outcome evaluable :=
  match nType with
  | SNT_AND => Ok (shell_node_and nPos)
  | SNT_OR => Ok (shell_node_or nPos)
  | SNT_PIPE => Ok (shell_node_pipe nPos)
  | _ => Throw (node_invalid_argument "Node type must be an operator")
  end.

(** The left half of [make].  [pCentral] always owns the node that
    [pCentralOpp] points to, so the pair is one tree; the result is the
    new [pCentral] together with [nCentralPriority]. *)
Definition make_left (pCentral pLeft : evaluable) : evaluable * Z :=
  let nCentralPriority := get_priority pCentral in
  let nLeftPriority := if is_operator pLeft then get_priority pLeft else 0 in
  if negb (is_operator pLeft) then
    (set_m_pLeft pCentral (Some pLeft), nCentralPriority)
  else if nLeftPriority >=? nCentralPriority then
    (set_m_pLeft pCentral (Some pLeft), nCentralPriority)
  else
    (* pCentralOpp->m_pLeft = std::move(pLeftOpp->m_pRight); *)
    let central := set_m_pLeft pCentral (get_right pLeft) in
    (* pLeftOpp->m_pRight = std::move(pCentral); *)
    let left := set_m_pRight pLeft (Some central) in
    (* pCentral = std::move(pLeft); pCentralOpp = pLeftOpp; *)
    (left, get_priority left).

(** The right half of [make]; [pCentralOpp] is the root of [pCentral]. *)
Definition make_right (pCentral : evaluable) (nCentralPriority : Z)
    (pRight : evaluable) : evaluable :=
  let nRightPriority := if is_operator pRight then get_priority pRight else 0 in
  if negb (is_operator pRight) then
    set_m_pRight pCentral (Some pRight)
  else if nRightPriority <? nCentralPriority then
    set_m_pRight pCentral (Some pRight)
  else
    (* pCentralOpp->m_pRight = std::move(pRightOpp->m_pLeft); *)
    let central := set_m_pRight pCentral (get_left pRight) in
    (* pRightOpp->m_pLeft = std::move(pCentral); pCentral = std::move(pRight); *)
    set_m_pLeft pRight (Some central).

Definition make (nType : shell_node_type) (nPos : Z)
    (pLeft pRight : option evaluable) : outcome evaluable :=
  match pLeft with
  | None => Throw (node_invalid_argument "Left subnode can not be null")
  | Some l =>
    match pRight with
    | None => Throw (node_invalid_argument "Right subnode can not be null")
    | Some r =>
      pCentral ← make_central nType nPos;
      let '(pCentral, nCentralPriority) := make_left pCentral l in
      Ok (make_right pCentral nCentralPriority r)
    end
  end.

(** The nodes built from operator type [t]: what [make_central] yields. *)
Definition priority_of (t : shell_node_type) : option Z :=
  match t with
  | SNT_AND => Some PRIORITY_AND
  | SNT_OR => Some PRIORITY_OR
  | SNT_PIPE => Some PRIORITY_PIPE
  | _ => None
  end.

(** [op t pos l r]: a complete operator node of type [t]. *)
Definition op (t : shell_node_type) (nPos : Z) (l r : evaluable) : evaluable :=
  shell_node_operator t nPos (default 0 (priority_of t)) (Some l) (Some r).

End Operator.


(** ** Strings, as [std::string] uses them

    A [std::string] is a Rocq [string]: a sequence of bytes ([ascii]).
    Indices and lengths are [std::size_t] values. *)

Definition size_t_mod : Z := 2 ^ 64.

(** Arithmetic of [std::size_t]: results are reduced modulo [2^64]. *)
Definition size_t_sub (a b : Z) : Z := (a - b) mod size_t_mod.
Definition size_t_add (a b : Z) : Z := (a + b) mod size_t_mod.

Definition str_size (s : string) : Z := Z.of_nat (String.length s).

(** [s[i]], [None] outside the string. *)
Fixpoint str_at (s : string) (i : Z) : option ascii :=
  match s with
  | EmptyString => None
  | String a s' => if i =? 0 then Some a else if i <? 0 then None else str_at s' (i - 1)
  end.

(** The first [count] bytes of [s] (all of [s] when it is shorter). *)
Fixpoint str_take (s : string) (count : Z) : string :=
  match s with
  | EmptyString => EmptyString
  | String a s' => if count <=? 0 then EmptyString else String a (str_take s' (count - 1))
  end.

(** [s] without its first [n] bytes. *)
Fixpoint str_drop (s : string) (n : Z) : string :=
  match s with
  | EmptyString => EmptyString
  | String a s' => if n <=? 0 then s else str_drop s' (n - 1)
  end.

(** [s.substr(pos, count)]: throws [std::out_of_range] when [pos > size()],
    otherwise the bytes from [pos], at most [count] of them. *)
Definition substr (s : string) (pos count : Z) : option string :=
  if str_size s <? pos then None else Some (str_take (str_drop s pos) count).

(** [s.find(c, pos)]: the first index [>= pos] holding [c]; [None] is
    [std::string::npos]. *)
Fixpoint find_from (c : ascii) (s : string) (i pos : Z) : option Z :=
  match s with
  | EmptyString => None
  | String a s' =>
      if (pos <=? i) && Ascii.eqb a c then Some i else find_from c s' (i + 1) pos
  end.
Definition str_find (s : string) (c : ascii) (pos : Z) : option Z :=
  find_from c s 0 pos.

(** [s.rfind(c, pos)]: the last index [<= pos] holding [c]. *)
Fixpoint rfind_from (c : ascii) (s : string) (i pos : Z) : option Z :=
  match s with
  | EmptyString => None
  | String a s' =>
      match rfind_from c s' (i + 1) pos with
      | Some j => Some j
      | None => if (i <=? pos) && Ascii.eqb a c then Some i else None
      end
  end.
Definition str_rfind (s : string) (c : ascii) (pos : Z) : option Z :=
  rfind_from c s 0 pos.

(** [std::string(n, c)]. *)
Definition str_fill (n : Z) (c : ascii) : string :=
  Nat.iter (Z.to_nat n) (String c) EmptyString.

(** [std::to_string] on an unsigned and on a signed integer. *)
Definition to_string_unsigned (n : Z) : string :=
  NilZero.string_of_uint (N.to_uint (Z.to_N n)).
Definition to_string_int (n : Z) : string :=
  NilZero.string_of_int (Z.to_int n).

(** [static_cast<int>] of a 32-bit unsigned value. *)
Definition static_cast_int (n : Z) : Z :=
  let m := n mod 2 ^ 32 in if m <? 2 ^ 31 then m else m - 2 ^ 32.

(** The byte of a character, as an unsigned value. *)
Definition byte_of (a : ascii) : Z := Z.of_N (N_of_ascii a).

Definition LF : ascii := ascii_of_nat 10.
Definition TAB : ascii := ascii_of_nat 9.
Definition SPACE : ascii := " "%char.

(** An [ofakestream] used as a local buffer is the text written so far:
    [operator<<] and [put] append, [str_reset] returns the text and
    empties the buffer. *)
Definition ofakestream := string.
Definition ofs_put (o : ofakestream) (c : ascii) : ofakestream := o +:+ String c EmptyString.
Definition ofs_write (o : ofakestream) (s : string) : ofakestream := o +:+ s.
Definition ofs_empty (o : ofakestream) : bool :=
  match o with EmptyString => true | _ => false end.

(** ** Helpers of [shell_tools.h] and [shell_def.h] *)

Definition is_blank (c : ascii) : bool :=
  Ascii.eqb c SPACE || Ascii.eqb c LF || Ascii.eqb c TAB.

(** [split_string(vStrings, oString)].  The source tracks the pending word
    by [nStart] and [nLength]; the pending word is that slice of the text,
    kept here as the accumulated bytes [pending]. *)
Fixpoint split_string_loop (vStrings : list string) (pending : string)
    (oString : string) : list string :=
  match oString with
  | EmptyString =>
      if ofs_empty pending then vStrings else vStrings ++ [pending]
  | String cChar rest =>
      if is_blank cChar then
        split_string_loop
          (if ofs_empty pending then vStrings else vStrings ++ [pending])
          EmptyString rest
      else
        split_string_loop vStrings (pending +:+ String cChar EmptyString) rest
  end.

Definition split_string (vStrings : list string) (oString : string) : list string :=
  split_string_loop vStrings EmptyString oString.

(** [concat_vector(oOstream, vOrigin)]: the entries joined by one space. *)
Fixpoint concat_vector_tail (o : ofakestream) (v : list string) : ofakestream :=
  match v with
  | [] => o
  | x :: v' => concat_vector_tail (ofs_write (ofs_put o SPACE) x) v'
  end.
Definition concat_vector (o : ofakestream) (vOrigin : list string) : ofakestream :=
  match vOrigin with
  | [] => o
  | x :: v' => concat_vector_tail (ofs_write o x) v'
  end.

Definition is_digit (c : ascii) : bool :=
  (48 <=? byte_of c) && (byte_of c <=? 57).
Definition is_alpha_ (c : ascii) : bool :=
  Ascii.eqb c "_"%char
  || ((97 <=? byte_of c) && (byte_of c <=? 122))
  || ((65 <=? byte_of c) && (byte_of c <=? 90)).

Fixpoint str_forall (f : ascii -> bool) (s : string) : bool :=
  match s with
  | EmptyString => true
  | String a s' => f a && str_forall f s'
  end.

(** [is_var(const std::string &)]. *)
Definition is_var (sVar : string) : bool :=
  match sVar with
  | EmptyString => false
  | String c rest => is_alpha_ c && str_forall (fun c => is_alpha_ c || is_digit c) rest
  end.

(** [is_number(const std::string_view &)]. *)
Definition is_number (sArg : string) : bool :=
  match sArg with
  | EmptyString => false
  | String c rest =>
      if Ascii.eqb c "+"%char || Ascii.eqb c "-"%char then
        if 19 <? str_size sArg then false else str_forall is_digit rest
      else
        if 18 <? str_size sArg then false else str_forall is_digit sArg
  end.

(** Value of a run of decimal digits. *)
Fixpoint digits_value (acc : Z) (s : string) : Z :=
  match s with
  | EmptyString => acc
  | String c rest => digits_value (acc * 10 + (byte_of c - 48)) rest
  end.

(** [std::stoull(s)] in base 10: leading white space is skipped, a sign
    is optional, then come the digits, up to the first byte that is not
    one.  No digit at all throws [std::invalid_argument]; a value above
    [2^64 - 1] throws [std::out_of_range]; a leading minus negates in
    unsigned arithmetic. *)
Definition is_space (c : ascii) : bool :=
  (byte_of c =? 32) || ((9 <=? byte_of c) && (byte_of c <=? 13)).

Fixpoint skip_space (s : string) : string :=
  match s with
  | String c rest => if is_space c then skip_space rest else s
  | EmptyString => s
  end.

Fixpoint leading_digits (s : string) : string :=
  match s with
  | String c rest => if is_digit c then String c (leading_digits rest) else EmptyString
  | EmptyString => EmptyString
  end.

Definition stoull_digits (bNegative : bool) (s : string) : outcome Z :=
  match leading_digits s with
  | EmptyString => Throw (std_invalid_argument "stoull")
  | sDigits =>
      let n := digits_value 0 sDigits in
      if size_t_mod <=? n then Throw (std_out_of_range "stoull")
      else Ok (if bNegative then (- n) mod size_t_mod else n)
  end.

Definition stoull (s : string) : outcome Z :=
  match skip_space s with
  | EmptyString => Throw (std_invalid_argument "stoull")
  | String c rest =>
      if Ascii.eqb c "+"%char then stoull_digits false rest
      else if Ascii.eqb c "-"%char then stoull_digits true rest
      else stoull_digits false (String c rest)
  end.

(** [is_arg(const std::string_view &)]: the empty text passes. *)
Definition is_arg (sArg : string) : bool :=
  if 19 <? str_size sArg then false else str_forall is_digit sArg.

(** [std::int64_t]: the range, and an addition that is undefined when it
    leaves the range. *)
Definition INT64_MIN : Z := - 2 ^ 63.
Definition INT64_MAX : Z := 2 ^ 63 - 1.
Definition in_int64 (n : Z) : bool := (INT64_MIN <=? n) && (n <=? INT64_MAX).
Definition int64_add (a b : Z) : outcome Z :=
  if in_int64 (a + b) then Ok (a + b) else Undefined "signed integer overflow".

(** [std::stoll(s)] in base 10, like [std::stoull] but for the range of
    [long long]. *)
Definition stoll_digits (bNegative : bool) (s : string) : outcome Z :=
  match leading_digits s with
  | EmptyString => Throw (std_invalid_argument "stoll")
  | sDigits =>
      let n := digits_value 0 sDigits in
      let n := if bNegative then - n else n in
      if in_int64 n then Ok n else Throw (std_out_of_range "stoll")
  end.

Definition stoll (s : string) : outcome Z :=
  match skip_space s with
  | EmptyString => Throw (std_invalid_argument "stoll")
  | String c rest =>
      if Ascii.eqb c "+"%char then stoll_digits false rest
      else if Ascii.eqb c "-"%char then stoll_digits true rest
      else stoll_digits false (String c rest)
  end.

(** ** The diagnostic message ([shell_parser_exception.cpp]) *)

Definition errorMessage (nStatus : shell_status) : string :=
  if nStatus =? SHELL_SUCCESS then "Success"
  else if nStatus =? SHELL_ERROR then "Generic error"
  else if nStatus =? SHELL_ERROR_SYNTAX_ERROR then "Syntax error in command"
  else if nStatus =? SHELL_ERROR_SYNTAX_ERROR_UNCLOSED_SIMPLE_QUOTES then "Unclosed simple quotes"
  else if nStatus =? SHELL_ERROR_SYNTAX_ERROR_UNCLOSED_DOUBLE_QUOTES then "Unclosed double quotes"
  else if nStatus =? SHELL_ERROR_SYNTAX_ERROR_UNCLOSED_BACK_QUOTES then "Unclosed back quotes"
  else if nStatus =? SHELL_ERROR_SYNTAX_ERROR_UNCLOSED_PARENTHESES then "Unclosed parentheses"
  else if nStatus =? SHELL_ERROR_SYNTAX_ERROR_UNCLOSED_BRACKETS then "Unclosed brackets"
  else if nStatus =? SHELL_ERROR_SYNTAX_ERROR_UNCLOSED_SQR_BRACKETS then "Unclosed square brackets"
  else if nStatus =? SHELL_ERROR_SYNTAX_ERROR_UNCLOSED_SUBCOMMAND then "Unclosed subcommand"
  else if nStatus =? SHELL_ERROR_SYNTAX_ERROR_UNCLOSED_VARIABLE then "Unclosed variable"
  else if nStatus =? SHELL_ERROR_SYNTAX_ERROR_INVALID_VARIABLE_NAME then "Invalid variable name"
  else if nStatus =? SHELL_ERROR_SYNTAX_ERROR_UNEXPECTED_TOKEN then "Unexpected token"
  else if nStatus =? SHELL_ERROR_SYNTAX_ERROR_UNEXPECTED_EOF then "Unexpected end of file"
  else if nStatus =? SHELL_ERROR_SYNTAX_ERROR_ARG_OUT_OF_RANGE then "Argument out of range"
  else if nStatus =? SHELL_ERROR_SYNTAX_ERROR_EMPTY_BLOCK then "Empty block"
  else if nStatus =? SHELL_ERROR_BAD_ENCODING then "Bad encoding"
  else if nStatus =? SHELL_ERROR_COMMAND_NOT_FOUND then "Command not found"
  else if nStatus =? SHELL_ERROR_SYNTAX_ERROR_UNFINISHED_KEYWORD_IF
    then "Syntax error: 'if' keyword is not finished."
  else if nStatus =? SHELL_ERROR_SYNTAX_ERROR_MISSING_KEYWORD_THEN
    then "Syntax error: 'then' keyword is missing."
  else if nStatus =? SHELL_ERROR_SYNTAX_ERROR_UNFINISHED_KEYWORD_LOOP
    then "Syntax error: 'loop' keyword is not finished."
  else if nStatus =? SHELL_ERROR_SYNTAX_ERROR_UNFINISHED_KEYWORD_FOR
    then "Syntax error: 'for' keyword is not finished."
  else if nStatus =? SHELL_ERROR_SYNTAX_ERROR_MISSING_KEYWORD_IN
    then "Syntax error: 'in' keyword is missing."
  else if nStatus =? SHELL_ERROR_SYNTAX_ERROR_UNFINISHED_KEYWORD_WHILE
    then "Syntax error: 'while' keyword is not finished."
  else if nStatus =? SHELL_ERROR_SYNTAX_ERROR_UNFINISHED_KEYWORD_UNTIL
    then "Syntax error: 'until' keyword is not finished."
  else if nStatus =? SHELL_ERROR_SYNTAX_ERROR_MISSING_KEYWORD_DO
    then "Syntax error: 'do' keyword is missing."
  else if nStatus =? SHELL_ERROR_MAX_DEPTH_REACHED then "Maximum command nesting depth reached"
  else if nStatus =? SHELL_ERROR_SYNTAX_ERROR_INVALID_FUNCTION_NAME then "Invalid function name"
  else if nStatus =? SHELL_ERROR_SYNTAX_ERROR_INVALID_FUNCTION_BODY then "Invalid function body"
  else "Unknown error".

(** [getLineFromPosition]: [start] is one past the newline found by
    [rfind], [end] the newline found by [find]; the length [end - start]
    is computed in [std::size_t]. *)
Definition line_start (sCommand : string) (nPos : Z) : Z :=
  match str_rfind sCommand LF nPos with
  | None => 0
  | Some start => start + 1
  end.

Definition line_end (sCommand : string) (nPos : Z) : Z :=
  match str_find sCommand LF nPos with
  | None => str_size sCommand
  | Some e => e
  end.

Definition getLineFromPosition (sCommand : string) (nPos : Z) : outcome string :=
  if str_size sCommand <=? nPos then Ok EmptyString
  else
    let start := line_start sCommand nPos in
    let end_ := line_end sCommand nPos in
    match substr sCommand start (size_t_sub end_ start) with
    | Some line => Ok line
    | None => Throw (std_out_of_range "basic_string::substr")
    end.

(** Length of the UTF-8 sequence that [cFirstByte] starts, [None] when it
    starts none. *)
Definition utf8_length (cFirstByte : Z) : option Z :=
  if Z.land cFirstByte 128 =? 0 then Some 1
  else if Z.land cFirstByte 224 =? 192 then Some 2
  else if Z.land cFirstByte 240 =? 224 then Some 3
  else if Z.land cFirstByte 248 =? 240 then Some 4
  else None.

(** The [while] loop of [getCodePointAtByte]; every iteration advances
    [nByteIndex], so [str_size sCommand + 1] iterations are enough. *)
Fixpoint getCodePointAtByte_loop (fuel : nat) (sCommand : string) (nPos : Z)
    (nByteIndex nCharIndex : Z) : outcome Z :=
  match fuel with
  | O => OutOfFuel
  | S fuel' =>
      if nByteIndex <? str_size sCommand then
        match str_at sCommand nByteIndex with
        | None => Undefined "read outside the string"
        | Some c =>
            match utf8_length (byte_of c) with
            | None => Ok nPos
            | Some nBytesProcessed =>
                if (nByteIndex <=? nPos) && (nPos <? nByteIndex + nBytesProcessed)
                then Ok nCharIndex
                else getCodePointAtByte_loop fuel' sCommand nPos
                       (nByteIndex + nBytesProcessed) (nCharIndex + 1)
            end
        end
      else Throw (std_out_of_range "Byte index is out of range")
  end.

Definition getCodePointAtByte (sCommand : string) (nPos : Z) : outcome Z :=
  if str_size sCommand <=? nPos then Ok nPos
  else getCodePointAtByte_loop (S (String.length sCommand)) sCommand nPos 0 0.

(** [std::string(nCodePoint, ' ')] is [str_fill]: the source throws
    [std::length_error] when [nCodePoint] is beyond [max_size()], which no
    count of characters before a position of the text is. *)
Definition makeMessage (nStatus : shell_status) (sCommand : string) (nPos : Z)
  : outcome string :=
  sLine ← getLineFromPosition sCommand nPos;
  nCodePoint ← getCodePointAtByte sLine nPos;
  nAbsoluteCodePoint ← getCodePointAtByte sCommand nPos;
  Ok (errorMessage nStatus
      +:+ String LF sLine
      +:+ String LF (str_fill nCodePoint SPACE) +:+ "^~~~"
      +:+ String LF "Code point: " +:+ to_string_unsigned nAbsoluteCodePoint
      +:+ String LF "Byte: " +:+ to_string_unsigned nPos +:+ String LF EmptyString).

(** The constructor of [shell_parser_exception] builds the message first:
    constructing the exception can itself throw. *)
Definition new_parser_exception (nStatus : shell_status) (sCommand : string) (nPos : Z)
  : outcome shell_parser_exception :=
  _ ← makeMessage nStatus sCommand nPos;
  Ok (mk_parser_exception nStatus sCommand nPos).

(** [throw shell_parser_exception{nStatus, sCommand, nPos}]. *)
Definition throw_parser_exception {A : Type} (nStatus : shell_status)
    (sCommand : string) (nPos : Z) : outcome A :=
  e ← new_parser_exception nStatus sCommand nPos;
  Throw (parser_exception e).

(** [oException.what()]. *)
Definition what (e : shell_parser_exception) : outcome string :=
  makeMessage (m_nStatus e) (m_sCommand e) (m_nPos e).

(** What the specification asks of the caret line: the code-point column
    of byte [nPos] inside its own line, that is the number of characters
    that start in the bytes from the line start up to [nPos]. *)
Definition is_char_start (c : ascii) : bool :=
  negb (Z.land (byte_of c) 192 =? 128).

Fixpoint count_char_starts (s : string) : Z :=
  match s with
  | EmptyString => 0
  | String c s' => (if is_char_start c then 1 else 0) + count_char_starts s'
  end.

Definition column_in_line (sCommand : string) (nPos : Z) : Z :=
  let start := line_start sCommand nPos in
  count_char_starts (str_take (str_drop sCommand start) (nPos - start)).

(** The message with the caret under column [column_in_line]. *)
Definition expected_message (nStatus : shell_status) (sCommand : string) (nPos : Z)
    (sLine : string) (nAbsoluteCodePoint : Z) : string :=
  errorMessage nStatus
  +:+ String LF sLine
  +:+ String LF (str_fill (column_in_line sCommand nPos) SPACE) +:+ "^~~~"
  +:+ String LF "Code point: " +:+ to_string_unsigned nAbsoluteCodePoint
  +:+ String LF "Byte: " +:+ to_string_unsigned nPos +:+ String LF EmptyString.

(** ** The session and its store ([shell_session.h])

    The objects a session reaches through [std::shared_ptr] or through a
    stream reference live in a store and are named by their address; two
    sessions share an object exactly when they hold the same address.
    [shell_env] and [shell_var] are maps from names to values, [shell_arg]
    a vector of strings, [shell_vtable] a map from names to
    function-definition bodies ([shell_env.h], [shell_var.h],
    [shell_arg.h], [shell_vtable.h]).

    The source keeps in the table the raw pointer [m_pBody.get()] to the
    body inside the tree under evaluation, and a tree parsed by
    [shell::run] or by [eval] is owned by a local [std::unique_ptr] of
    that call: it is freed when the call returns.  The store therefore
    records the trees that are alive ([st_trees]) and the tree the node
    under evaluation is part of ([st_tree]); a function pointer is the
    body together with the tree it is a node of, and it dangles once that
    tree is gone.

    [std::cout] is one of the output streams, at the address [std_cout];
    a session may hold it as its output or error stream. *)

Definition loc := nat.
Definition tree := nat.

(** [const shell_node_evaluable *] into a parsed tree. *)
Definition function_pointer : Type := tree * evaluable.

Record store := mk_store {
  st_env : gmap loc (gmap string string);
  st_arg : gmap loc (list string);
  st_var : gmap loc (gmap string string);
  st_vtable : gmap loc (gmap string function_pointer);
  st_istream : gmap loc string;
  st_ostream : gmap loc string;
  st_trees : gset tree;
  st_tree : tree
}.

(** [m_pVtable] is an [option]: the public constructor that takes an
    environment and arguments leaves it null. *)
Record shell_session := mk_session {
  m_pEnv : loc;
  m_pArg : loc;
  m_pVar : loc;
  m_pVtable : option loc;
  m_nLastCommandResult : shell_status;
  m_oStdIn : loc;
  m_oStdOut : loc;
  m_oStdErr : loc;
  m_nCurrentDepth : Z
}.

(** [std::make_shared<T>(v)]: a new object at an address no live object
    of that kind has. *)
Definition alloc {V : Type} (m : gmap loc V) (v : V) : loc * gmap loc V :=
  let l := fresh (dom m) in (l, <[l := v]> m).

Definition set_st_env (σ : store) (m : gmap loc (gmap string string)) : store :=
  mk_store m (st_arg σ) (st_var σ) (st_vtable σ) (st_istream σ) (st_ostream σ)
    (st_trees σ) (st_tree σ).
Definition set_st_arg (σ : store) (m : gmap loc (list string)) : store :=
  mk_store (st_env σ) m (st_var σ) (st_vtable σ) (st_istream σ) (st_ostream σ)
    (st_trees σ) (st_tree σ).
Definition set_st_var (σ : store) (m : gmap loc (gmap string string)) : store :=
  mk_store (st_env σ) (st_arg σ) m (st_vtable σ) (st_istream σ) (st_ostream σ)
    (st_trees σ) (st_tree σ).
Definition set_st_vtable (σ : store) (m : gmap loc (gmap string function_pointer)) : store :=
  mk_store (st_env σ) (st_arg σ) (st_var σ) m (st_istream σ) (st_ostream σ)
    (st_trees σ) (st_tree σ).
Definition set_st_istream (σ : store) (m : gmap loc string) : store :=
  mk_store (st_env σ) (st_arg σ) (st_var σ) (st_vtable σ) m (st_ostream σ)
    (st_trees σ) (st_tree σ).
Definition set_st_ostream (σ : store) (m : gmap loc string) : store :=
  mk_store (st_env σ) (st_arg σ) (st_var σ) (st_vtable σ) (st_istream σ) m
    (st_trees σ) (st_tree σ).
Definition set_st_trees (σ : store) (ts : gset tree) : store :=
  mk_store (st_env σ) (st_arg σ) (st_var σ) (st_vtable σ) (st_istream σ) (st_ostream σ)
    ts (st_tree σ).
Definition set_st_tree (σ : store) (t : tree) : store :=
  mk_store (st_env σ) (st_arg σ) (st_var σ) (st_vtable σ) (st_istream σ) (st_ostream σ)
    (st_trees σ) t.

Definition empty_store : store := mk_store ∅ ∅ ∅ ∅ ∅ ∅ ∅ 0%nat.

(** [os << text] on the stream at [l]; [std::cout << text]. *)
Definition ostream_write (l : loc) (text : string) (σ : store) : store :=
  set_st_ostream σ (<[l := default EmptyString (st_ostream σ !! l) +:+ text]> (st_ostream σ)).
Definition ostream_str (l : loc) (σ : store) : string :=
  default EmptyString (st_ostream σ !! l).
Definition std_cout : loc := 0%nat.
Definition cout_write (text : string) (σ : store) : store :=
  ostream_write std_cout text σ.
Definition endl : string := String LF EmptyString.

(** A local [std::ostringstream], which is never [std::cout], and a local
    [std::istringstream(text)]. *)
Definition new_ostringstream (σ : store) : loc * store :=
  let l := fresh ({[std_cout]} ∪ dom (st_ostream σ)) in
  (l, set_st_ostream σ (<[l := EmptyString]> (st_ostream σ))).
Definition new_istringstream (text : string) (σ : store) : loc * store :=
  let '(l, m) := alloc (st_istream σ) text in (l, set_st_istream σ m).

Module Session.

(** The objects behind the pointers of a session. *)
Definition env_of (s : shell_session) (σ : store) : gmap string string :=
  default ∅ (st_env σ !! m_pEnv s).
Definition var_of (s : shell_session) (σ : store) : gmap string string :=
  default ∅ (st_var σ !! m_pVar s).
Definition arg_of (s : shell_session) (σ : store) : list string :=
  default [] (st_arg σ !! m_pArg s).
Definition vtable_of (s : shell_session) (σ : store)
  : option (gmap string function_pointer) :=
  match m_pVtable s with
  | None => None
  | Some l => Some (default ∅ (st_vtable σ !! l))
  end.

(** The constructor [shell_session(pShell, oStdIn, oStdOut, oStdErr)]. *)
Definition new_session (oStdIn oStdOut oStdErr : loc) (σ : store)
  : shell_session * store :=
  let '(pEnv, envs) := alloc (st_env σ) ∅ in
  let '(pArg, args) := alloc (st_arg σ) [] in
  let '(pVar, vars) := alloc (st_var σ) ∅ in
  let '(pVtable, vtables) := alloc (st_vtable σ) ∅ in
  (mk_session pEnv pArg pVar (Some pVtable) SHELL_SUCCESS oStdIn oStdOut oStdErr 0,
   set_st_vtable (set_st_var (set_st_arg (set_st_env σ envs) args) vars) vtables).

(** The constructor that also takes [oEnv] and [oArg]; it has no
    initializer for [m_pVtable]. *)
Definition new_session_env_arg (oStdIn oStdOut oStdErr : loc)
    (oEnv : gmap string string) (oArg : list string) (σ : store)
  : shell_session * store :=
  let '(pEnv, envs) := alloc (st_env σ) oEnv in
  let '(pArg, args) := alloc (st_arg σ) oArg in
  let '(pVar, vars) := alloc (st_var σ) ∅ in
  (mk_session pEnv pArg pVar None SHELL_SUCCESS oStdIn oStdOut oStdErr 0,
   set_st_var (set_st_arg (set_st_env σ envs) args) vars).

(** Environment ([shell_env::has_env], [get_env], [set_env]). *)
Definition has_env (s : shell_session) (σ : store) (sVariable : string) : bool :=
  bool_decide (is_Some (env_of s σ !! sVariable)).
Definition get_env (s : shell_session) (σ : store) (sVariable : string) : string :=
  default EmptyString (env_of s σ !! sVariable).
Definition set_env (s : shell_session) (sVariable sValue : string) (σ : store) : store :=
  set_st_env σ (<[m_pEnv s := <[sVariable := sValue]> (env_of s σ)]> (st_env σ)).

(** Local variables ([shell_var::has_var], [get_var], [set_var]). *)
Definition has_var (s : shell_session) (σ : store) (sVariable : string) : bool :=
  bool_decide (is_Some (var_of s σ !! sVariable)).
Definition get_var (s : shell_session) (σ : store) (sVariable : string) : string :=
  default EmptyString (var_of s σ !! sVariable).
Definition set_var (s : shell_session) (sVariable sValue : string) (σ : store) : store :=
  set_st_var σ (<[m_pVar s := <[sVariable := sValue]> (var_of s σ)]> (st_var σ)).

(** Arguments ([shell_arg::get_arg], [get_arg_size], [get_args]). *)
Definition get_args (s : shell_session) (σ : store) : list string := arg_of s σ.
Definition get_arg_size (s : shell_session) (σ : store) : Z :=
  Z.of_nat (List.length (arg_of s σ)).
Definition get_arg (s : shell_session) (σ : store) (nArg : Z) : string :=
  if (0 <=? nArg) && (nArg <? get_arg_size s σ)
  then default EmptyString (arg_of s σ !! Z.to_nat nArg)
  else EmptyString.

(** Function table ([shell_vtable::get_func], [set_func], [has_func]);
    a null [m_pVtable] is dereferenced.  [get_func] returns the pointer
    the table holds, [None] for [nullptr]. *)
Definition get_func (s : shell_session) (σ : store) (sVar : string)
  : outcome (option function_pointer) :=
  match vtable_of s σ with
  | None => Undefined "null m_pVtable"
  | Some t => Ok (t !! sVar)
  end.
Definition set_func (s : shell_session) (sName : string) (pFunction : function_pointer)
    (σ : store) : outcome store :=
  match m_pVtable s with
  | None => Undefined "null m_pVtable"
  | Some l =>
      Ok (set_st_vtable σ
            (<[l := <[sName := pFunction]> (default ∅ (st_vtable σ !! l))]> (st_vtable σ)))
  end.
Definition has_func (s : shell_session) (σ : store) (sName : string) : outcome bool :=
  match vtable_of s σ with
  | None => Undefined "null m_pVtable"
  | Some t => Ok (bool_decide (is_Some (t !! sName)))
  end.

(** Status. *)
Definition get_last_command_result (s : shell_session) : shell_status :=
  m_nLastCommandResult s.
Definition set_last_command_result (s : shell_session) (n : shell_status) : shell_session :=
  mk_session (m_pEnv s) (m_pArg s) (m_pVar s) (m_pVtable s) n
    (m_oStdIn s) (m_oStdOut s) (m_oStdErr s) (m_nCurrentDepth s).

(** The protected constructor used by the derivations: the status starts
    at [SHELL_SUCCESS] and the depth at [0]. *)
Definition derived (oStdIn oStdOut oStdErr : loc) (pEnv pArg pVar : loc)
    (pVtable : option loc) : shell_session :=
  mk_session pEnv pArg pVar pVtable SHELL_SUCCESS oStdIn oStdOut oStdErr 0.

(** [make_subsession]: copies of [*m_pEnv], [*m_pVar] and [*m_pVtable],
    the same [m_pArg]. *)
Definition make_subsession (s : shell_session) (oStdIn oStdOut oStdErr : loc)
    (σ : store) : outcome (shell_session * store) :=
  let '(pEnv, envs) := alloc (st_env σ) (env_of s σ) in
  let '(pVar, vars) := alloc (st_var σ) (var_of s σ) in
  match vtable_of s σ with
  | None => Undefined "null m_pVtable"
  | Some t =>
      let '(pVtable, vtables) := alloc (st_vtable σ) t in
      Ok (derived oStdIn oStdOut oStdErr pEnv (m_pArg s) pVar (Some pVtable),
          set_st_vtable (set_st_var (set_st_env σ envs) vars) vtables)
  end.

(** [make_function_call]: prints ["fcall " << m_pArg->get_arg(1)] on
    [std::cout], then shares [m_pEnv] and [m_pVtable], with new arguments
    and new, empty locals. *)
Definition make_function_call (s : shell_session) (oArg : list string) (σ : store)
  : shell_session * store :=
  let σ := cout_write ("fcall " +:+ get_arg s σ 1 +:+ endl) σ in
  let '(pArg, args) := alloc (st_arg σ) oArg in
  let '(pVar, vars) := alloc (st_var σ) ∅ in
  (derived (m_oStdIn s) (m_oStdOut s) (m_oStdErr s) (m_pEnv s) pArg pVar (m_pVtable s),
   set_st_var (set_st_arg σ args) vars).

(** [make_pipe_left] and [make_pipe_right]. *)
Definition make_pipe_left (s : shell_session) (oStdOut : loc) : shell_session :=
  derived (m_oStdIn s) oStdOut (m_oStdErr s) (m_pEnv s) (m_pArg s) (m_pVar s) (m_pVtable s).
Definition make_pipe_right (s : shell_session) (oStdIn : loc) : shell_session :=
  derived oStdIn (m_oStdOut s) (m_oStdErr s) (m_pEnv s) (m_pArg s) (m_pVar s) (m_pVtable s).

(** The evaluation-time depth counter. *)
Definition set_depth (s : shell_session) (d : Z) : shell_session :=
  mk_session (m_pEnv s) (m_pArg s) (m_pVar s) (m_pVtable s) (m_nLastCommandResult s)
    (m_oStdIn s) (m_oStdOut s) (m_oStdErr s) d.

Definition get_current_shell_depth (s : shell_session) : Z := m_nCurrentDepth s.

Definition decrease_shell_depth (s : shell_session) : shell_session :=
  if 0 <? m_nCurrentDepth s then set_depth s (m_nCurrentDepth s - 1) else s.

Definition increase_shell_depth (s : shell_session) : bool * shell_session :=
  if size_t_add (m_nCurrentDepth s) 1 <=? SHELL_MAX_DEPTH
  then (true, set_depth s (size_t_add (m_nCurrentDepth s) 1))
  else (false, s).

(** A session is well formed in a store when its pointers name live
    objects and the function table is not null. *)
Definition wf (s : shell_session) (σ : store) : Prop :=
  is_Some (st_env σ !! m_pEnv s) ∧ is_Some (st_arg σ !! m_pArg s)
  ∧ is_Some (st_var σ !! m_pVar s)
  ∧ ∃ l, m_pVtable s = Some l ∧ is_Some (st_vtable σ !! l).

End Session.

(** ** Input cursor and tokens ([fakestream.h], [shell_tokenizer.h]) *)

(** [ifakestream]: the text and the read position; [m_nSize] is the
    length of the text. *)
Record ifakestream := mk_ifakestream {
  fs_pData : string;
  fs_nPos : Z
}.

Inductive shell_token_type :=
| TK_SPACE | TK_WORD | TK_UNICODE | TK_ESCAPED | TK_QUOTE_SIMPLE
| TK_QUOTE_DOUBLE | TK_QUOTE_BACK | TK_DOLLAR | TK_DOLLAR_SPECIAL
| TK_EXCLAMATION | TK_CMD_SEPARATOR | TK_OPEN_PARENTHESIS
| TK_CLOSE_PARENTHESIS | TK_OPEN_BRACKETS | TK_CLOSE_BRACKETS
| TK_OPEN_SQR_BRACKETS | TK_CLOSE_SQR_BRACKETS | TK_PIPE | TK_OR
| TK_BACKGROUND | TK_AND | TK_OPERATOR | TK_EOF.

#[global] Instance shell_token_type_eq_dec : EqDecision shell_token_type.
Proof. solve_decision. Defined.

(** A [std::string_view] into the source text: where it starts and how
    many bytes it spans. *)
Record string_view := mk_view {
  sv_data : Z;
  sv_length : Z
}.

Record shell_token := mk_token {
  m_nType : shell_token_type;
  tk_nPos : Z;
  m_sTokenText : string_view
}.

(** The bytes a view spans in [sText]. *)
Definition view_text (sText : string) (v : string_view) : string :=
  str_take (str_drop sText (sv_data v)) (sv_length v).

(** [enum class shell_keyword] is a set of flags ([shell_keyword.h]). *)
Definition shell_keyword := Z.
Definition SK_NONE : shell_keyword := 0.
Definition SK_FUNCTION : shell_keyword := 1.
Definition SK_IF : shell_keyword := 2.
Definition SK_THEN : shell_keyword := 4.
Definition SK_ELSE : shell_keyword := 8.
Definition SK_ELIF : shell_keyword := 16.
Definition SK_FI : shell_keyword := 32.
Definition SK_FOR : shell_keyword := 64.
Definition SK_IN : shell_keyword := 128.
Definition SK_WHILE : shell_keyword := 256.
Definition SK_UNTIL : shell_keyword := 512.
Definition SK_DO : shell_keyword := 1024.
Definition SK_DONE : shell_keyword := 2048.
Definition SK_CONTINUE : shell_keyword := 4096.
Definition SK_BREAK : shell_keyword := 8192.
Definition SK_IF_DELIMITER : shell_keyword := Z.lor SK_ELSE (Z.lor SK_ELIF SK_FI).

(** [has(nItem, nSet)] on keywords. *)
Definition has_keyword (nItem nSet : shell_keyword) : bool :=
  negb (Z.land nItem nSet =? 0).

(** [parse_mode] is a set of flags. *)
Definition parse_mode := Z.
Definition PM_NORMAL : parse_mode := 0.
Definition PM_BACKQUOTE : parse_mode := 1.
Definition PM_LOOP : parse_mode := 2.
Definition PM_FUNCTION_NAME : parse_mode := 4.
Definition has_mode (nItem nSet : parse_mode) : bool :=
  negb (Z.land nItem nSet =? 0).

(** [token_holder]: the tokens and the index of the current one, an
    [std::intptr_t] that starts at [-1]. *)
Record token_holder := mk_holder {
  m_vTokens : list shell_token;
  th_nPos : Z
}.

(** The parser object: the input, the token cursor and the depth
    counter. *)
Record shell_parser := mk_parser {
  m_oIstream : ifakestream;
  m_oTokens : token_holder;
  m_nDepth : Z
}.

(** A parsing step: it changes the parser and returns or throws. *)
Definition P (A : Type) : Type := shell_parser -> outcome A * shell_parser.

(** Running code against a session: the session object and the store
    change, and the code returns, throws, or goes wrong. *)
Definition M (A : Type) : Type :=
  shell_session -> store -> outcome A * shell_session * store.

(** The parts that the development takes as given: the [test] command
    ([command_test.cpp]) and the process identifier of the host, which
    [get_pid] of [shell_tools.h] asks the platform for. *)
Class Collaborators := {
  command_test_run : list string -> M shell_status;
  get_pid : Z
}.

Module Fakestream.

Definition EOF_VALUE : Z := -1.

(** The value of a [char] converted to [int]; [char] is signed. *)
Definition char_value (a : ascii) : Z :=
  if byte_of a <? 128 then byte_of a else byte_of a - 256.

Definition size (o : ifakestream) : Z := str_size (fs_pData o).
Definition tell (o : ifakestream) : Z := fs_nPos o.
Definition str (o : ifakestream) : string := fs_pData o.

Definition peek (o : ifakestream) : Z :=
  if fs_nPos o <? size o then
    match str_at (fs_pData o) (fs_nPos o) with
    | Some a => char_value a
    | None => EOF_VALUE
    end
  else EOF_VALUE.

(** [get] advances the position even at the end of the text. *)
Definition get (o : ifakestream) : Z * ifakestream :=
  (peek o, mk_ifakestream (fs_pData o) (size_t_add (fs_nPos o) 1)).

Definition put_back (o : ifakestream) : ifakestream :=
  if 0 <? fs_nPos o then mk_ifakestream (fs_pData o) (fs_nPos o - 1) else o.

Definition sub_view (o : ifakestream) (nBegin nLength : Z) : string_view :=
  let nLength :=
    if size o <? size_t_add nBegin nLength
    then size_t_sub (size_t_add nBegin nLength) (size o)
    else nLength in
  mk_view nBegin nLength.

(** [read(pBuffer, nCount)]: [nRead] bytes are copied from the current
    position, where [nRead] is the request or, when the request passes the
    end of the text, the number of bytes by which it passes it; the result
    is the bytes copied.  Copying bytes that are not in the text is
    undefined. *)
Definition read (o : ifakestream) (nCount : Z) : outcome (string * ifakestream) :=
  let nRead :=
    if size o <? size_t_add (fs_nPos o) nCount
    then size_t_sub (size_t_add nCount (fs_nPos o)) (size o)
    else nCount in
  if fs_nPos o + nRead <=? size o then
    Ok (str_take (str_drop (fs_pData o) (fs_nPos o)) nRead,
        mk_ifakestream (fs_pData o) (size_t_add (fs_nPos o) nRead))
  else Undefined "memcpy from outside the text".

End Fakestream.

(** ** Escapes in hexadecimal ([utf.h]) *)

Module Utf.

Definition is_hex (c : ascii) : bool :=
  is_digit c
  || ((65 <=? byte_of c) && (byte_of c <=? 70))
  || ((97 <=? byte_of c) && (byte_of c <=? 102)).

Definition hex_digit (c : ascii) : Z :=
  if is_digit c then byte_of c - 48
  else if byte_of c <=? 70 then byte_of c - 55
  else byte_of c - 87.

Fixpoint hex_value (acc : Z) (s : string) : Z :=
  match s with
  | EmptyString => acc
  | String c rest => hex_value (acc * 16 + hex_digit c) rest
  end.

(** [std::regex_match(sValue, "^[0-9A-Fa-f]+$")]. *)
Definition regex_match_hex (sValue : string) : bool :=
  negb (ofs_empty sValue) && str_forall is_hex sValue.

(** The buffer [sValue] once [sRead] has been copied to its start. *)
Definition copy_into (sValue sRead : string) : string :=
  sRead +:+ str_drop sValue (str_size sRead).

(** [static_cast<char32_t>(std::stoull(sValue, nullptr, 16))] on a text
    that the regular expression accepted. *)
Definition to_char32_t (sValue : string) : Z := hex_value 0 sValue mod 2 ^ 32.

Definition combine_surrogates (high low : Z) : Z :=
  (Z.lor (Z.shiftl (high - 55296) 10) (low - 56320) + 65536) mod 2 ^ 32.

(** [parse_utf(oIstream, nCount, cResult)]: [Some cResult] when it returns
    [true], [None] when it returns [false]. *)
Definition parse_utf (oIstream : ifakestream) (nCount : Z)
  : outcome (option Z * ifakestream) :=
  let sValue := str_fill (nCount * 2) (ascii_of_nat 0) in
  '(sRead, oIstream) ← Fakestream.read oIstream (nCount * 2);
  let sValue := copy_into sValue sRead in
  if negb (regex_match_hex sValue) then Ok (None, oIstream)
  else
    let cChar := to_char32_t sValue in
    if nCount =? 1 then
      if 127 <? cChar then Ok (None, oIstream) else Ok (Some cChar, oIstream)
    else if nCount =? 2 then
      if (55296 <=? cChar) && (cChar <=? 56319) then
        let '(c1, oIstream) := Fakestream.get oIstream in
        if negb (c1 =? 92) then Ok (None, oIstream)
        else
          let '(c2, oIstream) := Fakestream.get oIstream in
          if negb (c2 =? 117) then Ok (None, oIstream)
          else
            '(sRead, oIstream) ← Fakestream.read oIstream (nCount * 2);
            let sValue := copy_into sValue sRead in
            if negb (regex_match_hex sValue) then Ok (None, oIstream)
            else
              let cLow := to_char32_t sValue in
              if (cLow <? 56320) || (57343 <? cLow) then Ok (None, oIstream)
              else Ok (Some (combine_surrogates cChar cLow), oIstream)
      else if 56320 <=? cChar then Ok (None, oIstream)
      else Ok (Some cChar, oIstream)
    else if nCount =? 4 then
      if ((55296 <=? cChar) && (cChar <=? 57343)) || (1114111 <? cChar)
      then Ok (None, oIstream)
      else Ok (Some cChar, oIstream)
    else Ok (Some cChar, oIstream).

End Utf.

(** ** The tokenizer ([shell_tokenizer.cpp]) *)

Module Tokenizer.

Definition ch (a : ascii) : Z := Fakestream.char_value a.

Definition get_token_type (cChar : Z) : shell_token_type :=
  if cChar =? ch "$" then TK_DOLLAR
  else if cChar =? ch "(" then TK_OPEN_PARENTHESIS
  else if cChar =? ch ")" then TK_CLOSE_PARENTHESIS
  else if cChar =? ch "{" then TK_OPEN_BRACKETS
  else if cChar =? ch "}" then TK_CLOSE_BRACKETS
  else if cChar =? ch "[" then TK_OPEN_SQR_BRACKETS
  else if cChar =? ch "]" then TK_CLOSE_SQR_BRACKETS
  else if cChar =? ch "'" then TK_QUOTE_SIMPLE
  else if cChar =? 34 then TK_QUOTE_DOUBLE
  else if cChar =? ch "`" then TK_QUOTE_BACK
  else if cChar =? ch "\" then TK_ESCAPED
  else if (cChar =? ch " ") || (cChar =? 9) then TK_SPACE
  else if (cChar =? 10) || (cChar =? ch ";") then TK_CMD_SEPARATOR
  else if cChar =? ch "|" then TK_PIPE
  else if cChar =? ch "&" then TK_BACKGROUND
  else TK_WORD.

Definition get_token_type_quote_complex (cChar : Z) : shell_token_type :=
  if cChar =? ch "$" then TK_DOLLAR
  else if cChar =? 34 then TK_QUOTE_DOUBLE
  else if cChar =? ch "`" then TK_QUOTE_BACK
  else if cChar =? ch "\" then TK_ESCAPED
  else TK_WORD.

Definition vsize (vTokens : list shell_token) : Z := Z.of_nat (List.length vTokens).

(** [vTokens.back().m_sTokenText] grows by [n] bytes. *)
Definition extend_back (vTokens : list shell_token) (n : Z) : list shell_token :=
  match reverse vTokens with
  | [] => vTokens
  | t :: front =>
      reverse front ++
      [mk_token (m_nType t) (tk_nPos t)
         (mk_view (sv_data (m_sTokenText t)) (size_t_add (sv_length (m_sTokenText t)) n))]
  end.

Definition back_is (vTokens : list shell_token) (t : shell_token_type) : bool :=
  match last vTokens with
  | Some tok => bool_decide (m_nType tok = t)
  | None => false
  end.

Definition emplace_back (vTokens : list shell_token) (t : shell_token_type)
    (nPos : Z) (v : string_view) : list shell_token :=
  vTokens ++ [mk_token t nPos v].

Definition pop_back (vTokens : list shell_token) : list shell_token :=
  removelast vTokens.

Definition add_word (vTokens : list shell_token) (oStdIn : ifakestream) (nBegin : Z)
  : list shell_token :=
  let nPos := size_t_sub (Fakestream.tell oStdIn) 1 in
  if (nBegin <? vsize vTokens) && back_is vTokens TK_WORD
  then extend_back vTokens 1
  else emplace_back vTokens TK_WORD nPos (Fakestream.sub_view oStdIn nPos 1).

Definition add_space (vTokens : list shell_token) (oStdIn : ifakestream)
  : list shell_token :=
  let nPos := size_t_sub (Fakestream.tell oStdIn) 1 in
  if negb (back_is vTokens TK_SPACE)
  then emplace_back vTokens TK_SPACE nPos (Fakestream.sub_view oStdIn nPos 1)
  else extend_back vTokens 1.

Definition add_space_s2 (vTokens : list shell_token) (oStdIn : ifakestream)
  : list shell_token :=
  let nPos := size_t_sub (Fakestream.tell oStdIn) 1 in
  if negb (back_is vTokens TK_SPACE)
  then emplace_back vTokens TK_SPACE nPos (Fakestream.sub_view oStdIn nPos 2)
  else extend_back vTokens 2.

(** The status thrown when the text ends before [cDelimiter]. *)
Definition unclosed_status (cDelimiter : Z) : shell_status :=
  let nStatus := SHELL_ERROR_SYNTAX_ERROR in
  let nStatus := if cDelimiter =? ch ")"
                 then SHELL_ERROR_SYNTAX_ERROR_UNCLOSED_PARENTHESES else nStatus in
  let nStatus := if cDelimiter =? ch "]"
                 then SHELL_ERROR_SYNTAX_ERROR_UNCLOSED_SQR_BRACKETS else nStatus in
  let nStatus := if cDelimiter =? ch "}"
                 then SHELL_ERROR_SYNTAX_ERROR_UNCLOSED_BRACKETS else nStatus in
  let nStatus := if cDelimiter =? ch "`"
                 then SHELL_ERROR_SYNTAX_ERROR_UNCLOSED_BACK_QUOTES else nStatus in
  nStatus.

(** The characters of a name: [_], a letter, and after the first one a
    digit. *)
Definition is_name_start (cChar : Z) : bool :=
  (cChar =? ch "_")
  || ((ch "A" <=? cChar) && (cChar <=? ch "Z"))
  || ((ch "a" <=? cChar) && (cChar <=? ch "z")).

Definition is_name_char (cChar : Z) : bool :=
  is_name_start cChar || ((ch "0" <=? cChar) && (cChar <=? ch "9")).

Definition is_digit_char (cChar : Z) : bool :=
  (ch "0" <=? cChar) && (cChar <=? ch "9").

(** [while (test(cChar)) cChar = oStdIn.get();]: the character the loop
    stops at and the stream after it.  The end of the text stops every
    such loop of the tokenizer, so [get_while_fuel] iterations are
    enough. *)
Fixpoint get_while (fuel : nat) (test : Z -> bool) (cChar : Z) (oStdIn : ifakestream)
  : outcome (Z * ifakestream) :=
  match fuel with
  | O => OutOfFuel
  | S fuel' =>
      if test cChar then
        let '(cChar, oStdIn) := Fakestream.get oStdIn in
        get_while fuel' test cChar oStdIn
      else Ok (cChar, oStdIn)
  end.

Definition get_while_fuel (oStdIn : ifakestream) : nat :=
  S (S (String.length (fs_pData oStdIn))).

(** The characters that a backslash escapes into one [TK_ESCAPED]
    token. *)
Definition is_escaped (cChar : Z) : bool :=
  (cChar =? ch " ") || (cChar =? ch "n") || (cChar =? ch "t") || (cChar =? ch "\")
  || (cChar =? ch "'") || (cChar =? 34) || (cChar =? ch "`") || (cChar =? ch "$")
  || (cChar =? ch "|") || (cChar =? ch "&") || (cChar =? ch "(") || (cChar =? ch ")")
  || (cChar =? ch "[") || (cChar =? ch "]") || (cChar =? ch "{") || (cChar =? ch "}").

(** [tokens_backslash]. *)
Definition tokens_backslash (vTokens : list shell_token) (oStdIn : ifakestream)
  : outcome (list shell_token * ifakestream) :=
  let nPos := size_t_sub (Fakestream.tell oStdIn) 1 in
  let '(cChar, oStdIn) := Fakestream.get oStdIn in
  let unicode (nCount : Z) (nLength : Z -> Z) :=
    '(cChar32, oStdIn) ← Utf.parse_utf oStdIn nCount;
    match cChar32 with
    | Some cChar32 =>
        Ok (emplace_back vTokens TK_UNICODE nPos
              (Fakestream.sub_view oStdIn nPos (nLength cChar32)), oStdIn)
    | None =>
        throw_parser_exception SHELL_ERROR_BAD_ENCODING (Fakestream.str oStdIn) nPos
    end in
  if is_escaped cChar then
    Ok (emplace_back vTokens TK_ESCAPED nPos (Fakestream.sub_view oStdIn nPos 2), oStdIn)
  else if cChar =? 10 then Ok (add_space_s2 vTokens oStdIn, oStdIn)
  else if cChar =? ch "x" then unicode 1 (fun _ => 2 + 2)
  else if cChar =? ch "u" then
    unicode 2 (fun cChar32 =>
      if (65535 <? cChar32) && (cChar32 <=? 1114111) then 2 + 4 + 2 + 4 else 2 + 4)
  else if cChar =? ch "U" then unicode 4 (fun _ => 2 + 8)
  else Ok (vTokens, oStdIn).

(** [tokens_quote_simple]: the loop, then the function from its first
    statement. *)
Fixpoint tokens_quote_simple_loop (fuel : nat) (vTokens : list shell_token)
    (oStdIn : ifakestream) (nQuotePos nBegin : Z) (cChar : Z)
  : outcome (list shell_token * ifakestream) :=
  match fuel with
  | O => OutOfFuel
  | S fuel' =>
      if negb (cChar =? ch "'") && negb (cChar =? Fakestream.EOF_VALUE) then
        '(vTokens, oStdIn) ←
          (if cChar =? ch "\" then tokens_backslash vTokens oStdIn
           else Ok (add_word vTokens oStdIn nBegin, oStdIn));
        let '(cChar, oStdIn) := Fakestream.get oStdIn in
        tokens_quote_simple_loop fuel' vTokens oStdIn nQuotePos nBegin cChar
      else if cChar =? Fakestream.EOF_VALUE then
        throw_parser_exception SHELL_ERROR_SYNTAX_ERROR_UNCLOSED_SIMPLE_QUOTES
          (Fakestream.str oStdIn) nQuotePos
      else
        let nQuotePos := size_t_sub (Fakestream.tell oStdIn) 1 in
        Ok (emplace_back vTokens TK_QUOTE_SIMPLE nQuotePos
              (Fakestream.sub_view oStdIn nQuotePos 1), oStdIn)
  end.

Definition tokens_quote_simple (fuel : nat) (vTokens : list shell_token)
    (oStdIn : ifakestream) : outcome (list shell_token * ifakestream) :=
  let nQuotePos := size_t_sub (Fakestream.tell oStdIn) 1 in
  let nBegin := vsize vTokens in
  let '(cChar, oStdIn) := Fakestream.get oStdIn in
  let vTokens :=
    emplace_back vTokens TK_QUOTE_SIMPLE nQuotePos (Fakestream.sub_view oStdIn nQuotePos 1) in
  tokens_quote_simple_loop fuel vTokens oStdIn nQuotePos nBegin cChar.

(** [tokens_dollar_variable]: the text after [${]. *)
Definition tokens_dollar_variable (vTokens : list shell_token) (oStdIn : ifakestream)
  : outcome (list shell_token * ifakestream) :=
  let nBracketPos := size_t_sub (Fakestream.tell oStdIn) 1 in
  let vTokens :=
    emplace_back vTokens TK_OPEN_BRACKETS nBracketPos
      (Fakestream.sub_view oStdIn nBracketPos 1) in
  let '(cChar, oStdIn) := Fakestream.get oStdIn in
  let nVariableStartPos := size_t_sub (Fakestream.tell oStdIn) 1 in
  let '(vTokens, cChar, oStdIn, nVariableStartPos) :=
    if cChar =? ch "!" then
      let nPos := Fakestream.tell oStdIn in
      let vTokens :=
        emplace_back vTokens TK_EXCLAMATION nPos (Fakestream.sub_view oStdIn nPos 1) in
      let '(cChar, oStdIn) := Fakestream.get oStdIn in
      (vTokens, cChar, oStdIn, size_t_sub (Fakestream.tell oStdIn) 1)
    else (vTokens, cChar, oStdIn, nVariableStartPos) in
  '(cChar, oStdIn) ←
    (if (ch "1" <=? cChar) && (cChar <=? ch "9") then
       let '(cChar, oStdIn) := Fakestream.get oStdIn in
       get_while (get_while_fuel oStdIn) is_digit_char cChar oStdIn
     else if is_name_start cChar then
       let '(cChar, oStdIn) := Fakestream.get oStdIn in
       get_while (get_while_fuel oStdIn) is_name_char cChar oStdIn
     else
       throw_parser_exception SHELL_ERROR_SYNTAX_ERROR_INVALID_VARIABLE_NAME
         (Fakestream.str oStdIn) nBracketPos);
  if negb (cChar =? ch "}") then
    throw_parser_exception SHELL_ERROR_SYNTAX_ERROR_UNCLOSED_VARIABLE
      (Fakestream.str oStdIn) nBracketPos
  else
    let nPos := size_t_sub (Fakestream.tell oStdIn) 1 in
    let vTokens :=
      emplace_back vTokens TK_WORD nVariableStartPos
        (Fakestream.sub_view oStdIn nVariableStartPos (size_t_sub nPos nVariableStartPos)) in
    Ok (emplace_back vTokens TK_CLOSE_BRACKETS nPos (Fakestream.sub_view oStdIn nPos 1),
        oStdIn).

(** [tokens(vTokens, oStdIn, cDelimiter)] is [tokens_delimited], its
    [while] loop [tokens_loop]: [nStartPos] and [nBegin] are the locals set
    before the loop and [cChar] the character just read.
    [tokens_quote_double] and [tokens_dollar] call it back.  Every call
    and every iteration uses one unit of fuel. *)
Fixpoint tokens_loop (fuel : nat) (vTokens : list shell_token) (oStdIn : ifakestream)
    (cDelimiter : Z) (nStartPos nBegin : Z) (cChar : Z) {struct fuel}
  : outcome (list shell_token * ifakestream) :=
  match fuel with
  | O => OutOfFuel
  | S fuel' =>
    let continue (r : list shell_token * ifakestream) (nBegin : Z) :=
      let '(vTokens, oStdIn) := r in
      let '(cChar, oStdIn) := Fakestream.get oStdIn in
      tokens_loop fuel' vTokens oStdIn cDelimiter nStartPos nBegin cChar in
    if negb (cChar =? Fakestream.EOF_VALUE) && negb (cChar =? cDelimiter) then
      let nPos := size_t_sub (Fakestream.tell oStdIn) 1 in
      let one := Fakestream.sub_view oStdIn nPos 1 in
      let nTokenType := get_token_type cChar in
      match nTokenType with
      | TK_QUOTE_SIMPLE =>
          r ← tokens_quote_simple fuel' vTokens oStdIn; continue r nBegin
      | TK_QUOTE_DOUBLE =>
          r ← tokens_quote_double fuel' vTokens oStdIn; continue r nBegin
      | TK_QUOTE_BACK =>
          r ← tokens_delimited fuel' (emplace_back vTokens nTokenType nPos one) oStdIn (ch "`");
          continue r (vsize (fst r))
      | TK_ESCAPED =>
          r ← tokens_backslash vTokens oStdIn; continue r (vsize (fst r))
      | TK_DOLLAR =>
          r ← tokens_dollar fuel' vTokens oStdIn; continue r (vsize (fst r))
      | TK_WORD => continue (add_word vTokens oStdIn nBegin, oStdIn) nBegin
      | TK_SPACE => continue (add_space vTokens oStdIn, oStdIn) nBegin
      | TK_PIPE =>
          if Fakestream.peek oStdIn =? ch "|" then
            let oStdIn := snd (Fakestream.get oStdIn) in
            continue (emplace_back vTokens TK_OR nPos (Fakestream.sub_view oStdIn nPos 2),
                      oStdIn) nBegin
          else continue (emplace_back vTokens TK_PIPE nPos one, oStdIn) nBegin
      | TK_BACKGROUND =>
          if Fakestream.peek oStdIn =? ch "&" then
            let oStdIn := snd (Fakestream.get oStdIn) in
            continue (emplace_back vTokens TK_AND nPos (Fakestream.sub_view oStdIn nPos 2),
                      oStdIn) nBegin
          else continue (emplace_back vTokens TK_BACKGROUND nPos one, oStdIn) nBegin
      | TK_OPEN_PARENTHESIS =>
          r ← tokens_delimited fuel' (emplace_back vTokens nTokenType nPos one) oStdIn (ch ")");
          continue r (vsize (fst r))
      | TK_OPEN_BRACKETS =>
          r ← tokens_delimited fuel' (emplace_back vTokens nTokenType nPos one) oStdIn (ch "}");
          continue r (vsize (fst r))
      | TK_OPEN_SQR_BRACKETS =>
          r ← tokens_delimited fuel' (emplace_back vTokens nTokenType nPos one) oStdIn (ch "]");
          continue r (vsize (fst r))
      | TK_CLOSE_PARENTHESIS | TK_CLOSE_BRACKETS | TK_CLOSE_SQR_BRACKETS =>
          throw_parser_exception SHELL_ERROR_SYNTAX_ERROR_UNEXPECTED_TOKEN
            (Fakestream.str oStdIn) nPos
      | _ => continue (emplace_back vTokens nTokenType nPos one, oStdIn) nBegin
      end
    else if negb (cDelimiter =? 0) then
      if cChar =? cDelimiter then
        let nPos := size_t_sub (Fakestream.tell oStdIn) 1 in
        Ok (emplace_back vTokens (get_token_type cDelimiter) nPos
              (Fakestream.sub_view oStdIn nPos 1), oStdIn)
      else
        throw_parser_exception (unclosed_status cDelimiter)
          (Fakestream.str oStdIn) nStartPos
    else Ok (vTokens, oStdIn)
  end

with tokens_delimited (fuel : nat) (vTokens : list shell_token) (oStdIn : ifakestream)
    (cDelimiter : Z) {struct fuel} : outcome (list shell_token * ifakestream) :=
  match fuel with
  | O => OutOfFuel
  | S fuel' =>
    let nStartPos := Fakestream.tell oStdIn in
    let nBegin := vsize vTokens in
    let '(cChar, oStdIn) := Fakestream.get oStdIn in
    tokens_loop fuel' vTokens oStdIn cDelimiter nStartPos nBegin cChar
  end

with tokens_quote_double_loop (fuel : nat) (vTokens : list shell_token)
    (oStdIn : ifakestream) (nQuotePos nBegin nPos : Z) (cChar : Z) {struct fuel}
  : outcome (list shell_token * ifakestream) :=
  match fuel with
  | O => OutOfFuel
  | S fuel' =>
    let continue (r : list shell_token * ifakestream) (nBegin : Z) :=
      let '(vTokens, oStdIn) := r in
      let '(cChar, oStdIn) := Fakestream.get oStdIn in
      tokens_quote_double_loop fuel' vTokens oStdIn nQuotePos nBegin nPos cChar in
    if negb (cChar =? 34) && negb (cChar =? Fakestream.EOF_VALUE) then
      let nTokenType := get_token_type_quote_complex cChar in
      match nTokenType with
      | TK_QUOTE_BACK =>
          r ← tokens_delimited fuel'
                (emplace_back vTokens nTokenType nPos (Fakestream.sub_view oStdIn nPos 1))
                oStdIn (ch "`");
          continue r (vsize (fst r))
      | TK_ESCAPED =>
          r ← tokens_backslash vTokens oStdIn; continue r (vsize (fst r))
      | TK_DOLLAR =>
          r ← tokens_dollar fuel' vTokens oStdIn; continue r (vsize (fst r))
      | TK_WORD => continue (add_word vTokens oStdIn nBegin, oStdIn) nBegin
      | _ => continue (vTokens, oStdIn) nBegin
      end
    else if cChar =? Fakestream.EOF_VALUE then
      throw_parser_exception SHELL_ERROR_SYNTAX_ERROR_UNCLOSED_DOUBLE_QUOTES
        (Fakestream.str oStdIn) nQuotePos
    else
      let nPos := size_t_sub (Fakestream.tell oStdIn) 1 in
      Ok (emplace_back vTokens TK_QUOTE_DOUBLE nPos (Fakestream.sub_view oStdIn nPos 1),
          oStdIn)
  end

with tokens_quote_double (fuel : nat) (vTokens : list shell_token)
    (oStdIn : ifakestream) {struct fuel} : outcome (list shell_token * ifakestream) :=
  match fuel with
  | O => OutOfFuel
  | S fuel' =>
    let nQuotePos := Fakestream.tell oStdIn in
    let nBegin := vsize vTokens in
    let '(cChar, oStdIn) := Fakestream.get oStdIn in
    let nPos := size_t_sub (Fakestream.tell oStdIn) 1 in
    let vTokens :=
      emplace_back vTokens TK_QUOTE_DOUBLE nPos (Fakestream.sub_view oStdIn nPos 1) in
    tokens_quote_double_loop fuel' vTokens oStdIn nQuotePos nBegin nPos cChar
  end

with tokens_dollar (fuel : nat) (vTokens : list shell_token) (oStdIn : ifakestream)
    {struct fuel} : outcome (list shell_token * ifakestream) :=
  match fuel with
  | O => OutOfFuel
  | S fuel' =>
    let nDollarPos := size_t_sub (Fakestream.tell oStdIn) 1 in
    let vTokens :=
      emplace_back vTokens TK_DOLLAR nDollarPos (Fakestream.sub_view oStdIn nDollarPos 1) in
    let '(cChar, oStdIn) := Fakestream.get oStdIn in
    let nPos := size_t_sub (Fakestream.tell oStdIn) 1 in
    if (cChar =? ch "0") || (cChar =? ch "$") || (cChar =? ch "#")
       || (cChar =? ch "@") || (cChar =? ch "?") then
      Ok (emplace_back vTokens TK_DOLLAR_SPECIAL nPos (Fakestream.sub_view oStdIn nPos 1),
          oStdIn)
    else if (ch "1" <=? cChar) && (cChar <=? ch "9") then
      Ok (emplace_back vTokens TK_WORD nPos (Fakestream.sub_view oStdIn nPos 1), oStdIn)
    else if cChar =? ch "{" then tokens_dollar_variable vTokens oStdIn
    else if cChar =? ch "(" then
      let nPos := size_t_sub (Fakestream.tell oStdIn) 1 in
      tokens_delimited fuel'
        (emplace_back vTokens TK_OPEN_PARENTHESIS nPos (Fakestream.sub_view oStdIn nPos 1))
        oStdIn (ch ")")
    else if is_name_start cChar then
      let '(cChar, oStdIn) := Fakestream.get oStdIn in
      '(cChar, oStdIn) ← get_while (get_while_fuel oStdIn) is_name_char cChar oStdIn;
      let oStdIn := Fakestream.put_back oStdIn in
      Ok (emplace_back vTokens TK_WORD nPos
            (Fakestream.sub_view oStdIn nPos (size_t_sub (Fakestream.tell oStdIn) nPos)),
          oStdIn)
    else
      let vTokens := pop_back vTokens in
      let oStdIn := Fakestream.put_back oStdIn in
      Ok (add_word vTokens oStdIn (vsize vTokens), oStdIn)
  end.

(** [shell_tokenizer::tokens(oStdIn)]. *)
Definition tokens_fuel (oStdIn : ifakestream) : nat :=
  2 * String.length (fs_pData oStdIn) + 4.

Definition tokens (oStdIn : ifakestream) : outcome (list shell_token * ifakestream) :=
  tokens_delimited (tokens_fuel oStdIn) [] oStdIn 0.

End Tokenizer.

(** ** The token cursor ([token_holder.h]) *)

Module TokenHolder.

(** Comparing the signed index with [m_vTokens.size()] converts it to
    [std::size_t]. *)
Definition as_size_t (n : Z) : Z := n mod size_t_mod.

Definition out_of_range (h : token_holder) (n : Z) : bool :=
  (Tokenizer.vsize (m_vTokens h) <=? as_size_t n) || (n <? 0).

Definition at_index (h : token_holder) (n : Z) : option shell_token :=
  if out_of_range h n then None else m_vTokens h !! Z.to_nat n.

Definition current (h : token_holder) : option shell_token := at_index h (th_nPos h).
Definition next (h : token_holder) : option shell_token := at_index h (th_nPos h + 1).

Definition get (h : token_holder) : option shell_token * token_holder :=
  let h' := mk_holder (m_vTokens h) (th_nPos h + 1) in
  (if Tokenizer.vsize (m_vTokens h') <=? as_size_t (th_nPos h') then None
   else m_vTokens h' !! Z.to_nat (th_nPos h'), h').

Definition put_back (h : token_holder) : token_holder :=
  mk_holder (m_vTokens h) (th_nPos h - 1).

Definition pos (oIstream : ifakestream) (h : token_holder) : Z :=
  if out_of_range h (th_nPos h) then Fakestream.size oIstream else th_nPos h.

Definition is_type (h : token_holder) (nType : shell_token_type) : bool :=
  match current h with
  | Some t => bool_decide (m_nType t = nType)
  | None => false
  end.

Definition is_next (h : token_holder) (nType : shell_token_type) : bool :=
  if Tokenizer.vsize (m_vTokens h) <=? as_size_t (th_nPos h + 1) then false
  else
    match m_vTokens h !! Z.to_nat (th_nPos h + 1) with
    | Some t => bool_decide (m_nType t = nType)
    | None => false
    end.

(** [get_keyword_id(const std::string_view &)] of [shell_tools.h]. *)
Definition get_keyword_id (oString : string) : shell_keyword :=
  if String.eqb oString "function" then SK_FUNCTION
  else if String.eqb oString "if" then SK_IF
  else if String.eqb oString "then" then SK_THEN
  else if String.eqb oString "else" then SK_ELSE
  else if String.eqb oString "elif" then SK_ELIF
  else if String.eqb oString "fi" then SK_FI
  else if String.eqb oString "for" then SK_FOR
  else if String.eqb oString "in" then SK_IN
  else if String.eqb oString "while" then SK_WHILE
  else if String.eqb oString "until" then SK_UNTIL
  else if String.eqb oString "do" then SK_DO
  else if String.eqb oString "done" then SK_DONE
  else if String.eqb oString "continue" then SK_CONTINUE
  else if String.eqb oString "break" then SK_BREAK
  else SK_NONE.

Definition keyword_follower (t : shell_token_type) : bool :=
  match t with
  | TK_SPACE | TK_CMD_SEPARATOR | TK_OPEN_PARENTHESIS | TK_OPEN_BRACKETS
  | TK_OPEN_SQR_BRACKETS | TK_CLOSE_PARENTHESIS | TK_CLOSE_BRACKETS
  | TK_CLOSE_SQR_BRACKETS => true
  | _ => false
  end.

Definition keyword (oIstream : ifakestream) (h : token_holder) : shell_keyword :=
  match current h with
  | None => SK_NONE
  | Some pCurrent =>
      let of_current :=
        match m_nType pCurrent with
        | TK_WORD => get_keyword_id (view_text (fs_pData oIstream) (m_sTokenText pCurrent))
        | _ => SK_NONE
        end in
      match next h with
      | None => of_current
      | Some pNext => if keyword_follower (m_nType pNext) then of_current else SK_NONE
      end
  end.

(** [keyword(nKeyword)]. *)
Definition keyword_is (oIstream : ifakestream) (h : token_holder)
    (nKeyword : shell_keyword) : bool :=
  keyword oIstream h =? nKeyword.

End TokenHolder.

(** ** Constructors that check their arguments ([shell_node.cpp]) *)

Module Node.

Definition new_command_expression (vChildren : list (option expandable))
  : outcome expandable :=
  match vChildren with
  | [] =>
      Throw (node_invalid_argument "Command expression takes non empty subnode group")
  | None :: _ =>
      Throw (node_invalid_argument "Command expression first subnode can not be nullptr")
  | Some _ :: _ => Ok (shell_node_command_expression vChildren)
  end.

Definition new_if (nPos : Z) (pCondition pCaseIf pCaseElse : option evaluable)
  : outcome evaluable :=
  match pCondition, pCaseIf with
  | None, _ => Throw (node_invalid_argument "Condition can not be null")
  | Some _, None => Throw (node_invalid_argument "Case IF can not be null")
  | Some c, Some b => Ok (shell_node_if nPos c b pCaseElse)
  end.

Definition new_for (nPos : Z) (sVariable : string) (pSequence : option expandable)
    (pIterative : option evaluable) : outcome evaluable :=
  match pSequence, pIterative with
  | None, _ => Throw (node_invalid_argument "Sequence can not be null")
  | Some _, None => Throw (node_invalid_argument "Iterative block can not be null")
  | Some q, Some b => Ok (shell_node_for nPos sVariable q b)
  end.

Definition new_while (nPos : Z) (pCondition pIterative : option evaluable)
  : outcome evaluable :=
  match pCondition, pIterative with
  | None, _ => Throw (node_invalid_argument "Condition can not be null")
  | Some _, None => Throw (node_invalid_argument "Iterative block can not be null")
  | Some c, Some b => Ok (shell_node_while nPos c b)
  end.

Definition new_until (nPos : Z) (pCondition pIterative : option evaluable)
  : outcome evaluable :=
  match pCondition, pIterative with
  | None, _ => Throw (node_invalid_argument "Condition can not be null")
  | Some _, None => Throw (node_invalid_argument "Iterative block can not be null")
  | Some c, Some b => Ok (shell_node_until nPos c b)
  end.

End Node.

(** ** The parser ([shell_parser.cpp]) *)

Module Parser.

Definition MAX_DEPTH : Z := SHELL_MAX_DEPTH.

Definition ret {A : Type} (a : A) : P A := fun p => (Ok a, p).

Definition bind {A B : Type} (m : P A) (k : A -> P B) : P B :=
  fun p =>
    match m p with
    | (Ok a, p') => k a p'
    | (Throw x, p') => (Throw x, p')
    | (Undefined why, p') => (Undefined why, p')
    | (OutOfFuel, p') => (OutOfFuel, p')
    end.

(** An outcome that does not touch the parser. *)
Definition lift {A : Type} (o : outcome A) : P A := fun p => (o, p).

Definition throw {A : Type} (nStatus : shell_status) (nPos : Z) : P A :=
  fun p => (throw_parser_exception nStatus (Fakestream.str (m_oIstream p)) nPos, p).

Definition set_tokens (p : shell_parser) (h : token_holder) : shell_parser :=
  mk_parser (m_oIstream p) h (m_nDepth p).
Definition set_depth (p : shell_parser) (d : Z) : shell_parser :=
  mk_parser (m_oIstream p) (m_oTokens p) d.

(** [m_oTokens.get()], [put_back()], [pos()], [keyword()], [is(t)] and
    the like; [m_oIstream.size()]; the text of a token. *)
Definition tok_get : P (option shell_token) :=
  fun p => let '(t, h) := TokenHolder.get (m_oTokens p) in (Ok t, set_tokens p h).
Definition tok_put_back : P unit :=
  fun p => (Ok tt, set_tokens p (TokenHolder.put_back (m_oTokens p))).
Definition tok_pos : P Z :=
  fun p => (Ok (TokenHolder.pos (m_oIstream p) (m_oTokens p)), p).
Definition tok_keyword : P shell_keyword :=
  fun p => (Ok (TokenHolder.keyword (m_oIstream p) (m_oTokens p)), p).
Definition tok_keyword_is (nKeyword : shell_keyword) : P bool :=
  fun p => (Ok (TokenHolder.keyword_is (m_oIstream p) (m_oTokens p) nKeyword), p).
Definition tok_is (t : shell_token_type) : P bool :=
  fun p => (Ok (TokenHolder.is_type (m_oTokens p) t), p).
Definition tok_is_next (t : shell_token_type) : P bool :=
  fun p => (Ok (TokenHolder.is_next (m_oTokens p) t), p).
Definition tok_current : P (option shell_token) :=
  fun p => (Ok (TokenHolder.current (m_oTokens p)), p).
Definition tok_next : P (option shell_token) :=
  fun p => (Ok (TokenHolder.next (m_oTokens p)), p).
Definition stream_size : P Z :=
  fun p => (Ok (Fakestream.size (m_oIstream p)), p).
Definition tok_text (tok : shell_token) : P string :=
  fun p => (Ok (view_text (fs_pData (m_oIstream p)) (m_sTokenText tok)), p).

(** [shell_parser::increase_depth]: the counter keeps its new value when
    the exception is thrown. *)
Definition increase_depth (nPos : Z) : P unit :=
  fun p =>
    let p := set_depth p (size_t_add (m_nDepth p) 1) in
    if MAX_DEPTH <? m_nDepth p
    then throw SHELL_ERROR_MAX_DEPTH_REACHED nPos p
    else (Ok tt, p).

Definition decrease_depth (p : shell_parser) : shell_parser :=
  if 0 <? m_nDepth p then set_depth p (m_nDepth p - 1) else p.

(** A scope that holds a [depth_guard oDepthGuard(this, nPos)]: the
    constructor increases the depth; once it has returned, the destructor
    decreases the depth when the scope is left, by a return or by an
    exception.  When the constructor itself throws, the guard was never
    constructed and no destructor runs. *)
Definition with_depth_guard {A : Type} (nPos : Z) (body : P A) : P A :=
  fun p =>
    match increase_depth nPos p with
    | (Ok _, p') => let '(r, p'') := body p' in (r, decrease_depth p'')
    | (Throw x, p') => (Throw x, p')
    | (Undefined why, p') => (Undefined why, p')
    | (OutOfFuel, p') => (OutOfFuel, p')
    end.

(** [while (m_oTokens.is(TK_SPACE)) pToken = m_oTokens.get();] *)
Fixpoint skip_spaces (fuel : nat) (pToken : option shell_token) : P (option shell_token) :=
  fun p =>
    match fuel with
    | O => (OutOfFuel, p)
    | S fuel' =>
        if TokenHolder.is_type (m_oTokens p) TK_SPACE
        then bind tok_get (skip_spaces fuel') p
        else (Ok pToken, p)
    end.

(** [while (m_oTokens.is_next(TK_SPACE)) m_oTokens.get();] *)
Fixpoint skip_next_spaces (fuel : nat) : P unit :=
  fun p =>
    match fuel with
    | O => (OutOfFuel, p)
    | S fuel' =>
        if TokenHolder.is_next (m_oTokens p) TK_SPACE
        then bind tok_get (fun _ => skip_next_spaces fuel') p
        else (Ok tt, p)
    end.

(** [m_oTokens.get(); while (m_oTokens.is(TK_SPACE)) m_oTokens.get();] *)
Definition get_skip_spaces (fuel : nat) : P unit :=
  bind tok_get (fun pToken => bind (skip_spaces fuel pToken) (fun _ => ret tt)).

(** The status [parse_block] throws when its end token is missing. *)
Definition block_end_status (nEnd : shell_token_type) : shell_status :=
  match nEnd with
  | TK_CLOSE_PARENTHESIS => SHELL_ERROR_SYNTAX_ERROR_UNCLOSED_PARENTHESES
  | TK_CLOSE_BRACKETS => SHELL_ERROR_SYNTAX_ERROR_UNCLOSED_BRACKETS
  | TK_CLOSE_SQR_BRACKETS => SHELL_ERROR_SYNTAX_ERROR_UNCLOSED_SQR_BRACKETS
  | TK_QUOTE_BACK => SHELL_ERROR_SYNTAX_ERROR_UNCLOSED_BACK_QUOTES
  | _ => SHELL_ERROR_SYNTAX_ERROR
  end.

(** The same for the overload that ends at a keyword. *)
Definition block_end_keyword_status (nEnd : shell_keyword) : shell_status :=
  if nEnd =? SK_IF_DELIMITER then SHELL_ERROR_SYNTAX_ERROR_UNFINISHED_KEYWORD_IF
  else if nEnd =? SK_DONE then SHELL_ERROR_SYNTAX_ERROR_UNFINISHED_KEYWORD_LOOP
  else SHELL_ERROR_SYNTAX_ERROR.

Definition block_mode (nEnd : shell_token_type) : parse_mode :=
  if bool_decide (nEnd = TK_QUOTE_BACK) then PM_BACKQUOTE else PM_NORMAL.

(** The mode that the overload ending at a keyword computes for a group
    that starts at a token of type [nType]. *)
Definition keyword_block_mode (nType : shell_token_type) : parse_mode :=
  let nMode := if bool_decide (nType = TK_QUOTE_BACK) then PM_BACKQUOTE else PM_NORMAL in
  if has_mode nMode PM_LOOP then Z.land nMode PM_LOOP else nMode.

(** [vExpressions.back() = v] on a non-empty vector. *)
Definition set_back {A : Type} (v : list A) (x : A) : list A :=
  match reverse v with
  | [] => v
  | _ :: front => reverse front ++ [x]
  end.

(** What the two [parse_block] return for the expressions they read. *)
Definition block_of (nStartPos : Z) (vExpressions : list (option evaluable))
  : option evaluable :=
  match vExpressions with
  | [] => None
  | [e] => e
  | _ => Some (shell_node_command_block nStartPos vExpressions)
  end.

(** [vTokens.emplace_back(nullptr)] when the vector is not empty and does
    not end with [nullptr]. *)
Definition push_split_point (vTokens : list (option expandable))
  : list (option expandable) :=
  match last vTokens with
  | Some (Some _) => vTokens ++ [None]
  | _ => vTokens
  end.

(** What [parse_command_expression] and [parse_test_expression] return
    for the children they read. *)
Definition expression_of (vTokens : list (option expandable)) : P (option expandable) :=
  match vTokens with
  | [] => ret None
  | _ => bind (lift (Node.new_command_expression vTokens)) (fun e => ret (Some e))
  end.

(** [get_arg_number(m_oTokens)]: [std::stoull] on the text of the current
    token. *)
Definition get_arg_number : P Z :=
  bind tok_current (fun pToken =>
    match pToken with
    | None => lift (Undefined "null current token")
    | Some tok => bind (tok_text tok) (fun sArg => lift (stoull sArg))
    end).

(** [parse_word(m_oTokens)]. *)
Definition parse_word : P expandable :=
  bind tok_current (fun pToken =>
    match pToken with
    | None => lift (Undefined "null current token")
    | Some tok =>
        bind (tok_text tok) (fun sText => ret (shell_node_word (tk_nPos tok) sText))
    end).

(** [parse_unicode]. *)
Definition parse_unicode : P expandable :=
  bind tok_current (fun pToken =>
    match pToken with
    | None => lift (Undefined "null current token")
    | Some tok =>
        bind (tok_text tok) (fun sText =>
        if sv_length (m_sTokenText tok) <? 2 then
          throw SHELL_ERROR_BAD_ENCODING (tk_nPos tok)
        else
          match str_at sText 1 with
          | None => lift (Undefined "read outside the text")
          | Some c =>
              let cChar := Fakestream.char_value c in
              let node (cChar32 : Z) := ret (shell_node_unicode (tk_nPos tok) cChar32) in
              let hex (nCount : Z) :=
                bind (lift (Utf.parse_utf (mk_ifakestream (str_drop sText 2) 0) nCount))
                  (fun r =>
                     match fst r with
                     | Some cChar32 => node cChar32
                     | None => throw SHELL_ERROR_BAD_ENCODING (tk_nPos tok)
                     end) in
              if cChar =? Tokenizer.ch "n" then node 10
              else if cChar =? Tokenizer.ch "t" then node 9
              else if Tokenizer.is_escaped cChar then node cChar
              else if cChar =? Tokenizer.ch "x" then hex 1
              else if cChar =? Tokenizer.ch "u" then hex 2
              else if cChar =? Tokenizer.ch "U" then hex 4
              else throw SHELL_ERROR_BAD_ENCODING (tk_nPos tok)
          end)
    end).

(** [parse_quote_simple]: the loop, then the function from its first
    statement. *)
Fixpoint parse_quote_simple_loop (fuel : nat) (nStartPos : Z) (vTokens : list expandable)
    (pToken : option shell_token) : P expandable :=
  match fuel with
  | O => lift OutOfFuel
  | S fuel' =>
    let continue (e : expandable) :=
      bind tok_get (parse_quote_simple_loop fuel' nStartPos (vTokens ++ [e])) in
    match pToken with
    | None => throw SHELL_ERROR_SYNTAX_ERROR_UNCLOSED_SIMPLE_QUOTES nStartPos
    | Some tok =>
        match m_nType tok with
        | TK_QUOTE_SIMPLE => ret (shell_node_str_simple (tk_nPos tok) vTokens)
        | TK_WORD => bind parse_word continue
        | TK_ESCAPED | TK_UNICODE => bind parse_unicode continue
        | _ => throw SHELL_ERROR_SYNTAX_ERROR_UNEXPECTED_TOKEN (tk_nPos tok)
        end
    end
  end.

Definition parse_quote_simple (fuel : nat) : P expandable :=
  bind tok_pos (fun nStartPos =>
  bind tok_get (parse_quote_simple_loop fuel nStartPos [])).

(** [parse_dollar_variable]: the tokens after [${]. *)
Definition parse_dollar_variable : P expandable :=
  bind tok_pos (fun nStartPos =>
  bind tok_get (fun pNameToken =>
  match pNameToken with
  | None => throw SHELL_ERROR_SYNTAX_ERROR_UNCLOSED_VARIABLE nStartPos
  | Some tok =>
    bind (if bool_decide (m_nType tok = TK_EXCLAMATION) then
            bind tok_get (fun pNameToken =>
              match pNameToken with
              | None => throw SHELL_ERROR_SYNTAX_ERROR_UNCLOSED_VARIABLE nStartPos
              | Some tok => ret (true, tok)
              end)
          else ret (false, tok)) (fun '(bDoubleHop, tok) =>
    if negb (bool_decide (m_nType tok = TK_WORD)) then
      throw SHELL_ERROR_SYNTAX_ERROR_UNEXPECTED_TOKEN nStartPos
    else
      bind (tok_text tok) (fun sName =>
      if negb (is_arg sName) && negb (is_var sName) then
        throw SHELL_ERROR_SYNTAX_ERROR_INVALID_VARIABLE_NAME nStartPos
      else
        bind tok_get (fun pClose =>
        match pClose with
        | None => throw SHELL_ERROR_SYNTAX_ERROR_UNCLOSED_VARIABLE nStartPos
        | Some _ =>
            if bDoubleHop then
              if is_arg sName then
                bind get_arg_number (fun nArg =>
                ret (shell_node_dollar_arg_dhop (tk_nPos tok) nArg))
              else if is_var sName then
                ret (shell_node_dollar_variable_dhop (tk_nPos tok) sName)
              else throw SHELL_ERROR_SYNTAX_ERROR_INVALID_VARIABLE_NAME (tk_nPos tok)
            else
              if is_arg sName then
                bind get_arg_number (fun nArg =>
                ret (shell_node_dollar_arg (tk_nPos tok) nArg))
              else if is_var sName then
                ret (shell_node_dollar_variable (tk_nPos tok) sName)
              else throw SHELL_ERROR_SYNTAX_ERROR_INVALID_VARIABLE_NAME (tk_nPos tok)
        end))
    )
  end)).

(** [break] and [continue] inside [parse_keyword]: [node] is the node to
    return. *)
Definition parse_loop_control (fuel : nat) (nMode : parse_mode) (nPos : Z)
    (node : evaluable) : P evaluable :=
  if has_mode nMode PM_LOOP then
    bind (skip_next_spaces fuel) (fun _ =>
    bind tok_next (fun pNext =>
    bind (tok_is_next TK_CMD_SEPARATOR) (fun bSeparator =>
    bind (tok_is_next TK_OR) (fun bOr =>
    bind (tok_is_next TK_AND) (fun bAnd =>
    if negb (bool_decide (is_Some pNext)) || bSeparator || bOr || bAnd
    then ret node
    else throw SHELL_ERROR_SYNTAX_ERROR_UNEXPECTED_TOKEN nPos)))))
  else throw SHELL_ERROR_SYNTAX_ERROR_UNEXPECTED_TOKEN nPos.

(** [if (!test) throw shell_parser_exception{nStatus, ..., nPos};] *)
Definition require (test : P bool) (nStatus : shell_status) (nPos : P Z) : P unit :=
  bind test (fun b => if b then ret tt else bind nPos (throw nStatus)).

(** A node, or the null command at [nPos] in place of [nullptr]. *)
Definition or_null_command (pBlock : option evaluable) (nPos : P Z) : P evaluable :=
  match pBlock with
  | Some b => ret b
  | None => bind nPos (fun n => ret (shell_node_null_command n))
  end.

(** [nStartPos = m_oTokens.pos(); pToken = m_oTokens.get();] and then the
    loop. *)
Definition from_first_token {A : Type} (loop : Z -> option shell_token -> P A) : P A :=
  bind tok_pos (fun nStartPos => bind tok_get (loop nStartPos)).

(** The mutually recursive functions of the parser.  A function whose
    body is a loop is given by that loop, which carries the locals of the
    function as arguments: [parse_block_loop] for [parse_block(nEnd)],
    [parse_block_keyword_loop] for [parse_block(nEnd, nMode)],
    [parse_command_group_loop], [parse_command_expression_loop],
    [parse_test_expression_loop] and [parse_quote_double_loop].  A block
    may receive a null pointer from [parse_command_group], so its entries
    are options.  Every call and every iteration uses one unit of fuel. *)
Fixpoint parse_block_loop (fuel : nat) (nEnd : shell_token_type) (nStartPos : Z)
    (vExpressions : list (option evaluable)) (pToken : option shell_token)
    {struct fuel} : P (option evaluable) :=
  match fuel with
  | O => lift OutOfFuel
  | S fuel' =>
    let continue (vExpressions : list (option evaluable)) :=
      bind tok_get (parse_block_loop fuel' nEnd nStartPos vExpressions) in
    let group (nMode : parse_mode) :=
      bind (parse_command_group fuel' nMode) (fun e => continue (vExpressions ++ [e])) in
    match pToken with
    | Some tok =>
      if bool_decide (m_nType tok = nEnd) then ret (block_of nStartPos vExpressions)
      else
        match m_nType tok with
        | TK_WORD =>
            bind tok_keyword (fun nKeyword =>
              if nKeyword =? SK_NONE then
                bind tok_put_back (fun _ => group (block_mode nEnd))
              else
                bind (parse_keyword fuel' nKeyword PM_NORMAL)
                  (fun e => continue (vExpressions ++ [Some e])))
        | TK_OPEN_PARENTHESIS | TK_OPEN_BRACKETS | TK_OPEN_SQR_BRACKETS
        | TK_ESCAPED | TK_UNICODE | TK_DOLLAR | TK_QUOTE_SIMPLE | TK_QUOTE_DOUBLE =>
            bind tok_put_back (fun _ => group (block_mode nEnd))
        | TK_QUOTE_BACK => group PM_BACKQUOTE
        | TK_SPACE | TK_CMD_SEPARATOR => continue vExpressions
        | _ => throw SHELL_ERROR_SYNTAX_ERROR_UNEXPECTED_TOKEN (tk_nPos tok)
        end
    | None =>
      if bool_decide (nEnd = TK_EOF) then ret (block_of nStartPos vExpressions)
      else throw (block_end_status nEnd) nStartPos
    end
  end

with parse_block_keyword_loop (fuel : nat) (nEnd : shell_keyword) (nMode : parse_mode)
    (nStartPos : Z) (vExpressions : list (option evaluable))
    (pToken : option shell_token) {struct fuel} : P (option evaluable) :=
  match fuel with
  | O => lift OutOfFuel
  | S fuel' =>
    let continue (vExpressions : list (option evaluable)) :=
      bind tok_get (parse_block_keyword_loop fuel' nEnd nMode nStartPos vExpressions) in
    let group (nMode : parse_mode) :=
      bind (parse_command_group fuel' nMode) (fun e => continue (vExpressions ++ [e])) in
    match pToken with
    | Some tok =>
      bind tok_keyword (fun nKeyword =>
      if has_keyword nKeyword nEnd then ret (block_of nStartPos vExpressions)
      else
        match m_nType tok with
        | TK_WORD =>
            if nKeyword =? SK_NONE then bind tok_put_back (fun _ => group nMode)
            else
              bind (parse_keyword fuel' nKeyword nMode)
                (fun e => continue (vExpressions ++ [Some e]))
        | TK_OPEN_PARENTHESIS | TK_OPEN_BRACKETS | TK_OPEN_SQR_BRACKETS
        | TK_ESCAPED | TK_UNICODE | TK_DOLLAR | TK_QUOTE_SIMPLE | TK_QUOTE_DOUBLE =>
            bind tok_put_back (fun _ => group (keyword_block_mode (m_nType tok)))
        | TK_QUOTE_BACK => group PM_BACKQUOTE
        | TK_SPACE | TK_CMD_SEPARATOR => continue vExpressions
        | _ => throw SHELL_ERROR_SYNTAX_ERROR_UNEXPECTED_TOKEN (tk_nPos tok)
        end)
    | None =>
      if negb (nEnd =? SK_NONE) then throw (block_end_keyword_status nEnd) nStartPos
      else ret (block_of nStartPos vExpressions)
    end
  end

with parse_command_group_loop (fuel : nat) (nMode : parse_mode) (nStartPos : Z)
    (vExpressions : list evaluable) (pToken : option shell_token)
    {struct fuel} : P (option evaluable) :=
  match fuel with
  | O => lift OutOfFuel
  | S fuel' =>
    let finish (vExpressions : list evaluable) : P (option evaluable) :=
      ret (match vExpressions with
           | [] => None
           | _ => Some (shell_node_command_block nStartPos (Some <$> vExpressions))
           end) in
    let continue (vExpressions : list evaluable) :=
      bind tok_get (fun pToken =>
      bind (skip_spaces fuel' pToken)
        (parse_command_group_loop fuel' nMode nStartPos vExpressions)) in
    let oper (nNodeType : shell_node_type) (nPos : Z) :=
      bind (parse_command_group_oper fuel' vExpressions nNodeType nPos nMode) continue in
    let command (nMode : parse_mode) :=
      bind (parse_command fuel' nMode) (fun pCommand =>
        match pCommand with
        | shell_node_null_command _ => continue vExpressions
        | _ => continue (vExpressions ++ [pCommand])
        end) in
    match pToken with
    | None => finish vExpressions
    | Some tok =>
      match m_nType tok with
      | TK_WORD =>
          bind tok_keyword (fun nKeyword =>
            if nKeyword =? SK_NONE then
              bind tok_put_back (fun _ =>
              bind (parse_command fuel' nMode) (fun e => continue (vExpressions ++ [e])))
            else
              bind (parse_keyword fuel' nKeyword nMode)
                (fun e => continue (vExpressions ++ [e])))
      | TK_ESCAPED | TK_UNICODE | TK_DOLLAR | TK_QUOTE_SIMPLE | TK_QUOTE_DOUBLE =>
          bind tok_put_back (fun _ => command nMode)
      | TK_QUOTE_BACK =>
          if has_mode nMode PM_BACKQUOTE then
            bind tok_put_back (fun _ => finish vExpressions)
          else command PM_BACKQUOTE
      | TK_OPEN_PARENTHESIS =>
          bind (parse_parentheses fuel') (fun e => continue (vExpressions ++ [e]))
      | TK_OPEN_BRACKETS =>
          bind (parse_brackets fuel') (fun e => continue (vExpressions ++ [e]))
      | TK_OPEN_SQR_BRACKETS =>
          bind (parse_sqr_brackets fuel') (fun e => continue (vExpressions ++ [e]))
      | TK_CMD_SEPARATOR | TK_CLOSE_PARENTHESIS | TK_CLOSE_BRACKETS
      | TK_CLOSE_SQR_BRACKETS =>
          bind tok_put_back (fun _ => finish vExpressions)
      | TK_BACKGROUND =>
          match last vExpressions with
          | None => throw SHELL_ERROR_SYNTAX_ERROR_UNEXPECTED_TOKEN (tk_nPos tok)
          | Some pBack =>
              finish (set_back vExpressions (shell_node_background (tk_nPos tok) pBack))
          end
      | TK_PIPE => oper SNT_PIPE (tk_nPos tok)
      | TK_AND => oper SNT_AND (tk_nPos tok)
      | TK_OR => oper SNT_OR (tk_nPos tok)
      | _ => throw SHELL_ERROR_SYNTAX_ERROR_UNEXPECTED_TOKEN (tk_nPos tok)
      end
    end
  end

with parse_command_group (fuel : nat) (nMode : parse_mode) {struct fuel}
  : P (option evaluable) :=
  match fuel with
  | O => lift OutOfFuel
  | S fuel' =>
    bind tok_get (fun pToken =>
    bind (skip_spaces fuel' pToken) (fun pToken =>
    bind tok_pos (fun nStartPos =>
    parse_command_group_loop fuel' nMode nStartPos [] pToken)))
  end

with parse_command_group_oper (fuel : nat) (vExpressions : list evaluable)
    (nNodeType : shell_node_type) (nPos : Z) (nMode : parse_mode) {struct fuel}
  : P (list evaluable) :=
  match fuel with
  | O => lift OutOfFuel
  | S fuel' =>
    match last vExpressions with
    | None => throw SHELL_ERROR_SYNTAX_ERROR_UNEXPECTED_TOKEN nPos
    | Some pLeft =>
        bind (parse_command_group fuel' nMode) (fun pExpression =>
          match pExpression with
          | None => throw SHELL_ERROR_SYNTAX_ERROR_UNEXPECTED_TOKEN nPos
          | Some pRight =>
              bind (lift (Operator.make nNodeType nPos (Some pLeft) (Some pRight)))
                (fun pOperator => ret (set_back vExpressions pOperator))
          end)
    end
  end

with parse_parentheses (fuel : nat) {struct fuel} : P evaluable :=
  match fuel with
  | O => lift OutOfFuel
  | S fuel' =>
    bind tok_pos (fun nPos =>
    with_depth_guard nPos
      (bind (from_first_token (fun nStartPos =>
               parse_block_loop fuel' TK_CLOSE_PARENTHESIS nStartPos []))
         (fun pBlock =>
            match pBlock with
            | None => ret (shell_node_null_command nPos)
            | Some b => ret (shell_node_command_block_subshell nPos [Some b])
            end)))
  end

with parse_brackets (fuel : nat) {struct fuel} : P evaluable :=
  match fuel with
  | O => lift OutOfFuel
  | S fuel' =>
    bind tok_pos (fun nPos =>
    with_depth_guard nPos
      (bind (from_first_token (fun nStartPos =>
               parse_block_loop fuel' TK_CLOSE_BRACKETS nStartPos []))
         (fun pBlock =>
            match pBlock with
            | None => ret (shell_node_null_command nPos)
            | Some b => ret (shell_node_command_block nPos [Some b])
            end)))
  end

with parse_sqr_brackets (fuel : nat) {struct fuel} : P evaluable :=
  match fuel with
  | O => lift OutOfFuel
  | S fuel' =>
    bind tok_pos (fun nPos =>
    bind (bind tok_get (parse_test_expression_loop fuel' [])) (fun pExpression =>
    bind tok_get (fun _ =>
    bind (require (tok_is TK_CLOSE_SQR_BRACKETS)
            SHELL_ERROR_SYNTAX_ERROR_UNCLOSED_SQR_BRACKETS (ret nPos)) (fun _ =>
    match pExpression with
    | None => throw SHELL_ERROR_SYNTAX_ERROR_UNEXPECTED_TOKEN nPos
    | Some e => ret (shell_node_test nPos e)
    end))))
  end

with parse_test_expression_loop (fuel : nat) (vTokens : list (option expandable))
    (pToken : option shell_token) {struct fuel} : P (option expandable) :=
  match fuel with
  | O => lift OutOfFuel
  | S fuel' =>
    let finish : P (option expandable) :=
      bind (tok_is TK_CLOSE_SQR_BRACKETS) (fun bClose =>
      bind (if bClose then tok_put_back else ret tt) (fun _ =>
      expression_of vTokens)) in
    let continue (vTokens : list (option expandable)) :=
      bind tok_get (parse_test_expression_loop fuel' vTokens) in
    let push (e : expandable) := continue (vTokens ++ [Some e]) in
    match pToken with
    | None => finish
    | Some tok =>
      match m_nType tok with
      | TK_CLOSE_SQR_BRACKETS => finish
      | TK_WORD => bind parse_word push
      | TK_ESCAPED | TK_UNICODE => bind parse_unicode push
      | TK_SPACE => continue (push_split_point vTokens)
      | TK_QUOTE_SIMPLE => bind (parse_quote_simple fuel') push
      | TK_QUOTE_DOUBLE => bind (parse_quote_double fuel') push
      | TK_QUOTE_BACK => bind (parse_quote_back fuel') push
      | TK_DOLLAR => bind (parse_dollar fuel') push
      | TK_OR | TK_AND | TK_OPEN_PARENTHESIS | TK_CLOSE_PARENTHESIS => bind parse_word push
      | _ => throw SHELL_ERROR_SYNTAX_ERROR_UNEXPECTED_TOKEN (tk_nPos tok)
      end
    end
  end

with parse_command (fuel : nat) (nMode : parse_mode) {struct fuel} : P evaluable :=
  match fuel with
  | O => lift OutOfFuel
  | S fuel' =>
    bind (bind tok_get (parse_command_expression_loop fuel' nMode [])) (fun pContent =>
    match pContent with
    | None => bind stream_size (fun n => ret (shell_node_null_command n))
    | Some e => ret (shell_node_command e)
    end)
  end

with parse_command_expression_loop (fuel : nat) (nMode : parse_mode)
    (vTokens : list (option expandable)) (pToken : option shell_token) {struct fuel}
  : P (option expandable) :=
  match fuel with
  | O => lift OutOfFuel
  | S fuel' =>
    let continue (vTokens : list (option expandable)) :=
      bind tok_get (parse_command_expression_loop fuel' nMode vTokens) in
    let push (e : expandable) := continue (vTokens ++ [Some e]) in
    let delimiter : P (option expandable) :=
      bind tok_put_back (fun _ => expression_of vTokens) in
    match pToken with
    | None => expression_of vTokens
    | Some tok =>
      match m_nType tok with
      | TK_WORD => bind parse_word push
      | TK_ESCAPED | TK_UNICODE => bind parse_unicode push
      | TK_SPACE => continue (push_split_point vTokens)
      | TK_QUOTE_SIMPLE => bind (parse_quote_simple fuel') push
      | TK_QUOTE_DOUBLE => bind (parse_quote_double fuel') push
      | TK_QUOTE_BACK =>
          if has_mode nMode PM_BACKQUOTE then delimiter
          else bind (parse_quote_back fuel') push
      | TK_DOLLAR => bind (parse_dollar fuel') push
      | TK_CMD_SEPARATOR | TK_CLOSE_PARENTHESIS | TK_CLOSE_BRACKETS
      | TK_CLOSE_SQR_BRACKETS | TK_PIPE | TK_OR | TK_BACKGROUND | TK_AND => delimiter
      | TK_OPEN_BRACKETS =>
          if has_mode nMode PM_FUNCTION_NAME then delimiter
          else throw SHELL_ERROR_SYNTAX_ERROR_UNEXPECTED_TOKEN (tk_nPos tok)
      | _ => throw SHELL_ERROR_SYNTAX_ERROR_UNEXPECTED_TOKEN (tk_nPos tok)
      end
    end
  end

with parse_quote_double_loop (fuel : nat) (nStartPos : Z) (vTokens : list expandable)
    (pToken : option shell_token) {struct fuel} : P expandable :=
  match fuel with
  | O => lift OutOfFuel
  | S fuel' =>
    let push (e : expandable) :=
      bind tok_get (parse_quote_double_loop fuel' nStartPos (vTokens ++ [e])) in
    match pToken with
    | None => throw SHELL_ERROR_SYNTAX_ERROR_UNCLOSED_DOUBLE_QUOTES nStartPos
    | Some tok =>
      match m_nType tok with
      | TK_QUOTE_DOUBLE => ret (shell_node_str_double (tk_nPos tok) vTokens)
      | TK_WORD => bind parse_word push
      | TK_ESCAPED | TK_UNICODE => bind parse_unicode push
      | TK_DOLLAR => bind (parse_dollar fuel') push
      | TK_QUOTE_BACK => bind (parse_quote_back fuel') push
      | _ => throw SHELL_ERROR_SYNTAX_ERROR_UNEXPECTED_TOKEN (tk_nPos tok)
      end
    end
  end

with parse_quote_double (fuel : nat) {struct fuel} : P expandable :=
  match fuel with
  | O => lift OutOfFuel
  | S fuel' =>
    from_first_token (fun nStartPos => parse_quote_double_loop fuel' nStartPos [])
  end

with parse_quote_back (fuel : nat) {struct fuel} : P expandable :=
  match fuel with
  | O => lift OutOfFuel
  | S fuel' =>
    bind tok_pos (fun nPos =>
    bind (from_first_token (fun nStartPos =>
            parse_block_loop fuel' TK_QUOTE_BACK nStartPos [])) (fun pBlock =>
    bind (or_null_command pBlock (ret nPos)) (fun pBlock =>
    ret (shell_node_str_back nPos pBlock))))
  end

with parse_dollar (fuel : nat) {struct fuel} : P expandable :=
  match fuel with
  | O => lift OutOfFuel
  | S fuel' =>
    bind tok_pos (fun nStartPos =>
    bind tok_get (fun pToken =>
    match pToken with
    | None => throw SHELL_ERROR_SYNTAX_ERROR_UNEXPECTED_TOKEN nStartPos
    | Some tok =>
      match m_nType tok with
      | TK_WORD =>
          bind (tok_text tok) (fun sText =>
          if is_arg sText then
            bind get_arg_number (fun nArg => ret (shell_node_arg (tk_nPos tok) nArg))
          else if is_var sText then ret (shell_node_variable (tk_nPos tok) sText)
          else throw SHELL_ERROR_SYNTAX_ERROR_INVALID_VARIABLE_NAME (tk_nPos tok))
      | TK_DOLLAR_SPECIAL =>
          bind (tok_text tok) (fun sText =>
          let cSpecial :=
            if sv_length (m_sTokenText tok) =? 0 then Some (ascii_of_nat 0)
            else str_at sText 0 in
          match cSpecial with
          | Some c => ret (shell_node_dollar_special (tk_nPos tok) c)
          | None => lift (Undefined "read outside the text")
          end)
      | TK_OPEN_BRACKETS => parse_dollar_variable
      | TK_OPEN_PARENTHESIS => parse_dollar_command fuel'
      | _ => throw SHELL_ERROR_SYNTAX_ERROR_UNEXPECTED_TOKEN (tk_nPos tok)
      end
    end))
  end

with parse_dollar_command (fuel : nat) {struct fuel} : P expandable :=
  match fuel with
  | O => lift OutOfFuel
  | S fuel' =>
    bind tok_pos (fun nPos =>
    with_depth_guard nPos
      (bind (from_first_token (fun nStartPos =>
               parse_block_loop fuel' TK_CLOSE_PARENTHESIS nStartPos [])) (fun pBlock =>
       bind (or_null_command pBlock (ret nPos)) (fun pBlock =>
       ret (shell_node_dollar_command nPos pBlock)))))
  end

with parse_keyword (fuel : nat) (nKeyword : shell_keyword) (nMode : parse_mode)
    {struct fuel} : P evaluable :=
  match fuel with
  | O => lift OutOfFuel
  | S fuel' =>
    bind tok_pos (fun nPos =>
    with_depth_guard nPos
      (if nKeyword =? SK_IF then parse_if fuel'
       else if nKeyword =? SK_FOR then parse_for fuel'
       else if nKeyword =? SK_WHILE then parse_while fuel'
       else if nKeyword =? SK_UNTIL then parse_until fuel'
       else if nKeyword =? SK_CONTINUE then
         parse_loop_control fuel' nMode nPos (shell_node_continue nPos)
       else if nKeyword =? SK_BREAK then
         parse_loop_control fuel' nMode nPos (shell_node_break nPos)
       else if nKeyword =? SK_FUNCTION then parse_function fuel'
       else throw SHELL_ERROR_SYNTAX_ERROR_UNEXPECTED_TOKEN nPos))
  end

with parse_if (fuel : nat) {struct fuel} : P evaluable :=
  match fuel with
  | O => lift OutOfFuel
  | S fuel' =>
    let block : P (option evaluable) :=
      from_first_token (fun nStartPos =>
        parse_block_keyword_loop fuel' SK_IF_DELIMITER PM_NORMAL nStartPos []) in
    bind tok_pos (fun nPos =>
    bind (parse_command_group fuel' PM_NORMAL) (fun pCondition =>
    bind (get_skip_spaces fuel') (fun _ =>
    bind (require (tok_is TK_CMD_SEPARATOR)
            SHELL_ERROR_SYNTAX_ERROR_UNEXPECTED_TOKEN tok_pos) (fun _ =>
    bind (get_skip_spaces fuel') (fun _ =>
    bind (require (tok_keyword_is SK_THEN)
            SHELL_ERROR_SYNTAX_ERROR_MISSING_KEYWORD_THEN (ret nPos)) (fun _ =>
    bind block (fun pBlock =>
    bind (or_null_command pBlock tok_pos) (fun pBlock =>
    bind (tok_keyword_is SK_ELSE) (fun bElse =>
    bind (tok_keyword_is SK_ELIF) (fun bElif =>
    bind (tok_keyword_is SK_FI) (fun bFi =>
    if bElse then
      with_depth_guard nPos
        (bind block (fun pElse =>
         lift (Node.new_if nPos pCondition (Some pBlock) pElse)))
    else if bElif then
      with_depth_guard nPos
        (bind (parse_if fuel') (fun pElse =>
         lift (Node.new_if nPos pCondition (Some pBlock) (Some pElse))))
    else if bFi then lift (Node.new_if nPos pCondition (Some pBlock) None)
    else throw SHELL_ERROR_SYNTAX_ERROR_UNFINISHED_KEYWORD_IF nPos)))))))))))
  end

with parse_for (fuel : nat) {struct fuel} : P evaluable :=
  match fuel with
  | O => lift OutOfFuel
  | S fuel' =>
    bind tok_pos (fun nPos =>
    bind (get_skip_spaces fuel') (fun _ =>
    bind tok_current (fun pCurrent =>
    bind (match pCurrent with
          | Some tok =>
              if bool_decide (m_nType tok = TK_WORD) then
                bind (tok_text tok) (fun sText =>
                if is_var sText then ret sText
                else throw SHELL_ERROR_SYNTAX_ERROR_INVALID_VARIABLE_NAME nPos)
              else throw SHELL_ERROR_SYNTAX_ERROR_INVALID_VARIABLE_NAME nPos
          | None => throw SHELL_ERROR_SYNTAX_ERROR_INVALID_VARIABLE_NAME nPos
          end) (fun sVariable =>
    bind (get_skip_spaces fuel') (fun _ =>
    bind (require (tok_keyword_is SK_IN)
            SHELL_ERROR_SYNTAX_ERROR_MISSING_KEYWORD_IN (ret nPos)) (fun _ =>
    bind (bind tok_get (parse_command_expression_loop fuel' PM_NORMAL [])) (fun pSequence =>
    bind tok_get (fun _ =>
    bind (require (tok_is TK_CMD_SEPARATOR)
            SHELL_ERROR_SYNTAX_ERROR_UNEXPECTED_TOKEN tok_pos) (fun _ =>
    bind (get_skip_spaces fuel') (fun _ =>
    bind (require (tok_keyword_is SK_DO)
            SHELL_ERROR_SYNTAX_ERROR_MISSING_KEYWORD_DO (ret nPos)) (fun _ =>
    with_depth_guard nPos
      (bind (from_first_token (fun nStartPos =>
               parse_block_keyword_loop fuel' SK_DONE PM_LOOP nStartPos [])) (fun pIterative =>
       bind (or_null_command pIterative tok_pos) (fun pIterative =>
       lift (Node.new_for nPos sVariable pSequence (Some pIterative))))))))))))))))
  end

with parse_while (fuel : nat) {struct fuel} : P evaluable :=
  match fuel with
  | O => lift OutOfFuel
  | S fuel' =>
    bind tok_pos (fun nPos =>
    bind (parse_command_group fuel' PM_NORMAL) (fun pCondition =>
    bind tok_get (fun _ =>
    bind (require (tok_is TK_CMD_SEPARATOR)
            SHELL_ERROR_SYNTAX_ERROR_UNEXPECTED_TOKEN tok_pos) (fun _ =>
    bind (get_skip_spaces fuel') (fun _ =>
    bind (require (tok_keyword_is SK_DO)
            SHELL_ERROR_SYNTAX_ERROR_MISSING_KEYWORD_DO (ret nPos)) (fun _ =>
    with_depth_guard nPos
      (bind (from_first_token (fun nStartPos =>
               parse_block_keyword_loop fuel' SK_DONE PM_LOOP nStartPos [])) (fun pIterative =>
       bind (or_null_command pIterative tok_pos) (fun pIterative =>
       lift (Node.new_while nPos pCondition (Some pIterative)))))))))))
  end

with parse_until (fuel : nat) {struct fuel} : P evaluable :=
  match fuel with
  | O => lift OutOfFuel
  | S fuel' =>
    bind tok_pos (fun nPos =>
    bind (parse_command_group fuel' PM_NORMAL) (fun pCondition =>
    bind tok_get (fun _ =>
    bind (require (tok_is TK_CMD_SEPARATOR)
            SHELL_ERROR_SYNTAX_ERROR_UNEXPECTED_TOKEN tok_pos) (fun _ =>
    bind (get_skip_spaces fuel') (fun _ =>
    bind (require (tok_keyword_is SK_DO)
            SHELL_ERROR_SYNTAX_ERROR_MISSING_KEYWORD_DO (ret nPos)) (fun _ =>
    with_depth_guard nPos
      (bind (from_first_token (fun nStartPos =>
               parse_block_keyword_loop fuel' SK_DONE PM_LOOP nStartPos [])) (fun pIterative =>
       bind (or_null_command pIterative tok_pos) (fun pIterative =>
       lift (Node.new_until nPos pCondition (Some pIterative)))))))))))
  end

with parse_function (fuel : nat) {struct fuel} : P evaluable :=
  match fuel with
  | O => lift OutOfFuel
  | S fuel' =>
    bind tok_pos (fun nPos =>
    bind (get_skip_spaces fuel') (fun _ =>
    bind tok_put_back (fun _ =>
    bind (bind tok_get (parse_command_expression_loop fuel' PM_FUNCTION_NAME []))
      (fun pName =>
    match pName with
    | None => throw SHELL_ERROR_SYNTAX_ERROR_INVALID_FUNCTION_NAME nPos
    | Some pName =>
        bind (get_skip_spaces fuel') (fun _ =>
        bind (require (tok_is TK_OPEN_BRACKETS)
                SHELL_ERROR_SYNTAX_ERROR_INVALID_FUNCTION_BODY (ret nPos)) (fun _ =>
        bind tok_pos (fun nBlockPos =>
        bind (from_first_token (fun nStartPos =>
                parse_block_loop fuel' TK_CLOSE_BRACKETS nStartPos [])) (fun pBody =>
        bind (or_null_command pBody (ret nBlockPos)) (fun pBody =>
        ret (shell_node_function nPos pName pBody))))))
    end))))
  end.

(** [parse_block(nEnd)] and [parse_command_expression(nMode)] from their
    first statement. *)
Definition parse_block (fuel : nat) (nEnd : shell_token_type) : P (option evaluable) :=
  from_first_token (fun nStartPos => parse_block_loop fuel nEnd nStartPos []).

Definition parse_command_expression (fuel : nat) (nMode : parse_mode)
  : P (option expandable) :=
  bind tok_get (parse_command_expression_loop fuel nMode []).

(** [shell_parser::parse(oIstream)]: a new parser, at depth 0, on the
    tokens of the input. *)
Definition parse_fuel (vTokens : list shell_token) : nat :=
  16 * (List.length vTokens + 4).

Definition parse (oIstream : ifakestream) : outcome evaluable :=
  '(vTokens, oIstream) ← Tokenizer.tokens oIstream;
  let pParser := mk_parser oIstream (mk_holder vTokens (-1)) 0 in
  pEvaluable ← fst (parse_block (parse_fuel vTokens) TK_EOF pParser);
  match pEvaluable with
  | None => Ok (shell_node_null_command 0)
  | Some e => Ok e
  end.

End Parser.

(** ** The shell: command registry and error hooks ([shell.h], [shell.cpp]) *)

(** A registered [command].  [command_echo], [command_eval] and
    [command_fcall] are modelled after their sources; any other command
    is the effect of its [run] method. *)
Inductive command :=
| command_echo
| command_eval
| command_fcall
| command_host (run : list string -> M shell_status).

(** [shell]: the registry [m_mCommands].  Every session derived from a
    session has the same [m_pShell], so the shell is given once to the
    evaluator instead of being stored in each session. *)
Record shell := mk_shell {
  m_mCommands : gmap string command;
  m_bStopOnCommandNotFound : bool
}.

Definition get_command (pShell : shell) (sCommand : string) : option command :=
  m_mCommands pShell !! sCommand.

Module Eval.

Definition ret {A : Type} (a : A) : M A := fun s σ => (Ok a, s, σ).

Definition bind {A B : Type} (m : M A) (k : A -> M B) : M B :=
  fun s σ =>
    match m s σ with
    | (Ok a, s', σ') => k a s' σ'
    | (Throw x, s', σ') => (Throw x, s', σ')
    | (Undefined why, s', σ') => (Undefined why, s', σ')
    | (OutOfFuel, s', σ') => (OutOfFuel, s', σ')
    end.

Definition lift {A : Type} (o : outcome A) : M A := fun s σ => (o, s, σ).

Definition throw {A : Type} (x : exn) : M A := lift (Throw x).

(** Reading the session and the store; changing the store or the
    session object. *)
Definition read {A : Type} (f : shell_session -> store -> A) : M A :=
  fun s σ => (Ok (f s σ), s, σ).
Definition update (f : shell_session -> store -> store) : M unit :=
  fun s σ => (Ok tt, s, f s σ).
Definition update_session (f : shell_session -> shell_session) : M unit :=
  fun s σ => (Ok tt, f s, σ).

(** [oSession.out() << text] and [oSession.err() << text]. *)
Definition write_out (text : string) : M unit :=
  update (fun s σ => ostream_write (m_oStdOut s) text σ).
Definition write_err (text : string) : M unit :=
  update (fun s σ => ostream_write (m_oStdErr s) text σ).

(** Running [m] against another session object [sub]; the object is
    dropped afterwards, the store stays. *)
Definition in_session {A : Type} (sub : shell_session) (m : M A) : M A :=
  fun s σ => let '(r, _, σ') := m sub σ in (r, s, σ').

(** The trees that the function pointers of the store point into. *)
Definition vtable_trees (σ : store) : gset tree :=
  map_fold (fun _ (t : gmap string function_pointer) (acc : gset tree) =>
              map_fold (fun _ (p : function_pointer) (acc : gset tree) => {[fst p]} ∪ acc)
                acc t)
    ∅ (st_vtable σ).

(** Running [m] on nodes of the tree [t]. *)
Definition in_tree {A : Type} (t : tree) (m : M A) : M A :=
  fun s σ =>
    let '(r, s', σ') := m s (set_st_tree σ t) in (r, s', set_st_tree σ' (st_tree σ)).

(** [const auto pMainNode = shell_parser::parse(...)] around [m]: the
    tree is new (no pointer of the store points into it), alive while [m]
    runs on its nodes, and freed when [m] returns or throws. *)
Definition in_parsed_tree {A : Type} (m : M A) : M A :=
  fun s σ =>
    let t := fresh (st_trees σ ∪ vtable_trees σ) in
    let '(r, s', σ') := in_tree t m s (set_st_trees σ ({[t]} ∪ st_trees σ)) in
    (r, s', set_st_trees σ' (st_trees σ' ∖ {[t]})).

(** The left and the right double quotation marks, in UTF-8. *)
Definition LDQUO : string :=
  String (ascii_of_nat 226) (String (ascii_of_nat 128) (String (ascii_of_nat 156) EmptyString)).
Definition RDQUO : string :=
  String (ascii_of_nat 226) (String (ascii_of_nat 128) (String (ascii_of_nat 157) EmptyString)).

(** The error hooks of [shell], in their default implementation. *)
Definition msg_error_command_not_found (sCommand : string) : M unit :=
  write_err ("shell: " +:+ LDQUO +:+ sCommand +:+ RDQUO +:+ ": not found." +:+ endl).

Definition msg_error_invalid_function_name (sFunction : string) : M unit :=
  write_err ("shell: " +:+ LDQUO +:+ sFunction +:+ RDQUO
             +:+ ": invalid function name." +:+ endl).

Definition msg_error_syntax_error (oException : shell_parser_exception) : M unit :=
  bind (lift (what oException)) write_err.

(** ** Expansion values ([shell_node_expand.cpp]) *)

(** [write_char32_t] of [utf.h]; [static_cast<char>] keeps the low byte. *)
Definition to_char (n : Z) : ascii := ascii_of_N (Z.to_N (n mod 256)).

Definition write_char32_t (oStream : ofakestream) (cChar : Z) : ofakestream :=
  if cChar <=? 127 then ofs_put oStream (to_char cChar)
  else if cChar <=? 2047 then
    ofs_put (ofs_put oStream
      (to_char (Z.lor (Z.shiftr cChar 6) 192)))
      (to_char (Z.lor (Z.land cChar 63) 128))
  else if cChar <=? 65535 then
    ofs_put (ofs_put (ofs_put oStream
      (to_char (Z.lor (Z.shiftr cChar 12) 224)))
      (to_char (Z.lor (Z.land (Z.shiftr cChar 6) 63) 128)))
      (to_char (Z.lor (Z.land cChar 63) 128))
  else if cChar <=? 1114111 then
    ofs_put (ofs_put (ofs_put (ofs_put oStream
      (to_char (Z.lor (Z.shiftr cChar 18) 240)))
      (to_char (Z.lor (Z.land (Z.shiftr cChar 12) 63) 128)))
      (to_char (Z.lor (Z.land (Z.shiftr cChar 6) 63) 128)))
      (to_char (Z.lor (Z.land cChar 63) 128))
  else oStream.

(** [shell_node_variable::get_value] and
    [shell_node_dollar_variable::get_value]. *)
Definition variable_get_value (m_sVariable : string) (s : shell_session) (σ : store)
  : string :=
  if Session.has_var s σ m_sVariable then Session.get_var s σ m_sVariable
  else if Session.has_env s σ m_sVariable then Session.get_env s σ m_sVariable
  else EmptyString.

(** The second hop of an indirection: [sName] is an argument index when
    it is a number, a variable name otherwise. *)
Definition second_hop (sName : string) (s : shell_session) (σ : store) : outcome string :=
  if is_number sName then
    nArg ← stoull sName; Ok (Session.get_arg s σ nArg)
  else Ok (variable_get_value sName s σ).

(** [shell_node_dollar_arg_dhop::get_value]. *)
Definition arg_dhop_get_value (m_nArg : Z) (s : shell_session) (σ : store)
  : outcome string :=
  second_hop (Session.get_arg s σ m_nArg) s σ.

(** [shell_node_dollar_variable_dhop::get_value]. *)
Definition variable_dhop_get_value (m_sVariable : string) (s : shell_session)
    (σ : store) : outcome string :=
  if Session.has_var s σ m_sVariable
  then second_hop (Session.get_var s σ m_sVariable) s σ
  else if Session.has_env s σ m_sVariable
  then second_hop (Session.get_env s σ m_sVariable) s σ
  else Ok EmptyString.

(** The [$@] case: the arguments from index 1 on, separated by spaces. *)
Definition join_args (vArgs : list string) : string :=
  match vArgs with
  | _ :: rest => concat_vector EmptyString rest
  | [] => EmptyString
  end.

Section WithCollaborators.
Context `{Collaborators}.

(** [shell_node_dollar_special::get_value]. *)
Definition special_get_value (m_cItem : ascii) (s : shell_session) (σ : store)
  : string :=
  if Ascii.eqb m_cItem "0" then "emptyset"
  else if Ascii.eqb m_cItem "$" then to_string_int get_pid
  else if Ascii.eqb m_cItem "?"
    then to_string_int (static_cast_int (Session.get_last_command_result s))
  else if Ascii.eqb m_cItem "#"
    then to_string_unsigned (size_t_sub (Session.get_arg_size s σ) 1)
  else if Ascii.eqb m_cItem "@" then join_args (Session.get_args s σ)
  else "$".

(** [get_value] of the nodes derived from
    [shell_node_session_extractor]; [None] on the other nodes. *)
Definition get_value (n : expandable)
  : option (shell_session -> store -> outcome string) :=
  match n with
  | shell_node_arg _ m_nArg => Some (fun s σ => Ok (Session.get_arg s σ m_nArg))
  | shell_node_dollar_arg _ m_nArg => Some (fun s σ => Ok (Session.get_arg s σ m_nArg))
  | shell_node_variable _ m_sVariable =>
      Some (fun s σ => Ok (variable_get_value m_sVariable s σ))
  | shell_node_dollar_variable _ m_sVariable =>
      Some (fun s σ => Ok (variable_get_value m_sVariable s σ))
  | shell_node_dollar_arg_dhop _ m_nArg => Some (arg_dhop_get_value m_nArg)
  | shell_node_dollar_variable_dhop _ m_sVariable =>
      Some (variable_dhop_get_value m_sVariable)
  | shell_node_dollar_special _ m_cItem =>
      Some (fun s σ => Ok (special_get_value m_cItem s σ))
  | _ => None
  end.

End WithCollaborators.

(** [shell_node_session_extractor::expand] once the value is known, and
    the last step of the two command substitutions. *)
Definition push_value (vTokens : list string) (bSplit : bool) (sValue : string)
  : list string :=
  if bSplit then split_string vTokens sValue else vTokens ++ [sValue].

(** ** The gluing of [shell_node_command_expression::expand]

    The loop body for one child, on the state [(vTokens, oWord)]:
    [None] is a [nullptr] child, [Some vSubTokens] a child that expanded to
    [vSubTokens]. *)
Definition glue_step (acc : list string * ofakestream) (child : option (list string))
  : list string * ofakestream :=
  let '(vTokens, oWord) := acc in
  match child with
  | None =>
      if negb (ofs_empty oWord) then (vTokens ++ [oWord], EmptyString)
      else (vTokens, oWord)
  | Some vSubTokens =>
      match vSubTokens with
      | [] => (vTokens, oWord)
      | front :: rest =>
          (* oWord << vSubTokens.front(); vTokens.push_back(oWord.str_reset()); *)
          let vTokens := vTokens ++ [ofs_write oWord front] in
          let oWord := EmptyString in
          (* the entries 1 .. size - 2, when size > 2 *)
          let vTokens := vTokens ++ removelast rest in
          (* oWord << vSubTokens.back(), when size > 1 *)
          match last rest with
          | Some back => (vTokens, ofs_write oWord back)
          | None => (vTokens, oWord)
          end
      end
  end.

(** After the loop: a non-empty [oWord] is pushed. *)
Definition glue_finish (acc : list string * ofakestream) : list string :=
  let '(vTokens, oWord) := acc in
  if negb (ofs_empty oWord) then vTokens ++ [oWord] else vTokens.

(** The whole loop on children whose expansions are given. *)
Definition glue (vTokens : list string) (children : list (option (list string)))
  : list string :=
  glue_finish (fold_left glue_step children (vTokens, EmptyString)).

End Eval.

(** ** Built-in commands ([command.cpp], [command_fcall.cpp],
    [command_var.cpp], [command_env.cpp], [command_seq.cpp]) *)

Module Command.
Import Eval.

(** [command_echo::run]. *)
Definition command_echo_run (vArgs : list string) : M shell_status :=
  let '(bUseEndl, nBegin) :=
    match vArgs with
    | first :: _ => if String.eqb first "-n" then (false, 1%nat) else (true, 0%nat)
    | [] => (true, 0%nat)
    end in
  let oOstream := concat_vector EmptyString (drop nBegin vArgs) in
  let oOstream := if bUseEndl then ofs_put oOstream LF else oOstream in
  bind (write_out oOstream) (fun _ => ret SHELL_SUCCESS).

Definition msg_error_max_depth_reached : M unit :=
  write_err ("Maximum shell depth reached." +:+ endl).

(** [command_eval::run]; [run] is [shell::run] on a text.  The arguments
    are written to [oCommand] one after the other.  The depth is decreased
    only when [run] returns. *)
Definition command_eval_run (run : string -> M shell_status) (vArgs : list string)
  : M shell_status :=
  let oCommand := fold_left ofs_write vArgs EmptyString in
  fun s σ =>
    let '(bIncreased, s) := Session.increase_shell_depth s in
    if negb bIncreased then
      bind msg_error_max_depth_reached
        (fun _ => ret SHELL_ERROR_MAX_DEPTH_REACHED) s σ
    else
      bind (run oCommand) (fun nStatus =>
      bind (update_session Session.decrease_shell_depth) (fun _ =>
      ret nStatus)) s σ.

Definition msg_error_param_number (nArgs : Z) : M unit :=
  write_err ("fcall: takes >=1 parameters, but received "
             +:+ to_string_unsigned nArgs +:+ "." +:+ endl).

Definition msg_error_function_not_found (sFunction : string) : M unit :=
  write_err ("fcall: " +:+ sFunction +:+ ": function not found." +:+ endl).

(** [command_fcall::run]; [evaluate] is [pFunc->evaluate], a call through
    the pointer that the table holds: the pointer dangles when its tree
    has been freed. *)
Definition command_fcall_run (evaluate : evaluable -> M shell_status)
    (vArgs : list string) : M shell_status :=
  bind (update (fun _ σ => cout_write ("FCALL" +:+ endl) σ)) (fun _ =>
  match vArgs with
  | [] =>
      bind (msg_error_param_number 0) (fun _ => ret SHELL_CMD_ERROR_FCALL_PARAM_NUMBER)
  | sName :: _ =>
      bind (fun s σ => (Session.get_func s σ sName, s, σ)) (fun pFunc =>
      match pFunc with
      | None =>
          bind (msg_error_function_not_found sName)
            (fun _ => ret SHELL_CMD_ERROR_FCALL_FUNCTION_NOT_FOUND)
      | Some (t, pFunc) =>
          fun s σ =>
            let '(pSession, σ) := Session.make_function_call s vArgs σ in
            let σ := cout_write ("arg 1: " +:+ Session.get_arg pSession σ 1 +:+ endl) σ in
            if bool_decide (t ∈ st_trees σ)
            then in_tree t (in_session pSession (evaluate pFunc)) s σ
            else (Undefined "call through a dangling function pointer", s, σ)
      end)
  end).

(** The commands of [command_var.cpp] and [command_env.cpp].  Their two
    messages differ in the command's name and in the number of parameters
    it takes; all four return the [getenv] status on a bad name. *)
Definition msg_error_var_param_number (sCommand sTakes : string) (nArgs : Z) : M unit :=
  write_err (sCommand +:+ ": takes " +:+ sTakes +:+ ", but received "
             +:+ to_string_unsigned nArgs +:+ "." +:+ endl).

Definition msg_error_variable_name (sCommand sVariableName : string) : M unit :=
  write_err (sCommand +:+ ": " +:+ LDQUO +:+ sVariableName +:+ RDQUO
             +:+ ": not a variable name." +:+ endl).

(** [command_getvar::run]. *)
Definition command_getvar_run (vArgs : list string) : M shell_status :=
  match vArgs with
  | [sVariable] =>
      if negb (is_var sVariable) then
        bind (msg_error_variable_name "getvar" sVariable)
          (fun _ => ret SHELL_CMD_ERROR_GETENV_VARIABLE_NAME_INVALID)
      else
        bind (read (fun s σ => Session.get_var s σ sVariable)) (fun sValue =>
        bind (write_out sValue) (fun _ => ret SHELL_SUCCESS))
  | _ =>
      bind (msg_error_var_param_number "getvar" "1 parameter"
              (Z.of_nat (List.length vArgs)))
        (fun _ => ret SHELL_CMD_ERROR_GETVAR_PARAM_NUMBER)
  end.

(** [command_setvar::run]. *)
Definition command_setvar_run (vArgs : list string) : M shell_status :=
  match vArgs with
  | [sVariable; sValue] =>
      if negb (is_var sVariable) then
        bind (msg_error_variable_name "setvar" sVariable)
          (fun _ => ret SHELL_CMD_ERROR_GETENV_VARIABLE_NAME_INVALID)
      else
        bind (update (fun s σ => Session.set_var s sVariable sValue σ))
          (fun _ => ret SHELL_SUCCESS)
  | _ =>
      bind (msg_error_var_param_number "setvar" "2 parameters"
              (Z.of_nat (List.length vArgs)))
        (fun _ => ret SHELL_CMD_ERROR_SETVAR_PARAM_NUMBER)
  end.

(** [command_getenv::run]. *)
Definition command_getenv_run (vArgs : list string) : M shell_status :=
  match vArgs with
  | [sVariable] =>
      if negb (is_var sVariable) then
        bind (msg_error_variable_name "getenv" sVariable)
          (fun _ => ret SHELL_CMD_ERROR_GETENV_VARIABLE_NAME_INVALID)
      else
        bind (read (fun s σ => Session.get_env s σ sVariable)) (fun sValue =>
        bind (write_out sValue) (fun _ => ret SHELL_SUCCESS))
  | _ =>
      bind (msg_error_var_param_number "getenv" "1 parameter"
              (Z.of_nat (List.length vArgs)))
        (fun _ => ret SHELL_CMD_ERROR_GETENV_PARAM_NUMBER)
  end.

(** [command_setenv::run]. *)
Definition command_setenv_run (vArgs : list string) : M shell_status :=
  match vArgs with
  | [sVariable; sValue] =>
      if negb (is_var sVariable) then
        bind (msg_error_variable_name "setenv" sVariable)
          (fun _ => ret SHELL_CMD_ERROR_GETENV_VARIABLE_NAME_INVALID)
      else
        bind (update (fun s σ => Session.set_env s sVariable sValue σ))
          (fun _ => ret SHELL_SUCCESS)
  | _ =>
      bind (msg_error_var_param_number "setenv" "2 parameters"
              (Z.of_nat (List.length vArgs)))
        (fun _ => ret SHELL_CMD_ERROR_SETENV_PARAM_NUMBER)
  end.

(** The command of [command_seq.cpp]. *)
Definition msg_error_seq_param_number (nArgs : Z) : M unit :=
  write_err ("seq: takes 2-3 parameters, but received "
             +:+ to_string_unsigned nArgs +:+ "." +:+ endl).

(** No end of line follows this message. *)
Definition msg_error_int_format (sInt : string) : M unit :=
  write_err ("seq: value " +:+ LDQUO +:+ sInt +:+ RDQUO +:+ " is no integer").

Definition msg_error_logics (nMin nStep nMax : Z) : M unit :=
  write_err ("seq: can not iterate: [ " +:+ to_string_int nMin +:+ " : "
             +:+ to_string_int nStep +:+ " : " +:+ to_string_int nMax +:+ " ]" +:+ endl).

(** The first loop of [command_seq::run]: each argument is checked with
    [is_number], then converted with [std::stoll]; [None] when a check
    failed and the message was written. *)
Fixpoint seq_parse_ints (vArgs : list string) : M (option (list Z)) :=
  match vArgs with
  | [] => ret (Some [])
  | sArg :: rest =>
      if negb (is_number sArg) then
        bind (msg_error_int_format sArg) (fun _ => ret None)
      else
        bind (lift (stoll sArg)) (fun n =>
        bind (seq_parse_ints rest) (fun r =>
        ret (match r with Some v => Some (n :: v) | None => None end)))
  end.

(** The two [for] loops that print: [bUp] tells the first from the
    second.  One unit of fuel per test of the loop condition. *)
Fixpoint seq_loop (fuel : nat) (bUp : bool) (nIter nStep nEnd : Z) : M unit :=
  match fuel with
  | O => lift OutOfFuel
  | S fuel' =>
      if (if bUp then nIter <=? nEnd else nEnd <=? nIter) then
        bind (write_out (String SPACE EmptyString)) (fun _ =>
        bind (write_out (to_string_int nIter)) (fun _ =>
        bind (lift (int64_add nIter nStep)) (fun nNext =>
        seq_loop fuel' bUp nNext nStep nEnd)))
      else ret tt
  end.

(** Each iteration moves [nIter] towards [nEnd] by at least one. *)
Definition seq_fuel (nBegin nEnd : Z) : nat := S (Z.to_nat (Z.abs (nEnd - nBegin))).

(** The statements after the checks, on [nArgs[0]], [nArgs[1]] and
    [nArgs[2]]. *)
Definition seq_print (nBegin nStep nEnd : Z) : M shell_status :=
  bind (write_out (to_string_int nBegin)) (fun _ =>
  bind (if nBegin <? nEnd then
          bind (lift (int64_add nBegin nStep)) (fun nIter =>
          seq_loop (seq_fuel nBegin nEnd) true nIter nStep nEnd)
        else if nEnd <? nBegin then
          bind (lift (int64_add nBegin nStep)) (fun nIter =>
          seq_loop (seq_fuel nBegin nEnd) false nIter nStep nEnd)
        else ret tt) (fun _ =>
  ret SHELL_SUCCESS)).

(** [command_seq::run]. *)
Definition command_seq_run (vArgs : list string) : M shell_status :=
  let nSize := Z.of_nat (List.length vArgs) in
  if negb (nSize =? 2) && negb (nSize =? 3) then
    bind (msg_error_seq_param_number nSize) (fun _ => ret SHELL_CMD_ERROR_SEQ_PARAM_NUMBER)
  else
    bind (seq_parse_ints vArgs) (fun r =>
    match r with
    | None => ret SHELL_CMD_ERROR_SEQ_INVALID_INT_FORMAT
    | Some [nBegin; nEnd] =>
        seq_print nBegin (if nEnd <? nBegin then -1 else 1) nEnd
    | Some [nBegin; nStep; nEnd] =>
        if ((nEnd <? nBegin) && (0 <=? nStep)) || ((nBegin <? nEnd) && (nStep <=? 0)) then
          bind (msg_error_logics nBegin nStep nEnd)
            (fun _ => ret SHELL_CMD_ERROR_SEQ_ITERATION_LOGIC)
        else seq_print nBegin nStep nEnd
    | Some _ => lift (Undefined "nArgs of another size")
    end).

End Command.

(** ** Evaluation ([shell_node_evaluate.cpp], [shell_node_expand.cpp],
    [shell.cpp]) *)

Module Interp.
Import Eval.

(** [try { body } catch (continue_signal &) { } catch (break_signal &)
    { break; }]: whether the loop goes on. *)
Definition try_iteration (body : M shell_status) : M bool :=
  fun s σ =>
    match body s σ with
    | (Ok _, s', σ') => (Ok true, s', σ')
    | (Throw continue_signal, s', σ') => (Ok true, s', σ')
    | (Throw break_signal, s', σ') => (Ok false, s', σ')
    | (Throw x, s', σ') => (Throw x, s', σ')
    | (Undefined why, s', σ') => (Undefined why, s', σ')
    | (OutOfFuel, s', σ') => (OutOfFuel, s', σ')
    end.

(** The loop of [shell_node_for::evaluate]. *)
Fixpoint for_loop (body : M shell_status) (m_sVariable : string)
    (vSequence : list string) : M unit :=
  match vSequence with
  | [] => ret tt
  | sItem :: rest =>
      bind (update (fun s σ => Session.set_var s m_sVariable sItem σ)) (fun _ =>
      bind (try_iteration body) (fun bGoOn =>
      if bGoOn then for_loop body m_sVariable rest else ret tt))
  end.

(** The loops of [shell_node_while::evaluate] ([bUntil = false]) and of
    [shell_node_until::evaluate] ([bUntil = true]); one unit of fuel per
    test of the condition. *)
Fixpoint while_loop (fuel : nat) (bUntil : bool) (condition body : M shell_status)
  : M unit :=
  match fuel with
  | O => lift OutOfFuel
  | S fuel' =>
      bind condition (fun nCondition =>
      if xorb (nCondition =? SHELL_SUCCESS) bUntil then
        bind (try_iteration body) (fun bGoOn =>
        if bGoOn then while_loop fuel' bUntil condition body else ret tt)
      else ret tt)
  end.

(** The loop of [shell_node_command_block::evaluate]. *)
Fixpoint block_loop (evaluate : evaluable -> M shell_status)
    (m_vSubCommands : list (option evaluable)) : M unit :=
  match m_vSubCommands with
  | [] => ret tt
  | None :: _ => lift (Undefined "null sub-command")
  | Some pSubCommand :: rest =>
      bind (evaluate pSubCommand) (fun _ => block_loop evaluate rest)
  end.

(** [oSession.make_subsession(in, out, err)] as a step. *)
Definition make_subsession (oStdIn oStdOut oStdErr : shell_session -> loc)
  : M shell_session :=
  fun s σ =>
    match Session.make_subsession s (oStdIn s) (oStdOut s) (oStdErr s) σ with
    | Ok (sub, σ') => (Ok sub, s, σ')
    | Throw x => (Throw x, s, σ)
    | Undefined why => (Undefined why, s, σ)
    | OutOfFuel => (OutOfFuel, s, σ)
    end.

(** The loop of [shell_node_command_block_subshell::evaluate]. *)
Fixpoint subshell_loop (evaluate : evaluable -> M shell_status)
    (m_vSubCommands : list (option evaluable)) : M unit :=
  match m_vSubCommands with
  | [] => ret tt
  | None :: _ => lift (Undefined "null sub-command")
  | Some pSubCommand :: rest =>
      bind (make_subsession m_oStdIn m_oStdOut m_oStdErr) (fun pSubSession =>
      bind (in_session pSubSession (evaluate pSubCommand)) (fun _ =>
      subshell_loop evaluate rest))
  end.

(** The loop of [shell_node_command_expression::expand]; [expand_child]
    is [pChild->expand(vSubTokens, oSession, true)] on an empty vector. *)
Fixpoint expression_loop (expand_child : expandable -> M (list string))
    (m_vChildren : list (option expandable)) (acc : list string * ofakestream)
  : M (list string * ofakestream) :=
  match m_vChildren with
  | [] => ret acc
  | None :: rest => expression_loop expand_child rest (glue_step acc None)
  | Some pChild :: rest =>
      bind (expand_child pChild) (fun vSubTokens =>
      expression_loop expand_child rest (glue_step acc (Some vSubTokens)))
  end.

(** The loop of [shell_node_str::expand]; [expand_child] expands without
    splitting. *)
Fixpoint str_loop (expand_child : expandable -> M (list string))
    (m_vChildren : list expandable) (oOstream : ofakestream) : M ofakestream :=
  match m_vChildren with
  | [] => ret oOstream
  | pChild :: rest =>
      bind (expand_child pChild) (fun vSubTokens =>
      str_loop expand_child rest (fold_left ofs_write vSubTokens oOstream))
  end.

(** A command substitution: the command runs in a subsession that writes
    to a new string stream; [oStdErr] is the stream handed over as the
    subsession's error stream. *)
Definition substitute (evaluate : evaluable -> M shell_status) (m_pCommand : evaluable)
    (oStdErr : shell_session -> loc) (vTokens : list string) (bSplit : bool)
  : M (list string) :=
  bind (fun s σ => let '(l, σ') := new_ostringstream σ in (Ok l, s, σ')) (fun oStdOut =>
  bind (make_subsession m_oStdIn (fun _ => oStdOut) oStdErr) (fun pSubSession =>
  fun s σ =>
    match in_session pSubSession (evaluate m_pCommand) s σ with
    | (Ok _, s', σ') => (Ok (push_value vTokens bSplit (ostream_str oStdOut σ')), s', σ')
    | (Throw x, s', σ') => (Throw x, s', σ')
    | (Undefined why, s', σ') => (Undefined why, s', σ')
    | (OutOfFuel, s', σ') => (OutOfFuel, s', σ')
    end)).

(** [try { nStatus = pCommand->run(vArgs, oSession); } catch
    (shell_parser_exception &) { msg_error_syntax_error }], with [nStatus]
    initially [SHELL_SUCCESS]. *)
Definition run_normalized (run : M shell_status) : M shell_status :=
  fun s σ =>
    match run s σ with
    | (Throw (parser_exception oException), s', σ') =>
        bind (msg_error_syntax_error oException) (fun _ => ret SHELL_SUCCESS) s' σ'
    | r => r
    end.

Section WithShell.
Context `{Collaborators}.
Variable pShell : shell.

(** The helper [eval] of [shell.cpp]: it returns
    [pMainNode->evaluate(oSession)] right after parsing; nothing catches
    an exception of [shell_parser::parse].  The tree lives in the local
    [pMainNode]. *)
Definition eval (evaluate : evaluable -> M shell_status) (oIstream : ifakestream)
  : M shell_status :=
  bind (lift (Parser.parse oIstream)) (fun pMainNode =>
  in_parsed_tree (evaluate pMainNode)).

(** The statements of [eval] that follow that [return]: the [try] block
    that catches the exception, reports it and returns its status. *)
Definition eval_try_block (evaluate : evaluable -> M shell_status)
    (oIstream : ifakestream) : M shell_status :=
  fun s σ =>
    match bind (lift (Parser.parse oIstream)) (fun pMainNode =>
          in_parsed_tree (evaluate pMainNode)) s σ with
    | (Throw (parser_exception oException), s', σ') =>
        bind (msg_error_syntax_error oException)
          (fun _ => ret (m_nStatus oException)) s' σ'
    | r => r
    end.

(** How a registered command runs. *)
Definition command_run (evaluate : evaluable -> M shell_status) (pCommand : command)
    (vArgs : list string) : M shell_status :=
  match pCommand with
  | command_echo => Command.command_echo_run vArgs
  | command_eval =>
      Command.command_eval_run
        (fun sCommand => eval evaluate (mk_ifakestream sCommand 0)) vArgs
  | command_fcall => Command.command_fcall_run evaluate vArgs
  | command_host run => run vArgs
  end.

(** [evaluate] and [expand] of every node; [expand] returns the vector
    [vTokens] it was given, extended. *)
Fixpoint evaluate (fuel : nat) (n : evaluable) {struct fuel} : M shell_status :=
  match fuel with
  | O => lift OutOfFuel
  | S fuel' =>
    match n with
    | shell_node_command m_pCommand =>
        bind (expand fuel' m_pCommand [] true) (fun vTokens =>
        match vTokens with
        | [] => lift (Undefined "vTokens[0] on an empty vector")
        | sName :: vArgs =>
            match get_command pShell sName with
            | None =>
                bind (msg_error_command_not_found sName) (fun _ =>
                ret SHELL_ERROR_COMMAND_NOT_FOUND)
            | Some pCommand =>
                bind (run_normalized (command_run (evaluate fuel') pCommand vArgs))
                  (fun nStatus =>
                bind (update_session (fun s => Session.set_last_command_result s nStatus))
                  (fun _ => ret nStatus))
            end
        end)
    | shell_node_null_command _ =>
        bind (update_session (fun s => Session.set_last_command_result s SHELL_SUCCESS))
          (fun _ => ret SHELL_SUCCESS)
    | shell_node_command_block _ m_vSubCommands =>
        bind (block_loop (evaluate fuel') m_vSubCommands) (fun _ =>
        read (fun s _ => Session.get_last_command_result s))
    | shell_node_command_block_subshell _ m_vSubCommands =>
        bind (subshell_loop (evaluate fuel') m_vSubCommands) (fun _ =>
        read (fun s _ => Session.get_last_command_result s))
    | shell_node_background _ _ => ret SHELL_SUCCESS
    | shell_node_operator nType _ _ m_pLeft m_pRight =>
        let left : M shell_status :=
          match m_pLeft with
          | Some pLeft => evaluate fuel' pLeft
          | None => lift (Undefined "null left operand")
          end in
        let right : M shell_status :=
          match m_pRight with
          | Some pRight => evaluate fuel' pRight
          | None => lift (Undefined "null right operand")
          end in
        match nType with
        | SNT_AND =>
            bind left (fun nLeft =>
            if nLeft =? SHELL_SUCCESS then right else ret nLeft)
        | SNT_OR =>
            bind left (fun nLeft =>
            if negb (nLeft =? SHELL_SUCCESS) then right else ret nLeft)
        | SNT_PIPE =>
            bind (fun s σ => let '(l, σ') := new_ostringstream σ in (Ok l, s, σ'))
              (fun oStdOut =>
            bind (fun s σ => in_session (Session.make_pipe_left s oStdOut) left s σ)
              (fun _ =>
            bind (fun s σ =>
                    let '(l, σ') := new_istringstream (ostream_str oStdOut σ) σ in
                    (Ok l, s, σ')) (fun oStdIn =>
            fun s σ => in_session (Session.make_pipe_right s oStdIn) right s σ)))
        | _ => lift (Undefined "operator node of another type")
        end
    | shell_node_test _ m_pTest =>
        bind (expand fuel' m_pTest [] true) (fun vTokens =>
        let run :=
          match get_command pShell "test" with
          | Some pTest => command_run (evaluate fuel') pTest vTokens
          | None => command_test_run vTokens
          end in
        bind (run_normalized run) (fun nStatus =>
        bind (update_session (fun s => Session.set_last_command_result s nStatus))
          (fun _ => ret nStatus)))
    | shell_node_if _ m_pCondition m_pCaseIf m_pCaseElse =>
        bind (evaluate fuel' m_pCondition) (fun nCondition =>
        if nCondition =? SHELL_SUCCESS then evaluate fuel' m_pCaseIf
        else
          match m_pCaseElse with
          | Some pCaseElse => evaluate fuel' pCaseElse
          | None => read (fun s _ => Session.get_last_command_result s)
          end)
    | shell_node_continue _ => throw continue_signal
    | shell_node_break _ => throw break_signal
    | shell_node_for _ m_sVariable m_pSequence m_pIterative =>
        bind (expand fuel' m_pSequence [] true) (fun vSequence =>
        bind (for_loop (evaluate fuel' m_pIterative) m_sVariable vSequence) (fun _ =>
        read (fun s _ => Session.get_last_command_result s)))
    | shell_node_while _ m_pCondition m_pIterative =>
        bind (while_loop fuel' false (evaluate fuel' m_pCondition)
                (evaluate fuel' m_pIterative)) (fun _ =>
        read (fun s _ => Session.get_last_command_result s))
    | shell_node_until _ m_pCondition m_pIterative =>
        bind (while_loop fuel' true (evaluate fuel' m_pCondition)
                (evaluate fuel' m_pIterative)) (fun _ =>
        read (fun s _ => Session.get_last_command_result s))
    | shell_node_function _ m_pName m_pBody =>
        bind (expand fuel' m_pName [] true) (fun vName =>
        match vName with
        | [sName] =>
            if is_var sName then
              bind (fun s σ =>
                      match Session.set_func s sName (st_tree σ, m_pBody) σ with
                      | Ok σ' => (Ok tt, s, σ')
                      | Throw x => (Throw x, s, σ)
                      | Undefined why => (Undefined why, s, σ)
                      | OutOfFuel => (OutOfFuel, s, σ)
                      end) (fun _ => ret SHELL_SUCCESS)
            else
              bind (msg_error_invalid_function_name (concat_vector EmptyString vName))
                (fun _ => ret SHELL_ERROR_SYNTAX_ERROR_INVALID_FUNCTION_NAME)
        | _ =>
            bind (msg_error_invalid_function_name (concat_vector EmptyString vName))
              (fun _ => ret SHELL_ERROR_SYNTAX_ERROR_INVALID_FUNCTION_NAME)
        end)
    end
  end

with expand (fuel : nat) (n : expandable) (vTokens : list string) (bSplit : bool)
    {struct fuel} : M (list string) :=
  match fuel with
  | O => lift OutOfFuel
  | S fuel' =>
    match n with
    | shell_node_command_expression m_vChildren =>
        bind (expression_loop (fun pChild => expand fuel' pChild [] true) m_vChildren
                (vTokens, EmptyString)) (fun acc => ret (glue_finish acc))
    | shell_node_word _ m_sText => ret (vTokens ++ [m_sText])
    | shell_node_unicode _ m_cCharacter =>
        ret (vTokens ++ [write_char32_t EmptyString m_cCharacter])
    | shell_node_str_simple _ m_vChildren
    | shell_node_str_double _ m_vChildren =>
        bind (str_loop (fun pChild => expand fuel' pChild [] false) m_vChildren EmptyString)
          (fun oOstream => ret (vTokens ++ [oOstream]))
    | shell_node_str_back _ m_pCommand =>
        substitute (evaluate fuel') m_pCommand m_oStdOut vTokens bSplit
    | shell_node_dollar_command _ m_pCommand =>
        substitute (evaluate fuel') m_pCommand m_oStdErr vTokens bSplit
    | _ =>
        match get_value n with
        | Some value =>
            fun s σ =>
              match value s σ with
              | Ok sValue => (Ok (push_value vTokens bSplit sValue), s, σ)
              | Throw x => (Throw x, s, σ)
              | Undefined why => (Undefined why, s, σ)
              | OutOfFuel => (OutOfFuel, s, σ)
              end
        | None => lift (Undefined "not an extractor node")
        end
    end
  end.

(** The three overloads of [shell::run].  The stream overload reads the
    whole stream first. *)
Definition run_fuel (sCommand : string) : nat := 64 * (String.length sCommand + 2).

Definition run_string (fuel : nat) (sCommand : string) : M shell_status :=
  eval (evaluate fuel) (mk_ifakestream sCommand 0).

Definition run_string_view (fuel : nat) (sCommand : string) : M shell_status :=
  eval (evaluate fuel) (mk_ifakestream sCommand 0).

Definition run_istream (fuel : nat) (oCommand : loc) : M shell_status :=
  fun s σ =>
    let sCommand := default EmptyString (st_istream σ !! oCommand) in
    let σ := set_st_istream σ (<[oCommand := EmptyString]> (st_istream σ)) in
    eval (evaluate fuel) (mk_ifakestream sCommand 0) s σ.

End WithShell.
End Interp.

(** ** Notions used in the statements *)

(** The session object as a step leaves it. *)
Definition session_after {A : Type} (r : outcome A * shell_session * store)
  : shell_session := snd (fst r).

(** A step that leaves the evaluation-time depth counter of the session
    where it found it. *)
Definition keeps_depth {A : Type} (m : M A) : Prop :=
  forall s σ, m_nCurrentDepth (session_after (m s σ)) = m_nCurrentDepth s.

(** Whether the loop of [while] ([bUntil = false]) or of [until]
    ([bUntil = true]) runs its body after the condition returned
    [nCondition]. *)
Definition enters (bUntil : bool) (nCondition : shell_status) : bool :=
  xorb (nCondition =? SHELL_SUCCESS) bUntil.

(** The exception of a depth guard that refuses to open a scope in the
    parser state [p]: the max-depth status at the position of the current
    token. *)
Definition max_depth_reached (p : shell_parser) : exn :=
  parser_exception
    (mk_parser_exception SHELL_ERROR_MAX_DEPTH_REACHED (Fakestream.str (m_oIstream p))
       (TokenHolder.pos (m_oIstream p) (m_oTokens p))).

(** A parsing step is balanced when, started with a depth counter between
    0 and the bound, it leaves the counter where it found it if it
    returns, and at most one above if it throws: every scope it opened
    has been closed, and the one increment that may remain is that of the
    guard that refused to open. *)
Definition balanced {A : Type} (m : P A) : Prop :=
  forall p r p',
    0 <= m_nDepth p <= Parser.MAX_DEPTH ->
    m p = (r, p') ->
    match r with
    | Ok _ => m_nDepth p' = m_nDepth p
    | Throw _ => m_nDepth p <= m_nDepth p' <= m_nDepth p + 1
    | _ => True
    end.

(** All the parsing functions, with [fuel] units of fuel, are balanced. *)
Definition all_balanced (fuel : nat) : Prop :=
  (forall nEnd nStartPos v t, balanced (Parser.parse_block_loop fuel nEnd nStartPos v t))
  /\ (forall nEnd nMode nStartPos v t,
        balanced (Parser.parse_block_keyword_loop fuel nEnd nMode nStartPos v t))
  /\ (forall nMode nStartPos v t,
        balanced (Parser.parse_command_group_loop fuel nMode nStartPos v t))
  /\ (forall nMode, balanced (Parser.parse_command_group fuel nMode))
  /\ (forall v nType nPos nMode,
        balanced (Parser.parse_command_group_oper fuel v nType nPos nMode))
  /\ balanced (Parser.parse_parentheses fuel)
  /\ balanced (Parser.parse_brackets fuel)
  /\ balanced (Parser.parse_sqr_brackets fuel)
  /\ (forall v t, balanced (Parser.parse_test_expression_loop fuel v t))
  /\ (forall nMode, balanced (Parser.parse_command fuel nMode))
  /\ (forall nMode v t, balanced (Parser.parse_command_expression_loop fuel nMode v t))
  /\ (forall nStartPos v t, balanced (Parser.parse_quote_double_loop fuel nStartPos v t))
  /\ balanced (Parser.parse_quote_double fuel)
  /\ balanced (Parser.parse_quote_back fuel)
  /\ balanced (Parser.parse_dollar fuel)
  /\ balanced (Parser.parse_dollar_command fuel)
  /\ (forall nKeyword nMode, balanced (Parser.parse_keyword fuel nKeyword nMode))
  /\ balanced (Parser.parse_if fuel)
  /\ balanced (Parser.parse_for fuel)
  /\ balanced (Parser.parse_while fuel)
  /\ balanced (Parser.parse_until fuel)
  /\ balanced (Parser.parse_function fuel).

(** A shell in which [eval] is not registered and whose other commands,
    the default [test] included, leave the depth counter alone. *)
Definition without_eval `{Collaborators} (pShell : shell) : Prop :=
  (forall vArgs, keeps_depth (command_test_run vArgs))
  /\ forall sName pCommand,
      get_command pShell sName = Some pCommand ->
      match pCommand with
      | command_eval => False
      | command_host run => forall vArgs, keeps_depth (run vArgs)
      | _ => True
      end.

(** *** Fields of a text *)

(** A field: a text that is not empty and holds no blank. *)
Definition nonblank (c : ascii) : bool := negb (is_blank c).
Definition is_field (w : string) : bool :=
  negb (ofs_empty w) && str_forall (fun c => negb (is_blank c)) w.

(** The bytes of [s] that pass [f], in their order; the texts of [v] put
    end to end. *)
Fixpoint str_filter (f : ascii -> bool) (s : string) : string :=
  match s with
  | EmptyString => EmptyString
  | String c rest => if f c then String c (str_filter f rest) else str_filter f rest
  end.

Definition str_concat (v : list string) : string := fold_right String.append EmptyString v.

(** *** Numbers in texts *)

(** The two texts that [is_number] accepts although they hold no digit. *)
Definition is_lone_sign (sArg : string) : bool :=
  String.eqb sArg "+" || String.eqb sArg "-".

(** A text that [is_number] accepts and that holds a digit. *)
Definition is_integer_text (sArg : string) : bool :=
  is_number sArg && negb (is_lone_sign sArg).

(** The value of such a text for [std::stoull], where a leading minus
    negates modulo [2^64], and its value as a signed integer. *)
Definition number_value (sArg : string) : Z :=
  match sArg with
  | String c rest =>
      if Ascii.eqb c "+"%char then digits_value 0 rest
      else if Ascii.eqb c "-"%char then (- digits_value 0 rest) mod size_t_mod
      else digits_value 0 sArg
  | EmptyString => 0
  end.

Definition signed_value (sArg : string) : Z :=
  match sArg with
  | String c rest =>
      if Ascii.eqb c "+"%char then digits_value 0 rest
      else if Ascii.eqb c "-"%char then - digits_value 0 rest
      else digits_value 0 sArg
  | EmptyString => 0
  end.

(** The [n] first terms of the arithmetic progression from [nBegin] by
    [nStep], and the number of terms that lie between [nBegin] and
    [nEnd]. *)
Fixpoint progression (nBegin nStep : Z) (n : nat) : list Z :=
  match n with
  | O => []
  | S n' => nBegin :: progression (nBegin + nStep) nStep n'
  end.

Definition seq_count (nBegin nStep nEnd : Z) : nat :=
  Z.to_nat ((nEnd - nBegin) / nStep + 1).

(** *** UTF-8 *)

(** A code point; one that is not a surrogate; one beyond the basic
    plane. *)
Definition is_code_point (cChar : Z) : Prop := 0 <= cChar <= 1114111.

Definition is_scalar_value (cChar : Z) : bool :=
  (0 <=? cChar) && (cChar <=? 1114111) && negb ((55296 <=? cChar) && (cChar <=? 57343)).

Definition in_supplementary_planes (cChar : Z) : bool :=
  (65536 <=? cChar) && (cChar <=? 1114111).

(** The number of bytes of the UTF-8 encoding of a code point, and the
    bytes [10xxxxxx] that follow the first one. *)
Definition utf8_width (cChar : Z) : Z :=
  if cChar <=? 127 then 1 else if cChar <=? 2047 then 2
  else if cChar <=? 65535 then 3 else 4.

Definition is_continuation (c : ascii) : bool := Z.land (byte_of c) 192 =? 128.

(** Whether the bytes that [write_char32_t] writes for [cChar] are a
    sequence that [getCodePointAtByte] reads as one character. *)
Definition well_encoded (cChar : Z) : bool :=
  match Eval.write_char32_t EmptyString cChar with
  | String cFirst rest =>
      bool_decide (utf8_length (byte_of cFirst) = Some (utf8_width cChar))
      && (str_size rest =? utf8_width cChar - 1)
      && str_forall is_continuation rest
  | EmptyString => false
  end.

(** The text that [write_char32_t] writes for the characters of
    [vChars], one after the other. *)
Definition utf8_text (vChars : list Z) : string :=
  str_concat (map (Eval.write_char32_t EmptyString) vChars).

(** [test] on the [2^k] integers from [lo] on; and, for a high
    surrogate, whether [combine_surrogates] with every low surrogate lies
    beyond the basic plane. *)
Fixpoint holds_on_block (test : Z -> bool) (k : nat) (lo : Z) : bool :=
  match k with
  | O => test lo
  | S k' => holds_on_block test k' lo && holds_on_block test k' (lo + 2 ^ Z.of_nat k')
  end.

Definition pairs_combine_well (high : Z) : bool :=
  holds_on_block (fun low => in_supplementary_planes (Utf.combine_surrogates high low))
    10 56320.

(** *** Lines of a text *)

Definition not_newline (c : ascii) : bool := negb (Ascii.eqb c LF).

(** A text that is empty or ends with a newline; one that is empty or
    starts with one. *)
Definition ends_lines (s : string) : Prop :=
  s = EmptyString \/ exists front, s = front +:+ String LF EmptyString.
Definition starts_line_break (s : string) : Prop :=
  s = EmptyString \/ exists back, s = String LF back.

(** *** Texts of nodes *)

(** The text of a node whose expansion reads the session and nothing
    else, in a session where reading it succeeds: a word, a character, and
    the nodes with a [get_value]. *)
Definition text_of `{Collaborators} (n : expandable) (s : shell_session) (σ : store)
  : option string :=
  match n with
  | shell_node_word _ m_sText => Some m_sText
  | shell_node_unicode _ m_cCharacter => Some (Eval.write_char32_t EmptyString m_cCharacter)
  | _ =>
      match Eval.get_value n with
      | Some value => match value s σ with Ok sValue => Some sValue | _ => None end
      | None => None
      end
  end.

(** *** What an evaluation writes *)

(** [m'] keeps the objects of [m]: every object of [m] is still there, and
    holds what it held unless [written] names it. *)
Definition kept {V : Type} (written : loc -> Prop) (m m' : gmap loc V) : Prop :=
  forall l, is_Some (m !! l) ->
    is_Some (m' !! l) /\ (~ written l -> m' !! l = m !! l).

(** From [σ] to [σ'] nothing is destroyed, no argument vector changes, and
    the environments, locals, function tables and output streams that
    change are among [E], [V], [T] and [O]; objects created in between are
    free. *)
Record writes_only (E V T O : loc -> Prop) (σ σ' : store) : Prop := mk_writes_only {
  wo_env : kept E (st_env σ) (st_env σ');
  wo_arg : kept (fun _ => False) (st_arg σ) (st_arg σ');
  wo_var : kept V (st_var σ) (st_var σ');
  wo_vtable : kept T (st_vtable σ) (st_vtable σ');
  wo_ostream : kept O (st_ostream σ) (st_ostream σ')
}.

(** The objects that are written through a session: its environment, its
    locals, its function table, its output and error streams; and
    [std::cout], on which [fcall] prints whatever the session's streams
    are. *)
Definition footprint (s : shell_session) : store -> store -> Prop :=
  writes_only (fun l => l = m_pEnv s) (fun l => l = m_pVar s)
    (fun l => m_pVtable s = Some l)
    (fun l => l = m_oStdOut s \/ l = m_oStdErr s \/ l = std_cout).

(** [s'] holds the objects that [s] holds. *)
Definition same_objects (s s' : shell_session) : Prop :=
  m_pEnv s' = m_pEnv s /\ m_pArg s' = m_pArg s /\ m_pVar s' = m_pVar s
  /\ m_pVtable s' = m_pVtable s /\ m_oStdIn s' = m_oStdIn s
  /\ m_oStdOut s' = m_oStdOut s /\ m_oStdErr s' = m_oStdErr s.

(** A step that leaves the session on its objects and writes through the
    session, or on [std::cout], only. *)
Definition confined {A : Type} (m : M A) : Prop :=
  forall s σ, same_objects s (session_after (m s σ)) /\ footprint s σ (snd (m s σ)).

(** A shell whose host commands, and the host's [test], are confined. *)
Definition confined_shell `{Collaborators} (pShell : shell) : Prop :=
  (forall vArgs, confined (command_test_run vArgs))
  /\ forall sName run,
      get_command pShell sName = Some (command_host run) ->
      forall vArgs, confined (run vArgs).

(** What a session reads through its pointers is the same in [σ'] as in
    [σ]. *)
Definition unchanged_for (s : shell_session) (σ σ' : store) : Prop :=
  Session.env_of s σ' = Session.env_of s σ
  /\ Session.var_of s σ' = Session.var_of s σ
  /\ Session.vtable_of s σ' = Session.vtable_of s σ
  /\ Session.arg_of s σ' = Session.arg_of s σ.

(** The expression that [parse_command] builds from a name and words
    separated by blanks: a word node for each, a [nullptr] child for each
    run of blanks. *)
Definition words_expression (nPos : Z) (sName : string) (vWords : list (Z * string))
  : expandable :=
  shell_node_command_expression
    (Some (shell_node_word nPos sName)
     :: flat_map (fun w => [None; Some (shell_node_word (fst w) (snd w))]) vWords).

(** *** Words and blanks in a text *)

(** A byte that the tokenizer reads as part of a token of type [nType],
    and neither as the end of the text nor as the delimiter [0] of the
    outermost call. *)
Definition is_byte_of (nType : shell_token_type) (c : ascii) : bool :=
  bool_decide (Tokenizer.get_token_type (Fakestream.char_value c) = nType)
  && negb (Fakestream.char_value c =? Fakestream.EOF_VALUE)
  && negb (Fakestream.char_value c =? 0).

(** A piece of a text: a word or a run of blanks, with its bytes. *)
Definition is_piece (p : shell_token_type * string) : bool :=
  negb (ofs_empty (snd p))
  && (bool_decide (fst p = TK_WORD) || bool_decide (fst p = TK_SPACE))
  && str_forall (is_byte_of (fst p)) (snd p).

(** Words and runs of blanks alternate. *)
Fixpoint alternate (ps : list (shell_token_type * string)) : bool :=
  match ps with
  | p :: (q :: _) as rest => negb (bool_decide (fst p = fst q)) && alternate rest
  | _ => true
  end.

(** What ends the loop of the outermost call of [tokens]: the end of the
    text, a byte 255, which [get] returns as [EOF_VALUE], or a byte 0,
    which equals the delimiter [0]. *)
Definition stops (tail : string) : bool :=
  match tail with
  | EmptyString => true
  | String c _ =>
      (Fakestream.char_value c =? Fakestream.EOF_VALUE) || (Fakestream.char_value c =? 0)
  end.

Definition pieces_text (ps : list (shell_token_type * string)) : string :=
  str_concat (map snd ps).

(** One token for each piece, from the byte [nPos] on. *)
Fixpoint piece_tokens (nPos : Z) (ps : list (shell_token_type * string))
  : list shell_token :=
  match ps with
  | [] => []
  | p :: rest =>
      mk_token (fst p) nPos (mk_view nPos (str_size (snd p)))
      :: piece_tokens (nPos + str_size (snd p)) rest
  end.

(** The turn of the loop of [tokens] on a byte of a word or of a run of
    blanks, in the outermost call; the loop from the byte [j] of the text
    on. *)
Definition add_piece_byte (nType : shell_token_type) (vTokens : list shell_token)
    (oStdIn : ifakestream) : list shell_token :=
  match nType with
  | TK_WORD => Tokenizer.add_word vTokens oStdIn 0
  | _ => Tokenizer.add_space vTokens oStdIn
  end.

Definition loop_from (fuel : nat) (vTokens : list shell_token) (text : string) (j : Z)
  : outcome (list shell_token * ifakestream) :=
  let '(cChar, oStdIn) := Fakestream.get (mk_ifakestream text j) in
  Tokenizer.tokens_loop fuel vTokens oStdIn 0 0 0 cChar.

(** The test [vName.size() != 1 || !is_var(vName[0])] of
    [shell_node_function::evaluate]. *)
Definition invalid_function_name (vName : list string) : bool :=
  match vName with
  | [sName] => negb (is_var sName)
  | _ => true
  end.

(** The table of the session derivations, for the session [s] in the
    store [σ]: [make_subsession] copies the environment, the locals and
    the function table into new objects that start with the parent's
    contents and whose later changes do not reach the parent, shares the
    arguments and takes the three streams given; [make_function_call]
    shares the environment and the function table, has new empty locals
    and new arguments, and keeps the streams; [make_pipe_left] and
    [make_pipe_right] replace only the output, respectively the input,
    stream.  Sharing is holding the same address. *)
Definition follows_the_table (s : shell_session) (σ : store) : Prop :=
  (forall oStdIn oStdOut oStdErr,
      exists c σ',
        Session.make_subsession s oStdIn oStdOut oStdErr σ = Ok (c, σ')
        /\ (m_pEnv c <> m_pEnv s /\ Session.env_of c σ' = Session.env_of s σ)
        /\ (m_pVar c <> m_pVar s /\ Session.var_of c σ' = Session.var_of s σ)
        /\ (m_pVtable c <> m_pVtable s
            /\ Session.vtable_of c σ' = Session.vtable_of s σ)
        /\ m_pArg c = m_pArg s
        /\ (m_oStdIn c = oStdIn /\ m_oStdOut c = oStdOut /\ m_oStdErr c = oStdErr)
        /\ (forall sName sValue,
              Session.env_of s (Session.set_env c sName sValue σ') = Session.env_of s σ)
        /\ (forall sName sValue,
              Session.var_of s (Session.set_var c sName sValue σ') = Session.var_of s σ)
        /\ (forall sName pFunction,
              exists σ'', Session.set_func c sName pFunction σ' = Ok σ''
                          /\ Session.vtable_of s σ'' = Session.vtable_of s σ))
  /\ (forall oArg,
        let c := fst (Session.make_function_call s oArg σ) in
        let σ' := snd (Session.make_function_call s oArg σ) in
        (m_pEnv c = m_pEnv s /\ m_pVtable c = m_pVtable s)
        /\ (m_pVar c <> m_pVar s /\ Session.var_of c σ' = ∅)
        /\ (m_pArg c <> m_pArg s /\ Session.arg_of c σ' = oArg)
        /\ (m_oStdIn c = m_oStdIn s /\ m_oStdOut c = m_oStdOut s
            /\ m_oStdErr c = m_oStdErr s)
        /\ (forall sName sValue,
              Session.env_of s (Session.set_env c sName sValue σ')
              = <[sName := sValue]> (Session.env_of s σ))
        /\ (forall sName sValue,
              Session.var_of s (Session.set_var c sName sValue σ') = Session.var_of s σ))
  /\ (forall oStdOut,
        let c := Session.make_pipe_left s oStdOut in
        m_pEnv c = m_pEnv s /\ m_pVar c = m_pVar s /\ m_pArg c = m_pArg s
        /\ m_pVtable c = m_pVtable s
        /\ m_oStdOut c = oStdOut /\ m_oStdIn c = m_oStdIn s
        /\ m_oStdErr c = m_oStdErr s)
  /\ (forall oStdIn,
        let c := Session.make_pipe_right s oStdIn in
        m_pEnv c = m_pEnv s /\ m_pVar c = m_pVar s /\ m_pArg c = m_pArg s
        /\ m_pVtable c = m_pVtable s
        /\ m_oStdIn c = oStdIn /\ m_oStdOut c = m_oStdOut s
        /\ m_oStdErr c = m_oStdErr s)
  /\ (forall l sName sValue σ1,
        (Session.set_env (Session.make_pipe_left s l) sName sValue σ1
         = Session.set_env s sName sValue σ1
         /\ Session.set_var (Session.make_pipe_left s l) sName sValue σ1
            = Session.set_var s sName sValue σ1)
        /\ (Session.set_env (Session.make_pipe_right s l) sName sValue σ1
            = Session.set_env s sName sValue σ1
            /\ Session.set_var (Session.make_pipe_right s l) sName sValue σ1
               = Session.set_var s sName sValue σ1)).

(** ** Sessions and programs used in the examples *)

Module Examples.

(** A shell that knows [echo], [eval] and [fcall]. *)
Definition the_shell : shell :=
  mk_shell (<["echo" := command_echo]> (<["eval" := command_eval]>
            (<["fcall" := command_fcall]> ∅))) true.

(** That shell with the four variable commands of [make_default_shell]. *)
Definition var_shell : shell :=
  mk_shell (<["getvar" := command_host Command.command_getvar_run]>
            (<["setvar" := command_host Command.command_setvar_run]>
             (<["getenv" := command_host Command.command_getenv_run]>
              (<["setenv" := command_host Command.command_setenv_run]>
               (m_mCommands the_shell))))) true.

(** A shell that knows [echo] only. *)
Definition echo_shell : shell := mk_shell (<["echo" := command_echo]> ∅) true.

(** The host streams: an input stream at address 0, an output stream at
    1 and an error stream at 2, and [std::cout], all empty; no tree is
    parsed yet. *)
Definition host_store : store :=
  mk_store ∅ ∅ ∅ ∅ (<[0%nat := EmptyString]> ∅)
    (<[std_cout := EmptyString]>
       (<[1%nat := EmptyString]> (<[2%nat := EmptyString]> ∅))) ∅ 0%nat.

(** [shell_session oSession(pShell, oStdIn, oStdOut, oStdErr)]. *)
Definition session0 : shell_session := fst (Session.new_session 0%nat 1%nat 2%nat host_store).
Definition store0 : store := snd (Session.new_session 0%nat 1%nat 2%nat host_store).

(** A host without a [test] command, whose process identifier is 0. *)
Definition absent_collaborators : Collaborators := {|
  command_test_run := fun _ => Eval.lift (Undefined "command_test");
  get_pid := 0
|}.

(** The session of the test suite: [pos1] and [pos2] in the environment,
    [pos2] also as a local. *)
Definition store_pos2 : store :=
  Session.set_var session0 "pos2" "var2"
    (Session.set_env session0 "pos2" "env2"
       (Session.set_env session0 "pos1" "env1" store0)).

(** The store in which the host's standard input holds [sCommand]. *)
Definition with_stdin (sCommand : string) (σ : store) : store :=
  set_st_istream σ (<[0%nat := sCommand]> (st_istream σ)).

(** What a run wrote on standard output. *)
Definition stdout_of {A : Type} (r : outcome A * shell_session * store) : string :=
  ostream_str 1%nat (snd r).
Definition stderr_of {A : Type} (r : outcome A * shell_session * store) : string :=
  ostream_str 2%nat (snd r).

Definition word (nPos : Z) (sText : string) : option expandable :=
  Some (shell_node_word nPos sText).

(** The command [name], as [parse_command] builds it from one word. *)
Definition simple_command (nPos : Z) (sName : string) : evaluable :=
  shell_node_command (shell_node_command_expression [word nPos sName]).







(** [shell::run(sCommand, oSession)] on the session of the examples, with
    the store [σ]. *)
Definition run_source (fuel : nat) (sCommand : string) (σ : store)
  : outcome shell_status * shell_session * store :=
  @Interp.run_string absent_collaborators the_shell fuel sCommand session0 σ.

(** [shell::run(sCommand, oSession)] with the variable commands, on the
    session of the examples: the status and what was written on standard
    output. *)
Definition run_var_source (fuel : nat) (sCommand : string) : outcome shell_status * string :=
  let r := @Interp.run_string absent_collaborators var_shell fuel sCommand session0 store0 in
  (fst (fst r), stdout_of r).

(** A local and an exported variable set in a subshell, in a brace group,
    in a function and in the two stages of a pipe, and read afterwards;
    and set first, then read in a subshell, in a function and in a pipe
    stage. *)
Definition set_in_subshell : string := "(setvar x 1; setenv y 2); getvar x; getenv y".
Definition set_in_braces : string := "{setvar x 1; setenv y 2}; getvar x; getenv y".
Definition set_in_function : string :=
  "function f { setvar x 1; setenv y 2 } fcall f; getvar x; getenv y".
Definition set_in_pipe : string := "setvar x 1 | setenv y 2; getvar x; getenv y".
Definition read_in_subshell : string := "setvar x 1; setenv y 2; (getvar x; getenv y)".
Definition read_in_function : string :=
  "setvar x 1; setenv y 2; function f { getvar x; getenv y } fcall f".
Definition read_in_pipe : string := "setvar x 1; setenv y 2; echo -n | getvar x; getenv y".
Definition function_in_subshell : string := "(function f { echo -n a }); fcall f".
Definition function_in_braces : string := "{function f { echo -n a }}; fcall f".

(** [shell_session oSession(pShell, oStdIn, oStdOut, oStdErr, oEnv, oArg)]
    with an empty environment and no arguments, and [shell::run] on it. *)
Definition session_env_arg : shell_session :=
  fst (Session.new_session_env_arg 0%nat 1%nat 2%nat ∅ [] host_store).
Definition store_env_arg : store :=
  snd (Session.new_session_env_arg 0%nat 1%nat 2%nat ∅ [] host_store).
Definition run_env_arg_source (fuel : nat) (sCommand : string) : outcome shell_status :=
  fst (fst (@Interp.run_string absent_collaborators var_shell fuel sCommand
              session_env_arg store_env_arg)).

(** The store of the examples in which the local [multi] holds [x y]. *)
Definition store_multi : store := Session.set_var session0 "multi" "x y" store0.

(** The store of the examples while the nodes of a parsed tree are
    evaluated. *)
Definition store_in_tree : store := set_st_trees store0 {[st_tree store0]}.

(** The name and the body of [function f { echo -n a }] and the name of
    [function $multi { echo -n a }], as [parse_function] builds them. *)
Definition name_f : expandable := shell_node_command_expression [word 9 "f"; None].
Definition body_echo_a : evaluable :=
  shell_node_command_block 6
    [Some (shell_node_command
             (shell_node_command_expression
                [word 13 "echo"; None; word 18 "-n"; None; word 21 "a"; None]))].
Definition name_multi : expandable :=
  shell_node_command_expression [Some (shell_node_variable 10 "multi"); None].

(** The tree of a program text. *)
Definition parsed (sCommand : string) : evaluable :=
  match Parser.parse (mk_ifakestream sCommand 0) with
  | Ok pMainNode => pMainNode
  | _ => shell_node_null_command 0
  end.

(** The store in which the local [x] holds [0] and [f] is the function
    of [function f { setvar x 1; getvar x }], a node of the tree under
    evaluation. *)
Definition store_with_f : store :=
  snd (@Interp.evaluate absent_collaborators var_shell 20
         (parsed "setvar x 0; function f { setvar x 1; getvar x }")
         session0 store_in_tree).

(** Two calls of [shell::run] on the session of the examples, one after
    the other: the two results and what standard output holds in the
    end. *)
Definition run_var_sources (fuel : nat) (sFirst sSecond : string)
  : outcome shell_status * outcome shell_status * string :=
  let r1 := @Interp.run_string absent_collaborators var_shell fuel sFirst session0 store0 in
  let r2 := @Interp.run_string absent_collaborators var_shell fuel sSecond
              (snd (fst r1)) (snd r1) in
  (fst (fst r1), fst (fst r2), stdout_of r2).

(** A text in which the parser hands [shell_node_operator::make] an
    operator node as its left operand: after [a || b &] the last
    expression of the group is the [||] node when [&&] is read. *)
Definition or_background_and_source : string := "a || b & && c".

(** The plain chain: the parser reads what follows an operator as a group
    of its own. *)
Definition or_and_source : string := "a||b&&c".

(** The command [name] followed by a split point, as [parse_command]
    builds it from a word followed by a space. *)
Definition spaced_command (nPos : Z) (sName : string) : evaluable :=
  shell_node_command (shell_node_command_expression [word nPos sName; None]).

(** [$x] alone as a command, and [a${multi}b] as a word. *)
Definition lone_variable_command : evaluable :=
  shell_node_command (shell_node_command_expression [Some (shell_node_variable 1 "x")]).

Definition a_multi_b : expandable :=
  shell_node_command_expression
    [word 0 "a"; Some (shell_node_dollar_variable 3 "multi"); word 9 "b"].

(** The two as commands in a source text. *)
Definition echo_a_multi_b_source : string := "echo -n a${multi}b".
Definition lone_variable_source : string := "$x".

(** A parser on the empty text whose depth counter stands at [d]. *)
Definition parser_at_depth (d : Z) : shell_parser :=
  mk_parser (mk_ifakestream EmptyString 0) (mk_holder [] (-1)) d.

(** The command [eval x]. *)
Definition eval_x : evaluable :=
  shell_node_command (shell_node_command_expression [word 0 "eval"; None; word 5 "x"]).

(** Nested parentheses: [n] opening ones, then [n] closing ones. *)
Definition nested_parentheses (n : nat) : string :=
  Nat.iter n (String "(") (Nat.iter n (String ")") EmptyString).

(** Nested braces, likewise. *)
Definition nested_braces (n : nat) : string :=
  Nat.iter n (String "{") (Nat.iter n (String "}") EmptyString).

(** [n] nested command substitutions, conditionals and loops. *)
Definition nested_dollar_commands (n : nat) : string :=
  Nat.iter n (fun s => "$(" +:+ s +:+ ")") EmptyString.
Definition nested_if (n : nat) : string :=
  Nat.iter n (fun s => "if a; then " +:+ s +:+ " fi;") "b;".
Definition nested_for (n : nat) : string :=
  Nat.iter n (fun s => "for i in 1; do " +:+ s +:+ " done;") "b;".
Definition nested_while (n : nat) : string :=
  Nat.iter n (fun s => "while a; do " +:+ s +:+ " done;") "b;".
Definition nested_until (n : nat) : string :=
  Nat.iter n (fun s => "until a; do " +:+ s +:+ " done;") "b;".

(** The status and the position of the exception a parse ends with. *)
Definition parse_failure (sCommand : string) : option (shell_status * Z) :=
  match Parser.parse (mk_ifakestream sCommand 0) with
  | Throw (parser_exception e) => Some (m_nStatus e, m_nPos e)
  | _ => None
  end.

(** Whether a parse returns a tree. *)
Definition parses (sCommand : string) : bool :=
  match Parser.parse (mk_ifakestream sCommand 0) with
  | Ok _ => true
  | _ => false
  end.

(** The session of the examples with its depth counter at [d]. *)
Definition session_at_depth (d : Z) : shell_session := Session.set_depth session0 d.

(** A program that runs itself through [eval]: the variable [x] holds a
    text that prints [a] and then evaluates the double-quoted [$x], and
    the program ends by evaluating the double-quoted [$x]. *)
Definition DQUOTE : string := String (ascii_of_nat 34) EmptyString.
Definition eval_of_itself : string :=
  "setvar x 'echo -n a; eval " +:+ DQUOTE +:+ "$x" +:+ DQUOTE +:+ "'; eval "
  +:+ DQUOTE +:+ "$x" +:+ DQUOTE.

(** [shell::run] on a text with [eval] and the variable commands, on the
    session of the examples: the status, the session's depth counter, and
    what was written on standard output and on standard error. *)
Definition run_eval_source (fuel : nat) (sCommand : string)
  : outcome shell_status * Z * string * string :=
  let r := @Interp.run_string absent_collaborators var_shell fuel sCommand session0 store0 in
  (fst (fst r), m_nCurrentDepth (snd (fst r)), ostream_str 1%nat (snd r),
   ostream_str 2%nat (snd r)).

(** The session of the function tests of [test_shell.cpp]: its error
    stream is [std::cout].  [shell::run] on it: the status, what the
    output stream holds and what [std::cout] holds. *)
Definition session_cout : shell_session :=
  fst (Session.new_session 0%nat 1%nat std_cout host_store).
Definition store_cout : store :=
  snd (Session.new_session 0%nat 1%nat std_cout host_store).
Definition run_cout_source (fuel : nat) (sCommand : string)
  : outcome shell_status * string * string :=
  let r := @Interp.run_string absent_collaborators the_shell fuel sCommand
             session_cout store_cout in
  (fst (fst r), ostream_str 1%nat (snd r), ostream_str std_cout (snd r)).

(** Two of those tests: a function that prints its first argument, in
    double quotes, and one that prints all its arguments. *)
Definition echon_quoted_source : string :=
  "function echon {echo -n " +:+ DQUOTE +:+ "$1" +:+ DQUOTE
  +:+ "} fcall echon 'Hello World!'".
Definition echon_all_source : string :=
  "function echon {echo -n $@} fcall echon Hello World!".

(** A text whose second line holds a stray closing parenthesis. *)
Definition stray_parenthesis_on_line_2 : string := String "a" (String LF ")").

(** The command [nosuch], and [eval] on a stray closing parenthesis with
    the exception its parse ends with. *)
Definition nosuch_expression : expandable :=
  shell_node_command_expression [word 0 "nosuch"].
Definition eval_stray_expression : expandable :=
  shell_node_command_expression [word 0 "eval"; None; word 5 ")"].
Definition stray_exception : shell_parser_exception :=
  mk_parser_exception SHELL_ERROR_SYNTAX_ERROR_UNEXPECTED_TOKEN ")" 0.

(** A stream on the text [41], and one on a text of three bytes. *)
Definition hex_41 : ifakestream := mk_ifakestream "41" 0.
Definition stream_abc : ifakestream := mk_ifakestream "abc" 0.

End Examples.

(** * Properties *)

(** ** [shell_node_operator::make] *)

Section OperatorFacts.
Import Operator.

Lemma make_central_priority t nPos c :
  make_central t nPos = Ok c ->
  c = shell_node_operator t nPos (default 0 (priority_of t)) None None.
Proof. destruct t; simpl; intros E; inversion E; reflexivity. Qed.

(** A left operand that is not an operator, or is one of priority at
    least that of the new node, becomes the left child as it is. *)
Lemma make_left_attach c l :
  is_operator c = true ->
  is_operator l = false \/ (is_operator l = true /\ get_priority c <= get_priority l) ->
  make_left c l = (set_m_pLeft c (Some l), get_priority c).
Proof.
  intros Hc [Hl | [Hl Hp]]; unfold make_left; rewrite Hl; simpl; [reflexivity|].
  destruct (Z.geb_spec (get_priority l) (get_priority c)); [reflexivity | lia].
Qed.

(** A right operand that is not an operator, or is one of priority
    strictly below that of the current root, becomes the right child of
    the current root. *)
Lemma make_right_attach c prio r :
  is_operator r = false \/ (is_operator r = true /\ get_priority r < prio) ->
  make_right c prio r = set_m_pRight c (Some r).
Proof.
  intros [Hr | [Hr Hp]]; unfold make_right; rewrite Hr; simpl; [reflexivity|].
  destruct (Z.ltb_spec (get_priority r) prio); [reflexivity | lia].
Qed.

(** Otherwise the right operand becomes the top: its former left child
    goes to the current root, which becomes its left child. *)
Lemma make_right_rotate c prio r :
  is_operator r = true -> prio <= get_priority r ->
  make_right c prio r = set_m_pLeft r (Some (set_m_pRight c (get_left r))).
Proof.
  intros Hr Hp. unfold make_right. rewrite Hr. simpl.
  destruct (Z.ltb_spec (get_priority r) prio); [lia | reflexivity].
Qed.

(** With no rotation on the left, [make] builds the node the four steps
    describe. *)
Lemma make_plain t nPos l r :
  is_Some (priority_of t) ->
  is_operator l = false \/
    (is_operator l = true /\ default 0 (priority_of t) <= get_priority l) ->
  is_operator r = false \/
    (is_operator r = true /\ get_priority r < default 0 (priority_of t)) ->
  make t nPos (Some l) (Some r) = Ok (op t nPos l r).
Proof.
  intros [prio Ht] Hl Hr. unfold make.
  assert (Hc : make_central t nPos
               = Ok (shell_node_operator t nPos (default 0 (priority_of t)) None None)).
  { destruct t; simpl in Ht; try discriminate; reflexivity. }
  rewrite Hc. cbn [mbind outcome_mbind outcome_bind].
  rewrite make_left_attach by (simpl; auto).
  rewrite make_right_attach by (simpl; auto).
  reflexivity.
Qed.

(** The rotation on the left: the left operand, of lower priority, becomes
    the current root, and the right operand then replaces its right child,
    where the new node had just been put. *)
Lemma make_left_rotate_then_attach t nPos lt lpos lprio ll lr r :
  is_Some (priority_of t) ->
  lprio < default 0 (priority_of t) ->
  is_operator r = false ->
  make t nPos (Some (shell_node_operator lt lpos lprio ll lr)) (Some r)
  = Ok (shell_node_operator lt lpos lprio ll (Some r)).
Proof.
  intros [prio Ht] Hp Hr. unfold make.
  assert (Hc : make_central t nPos
               = Ok (shell_node_operator t nPos (default 0 (priority_of t)) None None)).
  { destruct t; simpl in Ht; try discriminate; reflexivity. }
  rewrite Hc. cbn [mbind outcome_mbind outcome_bind].
  unfold make_left. simpl.
  destruct (Z.geb_spec lprio (default 0 (priority_of t))); [lia|].
  simpl. rewrite make_right_attach by auto. reflexivity.
Qed.

End OperatorFacts.

(** C1.  Combining the operator node [a || b] on the left with the command
    [c] on the right under [&&], the left-to-right reading of
    [a || b && c], does not give [a || (b && c)]: after the rotation the
    right operand is stored in the right child of the old [||] node, where
    the new [&&] node had just been placed, so that [make] returns
    [a || c] and the new node is lost together with [b].  The parser
    reaches this case on the text [a || b & && c], whose tree has no trace
    of [b].  On the text [a||b&&c] the parser does not: it reads [b&&c] as
    a group of its own and hands [make] a command block on the right, so
    that the tree is [a || { b && { c } }]. *)
Theorem make_or_then_and_loses_the_and_node :
  let a := Examples.simple_command 0 "a" in
  let b := Examples.simple_command 5 "b" in
  let c := Examples.simple_command 10 "c" in
  Operator.make SNT_AND 7 (Some (Operator.op SNT_OR 2 a b)) (Some c)
    = Ok (Operator.op SNT_OR 2 a c)
  /\ Operator.make SNT_AND 7 (Some (Operator.op SNT_OR 2 a b)) (Some c)
    <> Ok (Operator.op SNT_OR 2 a (Operator.op SNT_AND 7 b c))
  /\ Parser.parse (mk_ifakestream Examples.or_background_and_source 0)
    = Ok (shell_node_command_block 0
            [Some (Operator.op SNT_OR 2 (Examples.spaced_command 0 "a")
                     (shell_node_command_block 10
                        [Some (Examples.simple_command 12 "c")]))])
  /\ Parser.parse (mk_ifakestream Examples.or_and_source 0)
    = Ok (shell_node_command_block 0
            [Some (Operator.op SNT_OR 1 (Examples.simple_command 0 "a")
                     (shell_node_command_block 2
                        [Some (Operator.op SNT_AND 4 (Examples.simple_command 3 "b")
                                 (shell_node_command_block 4
                                    [Some (Examples.simple_command 6 "c")]))]))]).
Proof.
  split; [reflexivity | split; [discriminate | split; vm_compute; reflexivity]].
Qed.

(** ** The gluing of a command expression *)

Section GlueFacts.
Import Eval.

(** A [nullptr] child pushes a non-empty word buffer and empties it. *)
Lemma glue_step_split_point vTokens oWord :
  glue_step (vTokens, oWord) None
  = if ofs_empty oWord then (vTokens, oWord) else (vTokens ++ [oWord], EmptyString).
Proof. simpl. destruct (ofs_empty oWord); reflexivity. Qed.

(** A child that expands to nothing changes nothing. *)
Lemma glue_step_no_token vTokens oWord :
  glue_step (vTokens, oWord) (Some []) = (vTokens, oWord).
Proof. reflexivity. Qed.

(** A child that expands to one token: the token is appended to the
    buffer and the buffer is pushed at once; it is empty afterwards. *)
Lemma glue_step_one_token vTokens oWord sToken :
  glue_step (vTokens, oWord) (Some [sToken])
  = (vTokens ++ [oWord +:+ sToken], EmptyString).
Proof. simpl. rewrite app_nil_r. reflexivity. Qed.

(** A child that expands to two tokens or more. *)
Lemma glue_step_many_tokens vTokens oWord sFirst vMiddle sLast :
  glue_step (vTokens, oWord) (Some (sFirst :: vMiddle ++ [sLast]))
  = ((vTokens ++ [oWord +:+ sFirst]) ++ vMiddle, sLast).
Proof.
  unfold glue_step. rewrite removelast_last, last_snoc. reflexivity.
Qed.

(** At the end a non-empty buffer is the last token. *)
Lemma glue_finish_trailing vTokens oWord :
  glue_finish (vTokens, oWord)
  = if ofs_empty oWord then vTokens else vTokens ++ [oWord].
Proof. simpl. destruct (ofs_empty oWord); reflexivity. Qed.

End GlueFacts.

Section ExpansionFacts.
Context `{Collaborators}.
Variable pShell : shell.
Import Eval Examples.

(** C2.  In [a${multi}b] with [multi] holding [x y], the literal [a] is
    not glued to the first word of the expansion: the child [a] expands to
    one token, which is pushed at once, and the expansion yields the three
    tokens [a], [x], [yb] instead of [ax], [yb].  Two adjacent one-token
    children [a] and [b] likewise give two tokens.  Run from its source
    text, [echo -n a${multi}b] writes [a x yb]. *)
Theorem expand_a_multi_b_does_not_glue_a :
  fst (fst (Interp.expand pShell 2 a_multi_b [] true session0 store_multi))
    = Ok ["a"; "x"; "yb"]
  /\ glue [] [Some ["a"]; Some ["x"; "y"]; Some ["b"]] = ["a"; "x"; "yb"]
  /\ glue [] [Some ["a"]; Some ["b"]] = ["a"; "b"]
  /\ Parser.parse (mk_ifakestream "a${multi}b" 0)
      = Ok (shell_node_command_block 0 [Some (shell_node_command a_multi_b)])
  /\ (forall fuel,
        let r := run_source (8 + fuel) echo_a_multi_b_source store_multi in
        fst (fst r) = Ok SHELL_SUCCESS /\ stdout_of r = "a x yb").
Proof.
  split; [vm_compute; reflexivity |].
  split; [vm_compute; reflexivity |].
  split; [vm_compute; reflexivity |].
  split; [vm_compute; reflexivity |].
  intros fuel. vm_compute. split; reflexivity.
Qed.

(** C9.  The command [$x] in a session where [x] is unset: the expansion
    of the command expression produces no token and [evaluate] reads
    [vTokens[0]] of an empty vector.  The text [$x] parses to that command
    and [run] on it ends in the same read. *)
Theorem evaluate_lone_unset_variable_reads_empty_argv :
  fst (fst (Interp.expand pShell 2
              (shell_node_command_expression [Some (shell_node_variable 1 "x")])
              [] true session0 store0)) = Ok []
  /\ fst (fst (Interp.evaluate pShell 3 lone_variable_command session0 store0))
     = Undefined "vTokens[0] on an empty vector"
  /\ Parser.parse (mk_ifakestream lone_variable_source 0)
     = Ok (shell_node_command_block 0 [Some lone_variable_command])
  /\ (forall fuel,
        fst (fst (run_source (8 + fuel) lone_variable_source store0))
        = Undefined "vTokens[0] on an empty vector").
Proof.
  split; [vm_compute; reflexivity |].
  split; [vm_compute; reflexivity |].
  split; [vm_compute; reflexivity |].
  intros fuel. vm_compute. reflexivity.
Qed.

(** The value of [$name] and of [${name}] follows the lookup order
    locals, environment, empty string. *)
Lemma variable_get_value_lookup sVariable s σ :
  variable_get_value sVariable s σ
  = match Session.var_of s σ !! sVariable with
    | Some sValue => sValue
    | None => default EmptyString (Session.env_of s σ !! sVariable)
    end.
Proof.
  unfold variable_get_value, Session.has_var, Session.get_var, Session.has_env,
    Session.get_env.
  destruct (Session.var_of s σ !! sVariable) as [v|] eqn:Ev.
  - rewrite bool_decide_eq_true_2 by eauto. reflexivity.
  - rewrite bool_decide_eq_false_2 by (intros [? ?]; discriminate).
    destruct (Session.env_of s σ !! sVariable) as [e|] eqn:Ee.
    + rewrite bool_decide_eq_true_2 by eauto. reflexivity.
    + rewrite bool_decide_eq_false_2 by (intros [? ?]; discriminate). reflexivity.
Qed.

(** Writing one namespace leaves the other as it was. *)
Lemma set_env_var_of s sVariable sValue σ :
  Session.var_of s (Session.set_env s sVariable sValue σ) = Session.var_of s σ.
Proof. reflexivity. Qed.

Lemma set_var_env_of s sVariable sValue σ :
  Session.env_of s (Session.set_var s sVariable sValue σ) = Session.env_of s σ.
Proof. reflexivity. Qed.

Lemma set_var_var_of s sVariable sValue σ :
  Session.var_of s (Session.set_var s sVariable sValue σ)
  = <[sVariable := sValue]> (Session.var_of s σ).
Proof.
  unfold Session.var_of at 1, Session.set_var. simpl.
  rewrite lookup_insert_eq. reflexivity.
Qed.

Lemma set_env_env_of s sVariable sValue σ :
  Session.env_of s (Session.set_env s sVariable sValue σ)
  = <[sVariable := sValue]> (Session.env_of s σ).
Proof.
  unfold Session.env_of at 1, Session.set_env. simpl.
  rewrite lookup_insert_eq. reflexivity.
Qed.

(** C7.  A bare variable expands to the local of that name when there is
    one, else to the environment variable of that name when there is one,
    else to the empty string, for [$name] and for [${name}] alike; a
    local shadows the environment variable of the same name, writing one
    namespace does not change what the other holds, and an absent variable
    reads like one that holds the empty string.  In the session of the
    test suite, [echo -n $pos1 $pos2] writes [env1 var2], with braces or
    without, and [echo -n $pos3] writes nothing. *)
Theorem bare_variable_lookup_order :
  forall (nPos : Z) (sVariable : string) (s : shell_session) (σ : store),
    let value :=
      match Session.var_of s σ !! sVariable with
      | Some sValue => sValue
      | None =>
          match Session.env_of s σ !! sVariable with
          | Some sValue => sValue
          | None => EmptyString
          end
      end in
    (forall fuel vTokens bSplit n,
        n = shell_node_variable nPos sVariable
        \/ n = shell_node_dollar_variable nPos sVariable ->
        Interp.expand pShell (S fuel) n vTokens bSplit s σ
        = (Ok (push_value vTokens bSplit value), s, σ))
    /\ (forall sLocal sOther,
        variable_get_value sVariable s
          (Session.set_env s sVariable sOther (Session.set_var s sVariable sLocal σ))
        = sLocal)
    /\ (forall sName sValue,
        Session.var_of s (Session.set_env s sName sValue σ) = Session.var_of s σ
        /\ Session.env_of s (Session.set_var s sName sValue σ) = Session.env_of s σ)
    /\ (Session.var_of s σ !! sVariable = None ->
        Session.env_of s σ !! sVariable = None ->
        variable_get_value sVariable s σ
        = variable_get_value sVariable s (Session.set_env s sVariable EmptyString σ)
        /\ variable_get_value sVariable s σ
        = variable_get_value sVariable s (Session.set_var s sVariable EmptyString σ))
    /\ (forall fuel,
        stdout_of (run_source (8 + fuel) "echo -n $pos1 $pos2" store_pos2) = "env1 var2"
        /\ stdout_of (run_source (8 + fuel) "echo -n ${pos1} ${pos2}" store_pos2)
           = "env1 var2"
        /\ stdout_of (run_source (8 + fuel) "echo -n $pos3" store_pos2) = EmptyString).
Proof.
  intros nPos sVariable s σ value.
  assert (Hv : variable_get_value sVariable s σ = value).
  { rewrite variable_get_value_lookup. subst value.
    destruct (Session.var_of s σ !! sVariable); [reflexivity|].
    destruct (Session.env_of s σ !! sVariable); reflexivity. }
  split; [|split; [|split; [|split]]];
    [| | | | intros fuel; vm_compute; repeat split].
  - intros fuel vTokens bSplit n [-> | ->]; simpl; rewrite Hv; reflexivity.
  - intros sLocal sOther. rewrite variable_get_value_lookup.
    rewrite set_env_var_of, set_var_var_of, lookup_insert_eq. reflexivity.
  - intros sName sValue. split; reflexivity.
  - intros Hvar Henv. rewrite !variable_get_value_lookup.
    rewrite set_env_var_of, set_env_env_of, set_var_var_of, set_var_env_of.
    rewrite Hvar, Henv, !lookup_insert_eq. simpl. split; reflexivity.
Qed.

(** C10.  [$#] is the decimal text of the number of stored arguments
    minus one, computed in [std::size_t]; with no stored argument this is
    [18446744073709551615], which is what [echo -n $#] writes in a session
    made by the constructor. *)
Theorem dollar_hash_wraps_on_empty_arguments :
  forall (nPos : Z) (s : shell_session) (σ : store),
    special_get_value "#" s σ
    = to_string_unsigned ((Z.of_nat (List.length (Session.arg_of s σ)) - 1) mod 2 ^ 64)
    /\ (forall fuel vTokens,
        Interp.expand pShell (S fuel) (shell_node_dollar_special nPos "#") vTokens false s σ
        = (Ok (vTokens ++ [special_get_value "#" s σ]), s, σ))
    /\ (Session.arg_of s σ = [] ->
        special_get_value "#" s σ = "18446744073709551615"
        /\ special_get_value "#" s σ <> "-1"
        /\ special_get_value "#" s σ <> "0")
    /\ (forall fuel,
        stdout_of (run_source (8 + fuel) "echo -n $#" store0) = "18446744073709551615").
Proof.
  intros nPos s σ.
  assert (E : special_get_value "#" s σ
              = to_string_unsigned
                  ((Z.of_nat (List.length (Session.arg_of s σ)) - 1) mod 2 ^ 64))
    by reflexivity.
  split; [exact E | split; [| split]].
  - intros fuel vTokens. reflexivity.
  - intros Hempty. rewrite E. rewrite Hempty.
    split; [vm_compute; reflexivity | split; vm_compute; discriminate].
  - intros fuel. vm_compute. reflexivity.
Qed.

End ExpansionFacts.

(** Witness of C7: the session of the test suite, where [pos2] is both an
    environment variable and a local, read at the name [pos3] that
    neither namespace holds. *)
Lemma bare_variable_lookup_order_witness :
  Session.var_of Examples.session0 Examples.store_pos2 !! "pos3" = None
  /\ Session.env_of Examples.session0 Examples.store_pos2 !! "pos3" = None
  /\ Eval.variable_get_value "pos3" Examples.session0 Examples.store_pos2
     = Eval.variable_get_value "pos3" Examples.session0
         (Session.set_env Examples.session0 "pos3" EmptyString Examples.store_pos2).
Proof.
  assert (Hvar : Session.var_of Examples.session0 Examples.store_pos2 !! "pos3" = None)
    by (vm_compute; reflexivity).
  assert (Henv : Session.env_of Examples.session0 Examples.store_pos2 !! "pos3" = None)
    by (vm_compute; reflexivity).
  split; [exact Hvar | split; [exact Henv |]].
  exact (proj1 (proj1 (proj2 (proj2 (proj2
           (@bare_variable_lookup_order Examples.absent_collaborators Examples.the_shell
              0 "pos3" Examples.session0 Examples.store_pos2)))) Hvar Henv)).
Defined.

(** Witness of C10: a session made by the constructor has no argument. *)
Lemma dollar_hash_wraps_on_empty_arguments_witness :
  Session.arg_of Examples.session0 Examples.store0 = []
  /\ @Eval.special_get_value Examples.absent_collaborators "#"
      Examples.session0 Examples.store0 = "18446744073709551615".
Proof.
  assert (Hempty : Session.arg_of Examples.session0 Examples.store0 = [])
    by (vm_compute; reflexivity).
  split; [exact Hempty |].
  exact (proj1 (proj1 (proj2 (proj2
           (@dollar_hash_wraps_on_empty_arguments Examples.absent_collaborators
              Examples.the_shell 0 Examples.session0 Examples.store0))) Hempty)).
Defined.

(** ** The diagnostic message *)

Section DiagnosticFacts.
Context `{Collaborators}.
Import Examples.

(** Tokenizing [a], newline, [)] fails at the parenthesis, byte 2 of the
    text and byte 0 of its line. *)
Lemma stray_parenthesis_fails_at_byte_2 :
  Parser.parse (mk_ifakestream stray_parenthesis_on_line_2 0)
  = Throw (parser_exception
             (mk_parser_exception SHELL_ERROR_SYNTAX_ERROR_UNEXPECTED_TOKEN
                stray_parenthesis_on_line_2 2)).
Proof. vm_compute. reflexivity. Qed.

(** C6.  For the failing parse of the text [a], newline, [)], whose error
    is at byte 2, the first byte of the second line, the message has two
    spaces before the caret although the column of that byte in its line
    is 0: the column is computed by [getCodePointAtByte(sLine, nPos)] with
    the offset [nPos] counted from the start of the whole text. *)
Theorem caret_is_misplaced_after_the_first_line :
  Parser.parse (mk_ifakestream stray_parenthesis_on_line_2 0)
  = Throw (parser_exception
             (mk_parser_exception SHELL_ERROR_SYNTAX_ERROR_UNEXPECTED_TOKEN
                stray_parenthesis_on_line_2 2))
  /\ getLineFromPosition stray_parenthesis_on_line_2 2 = Ok ")"
  /\ column_in_line stray_parenthesis_on_line_2 2 = 0
  /\ makeMessage SHELL_ERROR_SYNTAX_ERROR_UNEXPECTED_TOKEN stray_parenthesis_on_line_2 2
     = Ok ("Unexpected token" +:+ String LF ")"
           +:+ String LF "  ^~~~"
           +:+ String LF "Code point: 2"
           +:+ String LF "Byte: 2" +:+ String LF EmptyString)
  /\ makeMessage SHELL_ERROR_SYNTAX_ERROR_UNEXPECTED_TOKEN stray_parenthesis_on_line_2 2
     <> Ok (expected_message SHELL_ERROR_SYNTAX_ERROR_UNEXPECTED_TOKEN
              stray_parenthesis_on_line_2 2 ")" 2).
Proof.
  refine (conj stray_parenthesis_fails_at_byte_2 (conj _ (conj _ (conj _ _))));
    vm_compute; first [reflexivity | discriminate].
Qed.

(** On the first line the same error is reported under its column. *)
Lemma caret_is_placed_on_the_first_line :
  makeMessage SHELL_ERROR_SYNTAX_ERROR_UNEXPECTED_TOKEN "ab)" 2
  = Ok (expected_message SHELL_ERROR_SYNTAX_ERROR_UNEXPECTED_TOKEN "ab)" 2 "ab)" 2).
Proof. vm_compute. reflexivity. Qed.

End DiagnosticFacts.

(** ** The entry points [shell::run] *)

Section RunFacts.
Context `{Collaborators}.
Variable pShell : shell.
Import Examples.

(** Whatever [shell_parser::parse] throws leaves [eval], and so each
    overload of [run], as an exception; the session and the store, the
    error stream included, are as before the call. *)
Lemma eval_propagates_parse_exception evaluate sCommand x s σ :
  Parser.parse (mk_ifakestream sCommand 0) = Throw x ->
  Interp.eval evaluate (mk_ifakestream sCommand 0) s σ = (Throw x, s, σ).
Proof.
  intros Hparse. unfold Interp.eval, Eval.bind, Eval.lift. rewrite Hparse. reflexivity.
Qed.

(** The [try] block that follows the [return] of [eval] would turn the
    exception into its status. *)
Lemma eval_try_block_returns_status evaluate sCommand e s σ :
  Parser.parse (mk_ifakestream sCommand 0) = Throw (parser_exception e) ->
  fst (fst (Interp.eval_try_block evaluate (mk_ifakestream sCommand 0) s σ))
  = match what e with
    | Ok _ => Ok (m_nStatus e)
    | Throw x => Throw x
    | Undefined why => Undefined why
    | OutOfFuel => OutOfFuel
    end.
Proof.
  intros Hparse. unfold Interp.eval_try_block, Eval.bind, Eval.lift.
  rewrite Hparse. unfold Eval.msg_error_syntax_error, Eval.bind, Eval.lift.
  destruct (what e); reflexivity.
Qed.

(** C3.  On the source [)], whose tokenizing throws the positioned
    unexpected-token exception, each of the three overloads of [run]
    throws that exception to its caller instead of returning its status:
    nothing is written to the error stream, and no status is returned.
    The [try] block of [eval] that would report the exception and return
    status 12 is never reached.  The same holds for an exception of the
    parser, as on the source [| a], and for every source whose parse
    throws. *)
Theorem run_throws_on_a_syntax_error :
  forall (fuel : nat),
    let oException :=
      mk_parser_exception SHELL_ERROR_SYNTAX_ERROR_UNEXPECTED_TOKEN ")" 0 in
    Interp.run_string pShell fuel ")" session0 store0
      = (Throw (parser_exception oException), session0, store0)
    /\ Interp.run_string_view pShell fuel ")" session0 store0
      = (Throw (parser_exception oException), session0, store0)
    /\ fst (fst (Interp.run_istream pShell fuel 0%nat session0 (with_stdin ")" store0)))
      = Throw (parser_exception oException)
    /\ stderr_of (Interp.run_istream pShell fuel 0%nat session0 (with_stdin ")" store0))
      = EmptyString
    /\ fst (fst (Interp.eval_try_block (Interp.evaluate pShell fuel)
                   (mk_ifakestream ")" 0) session0 store0))
      = Ok SHELL_ERROR_SYNTAX_ERROR_UNEXPECTED_TOKEN
    /\ Interp.run_string pShell fuel "| a" session0 store0
      = (Throw (parser_exception
                  (mk_parser_exception SHELL_ERROR_SYNTAX_ERROR_UNEXPECTED_TOKEN "| a" 0)),
         session0, store0)
    /\ (forall sCommand x s σ,
          Parser.parse (mk_ifakestream sCommand 0) = Throw x ->
          Interp.run_string pShell fuel sCommand s σ = (Throw x, s, σ)
          /\ Interp.run_string_view pShell fuel sCommand s σ = (Throw x, s, σ)).
Proof.
  intros fuel oException.
  assert (Hparse : Parser.parse (mk_ifakestream ")" 0)
                   = Throw (parser_exception oException)) by (vm_compute; reflexivity).
  refine (conj _ (conj _ (conj _ (conj _ (conj _ (conj _ _)))))).
  - apply eval_propagates_parse_exception, Hparse.
  - apply eval_propagates_parse_exception, Hparse.
  - unfold Interp.run_istream.
    replace (default EmptyString (st_istream (with_stdin ")" store0) !! 0%nat))
      with ")" by (vm_compute; reflexivity).
    rewrite eval_propagates_parse_exception with (x := parser_exception oException)
      by exact Hparse.
    reflexivity.
  - unfold Interp.run_istream.
    replace (default EmptyString (st_istream (with_stdin ")" store0) !! 0%nat))
      with ")" by (vm_compute; reflexivity).
    rewrite eval_propagates_parse_exception with (x := parser_exception oException)
      by exact Hparse.
    vm_compute. reflexivity.
  - rewrite eval_try_block_returns_status with (e := oException) by exact Hparse.
    vm_compute. reflexivity.
  - apply eval_propagates_parse_exception. vm_compute. reflexivity.
  - intros sCommand x s σ Hthrow.
    split; apply eval_propagates_parse_exception, Hthrow.
Qed.

End RunFacts.

(** ** Session derivations *)

Section SessionFacts.
Import Session.

Lemma alloc_fresh {V : Type} (m : gmap loc V) (v : V) :
  m !! fst (alloc m v) = None.
Proof. unfold alloc. simpl. apply not_elem_of_dom, is_fresh. Qed.

Lemma alloc_lookup {V : Type} (m : gmap loc V) (v : V) :
  snd (alloc m v) !! fst (alloc m v) = Some v.
Proof. unfold alloc. simpl. apply lookup_insert_eq. Qed.

Lemma alloc_other {V : Type} (m : gmap loc V) (v : V) (l : loc) :
  is_Some (m !! l) -> l <> fst (alloc m v) /\ snd (alloc m v) !! l = m !! l.
Proof.
  intros [w Hl].
  assert (Hne : l <> fst (alloc m v)).
  { intros ->. rewrite alloc_fresh in Hl. discriminate. }
  split; [exact Hne |]. unfold alloc. simpl.
  apply lookup_insert_ne. intros E. apply Hne. symmetry. exact E.
Qed.

(** [make_subsession]: environment, locals and function table are new
    objects with the contents of the parent's, the arguments are the
    parent's object, the streams are the ones given; the parent's objects
    are not touched, and writing through the child does not reach them. *)
Lemma make_subsession_spec s σ oStdIn oStdOut oStdErr :
  wf s σ ->
  exists c σ',
    make_subsession s oStdIn oStdOut oStdErr σ = Ok (c, σ')
    /\ (m_pEnv c <> m_pEnv s /\ env_of c σ' = env_of s σ)
    /\ (m_pVar c <> m_pVar s /\ var_of c σ' = var_of s σ)
    /\ (m_pVtable c <> m_pVtable s /\ vtable_of c σ' = vtable_of s σ)
    /\ m_pArg c = m_pArg s
    /\ (m_oStdIn c = oStdIn /\ m_oStdOut c = oStdOut /\ m_oStdErr c = oStdErr)
    /\ (env_of s σ' = env_of s σ /\ var_of s σ' = var_of s σ
        /\ vtable_of s σ' = vtable_of s σ /\ arg_of s σ' = arg_of s σ)
    /\ (forall sName sValue, env_of s (set_env c sName sValue σ') = env_of s σ)
    /\ (forall sName sValue, var_of s (set_var c sName sValue σ') = var_of s σ)
    /\ (forall sName pFunction,
          exists σ'', set_func c sName pFunction σ' = Ok σ''
                      /\ vtable_of s σ'' = vtable_of s σ).
Proof.
  intros (Henv & Harg & Hvar & lt & Hvt & Hvtable).
  destruct (alloc_other (st_env σ) (env_of s σ) _ Henv) as [Hne_env Hkeep_env].
  destruct (alloc_other (st_var σ) (var_of s σ) _ Hvar) as [Hne_var Hkeep_var].
  destruct (alloc_other (st_vtable σ) (default ∅ (st_vtable σ !! lt)) _ Hvtable)
    as [Hne_vt Hkeep_vt].
  unfold alloc in *. simpl in *.
  eexists _, _. split.
  { unfold make_subsession, vtable_of, alloc. rewrite Hvt. reflexivity. }
  unfold env_of, var_of, vtable_of, arg_of, set_env, set_var, set_func, derived in *.
  simpl in *. rewrite Hvt. simpl.
  rewrite !lookup_insert_eq. simpl.
  rewrite Hkeep_env, Hkeep_var, Hkeep_vt.
  repeat match goal with
         | |- _ /\ _ => split
         | |- forall _, _ => intro
         end; try reflexivity; try congruence.
  - rewrite lookup_insert_ne by congruence. rewrite Hkeep_env. reflexivity.
  - rewrite lookup_insert_ne by congruence. rewrite Hkeep_var. reflexivity.
  - eexists. split; [reflexivity |]. simpl.
    rewrite lookup_insert_ne by congruence. rewrite Hkeep_vt. reflexivity.
Qed.

(** [make_function_call]: the environment and the function table are the
    parent's objects, the locals are a new empty object, the arguments a
    new object holding [oArg], the streams are the parent's; the only
    stream written is [std::cout]. *)
Lemma make_function_call_spec s σ oArg :
  wf s σ ->
  let c := fst (make_function_call s oArg σ) in
  let σ' := snd (make_function_call s oArg σ) in
  (m_pEnv c = m_pEnv s /\ m_pVtable c = m_pVtable s)
  /\ (m_pVar c <> m_pVar s /\ var_of c σ' = ∅)
  /\ (m_pArg c <> m_pArg s /\ arg_of c σ' = oArg)
  /\ (m_oStdIn c = m_oStdIn s /\ m_oStdOut c = m_oStdOut s /\ m_oStdErr c = m_oStdErr s)
  /\ (env_of s σ' = env_of s σ /\ var_of s σ' = var_of s σ
      /\ vtable_of s σ' = vtable_of s σ /\ arg_of s σ' = arg_of s σ)
  /\ (st_istream σ' = st_istream σ
      /\ st_ostream σ'
         = st_ostream (cout_write ("fcall " +:+ get_arg s σ 1 +:+ endl) σ)
      /\ st_trees σ' = st_trees σ /\ st_tree σ' = st_tree σ)
  /\ (forall sName sValue,
        env_of s (set_env c sName sValue σ') = <[sName := sValue]> (env_of s σ))
  /\ (forall sName sValue, var_of s (set_var c sName sValue σ') = var_of s σ).
Proof.
  intros (Henv & Harg & Hvar & lt & Hvt & Hvtable) c σ'.
  destruct (alloc_other (st_arg σ) oArg _ Harg) as [Hne_arg Hkeep_arg].
  destruct (alloc_other (st_var σ) ∅ _ Hvar) as [Hne_var Hkeep_var].
  subst c σ'. unfold make_function_call, alloc in *. simpl in *.
  unfold env_of, var_of, arg_of, vtable_of, set_env, set_var, derived in *. simpl in *.
  rewrite !lookup_insert_eq, Hkeep_arg, Hkeep_var. simpl.
  repeat match goal with
         | |- _ /\ _ => split
         | |- forall _, _ => intro
         end; try reflexivity; try congruence.
  - rewrite lookup_insert_eq. reflexivity.
  - rewrite lookup_insert_ne by congruence. rewrite Hkeep_var. reflexivity.
Qed.


(** [make_pipe_left] and [make_pipe_right]: everything is the parent's
    object but the one stream that is given. *)
Lemma make_pipe_spec s l :
  (let c := make_pipe_left s l in
   m_pEnv c = m_pEnv s /\ m_pVar c = m_pVar s /\ m_pArg c = m_pArg s
   /\ m_pVtable c = m_pVtable s
   /\ m_oStdOut c = l /\ m_oStdIn c = m_oStdIn s /\ m_oStdErr c = m_oStdErr s)
  /\ (let c := make_pipe_right s l in
      m_pEnv c = m_pEnv s /\ m_pVar c = m_pVar s /\ m_pArg c = m_pArg s
      /\ m_pVtable c = m_pVtable s
      /\ m_oStdIn c = l /\ m_oStdOut c = m_oStdOut s /\ m_oStdErr c = m_oStdErr s).
Proof. simpl. repeat split. Qed.

(** Writing through a pipe session is writing through the parent. *)
Lemma make_pipe_writes s l sName sValue σ :
  (set_env (make_pipe_left s l) sName sValue σ = set_env s sName sValue σ
   /\ set_var (make_pipe_left s l) sName sValue σ = set_var s sName sValue σ)
  /\ (set_env (make_pipe_right s l) sName sValue σ = set_env s sName sValue σ
      /\ set_var (make_pipe_right s l) sName sValue σ = set_var s sName sValue σ).
Proof. split; split; reflexivity. Qed.

(** A session made by the constructor is well formed. *)
Lemma new_session_wf oStdIn oStdOut oStdErr σ :
  wf (fst (new_session oStdIn oStdOut oStdErr σ)) (snd (new_session oStdIn oStdOut oStdErr σ)).
Proof.
  unfold new_session, alloc, wf. simpl.
  rewrite !lookup_insert_eq.
  refine (conj _ (conj _ (conj _ _))); eauto.
  eexists. split; [reflexivity |]. rewrite lookup_insert_eq. eauto.
Qed.

(** The derivations at work in programs: what a subshell sets or defines
    is lost when it ends, what a brace group sets stays; a function call
    exports to its caller and keeps its locals to itself; the stages of a
    pipe write the caller's variables.  A subshell and a pipe stage read
    the caller's locals and environment, a function call only the
    environment. *)
Lemma session_derivations_in_programs (fuel : nat) :
  (Examples.run_var_source (10 + fuel) Examples.set_in_subshell = (Ok SHELL_SUCCESS, EmptyString)
   /\ Examples.run_var_source (10 + fuel) Examples.set_in_braces = (Ok SHELL_SUCCESS, "12")
   /\ Examples.run_var_source (10 + fuel) Examples.set_in_function = (Ok SHELL_SUCCESS, "2")
   /\ Examples.run_var_source (10 + fuel) Examples.set_in_pipe = (Ok SHELL_SUCCESS, "12"))
  /\ (Examples.run_var_source (10 + fuel) Examples.read_in_subshell = (Ok SHELL_SUCCESS, "12")
      /\ Examples.run_var_source (10 + fuel) Examples.read_in_function = (Ok SHELL_SUCCESS, "2")
      /\ Examples.run_var_source (10 + fuel) Examples.read_in_pipe = (Ok SHELL_SUCCESS, "12"))
  /\ (Examples.run_var_source (10 + fuel) Examples.function_in_subshell
      = (Ok SHELL_CMD_ERROR_FCALL_FUNCTION_NOT_FOUND, EmptyString)
      /\ Examples.run_var_source (10 + fuel) Examples.function_in_braces
         = (Ok SHELL_SUCCESS, "a")).
Proof. repeat split; vm_compute; reflexivity. Qed.

End SessionFacts.

(** From a well-formed session every derivation follows the table. *)
Lemma well_formed_session_follows_the_table (s : shell_session) (σ : store) :
  Session.wf s σ -> follows_the_table s σ.
Proof.
  intros Hwf. refine (conj _ (conj _ (conj _ (conj _ _)))).
  - intros oStdIn oStdOut oStdErr.
    destruct (make_subsession_spec s σ oStdIn oStdOut oStdErr Hwf)
      as (c & σ' & Hmk & Henv & Hvar & Hvt & Harg & Hstreams & _ & Hienv & Hivar & Hivt).
    exists c, σ'. repeat (split; [assumption |]). assumption.
  - intros oArg c σ'.
    destruct (make_function_call_spec s σ oArg Hwf)
      as (H1 & H2 & H3 & H4 & _ & _ & H5 & H6).
    repeat (split; [assumption |]). assumption.
  - intros oStdOut. exact (proj1 (make_pipe_spec s oStdOut)).
  - intros oStdIn. exact (proj2 (make_pipe_spec s oStdIn)).
  - intros l sName sValue σ1. apply make_pipe_writes.
Qed.

(** The session of the constructor that takes an environment and
    arguments: its function table is null, and so is the table of the
    sessions derived from it. *)
Lemma new_session_env_arg_spec oStdIn oStdOut oStdErr oEnv oArg σ :
  let s := fst (Session.new_session_env_arg oStdIn oStdOut oStdErr oEnv oArg σ) in
  let σ0 := snd (Session.new_session_env_arg oStdIn oStdOut oStdErr oEnv oArg σ) in
  m_pVtable s = None
  /\ Session.env_of s σ0 = oEnv /\ Session.arg_of s σ0 = oArg /\ Session.var_of s σ0 = ∅
  /\ (m_oStdIn s = oStdIn /\ m_oStdOut s = oStdOut /\ m_oStdErr s = oStdErr).
Proof.
  unfold Session.new_session_env_arg, alloc, Session.env_of, Session.arg_of, Session.var_of.
  simpl. rewrite !lookup_insert_eq. repeat split.
Qed.

Lemma null_table_is_dereferenced s σ :
  m_pVtable s = None ->
  (forall oStdIn oStdOut oStdErr,
      Session.make_subsession s oStdIn oStdOut oStdErr σ = Undefined "null m_pVtable")
  /\ (forall sName, Session.get_func s σ sName = Undefined "null m_pVtable")
  /\ (forall sName, Session.has_func s σ sName = Undefined "null m_pVtable")
  /\ (forall sName pFunction,
        Session.set_func s sName pFunction σ = Undefined "null m_pVtable").
Proof.
  intros Hnull.
  unfold Session.make_subsession, Session.get_func, Session.has_func, Session.set_func,
    Session.vtable_of, alloc.
  rewrite Hnull. repeat split.
Qed.

(** Programs on that session: a subshell, a command substitution, a
    back-quoted command, a function definition and a function call
    dereference the null table; a program with none of them runs. *)
Lemma programs_without_a_function_table (fuel : nat) :
  Examples.run_env_arg_source (10 + fuel) "(echo a)" = Undefined "null m_pVtable"
  /\ Examples.run_env_arg_source (10 + fuel) "echo $(echo a)" = Undefined "null m_pVtable"
  /\ Examples.run_env_arg_source (10 + fuel) "echo `echo a`" = Undefined "null m_pVtable"
  /\ Examples.run_env_arg_source (10 + fuel) "function f { echo a }"
     = Undefined "null m_pVtable"
  /\ Examples.run_env_arg_source (10 + fuel) "fcall f" = Undefined "null m_pVtable"
  /\ Examples.run_env_arg_source (10 + fuel) "{setvar x 1}; getvar x | echo" = Ok SHELL_SUCCESS.
Proof. repeat split; vm_compute; reflexivity. Qed.

(** C4.  The table holds for the sessions of the constructor
    [shell_session(pShell, oStdIn, oStdOut, oStdErr)], which makes a
    function table, and fails for the sessions of the public constructor
    that also takes an environment and arguments, which has no initializer
    for [m_pVtable].  On such a session [make_subsession] dereferences the
    null pointer instead of copying a table, as do [get_func], [has_func]
    and [set_func]; [make_function_call], [make_pipe_left] and
    [make_pipe_right] hand the null pointer on.  A program run on it that
    holds a parenthesized subshell, a [$(...)], a back-quoted command, a
    function definition or [fcall] has undefined behaviour.  On the
    session of the other constructor every derivation follows the table
    ([follows_the_table]), and in programs run from their source text what
    a parenthesized subshell sets or defines is not seen after it, what a
    brace group, a function's [setenv] or a pipe stage sets is; a
    function's [setvar] is not, and a function does not read the caller's
    locals. *)
Theorem derivations_fail_on_the_session_with_environment_and_arguments :
  (forall (oStdIn oStdOut oStdErr : loc) (oEnv : gmap string string)
          (oArg : list string) (σ : store),
      let s := fst (Session.new_session_env_arg oStdIn oStdOut oStdErr oEnv oArg σ) in
      let σ0 := snd (Session.new_session_env_arg oStdIn oStdOut oStdErr oEnv oArg σ) in
      (m_pVtable s = None
       /\ Session.env_of s σ0 = oEnv /\ Session.arg_of s σ0 = oArg
       /\ Session.var_of s σ0 = ∅)
      /\ (forall oIn oOut oErr,
            Session.make_subsession s oIn oOut oErr σ0 = Undefined "null m_pVtable")
      /\ (forall sName, Session.get_func s σ0 sName = Undefined "null m_pVtable")
      /\ (forall sName, Session.has_func s σ0 sName = Undefined "null m_pVtable")
      /\ (forall sName pFunction,
            Session.set_func s sName pFunction σ0 = Undefined "null m_pVtable")
      /\ (forall oArg', m_pVtable (fst (Session.make_function_call s oArg' σ0)) = None)
      /\ (forall l, m_pVtable (Session.make_pipe_left s l) = None
                    /\ m_pVtable (Session.make_pipe_right s l) = None))
  /\ (forall fuel,
        Examples.run_env_arg_source (10 + fuel) "(echo a)" = Undefined "null m_pVtable"
        /\ Examples.run_env_arg_source (10 + fuel) "echo $(echo a)"
           = Undefined "null m_pVtable"
        /\ Examples.run_env_arg_source (10 + fuel) "echo `echo a`"
           = Undefined "null m_pVtable"
        /\ Examples.run_env_arg_source (10 + fuel) "function f { echo a }"
           = Undefined "null m_pVtable"
        /\ Examples.run_env_arg_source (10 + fuel) "fcall f" = Undefined "null m_pVtable"
        /\ Examples.run_env_arg_source (10 + fuel) "{setvar x 1}; getvar x | echo"
           = Ok SHELL_SUCCESS)
  /\ (forall (oStdIn oStdOut oStdErr : loc) (σ : store),
        follows_the_table (fst (Session.new_session oStdIn oStdOut oStdErr σ))
          (snd (Session.new_session oStdIn oStdOut oStdErr σ)))
  /\ (forall fuel,
        Examples.run_var_source (10 + fuel) Examples.set_in_subshell
        = (Ok SHELL_SUCCESS, EmptyString)
        /\ Examples.run_var_source (10 + fuel) Examples.set_in_braces
           = (Ok SHELL_SUCCESS, "12")
        /\ Examples.run_var_source (10 + fuel) Examples.set_in_function
           = (Ok SHELL_SUCCESS, "2")
        /\ Examples.run_var_source (10 + fuel) Examples.set_in_pipe
           = (Ok SHELL_SUCCESS, "12")
        /\ Examples.run_var_source (10 + fuel) Examples.read_in_subshell
           = (Ok SHELL_SUCCESS, "12")
        /\ Examples.run_var_source (10 + fuel) Examples.read_in_function
           = (Ok SHELL_SUCCESS, "2")
        /\ Examples.run_var_source (10 + fuel) Examples.read_in_pipe
           = (Ok SHELL_SUCCESS, "12")
        /\ Examples.run_var_source (10 + fuel) Examples.function_in_subshell
           = (Ok SHELL_CMD_ERROR_FCALL_FUNCTION_NOT_FOUND, EmptyString)
        /\ Examples.run_var_source (10 + fuel) Examples.function_in_braces
           = (Ok SHELL_SUCCESS, "a")).
Proof.
  refine (conj _ (conj _ (conj _ _))).
  - intros oStdIn oStdOut oStdErr oEnv oArg σ s σ0.
    destruct (new_session_env_arg_spec oStdIn oStdOut oStdErr oEnv oArg σ)
      as (Hnull & Henv & Harg & Hvar & _).
    fold s σ0 in Hnull, Henv, Harg, Hvar.
    destruct (null_table_is_dereferenced s σ0 Hnull) as (Hsub & Hget & Hhas & Hset).
    refine (conj (conj Hnull (conj Henv (conj Harg Hvar)))
              (conj Hsub (conj Hget (conj Hhas (conj Hset (conj _ _)))))).
    + intros oArg'. exact Hnull.
    + intros l. split; exact Hnull.
  - apply programs_without_a_function_table.
  - intros oStdIn oStdOut oStdErr σ.
    apply well_formed_session_follows_the_table, new_session_wf.
  - intros fuel.
    destruct (session_derivations_in_programs fuel)
      as ((H1 & H2 & H3 & H4) & (H5 & H6 & H7) & (H8 & H9)).
    repeat (split; [assumption |]). assumption.
Qed.

(** ** Totality of the diagnostic message *)

Lemma str_size_nonneg s : 0 <= str_size s.
Proof. unfold str_size. lia. Qed.

Lemma str_size_String a s : str_size (String a s) = str_size s + 1.
Proof. unfold str_size. simpl String.length. lia. Qed.

Lemma str_at_in_range s : forall i, 0 <= i < str_size s -> is_Some (str_at s i).
Proof.
  induction s as [|a s IH]; intros i Hi.
  - unfold str_size in Hi. simpl in Hi. lia.
  - rewrite str_size_String in Hi. simpl.
    destruct (Z.eqb_spec i 0); [eauto |].
    destruct (Z.ltb_spec i 0); [lia |].
    apply IH. lia.
Qed.

Lemma rfind_from_bound c s : forall i pos j,
  rfind_from c s i pos = Some j -> i <= j <= pos.
Proof.
  induction s as [|a s IH]; intros i pos j; simpl; [discriminate |].
  destruct (rfind_from c s (i + 1) pos) as [k|] eqn:E.
  - intros [= <-]. apply IH in E. lia.
  - destruct (Z.leb_spec i pos); simpl; [| discriminate].
    destruct (Ascii.eqb a c); [| discriminate].
    intros [= <-]. lia.
Qed.

Lemma line_start_bound sCommand nPos :
  0 <= nPos -> 0 <= line_start sCommand nPos <= nPos + 1.
Proof.
  intros Hpos. unfold line_start, str_rfind.
  destruct (rfind_from LF sCommand 0 nPos) as [j|] eqn:E; [| lia].
  apply rfind_from_bound in E. lia.
Qed.

Lemma getLineFromPosition_ok sCommand nPos :
  0 <= nPos -> exists sLine, getLineFromPosition sCommand nPos = Ok sLine.
Proof.
  intros Hpos. unfold getLineFromPosition.
  destruct (Z.leb_spec (str_size sCommand) nPos); [eauto |].
  unfold substr.
  pose proof (line_start_bound sCommand nPos Hpos).
  destruct (Z.ltb_spec (str_size sCommand) (line_start sCommand nPos)); [lia | eauto].
Qed.

Lemma utf8_length_positive b n : utf8_length b = Some n -> 1 <= n.
Proof.
  unfold utf8_length.
  repeat match goal with |- context [if ?c then _ else _] => destruct c end;
    intros [= <-]; lia.
Qed.

Lemma getCodePointAtByte_loop_ok sCommand nPos :
  forall fuel nByteIndex nCharIndex,
    0 <= nByteIndex <= nPos -> nPos < str_size sCommand ->
    nPos - nByteIndex < Z.of_nat fuel ->
    exists n, getCodePointAtByte_loop fuel sCommand nPos nByteIndex nCharIndex = Ok n.
Proof.
  induction fuel as [|fuel IH]; intros nByteIndex nCharIndex Hidx Hsize Hfuel; [lia |].
  simpl.
  destruct (Z.ltb_spec nByteIndex (str_size sCommand)); [| lia].
  destruct (str_at_in_range sCommand nByteIndex) as [c ->]; [lia |].
  destruct (utf8_length (byte_of c)) as [n|] eqn:Elen; [| eauto].
  apply utf8_length_positive in Elen.
  destruct (Z.leb_spec nByteIndex nPos); [| lia]. simpl.
  destruct (Z.ltb_spec nPos (nByteIndex + n)); [eauto |].
  apply IH; lia.
Qed.

Lemma getCodePointAtByte_ok sCommand nPos :
  0 <= nPos -> exists n, getCodePointAtByte sCommand nPos = Ok n.
Proof.
  intros Hpos. unfold getCodePointAtByte.
  destruct (Z.leb_spec (str_size sCommand) nPos); [eauto |].
  apply getCodePointAtByte_loop_ok; try lia.
  unfold str_size in *. lia.
Qed.

Lemma makeMessage_ok nStatus sCommand nPos :
  0 <= nPos -> exists sMessage, makeMessage nStatus sCommand nPos = Ok sMessage.
Proof.
  intros Hpos. unfold makeMessage.
  destruct (getLineFromPosition_ok sCommand nPos Hpos) as [sLine ->].
  cbn [mbind outcome_mbind outcome_bind].
  destruct (getCodePointAtByte_ok sLine nPos Hpos) as [n1 ->].
  destruct (getCodePointAtByte_ok sCommand nPos Hpos) as [n2 ->].
  cbn [mbind outcome_mbind outcome_bind]. eauto.
Qed.

(** Throwing a parser exception at a position does throw it. *)
Lemma throw_parser_exception_throws {A : Type} nStatus sCommand nPos :
  0 <= nPos ->
  @throw_parser_exception A nStatus sCommand nPos
  = Throw (parser_exception (mk_parser_exception nStatus sCommand nPos)).
Proof.
  intros Hpos. unfold throw_parser_exception, new_parser_exception.
  destruct (makeMessage_ok nStatus sCommand nPos Hpos) as [sMessage ->].
  reflexivity.
Qed.

(** ** The two depth guards *)

Section DepthFacts.
Import Parser.

Lemma size_t_add_small a b :
  0 <= a + b < size_t_mod -> size_t_add a b = a + b.
Proof. intros Hr. unfold size_t_add. apply Z.mod_small. exact Hr. Qed.

(** Below the bound [increase_depth] adds one and returns. *)
Lemma increase_depth_below nPos p :
  0 <= m_nDepth p < MAX_DEPTH ->
  increase_depth nPos p = (Ok tt, set_depth p (m_nDepth p + 1)).
Proof.
  intros Hd. unfold increase_depth, MAX_DEPTH, SHELL_MAX_DEPTH in *.
  rewrite size_t_add_small by (unfold size_t_mod; lia). simpl.
  destruct (Z.ltb_spec 16 (m_nDepth p + 1)); [lia | reflexivity].
Qed.

(** At the bound it throws the positioned max-depth exception. *)
Lemma increase_depth_at_bound nPos p :
  0 <= nPos -> m_nDepth p = MAX_DEPTH ->
  increase_depth nPos p
  = (Throw (parser_exception
              (mk_parser_exception SHELL_ERROR_MAX_DEPTH_REACHED
                 (Fakestream.str (m_oIstream p)) nPos)),
     set_depth p (MAX_DEPTH + 1)).
Proof.
  intros Hpos Hd. unfold increase_depth. rewrite Hd.
  unfold MAX_DEPTH, SHELL_MAX_DEPTH.
  rewrite size_t_add_small by (unfold size_t_mod; lia). simpl.
  unfold throw. simpl. rewrite throw_parser_exception_throws by exact Hpos.
  reflexivity.
Qed.

(** A guarded scope entered below the bound: whatever way the body leaves
    the scope, by returning or by throwing, the counter is decreased by
    one from what the body left. *)
Lemma with_depth_guard_exit {A : Type} nPos (body : P A) p :
  0 <= m_nDepth p < MAX_DEPTH ->
  with_depth_guard nPos body p
  = (fst (body (set_depth p (m_nDepth p + 1))),
     decrease_depth (snd (body (set_depth p (m_nDepth p + 1))))).
Proof.
  intros Hd. unfold with_depth_guard. rewrite increase_depth_below by exact Hd.
  destruct (body (set_depth p (m_nDepth p + 1))). reflexivity.
Qed.

(** When the body leaves the counter where it found it, so does the
    guarded scope. *)
Lemma with_depth_guard_balanced {A : Type} nPos (body : P A) p :
  0 <= m_nDepth p < MAX_DEPTH ->
  m_nDepth (snd (body (set_depth p (m_nDepth p + 1)))) = m_nDepth p + 1 ->
  m_nDepth (snd (with_depth_guard nPos body p)) = m_nDepth p.
Proof.
  intros Hd Hbody. rewrite with_depth_guard_exit by exact Hd. simpl.
  unfold decrease_depth. rewrite Hbody.
  destruct (Z.ltb_spec 0 (m_nDepth p + 1)); [| lia]. simpl. lia.
Qed.

(** A guarded scope entered at the bound throws without running its
    body. *)
Lemma with_depth_guard_at_bound {A : Type} nPos (body : P A) p :
  0 <= nPos -> m_nDepth p = MAX_DEPTH ->
  fst (with_depth_guard nPos body p)
  = Throw (parser_exception
             (mk_parser_exception SHELL_ERROR_MAX_DEPTH_REACHED
                (Fakestream.str (m_oIstream p)) nPos)).
Proof.
  intros Hpos Hd. unfold with_depth_guard.
  rewrite increase_depth_at_bound by assumption. reflexivity.
Qed.

(** The session counter. *)
Lemma increase_shell_depth_below s :
  0 <= m_nCurrentDepth s < SHELL_MAX_DEPTH ->
  Session.increase_shell_depth s = (true, Session.set_depth s (m_nCurrentDepth s + 1)).
Proof.
  intros Hd. unfold Session.increase_shell_depth, SHELL_MAX_DEPTH in *.
  rewrite size_t_add_small by (unfold size_t_mod; lia).
  destruct (Z.leb_spec (m_nCurrentDepth s + 1) 16); [reflexivity | lia].
Qed.

Lemma increase_shell_depth_at_bound s :
  m_nCurrentDepth s = SHELL_MAX_DEPTH ->
  Session.increase_shell_depth s = (false, s).
Proof.
  intros Hd. unfold Session.increase_shell_depth. rewrite Hd. reflexivity.
Qed.

(** [eval] at the bound: the status, not an exception, and [run] is not
    called. *)
Lemma command_eval_run_at_bound run vArgs s σ :
  m_nCurrentDepth s = SHELL_MAX_DEPTH ->
  Command.command_eval_run run vArgs s σ
  = (Ok SHELL_ERROR_MAX_DEPTH_REACHED, s,
     ostream_write (m_oStdErr s) ("Maximum shell depth reached." +:+ endl) σ).
Proof.
  intros Hd. unfold Command.command_eval_run.
  rewrite increase_shell_depth_at_bound by exact Hd. reflexivity.
Qed.

(** [eval] below the bound: [run] is called one level deeper. *)
Lemma command_eval_run_below run vArgs s σ :
  0 <= m_nCurrentDepth s < SHELL_MAX_DEPTH ->
  Command.command_eval_run run vArgs s σ
  = Eval.bind (run (fold_left ofs_write vArgs EmptyString)) (fun nStatus =>
    Eval.bind (Eval.update_session Session.decrease_shell_depth) (fun _ =>
    Eval.ret nStatus)) (Session.set_depth s (m_nCurrentDepth s + 1)) σ.
Proof.
  intros Hd. unfold Command.command_eval_run.
  rewrite increase_shell_depth_below by exact Hd. reflexivity.
Qed.

(** When [run] returns, [eval] returns its status and decreases the
    counter; when [run] throws, the counter is not decreased. *)
Lemma command_eval_run_returns run vArgs s σ nStatus s' σ' :
  0 <= m_nCurrentDepth s < SHELL_MAX_DEPTH ->
  run (fold_left ofs_write vArgs EmptyString) (Session.set_depth s (m_nCurrentDepth s + 1)) σ
  = (Ok nStatus, s', σ') ->
  Command.command_eval_run run vArgs s σ = (Ok nStatus, Session.decrease_shell_depth s', σ').
Proof.
  intros Hd Hrun. rewrite command_eval_run_below by exact Hd.
  unfold Eval.bind. rewrite Hrun. reflexivity.
Qed.

Lemma command_eval_run_throws run vArgs s σ x s' σ' :
  0 <= m_nCurrentDepth s < SHELL_MAX_DEPTH ->
  run (fold_left ofs_write vArgs EmptyString) (Session.set_depth s (m_nCurrentDepth s + 1)) σ
  = (Throw x, s', σ') ->
  Command.command_eval_run run vArgs s σ = (Throw x, s', σ').
Proof.
  intros Hd Hrun. rewrite command_eval_run_below by exact Hd.
  unfold Eval.bind. rewrite Hrun. reflexivity.
Qed.

(** A program that evaluates itself without end runs sixteen levels deep;
    the seventeenth [eval] is refused with the status and the message, and
    every level that was entered decreases the counter on its way back. *)
Lemma eval_of_itself_stops_at_16 (fuel : nat) :
  Examples.run_eval_source (70 + fuel) Examples.eval_of_itself
  = (Ok SHELL_ERROR_MAX_DEPTH_REACHED, 0, "aaaaaaaaaaaaaaaa",
     "Maximum shell depth reached." +:+ endl).
Proof. vm_compute. reflexivity. Qed.

End DepthFacts.

(** ** The depth counter over a whole parse *)

Section ParserDepthFacts.
Import Parser.

Lemma pos_nonneg oIstream h : 0 <= TokenHolder.pos oIstream h.
Proof.
  unfold TokenHolder.pos, TokenHolder.out_of_range.
  destruct (Tokenizer.vsize (m_vTokens h) <=? TokenHolder.as_size_t (th_nPos h)); simpl.
  - apply str_size_nonneg.
  - destruct (Z.ltb_spec (th_nPos h) 0); [apply str_size_nonneg | lia].
Qed.

(** Entering a guarded construct with sixteen scopes open. *)
Lemma parse_parentheses_at_bound fuel p :
  m_nDepth p = MAX_DEPTH -> fst (parse_parentheses (S fuel) p) = Throw (max_depth_reached p).
Proof.
  intros Hd. cbn [parse_parentheses]. unfold bind at 1, tok_pos at 1.
  apply with_depth_guard_at_bound; [apply pos_nonneg | exact Hd].
Qed.

Lemma parse_brackets_at_bound fuel p :
  m_nDepth p = MAX_DEPTH -> fst (parse_brackets (S fuel) p) = Throw (max_depth_reached p).
Proof.
  intros Hd. cbn [parse_brackets]. unfold bind at 1, tok_pos at 1.
  apply with_depth_guard_at_bound; [apply pos_nonneg | exact Hd].
Qed.

Lemma parse_dollar_command_at_bound fuel p :
  m_nDepth p = MAX_DEPTH ->
  fst (parse_dollar_command (S fuel) p) = Throw (max_depth_reached p).
Proof.
  intros Hd. cbn [parse_dollar_command]. unfold bind at 1, tok_pos at 1.
  apply with_depth_guard_at_bound; [apply pos_nonneg | exact Hd].
Qed.

Lemma parse_keyword_at_bound fuel nKeyword nMode p :
  m_nDepth p = MAX_DEPTH ->
  fst (parse_keyword (S fuel) nKeyword nMode p) = Throw (max_depth_reached p).
Proof.
  intros Hd. cbn [parse_keyword]. unfold bind at 1, tok_pos at 1.
  apply with_depth_guard_at_bound; [apply pos_nonneg | exact Hd].
Qed.

(** Steps that do not touch the counter. *)
Lemma balanced_same {A : Type} (m : P A) :
  (forall p, m_nDepth (snd (m p)) = m_nDepth p) -> balanced m.
Proof.
  intros Hm p r p' _ E. specialize (Hm p). rewrite E in Hm. simpl in Hm.
  destruct r; try exact I; lia.
Qed.

Lemma balanced_ret {A : Type} (a : A) : balanced (ret a).
Proof. apply balanced_same. reflexivity. Qed.

Lemma balanced_lift {A : Type} (o : outcome A) : balanced (lift o).
Proof. apply balanced_same. reflexivity. Qed.

Lemma balanced_throw {A : Type} nStatus nPos : balanced (@throw A nStatus nPos).
Proof. apply balanced_same. reflexivity. Qed.

Lemma balanced_tok_get : balanced tok_get.
Proof.
  apply balanced_same. intros p. unfold tok_get.
  destruct (TokenHolder.get (m_oTokens p)). reflexivity.
Qed.

Lemma balanced_tok_put_back : balanced tok_put_back.
Proof. apply balanced_same. reflexivity. Qed.
Lemma balanced_tok_pos : balanced tok_pos.
Proof. apply balanced_same. reflexivity. Qed.
Lemma balanced_tok_keyword : balanced tok_keyword.
Proof. apply balanced_same. reflexivity. Qed.
Lemma balanced_tok_keyword_is nKeyword : balanced (tok_keyword_is nKeyword).
Proof. apply balanced_same. reflexivity. Qed.
Lemma balanced_tok_is t : balanced (tok_is t).
Proof. apply balanced_same. reflexivity. Qed.
Lemma balanced_tok_is_next t : balanced (tok_is_next t).
Proof. apply balanced_same. reflexivity. Qed.
Lemma balanced_tok_current : balanced tok_current.
Proof. apply balanced_same. reflexivity. Qed.
Lemma balanced_tok_next : balanced tok_next.
Proof. apply balanced_same. reflexivity. Qed.
Lemma balanced_stream_size : balanced stream_size.
Proof. apply balanced_same. reflexivity. Qed.
Lemma balanced_tok_text t : balanced (tok_text t).
Proof. apply balanced_same. reflexivity. Qed.

(** Sequencing. *)
Lemma balanced_bind {A B : Type} (m : P A) (k : A -> P B) :
  balanced m -> (forall a, balanced (k a)) -> balanced (bind m k).
Proof.
  intros Hm Hk p r p' Hd E. unfold bind in E.
  destruct (m p) as [[a|x|why|] p1] eqn:Em.
  - pose proof (Hm p _ p1 Hd Em) as H1. simpl in H1.
    assert (Hd1 : 0 <= m_nDepth p1 <= MAX_DEPTH) by (rewrite H1; exact Hd).
    pose proof (Hk a p1 r p' Hd1 E) as H2. rewrite H1 in H2. exact H2.
  - inversion E; subst. exact (Hm p _ p' Hd Em).
  - inversion E; subst. exact I.
  - inversion E; subst. exact I.
Qed.

Lemma throw_parser_exception_not_ok {A : Type} nStatus sCommand nPos (a : A) :
  throw_parser_exception nStatus sCommand nPos <> Ok a.
Proof.
  unfold throw_parser_exception.
  destruct (new_parser_exception nStatus sCommand nPos); discriminate.
Qed.

(** A guarded scope. *)
Lemma balanced_guard {A : Type} nPos (body : P A) :
  balanced body -> balanced (with_depth_guard nPos body).
Proof.
  intros Hb p r p' Hd E. unfold with_depth_guard, increase_depth in E.
  unfold MAX_DEPTH, SHELL_MAX_DEPTH in Hd.
  rewrite size_t_add_small in E by (unfold size_t_mod; lia).
  simpl in E. unfold MAX_DEPTH, SHELL_MAX_DEPTH in E.
  destruct (Z.ltb_spec 16 (m_nDepth p + 1)).
  - unfold throw in E. simpl in E.
    destruct (throw_parser_exception _ _ _) eqn:Et;
      inversion E; subst; simpl; try exact I; try lia.
    exfalso. eapply throw_parser_exception_not_ok, Et.
  - destruct (body (set_depth p (m_nDepth p + 1))) as [r' p''] eqn:Eb.
    inversion E; subst.
    pose proof (Hb (set_depth p (m_nDepth p + 1)) r p''
                  ltac:(unfold MAX_DEPTH, SHELL_MAX_DEPTH; simpl; lia) Eb) as H2.
    simpl in H2. unfold decrease_depth.
    destruct r; try exact I;
      destruct (Z.ltb_spec 0 (m_nDepth p'')); simpl; lia.
Qed.

Lemma balanced_from_first_token {A : Type} (loop : Z -> option shell_token -> P A) :
  (forall n t, balanced (loop n t)) -> balanced (from_first_token loop).
Proof.
  intros Hl. unfold from_first_token.
  apply balanced_bind; [apply balanced_tok_pos |]. intros n.
  apply balanced_bind; [apply balanced_tok_get |]. intros t. apply Hl.
Qed.

Create HintDb balanced.

#[local] Hint Resolve balanced_ret balanced_lift balanced_throw balanced_tok_get
  balanced_tok_put_back balanced_tok_pos balanced_tok_keyword balanced_tok_keyword_is
  balanced_tok_is balanced_tok_is_next balanced_tok_current balanced_tok_next
  balanced_stream_size balanced_tok_text : balanced.

(** The proof of a balanced step follows the shape of the step. *)
Ltac balance :=
  repeat first
    [ progress (auto with balanced)
    | apply balanced_guard
    | apply balanced_from_first_token; intros ? ?; cbv beta
    | apply balanced_bind; [| intros ?]
    | match goal with
      | |- balanced (match ?x with _ => _ end) => destruct x
      | |- balanced (if ?x then _ else _) => destruct x
      end ].

Lemma balanced_skip_spaces fuel : forall pToken, balanced (skip_spaces fuel pToken).
Proof.
  induction fuel as [|fuel IH]; intros pToken.
  - apply balanced_same. reflexivity.
  - intros p r p' Hd E. cbn [skip_spaces] in E.
    destruct (TokenHolder.is_type (m_oTokens p) TK_SPACE).
    + exact (balanced_bind tok_get (skip_spaces fuel) balanced_tok_get IH p r p' Hd E).
    + exact (balanced_ret pToken p r p' Hd E).
Qed.

Lemma balanced_skip_next_spaces fuel : balanced (skip_next_spaces fuel).
Proof.
  induction fuel as [|fuel IH].
  - apply balanced_same. reflexivity.
  - intros p r p' Hd E. cbn [skip_next_spaces] in E.
    destruct (TokenHolder.is_next (m_oTokens p) TK_SPACE).
    + exact (balanced_bind tok_get (fun _ => skip_next_spaces fuel) balanced_tok_get
               (fun _ => IH) p r p' Hd E).
    + exact (balanced_ret tt p r p' Hd E).
Qed.

#[local] Hint Resolve balanced_skip_spaces balanced_skip_next_spaces : balanced.

Lemma balanced_get_skip_spaces fuel : balanced (get_skip_spaces fuel).
Proof. unfold get_skip_spaces. balance. Qed.

Lemma balanced_require test nStatus nPos :
  balanced test -> balanced nPos -> balanced (require test nStatus nPos).
Proof. intros Ht Hn. unfold require. balance. Qed.

Lemma balanced_or_null_command pBlock nPos :
  balanced nPos -> balanced (or_null_command pBlock nPos).
Proof. intros Hn. unfold or_null_command. balance. Qed.

Lemma balanced_expression_of v : balanced (expression_of v).
Proof. unfold expression_of. balance. Qed.

Lemma balanced_get_arg_number : balanced get_arg_number.
Proof. unfold get_arg_number. balance. Qed.

Lemma balanced_parse_word : balanced parse_word.
Proof. unfold parse_word. balance. Qed.

Lemma balanced_parse_unicode : balanced parse_unicode.
Proof. unfold parse_unicode. balance. Qed.

#[local] Hint Resolve balanced_get_skip_spaces balanced_require balanced_or_null_command
  balanced_expression_of balanced_get_arg_number balanced_parse_word
  balanced_parse_unicode : balanced.

Lemma balanced_parse_quote_simple_loop fuel :
  forall nStartPos v t, balanced (parse_quote_simple_loop fuel nStartPos v t).
Proof.
  induction fuel as [|fuel IH]; intros nStartPos v t; cbn [parse_quote_simple_loop]; balance.
Qed.

Lemma balanced_parse_quote_simple fuel : balanced (parse_quote_simple fuel).
Proof.
  unfold parse_quote_simple. pose proof (balanced_parse_quote_simple_loop fuel). balance.
Qed.

Lemma balanced_parse_dollar_variable : balanced parse_dollar_variable.
Proof. unfold parse_dollar_variable. balance. Qed.

Lemma balanced_parse_loop_control fuel nMode nPos node :
  balanced (parse_loop_control fuel nMode nPos node).
Proof. unfold parse_loop_control. balance. Qed.

#[local] Hint Resolve balanced_parse_quote_simple balanced_parse_dollar_variable
  balanced_parse_loop_control : balanced.

(** Every function of the parser is balanced, by induction on the
    fuel. *)
Lemma parser_balanced : forall fuel, all_balanced fuel.
Proof.
  induction fuel as [|fuel IH]; unfold all_balanced.
  - repeat split; intros; apply balanced_lift.
  - destruct IH as (H1 & H2 & H3 & H4 & H5 & H6 & H7 & H8 & H9 & H10 & H11 & H12 & H13
                      & H14 & H15 & H16 & H17 & H18 & H19 & H20 & H21 & H22).
    repeat split; intros.
    + cbn [parse_block_loop]. balance.
    + cbn [parse_block_keyword_loop]. balance.
    + cbn [parse_command_group_loop]. balance.
    + cbn [parse_command_group]. balance.
    + cbn [parse_command_group_oper]. balance.
    + cbn [parse_parentheses]. balance.
    + cbn [parse_brackets]. balance.
    + cbn [parse_sqr_brackets]. balance.
    + cbn [parse_test_expression_loop]. balance.
    + cbn [parse_command]. balance.
    + cbn [parse_command_expression_loop]. balance.
    + cbn [parse_quote_double_loop]. balance.
    + cbn [parse_quote_double]. balance.
    + cbn [parse_quote_back]. balance.
    + cbn [parse_dollar]. balance.
    + cbn [parse_dollar_command]. balance.
    + cbn [parse_keyword]. balance.
    + cbn [parse_if]. balance.
    + cbn [parse_for]. balance.
    + cbn [parse_while]. balance.
    + cbn [parse_until]. balance.
    + cbn [parse_function]. balance.
Qed.

End ParserDepthFacts.

Section NestingFacts.
Import Examples.

(** Seventeen nested parentheses: the parse fails at the seventeenth
    with the max-depth error; sixteen parse. *)
Lemma parse_17_parentheses :
  Parser.parse (mk_ifakestream (nested_parentheses 17) 0)
  = Throw (parser_exception
             (mk_parser_exception SHELL_ERROR_MAX_DEPTH_REACHED
                (nested_parentheses 17) 16)).
Proof. vm_compute. reflexivity. Qed.

Lemma parse_16_parentheses :
  exists pMainNode, Parser.parse (mk_ifakestream (nested_parentheses 16) 0) = Ok pMainNode.
Proof. eexists. vm_compute. reflexivity. Qed.

Lemma parse_17_braces :
  Parser.parse (mk_ifakestream (nested_braces 17) 0)
  = Throw (parser_exception
             (mk_parser_exception SHELL_ERROR_MAX_DEPTH_REACHED (nested_braces 17) 16)).
Proof. vm_compute. reflexivity. Qed.

Lemma parse_16_braces :
  exists pMainNode, Parser.parse (mk_ifakestream (nested_braces 16) 0) = Ok pMainNode.
Proof. eexists. vm_compute. reflexivity. Qed.

(** Command substitutions and conditionals likewise: sixteen parse, the
    seventeenth is refused at its opening token. *)
Lemma parse_nested_dollar_commands :
  parses (nested_dollar_commands 16) = true
  /\ parse_failure (nested_dollar_commands 17) = Some (SHELL_ERROR_MAX_DEPTH_REACHED, 33).
Proof. split; vm_compute; reflexivity. Qed.

Lemma parse_nested_if :
  parses (nested_if 16) = true
  /\ parse_failure (nested_if 17) = Some (SHELL_ERROR_MAX_DEPTH_REACHED, 112).
Proof. split; vm_compute; reflexivity. Qed.

(** A loop holds two guards, that of [parse_keyword] and that of its
    body: eight nested loops parse, the ninth is refused, and so are
    seventeen. *)
Lemma parse_nested_loops :
  (parses (nested_for 8) = true
   /\ parse_failure (nested_for 9) = Some (SHELL_ERROR_MAX_DEPTH_REACHED, 88)
   /\ parse_failure (nested_for 17) = Some (SHELL_ERROR_MAX_DEPTH_REACHED, 88))
  /\ (parses (nested_while 8) = true
      /\ parse_failure (nested_while 9) = Some (SHELL_ERROR_MAX_DEPTH_REACHED, 56)
      /\ parse_failure (nested_while 17) = Some (SHELL_ERROR_MAX_DEPTH_REACHED, 56))
  /\ (parses (nested_until 8) = true
      /\ parse_failure (nested_until 9) = Some (SHELL_ERROR_MAX_DEPTH_REACHED, 56)
      /\ parse_failure (nested_until 17) = Some (SHELL_ERROR_MAX_DEPTH_REACHED, 56)).
Proof. repeat split; vm_compute; reflexivity. Qed.

End NestingFacts.

(** The evaluation-time counter moves only in [command_eval::run]. *)

Section FrameFacts.
Import Eval Interp.

Lemma keeps_depth_ret {A : Type} (a : A) : keeps_depth (ret a).
Proof. intros s σ. reflexivity. Qed.

Lemma keeps_depth_lift {A : Type} (o : outcome A) : keeps_depth (lift o).
Proof. intros s σ. reflexivity. Qed.

Lemma keeps_depth_read {A : Type} (f : shell_session -> store -> A) : keeps_depth (read f).
Proof. intros s σ. reflexivity. Qed.

Lemma keeps_depth_update f : keeps_depth (update f).
Proof. intros s σ. reflexivity. Qed.

Lemma keeps_depth_set_result n :
  keeps_depth (update_session (fun s => Session.set_last_command_result s n)).
Proof. intros s σ. reflexivity. Qed.

Lemma keeps_depth_bind {A B : Type} (m : M A) (k : A -> M B) :
  keeps_depth m -> (forall a, keeps_depth (k a)) -> keeps_depth (bind m k).
Proof.
  intros Hm Hk s σ. unfold bind. specialize (Hm s σ).
  destruct (m s σ) as [[o s'] σ']. unfold session_after in Hm. simpl in Hm.
  destruct o; try exact Hm. rewrite <- Hm. apply Hk.
Qed.

Lemma keeps_depth_in_session {A : Type} sub (m : M A) : keeps_depth (in_session sub m).
Proof. intros s σ. unfold in_session. destruct (m sub σ) as [[o s'] σ']. reflexivity. Qed.

Lemma keeps_depth_try_iteration body : keeps_depth body -> keeps_depth (try_iteration body).
Proof.
  intros Hb s σ. unfold try_iteration. specialize (Hb s σ).
  destruct (body s σ) as [[o s'] σ']. destruct o as [a|x|why|]; try exact Hb.
  destruct x; exact Hb.
Qed.

Lemma keeps_depth_run_normalized run : keeps_depth run -> keeps_depth (run_normalized run).
Proof.
  intros Hr s σ. unfold run_normalized. specialize (Hr s σ).
  destruct (run s σ) as [[o s'] σ']. destruct o as [a|x|why|]; try exact Hr.
  destruct x; try exact Hr.
  unfold session_after in *. simpl in *. rewrite <- Hr.
  apply (keeps_depth_bind (msg_error_syntax_error e) (fun _ => ret SHELL_SUCCESS)).
  - unfold msg_error_syntax_error. apply keeps_depth_bind.
    + apply keeps_depth_lift.
    + intros a. apply keeps_depth_update.
  - intros _. apply keeps_depth_ret.
Qed.

Lemma keeps_depth_for_loop body sVariable vSequence :
  keeps_depth body -> keeps_depth (for_loop body sVariable vSequence).
Proof.
  intros Hb. induction vSequence as [|sItem rest IH]; simpl.
  - apply keeps_depth_ret.
  - apply keeps_depth_bind; [apply keeps_depth_update |]. intros _.
    apply keeps_depth_bind; [apply keeps_depth_try_iteration, Hb |].
    intros [|]; [exact IH | apply keeps_depth_ret].
Qed.

Lemma keeps_depth_while_loop fuel bUntil condition body :
  keeps_depth condition -> keeps_depth body ->
  keeps_depth (while_loop fuel bUntil condition body).
Proof.
  intros Hc Hb. induction fuel as [|fuel IH]; simpl.
  - apply keeps_depth_lift.
  - apply keeps_depth_bind; [exact Hc |]. intros nCondition.
    destruct (xorb (nCondition =? SHELL_SUCCESS) bUntil); [| apply keeps_depth_ret].
    apply keeps_depth_bind; [apply keeps_depth_try_iteration, Hb |].
    intros [|]; [exact IH | apply keeps_depth_ret].
Qed.

Lemma keeps_depth_block_loop evaluate children :
  (forall n, keeps_depth (evaluate n)) -> keeps_depth (block_loop evaluate children).
Proof.
  intros He. induction children as [|[c|] rest IH]; simpl.
  - apply keeps_depth_ret.
  - apply keeps_depth_bind; [apply He |]. intros _. exact IH.
  - apply keeps_depth_lift.
Qed.

Lemma keeps_depth_make_subsession i o e : keeps_depth (make_subsession i o e).
Proof.
  intros s σ. unfold make_subsession.
  destruct (Session.make_subsession s (i s) (o s) (e s) σ) as [[sub σ']| | |]; reflexivity.
Qed.

Lemma keeps_depth_subshell_loop evaluate children :
  keeps_depth (subshell_loop evaluate children).
Proof.
  induction children as [|[c|] rest IH]; simpl.
  - apply keeps_depth_ret.
  - apply keeps_depth_bind; [apply keeps_depth_make_subsession |]. intros sub.
    apply keeps_depth_bind; [apply keeps_depth_in_session |]. intros _. exact IH.
  - apply keeps_depth_lift.
Qed.

Lemma keeps_depth_expression_loop expand_child children :
  (forall n, keeps_depth (expand_child n)) ->
  forall acc, keeps_depth (expression_loop expand_child children acc).
Proof.
  intros He. induction children as [|[c|] rest IH]; intros acc; simpl.
  - apply keeps_depth_ret.
  - apply keeps_depth_bind; [apply He |]. intros v. apply IH.
  - apply IH.
Qed.

Lemma keeps_depth_str_loop expand_child children :
  (forall n, keeps_depth (expand_child n)) ->
  forall o, keeps_depth (str_loop expand_child children o).
Proof.
  intros He. induction children as [|c rest IH]; intros o; simpl.
  - apply keeps_depth_ret.
  - apply keeps_depth_bind; [apply He |]. intros v. apply IH.
Qed.

Lemma keeps_depth_new_ostringstream :
  keeps_depth (fun s σ => let '(l, σ') := new_ostringstream σ in (Ok l, s, σ')).
Proof. intros s σ. destruct (new_ostringstream σ). reflexivity. Qed.

Lemma keeps_depth_substitute evaluate pCommand oStdErr vTokens bSplit :
  keeps_depth (substitute evaluate pCommand oStdErr vTokens bSplit).
Proof.
  unfold substitute.
  apply keeps_depth_bind; [apply keeps_depth_new_ostringstream |]. intros oStdOut.
  apply keeps_depth_bind; [apply keeps_depth_make_subsession |]. intros sub.
  intros s σ. pose proof (keeps_depth_in_session sub (evaluate pCommand) s σ) as Hk.
  destruct (in_session sub (evaluate pCommand) s σ) as [[o s'] σ'].
  destruct o; exact Hk.
Qed.

Lemma keeps_depth_echo vArgs : keeps_depth (Command.command_echo_run vArgs).
Proof.
  unfold Command.command_echo_run.
  destruct (match vArgs with
            | [] => (true, 0%nat)
            | first :: _ => if (first =? "-n")%string then (false, 1%nat) else (true, 0%nat)
            end) as [bUseEndl nBegin].
  apply keeps_depth_bind; [apply keeps_depth_update |]. intros _. apply keeps_depth_ret.
Qed.

Lemma keeps_depth_in_tree {A : Type} (t : tree) (m : M A) :
  keeps_depth m -> keeps_depth (in_tree t m).
Proof.
  intros Hm s σ. unfold in_tree. specialize (Hm s (set_st_tree σ t)).
  destruct (m s (set_st_tree σ t)) as [[r s'] σ']. exact Hm.
Qed.

Lemma keeps_depth_in_parsed_tree {A : Type} (m : M A) :
  keeps_depth m -> keeps_depth (in_parsed_tree m).
Proof.
  intros Hm s σ. unfold in_parsed_tree.
  set (t := fresh (st_trees σ ∪ vtable_trees σ)).
  pose proof (keeps_depth_in_tree t m Hm s (set_st_trees σ ({[t]} ∪ st_trees σ))) as Hk.
  destruct (in_tree t m s (set_st_trees σ ({[t]} ∪ st_trees σ))) as [[r s'] σ']. exact Hk.
Qed.

Lemma keeps_depth_fcall evaluate vArgs : keeps_depth (Command.command_fcall_run evaluate vArgs).
Proof.
  unfold Command.command_fcall_run.
  apply keeps_depth_bind; [apply keeps_depth_update |]. intros _.
  destruct vArgs as [|sName rest].
  - apply keeps_depth_bind; [apply keeps_depth_update |]. intros _. apply keeps_depth_ret.
  - apply keeps_depth_bind; [intros s σ; reflexivity |]. intros [[t pFunc]|].
    + intros s σ. destruct (Session.make_function_call s (sName :: rest) σ) as [pSession σ'].
      case_bool_decide; [| reflexivity].
      apply keeps_depth_in_tree. apply keeps_depth_in_session.
    + apply keeps_depth_bind; [apply keeps_depth_update |]. intros _. apply keeps_depth_ret.
Qed.

Section WithShell.
Context `{Collaborators}.
Variable pShell : shell.
Hypothesis Hshell : without_eval pShell.

Lemma keeps_depth_command_run evaluate sName pCommand vArgs :
  get_command pShell sName = Some pCommand ->
  keeps_depth (command_run evaluate pCommand vArgs).
Proof.
  intros Hget. destruct Hshell as [_ Hcmds]. specialize (Hcmds sName pCommand Hget).
  destruct pCommand; simpl.
  - apply keeps_depth_echo.
  - destruct Hcmds.
  - apply keeps_depth_fcall.
  - apply Hcmds.
Qed.

Lemma evaluate_expand_keep_depth :
  forall fuel,
    (forall n, keeps_depth (evaluate pShell fuel n))
    /\ (forall n vTokens bSplit, keeps_depth (expand pShell fuel n vTokens bSplit)).
Proof.
  induction fuel as [|fuel [IHev IHex]].
  - split; intros; apply keeps_depth_lift.
  - split.
    + intros n. destruct n; simpl.
      * apply keeps_depth_set_result || (apply keeps_depth_bind; [apply keeps_depth_set_result | intros; apply keeps_depth_ret]).
      * apply keeps_depth_bind; [apply IHex |]. intros [|sName vArgs]; [apply keeps_depth_lift |].
        destruct (get_command pShell sName) as [pCommand|] eqn:Hget.
        -- apply keeps_depth_bind.
           ++ apply keeps_depth_run_normalized. eapply keeps_depth_command_run, Hget.
           ++ intros nStatus. apply keeps_depth_bind; [apply keeps_depth_set_result |].
              intros _. apply keeps_depth_ret.
        -- apply keeps_depth_bind; [apply keeps_depth_update |]. intros _. apply keeps_depth_ret.
      * apply keeps_depth_bind; [apply keeps_depth_block_loop, IHev |]. intros _. apply keeps_depth_read.
      * apply keeps_depth_bind; [apply keeps_depth_subshell_loop |]. intros _. apply keeps_depth_read.
      * apply keeps_depth_ret.
      * assert (Hl : keeps_depth (match m_pLeft with
                                  | Some pLeft => evaluate pShell fuel pLeft
                                  | None => lift (Undefined "null left operand")
                                  end)) by (destruct m_pLeft; [apply IHev | apply keeps_depth_lift]).
        assert (Hr : keeps_depth (match m_pRight with
                                  | Some pRight => evaluate pShell fuel pRight
                                  | None => lift (Undefined "null right operand")
                                  end)) by (destruct m_pRight; [apply IHev | apply keeps_depth_lift]).
        destruct nType; try apply keeps_depth_lift.
        -- apply keeps_depth_bind; [exact Hl |]. intros nLeft.
           destruct (nLeft =? SHELL_SUCCESS); [exact Hr | apply keeps_depth_ret].
        -- apply keeps_depth_bind; [apply keeps_depth_new_ostringstream |]. intros oStdOut.
           apply keeps_depth_bind; [intros s σ; apply keeps_depth_in_session |]. intros _.
           apply keeps_depth_bind.
           ++ intros s σ. destruct (new_istringstream (ostream_str oStdOut σ) σ). reflexivity.
           ++ intros oStdIn s σ. apply keeps_depth_in_session.
        -- apply keeps_depth_bind; [exact Hl |]. intros nLeft.
           destruct (negb (nLeft =? SHELL_SUCCESS)); [exact Hr | apply keeps_depth_ret].
      * apply keeps_depth_bind; [apply IHex |]. intros vTokens.
        apply keeps_depth_bind.
        -- apply keeps_depth_run_normalized.
           destruct (get_command pShell "test") as [pTest|] eqn:Hget.
           ++ eapply keeps_depth_command_run, Hget.
           ++ apply (proj1 Hshell).
        -- intros nStatus. apply keeps_depth_bind; [apply keeps_depth_set_result |].
           intros _. apply keeps_depth_ret.
      * apply keeps_depth_bind; [apply IHev |]. intros nCondition.
        destruct (nCondition =? SHELL_SUCCESS); [apply IHev |].
        destruct m_pCaseElse; [apply IHev | apply keeps_depth_read].
      * apply keeps_depth_bind; [apply IHex |]. intros vSequence.
        apply keeps_depth_bind; [apply keeps_depth_for_loop, IHev |]. intros _.
        apply keeps_depth_read.
      * apply keeps_depth_bind; [apply keeps_depth_while_loop; apply IHev |]. intros _.
        apply keeps_depth_read.
      * apply keeps_depth_bind; [apply keeps_depth_while_loop; apply IHev |]. intros _.
        apply keeps_depth_read.
      * apply keeps_depth_lift.
      * apply keeps_depth_lift.
      * apply keeps_depth_bind; [apply IHex |]. intros vName.
        assert (Herr : keeps_depth
                  (bind (msg_error_invalid_function_name (concat_vector EmptyString vName))
                     (fun _ => ret SHELL_ERROR_SYNTAX_ERROR_INVALID_FUNCTION_NAME))).
        { apply keeps_depth_bind; [apply keeps_depth_update |]. intros _. apply keeps_depth_ret. }
        destruct vName as [|sName [|]]; try exact Herr.
        destruct (is_var sName); [| exact Herr].
        apply keeps_depth_bind; [| intros _; apply keeps_depth_ret].
        intros s σ.
        match goal with
        | |- context [Session.set_func ?a ?b ?c ?d] => destruct (Session.set_func a b c d)
        end; reflexivity.
    + intros n vTokens bSplit. destruct n; simpl;
        try apply keeps_depth_ret; try apply keeps_depth_substitute;
        try (intros s σ; reflexivity);
        try (intros s σ;
             match goal with
             | |- context [match ?v s σ with _ => _ end] => destruct (v s σ)
             end; reflexivity).
      * apply keeps_depth_bind; [apply keeps_depth_expression_loop; intros; apply IHex |].
        intros acc. apply keeps_depth_ret.
      * apply keeps_depth_bind; [apply keeps_depth_str_loop; intros; apply IHex |].
        intros o. apply keeps_depth_ret.
      * apply keeps_depth_bind; [apply keeps_depth_str_loop; intros; apply IHex |].
        intros o. apply keeps_depth_ret.
Qed.

End WithShell.
End FrameFacts.

(** C5.  Both guards have the bound 16.  At parse time a guarded scope
    entered with sixteen scopes open throws the max-depth exception at the
    position given to the guard, and seventeen nested parentheses or
    braces fail this way at the seventeenth while sixteen parse; a guarded
    scope entered below the bound decreases the counter when it is left,
    whether its body returns or throws.  At evaluation time the session
    counter is increased while it is below 16 and refused at 16, where
    [eval] returns the max-depth status without running anything; no
    evaluation step other than [eval] moves the session counter, and the
    parser never reads it.  Below the bound [eval] runs its text in the
    session with the counter increased by one; when that run returns,
    [eval] returns its status with the counter decreased again, and when
    it throws the counter stays increased.  A program that evaluates
    itself through [eval] without end runs sixteen levels deep and the
    seventeenth [eval] is refused, with the counter back at 0 in the end.
    In the parser the guarded constructs are the
    parenthesized subshell, the brace block, [$(...)] and every keyword
    construct: each of them, entered with sixteen scopes open, throws the
    max-depth exception at the current token; every parsing function
    returns with the counter where it found it, and leaves it at most one
    above when it throws.  Seventeen nested [$(...)], [if], [for], [while]
    or [until] are refused; as a loop holds two guards, so is the ninth
    nested loop. *)
Theorem depth_guards_are_bounded_by_16 :
  forall `{Collaborators},
    (Parser.MAX_DEPTH = 16 /\ SHELL_MAX_DEPTH = 16)
    /\ (forall (A : Type) (nPos : Z) (body : P A) (p : shell_parser),
          0 <= nPos -> m_nDepth p = 16 ->
          fst (Parser.with_depth_guard nPos body p)
          = Throw (parser_exception
                     (mk_parser_exception SHELL_ERROR_MAX_DEPTH_REACHED
                        (Fakestream.str (m_oIstream p)) nPos)))
    /\ (forall (A : Type) (nPos : Z) (body : P A) (p : shell_parser),
          0 <= m_nDepth p < 16 ->
          Parser.with_depth_guard nPos body p
          = (fst (body (Parser.set_depth p (m_nDepth p + 1))),
             Parser.decrease_depth (snd (body (Parser.set_depth p (m_nDepth p + 1))))))
    /\ (forall (A : Type) (nPos : Z) (body : P A) (p : shell_parser),
          0 <= m_nDepth p < 16 ->
          m_nDepth (snd (body (Parser.set_depth p (m_nDepth p + 1)))) = m_nDepth p + 1 ->
          m_nDepth (snd (Parser.with_depth_guard nPos body p)) = m_nDepth p)
    /\ (Parser.parse (mk_ifakestream (Examples.nested_parentheses 17) 0)
        = Throw (parser_exception
                   (mk_parser_exception SHELL_ERROR_MAX_DEPTH_REACHED
                      (Examples.nested_parentheses 17) 16))
        /\ Parser.parse (mk_ifakestream (Examples.nested_braces 17) 0)
        = Throw (parser_exception
                   (mk_parser_exception SHELL_ERROR_MAX_DEPTH_REACHED
                      (Examples.nested_braces 17) 16))
        /\ (exists pMainNode,
              Parser.parse (mk_ifakestream (Examples.nested_parentheses 16) 0)
              = Ok pMainNode)
        /\ (exists pMainNode,
              Parser.parse (mk_ifakestream (Examples.nested_braces 16) 0) = Ok pMainNode))
    /\ (forall s : shell_session,
          (0 <= m_nCurrentDepth s < 16 ->
           Session.increase_shell_depth s
           = (true, Session.set_depth s (m_nCurrentDepth s + 1)))
          /\ (m_nCurrentDepth s = 16 -> Session.increase_shell_depth s = (false, s)))
    /\ (forall run vArgs s σ,
          m_nCurrentDepth s = 16 ->
          Command.command_eval_run run vArgs s σ
          = (Ok SHELL_ERROR_MAX_DEPTH_REACHED, s,
             ostream_write (m_oStdErr s) ("Maximum shell depth reached." +:+ endl) σ))
    /\ (forall fuel,
          fst (fst (Interp.evaluate Examples.the_shell (S (S (S fuel))) Examples.eval_x
                      (Examples.session_at_depth 16) Examples.store0))
          = Ok SHELL_ERROR_MAX_DEPTH_REACHED)
    /\ (forall run vArgs s σ,
          0 <= m_nCurrentDepth s < 16 ->
          let sCommand := fold_left ofs_write vArgs EmptyString in
          let s1 := Session.set_depth s (m_nCurrentDepth s + 1) in
          Command.command_eval_run run vArgs s σ
          = Eval.bind (run sCommand) (fun nStatus =>
            Eval.bind (Eval.update_session Session.decrease_shell_depth) (fun _ =>
            Eval.ret nStatus)) s1 σ
          /\ (forall nStatus s' σ',
                run sCommand s1 σ = (Ok nStatus, s', σ') ->
                Command.command_eval_run run vArgs s σ
                = (Ok nStatus, Session.decrease_shell_depth s', σ'))
          /\ (forall x s' σ',
                run sCommand s1 σ = (Throw x, s', σ') ->
                Command.command_eval_run run vArgs s σ = (Throw x, s', σ')))
    /\ (forall fuel,
          Examples.run_eval_source (70 + fuel) Examples.eval_of_itself
          = (Ok SHELL_ERROR_MAX_DEPTH_REACHED, 0, "aaaaaaaaaaaaaaaa",
             "Maximum shell depth reached." +:+ endl))
    /\ (forall pShell fuel n,
          without_eval pShell -> keeps_depth (Interp.evaluate pShell fuel n))
    /\ (forall fuel p,
          m_nDepth p = 16 ->
          fst (Parser.parse_parentheses (S fuel) p) = Throw (max_depth_reached p)
          /\ fst (Parser.parse_brackets (S fuel) p) = Throw (max_depth_reached p)
          /\ fst (Parser.parse_dollar_command (S fuel) p) = Throw (max_depth_reached p)
          /\ (forall nKeyword nMode,
                fst (Parser.parse_keyword (S fuel) nKeyword nMode p)
                = Throw (max_depth_reached p)))
    /\ (forall fuel, all_balanced fuel)
    /\ ((Examples.parses (Examples.nested_dollar_commands 16) = true
         /\ Examples.parse_failure (Examples.nested_dollar_commands 17)
            = Some (SHELL_ERROR_MAX_DEPTH_REACHED, 33))
        /\ (Examples.parses (Examples.nested_if 16) = true
            /\ Examples.parse_failure (Examples.nested_if 17)
               = Some (SHELL_ERROR_MAX_DEPTH_REACHED, 112))
        /\ (Examples.parses (Examples.nested_for 8) = true
            /\ Examples.parse_failure (Examples.nested_for 9)
               = Some (SHELL_ERROR_MAX_DEPTH_REACHED, 88)
            /\ Examples.parse_failure (Examples.nested_for 17)
               = Some (SHELL_ERROR_MAX_DEPTH_REACHED, 88))
        /\ (Examples.parses (Examples.nested_while 8) = true
            /\ Examples.parse_failure (Examples.nested_while 9)
               = Some (SHELL_ERROR_MAX_DEPTH_REACHED, 56)
            /\ Examples.parse_failure (Examples.nested_while 17)
               = Some (SHELL_ERROR_MAX_DEPTH_REACHED, 56))
        /\ (Examples.parses (Examples.nested_until 8) = true
            /\ Examples.parse_failure (Examples.nested_until 9)
               = Some (SHELL_ERROR_MAX_DEPTH_REACHED, 56)
            /\ Examples.parse_failure (Examples.nested_until 17)
               = Some (SHELL_ERROR_MAX_DEPTH_REACHED, 56))).
Proof.
  intros H.
  refine (conj (conj eq_refl eq_refl) (conj _ (conj _ (conj _ (conj _ (conj _
          (conj _ (conj _ (conj _ (conj _ (conj _ (conj _ (conj _ _))))))))))))).
  - intros A nPos body p Hpos Hd. apply with_depth_guard_at_bound; assumption.
  - intros A nPos body p Hd. apply with_depth_guard_exit. exact Hd.
  - intros A nPos body p Hd Hbody. apply with_depth_guard_balanced; assumption.
  - exact (conj parse_17_parentheses (conj parse_17_braces
            (conj parse_16_parentheses parse_16_braces))).
  - intros s. split.
    + apply increase_shell_depth_below.
    + apply increase_shell_depth_at_bound.
  - intros run vArgs s σ Hd. apply command_eval_run_at_bound. exact Hd.
  - intros fuel. vm_compute. reflexivity.
  - intros run vArgs s σ Hd sCommand s1. refine (conj _ (conj _ _)).
    + apply command_eval_run_below. exact Hd.
    + intros nStatus s' σ' Hrun. apply command_eval_run_returns; assumption.
    + intros x s' σ' Hrun. apply command_eval_run_throws; assumption.
  - apply eval_of_itself_stops_at_16.
  - intros pShell fuel n Hshell.
    exact (proj1 (evaluate_expand_keep_depth pShell Hshell fuel) n).
  - intros fuel p Hd. refine (conj _ (conj _ (conj _ _))).
    + apply parse_parentheses_at_bound. exact Hd.
    + apply parse_brackets_at_bound. exact Hd.
    + apply parse_dollar_command_at_bound. exact Hd.
    + intros nKeyword nMode. apply parse_keyword_at_bound. exact Hd.
  - apply parser_balanced.
  - exact (conj parse_nested_dollar_commands (conj parse_nested_if parse_nested_loops)).
Qed.

(** Witness of C5: a guarded scope entered at depth 16. *)
Lemma depth_guards_are_bounded_by_16_witness :
  0 <= 3
  /\ m_nDepth (Examples.parser_at_depth 16) = 16
  /\ fst (Parser.with_depth_guard 3 (Parser.ret tt) (Examples.parser_at_depth 16))
     = Throw (parser_exception
                (mk_parser_exception SHELL_ERROR_MAX_DEPTH_REACHED EmptyString 3)).
Proof.
  assert (Hpos : 0 <= 3) by lia.
  assert (Hd : m_nDepth (Examples.parser_at_depth 16) = 16) by reflexivity.
  split; [exact Hpos | split; [exact Hd |]].
  exact (proj1 (proj2 (@depth_guards_are_bounded_by_16 Examples.absent_collaborators))
           unit 3 (Parser.ret tt) (Examples.parser_at_depth 16) Hpos Hd).
Defined.

(** ** Loops and control-flow signals *)

Section LoopFacts.
Import Eval Interp.


Lemma bind_ok {A B : Type} (m : M A) (k : A -> M B) a s σ s' σ' :
  m s σ = (Ok a, s', σ') -> bind m k s σ = k a s' σ'.
Proof. intros Hm. unfold bind. rewrite Hm. reflexivity. Qed.



Lemma for_loop_normal body sVariable sItem rest nStatus s σ s' σ' :
  body s (Session.set_var s sVariable sItem σ) = (Ok nStatus, s', σ') ->
  for_loop body sVariable (sItem :: rest) s σ = for_loop body sVariable rest s' σ'.
Proof.
  intros Hb. simpl. unfold bind at 1, update. simpl.
  unfold bind, try_iteration. rewrite Hb. reflexivity.
Qed.




Lemma while_loop_exit fuel bUntil condition body nCondition s σ s1 σ1 :
  condition s σ = (Ok nCondition, s1, σ1) -> enters bUntil nCondition = false ->
  while_loop (S fuel) bUntil condition body s σ = (Ok tt, s1, σ1).
Proof.
  intros Hc He. simpl. unfold bind at 1. rewrite Hc.
  unfold enters in He. rewrite He. reflexivity.
Qed.



End LoopFacts.

Section SignalFacts.
Context `{Collaborators}.
Variable pShell : shell.
Import Eval Interp.




Lemma evaluate_or_right_throw fuel nPos prio pLeft pRight nLeft x s σ s1 σ1 s' σ' :
  evaluate pShell fuel pLeft s σ = (Ok nLeft, s1, σ1) -> nLeft <> SHELL_SUCCESS ->
  evaluate pShell fuel pRight s1 σ1 = (Throw x, s', σ') ->
  evaluate pShell (S fuel)
    (shell_node_operator SNT_OR nPos prio (Some pLeft) (Some pRight)) s σ
  = (Throw x, s', σ').
Proof.
  intros Hl Hne Hr. simpl. erewrite bind_ok by exact Hl.
  destruct (Z.eqb_spec nLeft SHELL_SUCCESS); [contradiction | exact Hr].
Qed.



Lemma evaluate_if_else_throw fuel nPos pCondition pCaseIf pCaseElse nCondition x
    s σ s1 σ1 s' σ' :
  evaluate pShell fuel pCondition s σ = (Ok nCondition, s1, σ1) ->
  nCondition <> SHELL_SUCCESS ->
  evaluate pShell fuel pCaseElse s1 σ1 = (Throw x, s', σ') ->
  evaluate pShell (S fuel) (shell_node_if nPos pCondition pCaseIf (Some pCaseElse)) s σ
  = (Throw x, s', σ').
Proof.
  intros Hc Hne He. simpl. erewrite bind_ok by exact Hc.
  destruct (Z.eqb_spec nCondition SHELL_SUCCESS); [contradiction | exact He].
Qed.

(** The nodes [break] and [continue] throw their signal. *)
Lemma evaluate_break fuel nPos s σ :
  evaluate pShell (S fuel) (shell_node_break nPos) s σ = (Throw break_signal, s, σ).
Proof. reflexivity. Qed.

Lemma evaluate_continue fuel nPos s σ :
  evaluate pShell (S fuel) (shell_node_continue nPos) s σ = (Throw continue_signal, s, σ).
Proof. reflexivity. Qed.


End SignalFacts.



(** * Further properties of the code

    The sections below prove properties of the functions around those of
    the claims: the text helpers, the input cursor, the escapes, the
    diagnostic message, the session objects, the commands and the
    evaluation of nodes. *)

(** ** Texts: [split_string], [concat_vector] ([shell_tools.h]) *)

Section TextFacts.
Lemma append_cons c a b : String c a +:+ b = String c (a +:+ b).
Proof. reflexivity. Qed.

Lemma append_nil_l s : EmptyString +:+ s = s.
Proof. reflexivity. Qed.

Lemma append_nil_r s : s +:+ EmptyString = s.
Proof. induction s as [|c s IH]; [reflexivity | rewrite append_cons, IH; reflexivity]. Qed.

Lemma append_assoc' a b c : (a +:+ b) +:+ c = a +:+ (b +:+ c).
Proof. induction a as [|x a IH]; [reflexivity | rewrite !append_cons, IH; reflexivity]. Qed.

Lemma str_forall_app f a b : str_forall f (a +:+ b) = str_forall f a && str_forall f b.
Proof. induction a as [|c a IH]; simpl; [reflexivity|]. rewrite IH. apply andb_assoc. Qed.

Lemma str_filter_app f a b : str_filter f (a +:+ b) = str_filter f a +:+ str_filter f b.
Proof. induction a as [|c a IH]; simpl; [reflexivity|]. rewrite IH. destruct (f c); reflexivity. Qed.

Lemma str_filter_all f a : str_forall f a = true -> str_filter f a = a.
Proof.
  induction a as [|c a IH]; simpl; [reflexivity|].
  intros [Hc Ha]%andb_true_iff. rewrite Hc, IH; auto.
Qed.

Lemma str_concat_app v w : str_concat (v ++ w) = str_concat v +:+ str_concat w.
Proof.
  induction v as [|x v IH]; simpl; [reflexivity|].
  unfold str_concat in *. simpl. rewrite IH. symmetry. apply append_assoc'.
Qed.

Lemma ofs_empty_app_char p c : ofs_empty (p +:+ String c EmptyString) = false.
Proof. destruct p; reflexivity. Qed.


(** The loop of [split_string]: with a pending word free of blanks, it
    appends fields, and the fields hold the bytes of the pending word and
    of the text that are not blanks, in their order. *)
Lemma split_string_loop_spec oString : forall vStrings pending,
  str_forall nonblank pending = true ->
  exists vFields,
    split_string_loop vStrings pending oString = vStrings ++ vFields
    /\ Forall (fun w => is_field w = true) vFields
    /\ str_concat vFields = pending +:+ str_filter nonblank oString.
Proof.
  induction oString as [|c rest IH]; intros vStrings pending Hp.
  - cbn [split_string_loop str_filter]. rewrite append_nil_r.
    destruct pending as [|a p] eqn:E; cbn [ofs_empty].
    + exists []. rewrite app_nil_r. auto.
    + exists [String a p]. split; [reflexivity|]. split.
      * constructor; [|constructor]. unfold is_field. cbn [ofs_empty negb andb]. exact Hp.
      * unfold str_concat. cbn [fold_right]. apply append_nil_r.
  - cbn [split_string_loop str_filter].
    assert (Hn : nonblank c = negb (is_blank c)) by reflexivity. rewrite Hn.
    destruct (is_blank c) eqn:Hc; cbn [negb].
    + destruct pending as [|a p] eqn:E; cbn [ofs_empty].
      * apply IH. reflexivity.
      * destruct (IH (vStrings ++ [String a p]) EmptyString eq_refl)
          as (vFields & Heq & Hall & Hcat).
        exists (String a p :: vFields). rewrite Heq, <- app_assoc. split; [reflexivity|].
        split.
        -- constructor; [|exact Hall]. unfold is_field. cbn [ofs_empty negb andb]. exact Hp.
        -- change (str_concat (String a p :: vFields))
             with (String a p +:+ str_concat vFields).
           rewrite Hcat. reflexivity.
    + destruct (IH vStrings (pending +:+ String c EmptyString)) as (vFields & Heq & Hall & Hcat).
      { rewrite str_forall_app, Hp. cbn [str_forall andb]. unfold nonblank. rewrite Hc. reflexivity. }
      exists vFields. split; [exact Heq|]. split; [exact Hall|].
      rewrite Hcat, append_assoc'. reflexivity.
Qed.

(** X1.  [split_string] appends to the vector it is given and leaves the
    entries that were there; every field it appends is non-empty and holds
    no space, newline or tab; put end to end, the fields are the bytes of
    the text that are not blanks, in their order. *)
Theorem split_string_fields (vStrings : list string) (oString : string) :
  exists vFields,
    split_string vStrings oString = vStrings ++ vFields
    /\ Forall (fun w => is_field w = true) vFields
    /\ str_concat vFields = str_filter nonblank oString.
Proof.
  destruct (split_string_loop_spec oString vStrings EmptyString eq_refl)
    as (vFields & Heq & Hall & Hcat).
  exists vFields. auto.
Qed.

Lemma split_string_loop_field w : forall vStrings pending rest,
  str_forall nonblank w = true ->
  split_string_loop vStrings pending (w +:+ rest)
  = split_string_loop vStrings (pending +:+ w) rest.
Proof.
  induction w as [|c w IH]; intros vStrings pending rest Hw; simpl.
  - rewrite append_nil_r. reflexivity.
  - simpl in Hw. apply andb_true_iff in Hw as [Hc Hw].
    unfold nonblank in Hc. apply negb_true_iff in Hc. rewrite Hc.
    rewrite IH by exact Hw. rewrite append_assoc'. reflexivity.
Qed.

Lemma concat_vector_tail_app v : forall o,
  concat_vector_tail o v = o +:+ concat_vector_tail EmptyString v.
Proof.
  induction v as [|x v IH]; intros o; simpl.
  - symmetry. apply append_nil_r.
  - rewrite IH. rewrite (IH (ofs_write (ofs_put EmptyString SPACE) x)).
    unfold ofs_write, ofs_put. rewrite !append_assoc'. reflexivity.
Qed.

Lemma split_string_loop_tail vFields : forall vStrings pending,
  Forall (fun w => is_field w = true) vFields ->
  negb (ofs_empty pending) = true ->
  split_string_loop vStrings pending (concat_vector_tail EmptyString vFields)
  = vStrings ++ pending :: vFields.
Proof.
  induction vFields as [|w vFields IH]; intros vStrings pending Hall Hp; simpl.
  - destruct pending; [discriminate | reflexivity].
  - inversion Hall as [|? ? Hw Hall']; subst.
    unfold is_field in Hw. apply andb_true_iff in Hw as [Hne Hw].
    rewrite concat_vector_tail_app. unfold ofs_write, ofs_put. simpl.
    destruct pending as [|a p]; [discriminate|].
    rewrite split_string_loop_field by exact Hw. simpl.
    rewrite IH by assumption. rewrite <- app_assoc. reflexivity.
Qed.

(** X2.  Splitting what [concat_vector] joined gives the fields back,
    when each of them is non-empty and holds no blank. *)
Theorem split_string_concat_vector (vStrings vFields : list string) :
  Forall (fun w => is_field w = true) vFields ->
  split_string vStrings (concat_vector EmptyString vFields) = vStrings ++ vFields.
Proof.
  intros Hall. unfold split_string. destruct vFields as [|w vFields]; simpl.
  - rewrite app_nil_r. reflexivity.
  - inversion Hall as [|? ? Hw Hall']; subst.
    unfold is_field in Hw. apply andb_true_iff in Hw as [Hne Hw].
    rewrite concat_vector_tail_app. unfold ofs_write. simpl.
    rewrite split_string_loop_field by exact Hw. simpl.
    apply split_string_loop_tail; assumption.
Qed.

End TextFacts.

(** Witness of X2. *)
Lemma split_string_concat_vector_witness :
  Forall (fun w => is_field w = true) ["a"; "bc"]
  /\ split_string [] (concat_vector EmptyString ["a"; "bc"]) = ["a"; "bc"].
Proof.
  assert (H : Forall (fun w => is_field w = true) ["a"; "bc"]) by (repeat constructor).
  split; [exact H | exact (split_string_concat_vector [] ["a"; "bc"] H)].
Defined.

(** ** Numbers in texts: [is_number], [std::stoull] ([shell_def.h],
    [shell_node_expand.cpp]) *)

Section NumberFacts.

Lemma leading_digits_all s : str_forall is_digit s = true -> leading_digits s = s.
Proof.
  induction s as [|c s IH]; cbn [str_forall leading_digits]; [reflexivity|].
  intros [Hc Hs]%andb_true_iff. rewrite Hc, IH; auto.
Qed.

Lemma is_digit_byte c : is_digit c = true -> 48 <= byte_of c <= 57.
Proof. unfold is_digit. intros [H1 H2]%andb_true_iff. lia. Qed.

Lemma digits_value_bound s : forall acc,
  str_forall is_digit s = true -> 0 <= acc ->
  acc * 10 ^ str_size s <= digits_value acc s < (acc + 1) * 10 ^ str_size s.
Proof.
  induction s as [|c s IH]; intros acc Hs Hacc.
  - cbn. unfold str_size. simpl. lia.
  - cbn [str_forall] in Hs. apply andb_true_iff in Hs as [Hc Hs].
    apply is_digit_byte in Hc. cbn [digits_value].
    rewrite str_size_String.
    pose proof (str_size_nonneg s) as Hn.
    rewrite Z.pow_add_r by lia. change (10 ^ 1) with 10.
    specialize (IH (acc * 10 + (byte_of c - 48)) Hs ltac:(lia)).
    nia.
Qed.

Lemma is_digit_not_space c : is_digit c = true -> is_space c = false.
Proof.
  intros Hc%is_digit_byte. unfold is_space.
  apply orb_false_iff. split; [lia | apply andb_false_iff; lia].
Qed.

Lemma eqb_byte c d : Ascii.eqb c d = true -> byte_of c = byte_of d.
Proof. intros H%Ascii.eqb_eq. congruence. Qed.

Lemma sign_not_space c :
  Ascii.eqb c "+"%char || Ascii.eqb c "-"%char = true -> is_space c = false.
Proof.
  intros [H|H]%orb_true_iff; apply Ascii.eqb_eq in H; subst; reflexivity.
Qed.

Lemma stoull_digits_all bNegative s :
  s <> EmptyString -> str_forall is_digit s = true -> str_size s <= 19 ->
  stoull_digits bNegative s
  = Ok (if bNegative then (- digits_value 0 s) mod size_t_mod else digits_value 0 s).
Proof.
  intros Hne Hs Hsize. unfold stoull_digits. rewrite leading_digits_all by exact Hs.
  destruct s as [|c s]; [congruence|].
  pose proof (digits_value_bound (String c s) 0 Hs ltac:(lia)) as Hb.
  assert (10 ^ str_size (String c s) <= 10 ^ 19)
    by (apply Z.pow_le_mono_r; [lia | exact Hsize]).
  destruct (Z.leb_spec size_t_mod (digits_value 0 (String c s))) as [Hle|]; [|reflexivity].
  unfold size_t_mod in Hle. lia.
Qed.

Lemma stoull_number sArg :
  is_number sArg = true -> is_lone_sign sArg = false ->
  stoull sArg = Ok (number_value sArg) /\ 0 <= number_value sArg < size_t_mod.
Proof.
  intros Hnum Hlone. destruct sArg as [|c rest]; [discriminate|].
  unfold is_number in Hnum. unfold stoull, number_value.
  destruct (Ascii.eqb c "+"%char || Ascii.eqb c "-"%char) eqn:Hsign.
  - destruct (Z.ltb_spec 19 (str_size (String c rest))) as [|Hsize]; [discriminate|].
    rewrite str_size_String in Hsize.
    assert (Hrest : rest <> EmptyString).
    { intros ->. unfold is_lone_sign in Hlone.
      apply orb_true_iff in Hsign as [H|H]; apply Ascii.eqb_eq in H; subst; discriminate. }
    cbn [skip_space]. rewrite (sign_not_space c Hsign).
    pose proof (digits_value_bound rest 0 Hnum ltac:(lia)) as Hb.
    assert (10 ^ str_size rest <= 10 ^ 19)
      by (apply Z.pow_le_mono_r; lia).
    destruct (Ascii.eqb c "+"%char) eqn:Hplus.
    + rewrite stoull_digits_all by (auto; lia). split; [reflexivity|]. unfold size_t_mod. lia.
    + cbn [orb] in Hsign. rewrite Hsign.
      rewrite stoull_digits_all by (auto; lia). split; [reflexivity|].
      apply Z.mod_pos_bound. unfold size_t_mod. lia.
  - destruct (Z.ltb_spec 18 (str_size (String c rest))) as [|Hsize]; [discriminate|].
    apply orb_false_iff in Hsign as [Hplus Hminus]. rewrite Hplus, Hminus.
    pose proof Hnum as Hall. cbn [str_forall] in Hnum. apply andb_true_iff in Hnum as [Hc _].
    cbn [skip_space]. rewrite (is_digit_not_space c Hc). rewrite Hplus, Hminus.
    rewrite stoull_digits_all by (auto; try congruence; lia).
    split; [reflexivity|].
    pose proof (digits_value_bound (String c rest) 0 Hall ltac:(lia)) as Hb.
    assert (10 ^ str_size (String c rest) <= 10 ^ 18)
      by (apply Z.pow_le_mono_r; lia).
    unfold size_t_mod. lia.
Qed.

(** X3.  The second hop of an indirection such as [${!name}], on a value
    that [is_number] accepts.  When the value holds a digit, [std::stoull]
    cannot fail on it, as eighteen digits fit 64 bits, and the expansion is
    the positional argument of that index, a leading minus wrapping modulo
    [2^64].  When the value is a lone sign, which [is_number] accepts too,
    [std::stoull] throws [std::invalid_argument]. *)
Theorem second_hop_on_a_number (sName : string) (s : shell_session) (σ : store) :
  is_number sName = true ->
  (is_lone_sign sName = false ->
     Eval.second_hop sName s σ = Ok (Session.get_arg s σ (number_value sName))
     /\ 0 <= number_value sName < size_t_mod)
  /\ (is_lone_sign sName = true ->
     Eval.second_hop sName s σ = Throw (std_invalid_argument "stoull")).
Proof.
  intros Hnum. unfold Eval.second_hop. rewrite Hnum. split.
  - intros Hlone. destruct (stoull_number sName Hnum Hlone) as [-> Hb].
    split; [reflexivity | exact Hb].
  - intros Hlone. unfold is_lone_sign in Hlone.
    apply orb_true_iff in Hlone as [H|H]; apply String.eqb_eq in H; subst; reflexivity.
Qed.

End NumberFacts.

(** Witness of X3. *)
Lemma second_hop_on_a_number_witness :
  is_number "12" = true
  /\ Eval.second_hop "12" Examples.session0 Examples.store0
     = Ok (Session.get_arg Examples.session0 Examples.store0 12).
Proof.
  assert (H : is_number "12" = true) by reflexivity.
  split; [exact H |].
  exact (proj1 (proj1 (second_hop_on_a_number "12" Examples.session0 Examples.store0 H)
                  eq_refl)).
Defined.

(** ** The input cursor ([fakestream.h]) *)

Lemma str_size_app a b : str_size (a +:+ b) = str_size a + str_size b.
Proof.
  induction a as [|c a IH]; [rewrite append_nil_l; unfold str_size; simpl; lia|].
  rewrite append_cons, !str_size_String, IH. lia.
Qed.

Lemma str_take_size s : forall n, 0 <= n <= str_size s -> str_size (str_take s n) = n.
Proof.
  induction s as [|c s IH]; intros n Hn.
  - unfold str_size in *. simpl in *. lia.
  - rewrite str_size_String in Hn. cbn [str_take].
    destruct (Z.leb_spec n 0).
    + unfold str_size. simpl. lia.
    + rewrite str_size_String, IH; lia.
Qed.

Lemma str_drop_size s : forall n, 0 <= n <= str_size s -> str_size (str_drop s n) = str_size s - n.
Proof.
  induction s as [|c s IH]; intros n Hn.
  - unfold str_size in *. simpl in *. lia.
  - rewrite str_size_String in Hn. cbn [str_drop].
    destruct (Z.leb_spec n 0).
    + rewrite str_size_String. lia.
    + rewrite IH by lia. rewrite str_size_String. lia.
Qed.

Lemma size_t_add_exact a b : 0 <= a + b < size_t_mod -> size_t_add a b = a + b.
Proof. intros H. unfold size_t_add. apply Z.mod_small. exact H. Qed.

Lemma size_t_sub_exact a b : 0 <= a - b < size_t_mod -> size_t_sub a b = a - b.
Proof. intros H. unfold size_t_sub. apply Z.mod_small. exact H. Qed.

Section ReadFacts.
Import Fakestream.

(** X4.  [ifakestream::read] from a position inside the text.  A
    request that the rest of the text covers copies the bytes asked for
    and advances by as many.  A request that passes the end copies as
    many bytes as the request passes the end by, not the bytes that are
    left; when that number is greater than what is left, the copy reaches
    beyond the text. *)
Theorem read_within_and_past_the_end (o : ifakestream) (nCount : Z) :
  0 <= fs_nPos o <= size o -> 0 <= nCount -> fs_nPos o + nCount < size_t_mod ->
  let nLeft := size o - fs_nPos o in
  (nCount <= nLeft ->
     read o nCount
     = Ok (str_take (str_drop (fs_pData o) (fs_nPos o)) nCount,
           mk_ifakestream (fs_pData o) (fs_nPos o + nCount))
     /\ str_size (str_take (str_drop (fs_pData o) (fs_nPos o)) nCount) = nCount)
  /\ (nLeft < nCount <= 2 * nLeft ->
     read o nCount
     = Ok (str_take (str_drop (fs_pData o) (fs_nPos o)) (nCount - nLeft),
           mk_ifakestream (fs_pData o) (fs_nPos o + (nCount - nLeft)))
     /\ str_size (str_take (str_drop (fs_pData o) (fs_nPos o)) (nCount - nLeft))
        = nCount - nLeft)
  /\ (2 * nLeft < nCount ->
     read o nCount = Undefined "memcpy from outside the text").
Proof.
  intros Hpos Hcount Hmax nLeft. subst nLeft.
  pose proof (str_size_nonneg (fs_pData o)) as Hsize.
  unfold read, size in *.
  rewrite (size_t_add_exact (fs_nPos o) nCount) by lia.
  split; [|split].
  - intros Hle. split.
    + destruct (Z.ltb_spec (str_size (fs_pData o)) (fs_nPos o + nCount)); [lia|].
      destruct (Z.leb_spec (fs_nPos o + nCount) (str_size (fs_pData o))); [|lia].
      rewrite size_t_add_exact by lia. reflexivity.
    + apply str_take_size. rewrite str_drop_size by lia. lia.
  - intros Hlt. split.
    + destruct (Z.ltb_spec (str_size (fs_pData o)) (fs_nPos o + nCount)); [|lia].
      rewrite (size_t_add_exact nCount (fs_nPos o)) by lia.
      rewrite size_t_sub_exact by lia.
      destruct (Z.leb_spec (fs_nPos o + (nCount + fs_nPos o - str_size (fs_pData o)))
                  (str_size (fs_pData o))); [|lia].
      rewrite size_t_add_exact by lia.
      replace (nCount + fs_nPos o - str_size (fs_pData o))
        with (nCount - (str_size (fs_pData o) - fs_nPos o)) by lia.
      reflexivity.
    + apply str_take_size. rewrite str_drop_size by lia. lia.
  - intros Hlt. destruct (Z.ltb_spec (str_size (fs_pData o)) (fs_nPos o + nCount)); [|lia].
    rewrite (size_t_add_exact nCount (fs_nPos o)) by lia.
    rewrite size_t_sub_exact by lia.
    destruct (Z.leb_spec (fs_nPos o + (nCount + fs_nPos o - str_size (fs_pData o)))
                (str_size (fs_pData o))); [lia|]. reflexivity.
Qed.

Lemma byte_of_range a : 0 <= byte_of a < 256.
Proof.
  unfold byte_of. pose proof (N_ascii_bounded a). lia.
Qed.

Lemma char_value_eof a : char_value a = EOF_VALUE <-> byte_of a = 255.
Proof.
  unfold char_value, EOF_VALUE. pose proof (byte_of_range a).
  destruct (Z.ltb_spec (byte_of a) 128); lia.
Qed.

(** X5.  [ifakestream::get] returns [EOF_VALUE] exactly at or after the
    end of the text and on a byte 255, which a signed [char] converts to
    -1; it advances the position in all cases, and [put_back] undoes
    it. *)
Theorem get_reads_the_end_or_byte_255 (o : ifakestream) :
  0 <= fs_nPos o < size_t_mod - 1 ->
  (fst (get o) = EOF_VALUE
   <-> size o <= fs_nPos o
       \/ exists a, str_at (fs_pData o) (fs_nPos o) = Some a /\ byte_of a = 255)
  /\ tell (snd (get o)) = fs_nPos o + 1
  /\ put_back (snd (get o)) = o.
Proof.
  intros Hpos. unfold get, peek, tell, put_back, size. cbn [fst snd fs_nPos fs_pData].
  rewrite size_t_add_exact by lia. split; [|split].
  - destruct (Z.ltb_spec (fs_nPos o) (str_size (fs_pData o))) as [Hlt|Hge].
    + destruct (str_at_in_range (fs_pData o) (fs_nPos o)) as [a Ha]; [lia|].
      rewrite Ha. rewrite char_value_eof. split.
      * intros Hb. right. eauto.
      * intros [Hle | (b & Hb & H255)]; [lia | congruence].
    + split; [intros _; left; exact Hge | reflexivity].
  - reflexivity.
  - destruct (Z.ltb_spec 0 (fs_nPos o + 1)); [|lia].
    replace (fs_nPos o + 1 - 1) with (fs_nPos o) by lia. destruct o; reflexivity.
Qed.

End ReadFacts.

(** Witness of X4. *)
Lemma read_within_and_past_the_end_witness :
  Fakestream.read Examples.stream_abc 2 = Ok ("ab", mk_ifakestream "abc" 2)
  /\ Fakestream.read Examples.stream_abc 5 = Ok ("ab", mk_ifakestream "abc" 2)
  /\ Fakestream.read Examples.stream_abc 7 = Undefined "memcpy from outside the text".
Proof.
  assert (Hpos : 0 <= fs_nPos Examples.stream_abc <= Fakestream.size Examples.stream_abc)
    by (change (0 <= 0 <= 3); lia).
  assert (Hmax : forall n, n < 100 -> fs_nPos Examples.stream_abc + n < size_t_mod)
    by (intros n Hn; change (0 + n < 2 ^ 64); lia).
  split; [|split].
  - exact (proj1 (proj1 (read_within_and_past_the_end Examples.stream_abc 2 Hpos
                           ltac:(lia) (Hmax 2 ltac:(lia)))
                    ltac:(change (2 <= 3 - 0); lia))).
  - exact (proj1 (proj1 (proj2 (read_within_and_past_the_end Examples.stream_abc 5 Hpos
                           ltac:(lia) (Hmax 5 ltac:(lia))))
                    ltac:(change (3 - 0 < 5 <= 2 * (3 - 0)); lia))).
  - exact (proj2 (proj2 (read_within_and_past_the_end Examples.stream_abc 7 Hpos
                           ltac:(lia) (Hmax 7 ltac:(lia))))
             ltac:(change (2 * (3 - 0) < 7); lia)).
Defined.

(** Witness of X5. *)
Lemma get_reads_the_end_or_byte_255_witness :
  Fakestream.tell (snd (Fakestream.get Examples.stream_abc)) = 1
  /\ Fakestream.put_back (snd (Fakestream.get Examples.stream_abc)) = Examples.stream_abc.
Proof.
  exact (proj2 (get_reads_the_end_or_byte_255 Examples.stream_abc
                  ltac:(change (0 <= 0 < 2 ^ 64 - 1); lia))).
Defined.

(** ** UTF-8: [write_char32_t], [parse_utf] ([utf.h]) and
    [getCodePointAtByte] ([shell_parser_exception.cpp]) *)

Lemma holds_on_block_spec test k : forall lo,
  holds_on_block test k lo = true ->
  forall c, lo <= c < lo + 2 ^ Z.of_nat k -> test c = true.
Proof.
  induction k as [|k IH]; intros lo H c Hc.
  - cbn in *. replace c with lo by lia. exact H.
  - cbn [holds_on_block] in H. apply andb_true_iff in H as [H1 H2].
    rewrite Nat2Z.inj_succ, Z.pow_succ_r in Hc by lia.
    destruct (Z.lt_ge_cases c (lo + 2 ^ Z.of_nat k)).
    + apply (IH lo H1). lia.
    + apply (IH _ H2). lia.
Qed.

Lemma well_encoded_all c : 0 <= c <= 1114111 -> well_encoded c = true.
Proof.
  intros Hc.
  assert (H1 : holds_on_block well_encoded 20 0 = true) by (vm_compute; reflexivity).
  assert (H2 : holds_on_block well_encoded 16 1048576 = true) by (vm_compute; reflexivity).
  destruct (Z.lt_ge_cases c 1048576).
  - apply (holds_on_block_spec _ _ _ H1). change (2 ^ Z.of_nat 20) with 1048576. lia.
  - apply (holds_on_block_spec _ _ _ H2). change (2 ^ Z.of_nat 16) with 65536. lia.
Qed.

Section UtfFacts.
Import Eval.

Lemma ofs_put_app o c : ofs_put o c = o +:+ String c EmptyString.
Proof. reflexivity. Qed.

Lemma write_char32_t_app o c : write_char32_t o c = o +:+ write_char32_t EmptyString c.
Proof.
  unfold write_char32_t.
  repeat match goal with |- context [if ?b then _ else _] => destruct b end;
    rewrite ?ofs_put_app, ?append_assoc', ?append_nil_l, ?append_nil_r; reflexivity.
Qed.

Lemma write_char32_t_too_large o c : 1114111 < c -> write_char32_t o c = o.
Proof.
  intros Hc. unfold write_char32_t.
  repeat match goal with |- context [?a <=? ?b] => destruct (Z.leb_spec a b); try lia end.
  reflexivity.
Qed.

Lemma well_encoded_inv c :
  well_encoded c = true ->
  exists cFirst rest,
    write_char32_t EmptyString c = String cFirst rest
    /\ utf8_length (byte_of cFirst) = Some (utf8_width c)
    /\ str_size (String cFirst rest) = utf8_width c
    /\ str_forall is_continuation rest = true.
Proof.
  unfold well_encoded. destruct (write_char32_t EmptyString c) as [|cFirst rest]; [discriminate|].
  intros [[H1 H2]%andb_true_iff H3]%andb_true_iff.
  apply bool_decide_eq_true in H1. apply Z.eqb_eq in H2.
  exists cFirst, rest. rewrite str_size_String. repeat split; auto. lia.
Qed.

(** X6.  For a code point up to [0x10FFFF], [write_char32_t] appends one
    UTF-8 sequence of one to four bytes: its first byte announces that
    length to the length test of [getCodePointAtByte], the others are
    continuation bytes.  For a greater value it appends nothing. *)
Theorem write_char32_t_writes_one_sequence (oStream : ofakestream) (cChar : Z) :
  (0 <= cChar <= 1114111 ->
     exists cFirst rest,
       write_char32_t oStream cChar = oStream +:+ String cFirst rest
       /\ str_size (String cFirst rest) = utf8_width cChar
       /\ utf8_length (byte_of cFirst) = Some (utf8_width cChar)
       /\ str_forall is_continuation rest = true)
  /\ (1114111 < cChar -> write_char32_t oStream cChar = oStream).
Proof.
  split.
  - intros Hc. destruct (well_encoded_inv cChar (well_encoded_all cChar Hc))
      as (cFirst & rest & Hw & Hlen & Hsize & Hrest).
    exists cFirst, rest. rewrite write_char32_t_app, Hw. auto.
  - apply write_char32_t_too_large.
Qed.

Lemma utf8_width_range c : 1 <= utf8_width c <= 4.
Proof.
  unfold utf8_width.
  repeat match goal with |- context [?a <=? ?b] => destruct (Z.leb_spec a b) end; lia.
Qed.

Lemma str_at_app a : forall b i, 0 <= i -> str_at (a +:+ b) (str_size a + i) = str_at b i.
Proof.
  induction a as [|x a IH]; intros b i Hi.
  - rewrite append_nil_l. unfold str_size. simpl. reflexivity.
  - rewrite append_cons, str_size_String. cbn [str_at].
    pose proof (str_size_nonneg a).
    destruct (Z.eqb_spec (str_size a + 1 + i) 0); [lia|].
    destruct (Z.ltb_spec (str_size a + 1 + i) 0); [lia|].
    replace (str_size a + 1 + i - 1) with (str_size a + i) by lia. apply IH. exact Hi.
Qed.

Lemma utf8_text_cons c cs :
  utf8_text (c :: cs) = write_char32_t EmptyString c +:+ utf8_text cs.
Proof. reflexivity. Qed.

Lemma utf8_text_size cs :
  Forall is_code_point cs -> Z.of_nat (List.length cs) <= str_size (utf8_text cs).
Proof.
  induction 1 as [|c cs Hc Hcs IH].
  - unfold utf8_text, str_size. simpl. lia.
  - rewrite utf8_text_cons, str_size_app.
    destruct (well_encoded_inv c (well_encoded_all c Hc)) as (a & r & -> & _ & Hsize & _).
    rewrite Hsize. pose proof (utf8_width_range c). cbn [List.length]. lia.
Qed.

Lemma str_at_first_of_encoding pre c rest :
  is_code_point c ->
  exists a,
    str_at (pre +:+ (write_char32_t EmptyString c +:+ rest)) (str_size pre) = Some a
    /\ utf8_length (byte_of a) = Some (utf8_width c)
    /\ str_size (write_char32_t EmptyString c) = utf8_width c.
Proof.
  intros Hc.
  destruct (well_encoded_inv c (well_encoded_all c Hc)) as (a & r & Hw & Hlen & Hsize & _).
  exists a. rewrite Hw. repeat split; auto.
  replace (str_size pre) with (str_size pre + 0) by lia.
  rewrite str_at_app by lia. reflexivity.
Qed.

Lemma getCodePointAtByte_loop_on_text c cs2 k :
  is_code_point c -> 0 <= k < utf8_width c ->
  forall cs1 pre fuel nCharIndex,
    Forall is_code_point cs1 ->
    (List.length cs1 < fuel)%nat ->
    getCodePointAtByte_loop fuel (pre +:+ utf8_text (cs1 ++ c :: cs2))
      (str_size pre + str_size (utf8_text cs1) + k) (str_size pre) nCharIndex
    = Ok (nCharIndex + Z.of_nat (List.length cs1)).
Proof.
  intros Hc Hk. induction cs1 as [|x cs1 IH]; intros pre fuel nCharIndex Hcs Hfuel.
  - destruct fuel as [|fuel]; [simpl in Hfuel; lia|].
    cbn [app]. rewrite utf8_text_cons.
    destruct (str_at_first_of_encoding pre c (utf8_text cs2) Hc) as (a & Hat & Hlen & Hsize).
    cbn [getCodePointAtByte_loop]. rewrite Hat, Hlen.
    rewrite !str_size_app, Hsize.
    pose proof (str_size_nonneg pre). pose proof (str_size_nonneg (utf8_text cs2)).
    pose proof (utf8_width_range c).
    change (str_size (utf8_text [])) with 0.
    repeat match goal with
           | |- context [?a <=? ?b] => destruct (Z.leb_spec a b); [|lia]
           | |- context [?a <? ?b] => destruct (Z.ltb_spec a b); [|lia]
           end.
    cbn [andb List.length]. f_equal. lia.
  - destruct fuel as [|fuel]; [simpl in Hfuel; lia|].
    inversion Hcs as [|? ? Hx Hcs']; subst.
    cbn [app]. rewrite !utf8_text_cons.
    destruct (str_at_first_of_encoding pre x (utf8_text (cs1 ++ c :: cs2)) Hx)
      as (a & Hat & Hlen & Hsize).
    cbn [getCodePointAtByte_loop]. rewrite Hat, Hlen.
    rewrite !str_size_app, Hsize.
    pose proof (str_size_nonneg pre).
    pose proof (str_size_nonneg (utf8_text (cs1 ++ c :: cs2))).
    pose proof (str_size_nonneg (utf8_text cs1)).
    pose proof (utf8_width_range x).
    match goal with |- context [?a <? ?b] => destruct (Z.ltb_spec a b); [|lia] end.
    match goal with |- context [_ && (?a <? ?b)] => destruct (Z.ltb_spec a b); [lia|] end.
    rewrite andb_false_r.
    rewrite <- append_assoc'.
    specialize (IH (pre +:+ write_char32_t EmptyString x) fuel (nCharIndex + 1) Hcs'
                  ltac:(simpl in Hfuel; lia)).
    rewrite str_size_app, Hsize in IH.
    replace (str_size pre + (utf8_width x + str_size (utf8_text cs1)) + k)
      with (str_size pre + utf8_width x + str_size (utf8_text cs1) + k) by lia.
    rewrite IH. cbn [List.length]. f_equal. lia.
Qed.

(** X7.  On a text that [write_char32_t] wrote, [getCodePointAtByte]
    at any byte of a character returns the number of characters before
    it. *)
Theorem getCodePointAtByte_counts_characters (cs1 : list Z) (c : Z) (cs2 : list Z) (k : Z) :
  Forall is_code_point (cs1 ++ c :: cs2) ->
  0 <= k < utf8_width c ->
  getCodePointAtByte (utf8_text (cs1 ++ c :: cs2)) (str_size (utf8_text cs1) + k)
  = Ok (Z.of_nat (List.length cs1)).
Proof.
  intros Hall Hk.
  apply Forall_app in Hall as [Hcs1 Hrest]. inversion Hrest as [|? ? Hc Hcs2]; subst.
  unfold getCodePointAtByte.
  assert (Hsize : str_size (utf8_text (cs1 ++ c :: cs2))
                  = str_size (utf8_text cs1) + (utf8_width c + str_size (utf8_text cs2))).
  { unfold utf8_text. rewrite map_app, str_concat_app, str_size_app. f_equal.
    change (str_size (utf8_text (c :: cs2)) = utf8_width c + str_size (utf8_text cs2)).
    rewrite utf8_text_cons, str_size_app.
    destruct (well_encoded_inv c (well_encoded_all c Hc)) as (a & r & -> & _ & -> & _).
    reflexivity. }
  pose proof (str_size_nonneg (utf8_text cs2)).
  destruct (Z.leb_spec (str_size (utf8_text (cs1 ++ c :: cs2))) (str_size (utf8_text cs1) + k));
    [lia|].
  pose proof (getCodePointAtByte_loop_on_text c cs2 k Hc Hk cs1 EmptyString
                (S (String.length (utf8_text (cs1 ++ c :: cs2)))) 0 Hcs1) as Hloop.
  rewrite append_nil_l in Hloop. change (str_size EmptyString) with 0 in Hloop.
  rewrite !Z.add_0_l in Hloop. apply Hloop.
  pose proof (utf8_text_size cs1 Hcs1). pose proof (utf8_width_range c).
  unfold str_size in *. lia.
Qed.

End UtfFacts.

(** Witness of X6. *)
Lemma write_char32_t_writes_one_sequence_witness :
  0 <= 8709 <= 1114111
  /\ exists cFirst rest,
       Eval.write_char32_t "x" 8709 = "x" +:+ String cFirst rest
       /\ str_size (String cFirst rest) = 3
       /\ utf8_length (byte_of cFirst) = Some 3
       /\ str_forall is_continuation rest = true.
Proof.
  assert (H : 0 <= 8709 <= 1114111) by lia.
  split; [exact H |].
  exact (proj1 (write_char32_t_writes_one_sequence "x" 8709) H).
Defined.

(** Witness of X7. *)
Lemma getCodePointAtByte_counts_characters_witness :
  Forall is_code_point ([97; 8709] ++ 128512 :: [98])
  /\ 0 <= 2 < utf8_width 128512
  /\ getCodePointAtByte (utf8_text ([97; 8709] ++ 128512 :: [98]))
       (str_size (utf8_text [97; 8709]) + 2) = Ok 2.
Proof.
  assert (H : Forall is_code_point ([97; 8709] ++ 128512 :: [98]))
    by (repeat constructor; unfold is_code_point; lia).
  assert (Hk : 0 <= 2 < utf8_width 128512) by (change (0 <= 2 < 4); lia).
  split; [exact H | split; [exact Hk |]].
  exact (getCodePointAtByte_counts_characters [97; 8709] 128512 [98] 2 H Hk).
Defined.

Section ParseUtfFacts.
Import Utf.

Lemma combine_surrogates_range high low :
  55296 <= high <= 56319 -> 56320 <= low <= 57343 ->
  65536 <= combine_surrogates high low <= 1114111.
Proof.
  intros Hh Hl.
  assert (H : holds_on_block pairs_combine_well 10 55296 = true) by (vm_compute; reflexivity).
  pose proof (holds_on_block_spec _ _ _ H high) as H1.
  change (2 ^ Z.of_nat 10) with 1024 in H1. specialize (H1 ltac:(lia)).
  unfold pairs_combine_well in H1.
  pose proof (holds_on_block_spec _ _ _ H1 low) as H2.
  change (2 ^ Z.of_nat 10) with 1024 in H2. specialize (H2 ltac:(lia)).
  unfold in_supplementary_planes in H2. apply andb_true_iff in H2 as [H2 H3]. lia.
Qed.

Lemma to_char32_t_nonneg sValue : 0 <= to_char32_t sValue.
Proof. unfold to_char32_t. apply Z.mod_pos_bound. lia. Qed.

Ltac to_props :=
  repeat match goal with
         | H : (_ && _) = true |- _ => apply andb_true_iff in H as [? ?]
         | H : (_ || _) = false |- _ => apply orb_false_iff in H as [? ?]
         | H : negb _ = true |- _ => apply negb_true_iff in H
         | H : negb _ = false |- _ => apply negb_false_iff in H
         | H : (_ <=? _) = true |- _ => apply Z.leb_le in H
         | H : (_ <=? _) = false |- _ => apply Z.leb_gt in H
         | H : (_ <? _) = true |- _ => apply Z.ltb_lt in H
         | H : (_ <? _) = false |- _ => apply Z.ltb_ge in H
         | H : (_ =? _) = true |- _ => apply Z.eqb_eq in H
         | H : (_ =? _) = false |- _ => apply Z.eqb_neq in H
         end.

Lemma scalar_below_surrogates c : 0 <= c < 55296 -> is_scalar_value c = true.
Proof.
  intros H. unfold is_scalar_value.
  apply andb_true_iff; split; [apply andb_true_iff; split; lia|].
  apply negb_true_iff, andb_false_iff. left. lia.
Qed.

Lemma scalar_above_surrogates c : 57343 < c <= 1114111 -> is_scalar_value c = true.
Proof.
  intros H. unfold is_scalar_value.
  apply andb_true_iff; split; [apply andb_true_iff; split; lia|].
  apply negb_true_iff, andb_false_iff. right. lia.
Qed.

Ltac branch :=
  match goal with
  | |- context [if ?b then _ else _] => destruct b eqn:?
  | |- context [let '(_, _) := ?x in _] => destruct x
  end.

(** X8.  The character that [parse_utf] returns for [\x], [\u] or [\U]
    (one, two or four bytes in hexadecimal) is a code point up to
    [0x10FFFF] that is not a surrogate; after [\x] it is at most [0x7F];
    after [\u] it is below [0xD800] or made of two surrogates, so the
    code points from [0xE000] to [0xFFFF] are refused there. *)
Theorem parse_utf_yields_scalar_values (oIstream : ifakestream) (nCount : Z)
    (cResult : Z) (oAfter : ifakestream) :
  nCount = 1 \/ nCount = 2 \/ nCount = 4 ->
  parse_utf oIstream nCount = Ok (Some cResult, oAfter) ->
  is_scalar_value cResult = true
  /\ (nCount = 1 -> cResult <= 127)
  /\ (nCount = 2 -> cResult < 55296 \/ 65536 <= cResult).
Proof.
  intros Hn. unfold parse_utf.
  destruct (Fakestream.read oIstream (nCount * 2)) as [[sRead o1]| | |];
    cbn [mbind outcome_mbind outcome_bind]; try discriminate.
  pose proof (to_char32_t_nonneg
                (copy_into (str_fill (nCount * 2) (ascii_of_nat 0)) sRead)) as Hnn.
  set (cChar := to_char32_t _) in *.
  branch; [discriminate|].
  destruct (nCount =? 1) eqn:E1.
  { branch; [discriminate|]. intros [= <- _]. to_props.
    split; [apply scalar_below_surrogates; lia | lia]. }
  destruct (nCount =? 2) eqn:E2.
  { destruct ((55296 <=? cChar) && (cChar <=? 56319)) eqn:Esur.
    - destruct (Fakestream.get o1) as [c1 o2]. destruct (negb (c1 =? 92)); [discriminate|].
      destruct (Fakestream.get o2) as [c2 o3]. destruct (negb (c2 =? 117)); [discriminate|].
      destruct (Fakestream.read o3 (nCount * 2)) as [[sRead2 o4]| | |];
        cbn [mbind outcome_mbind outcome_bind]; try discriminate.
      set (cLow := to_char32_t _).
      branch; [discriminate|].
      destruct ((cLow <? 56320) || (57343 <? cLow)) eqn:Elow; [discriminate|].
      intros [= <- _]. to_props.
      pose proof (combine_surrogates_range cChar cLow ltac:(lia) ltac:(lia)).
      split; [apply scalar_above_surrogates; lia | lia].
    - destruct (56320 <=? cChar) eqn:E; [discriminate|]. intros [= <- _].
      apply andb_false_iff in Esur. to_props.
      assert (cChar < 55296) by (destruct Esur as [E'|E']; to_props; lia).
      split; [apply scalar_below_surrogates; lia | lia]. }
  destruct (nCount =? 4) eqn:E4.
  { destruct (((55296 <=? cChar) && (cChar <=? 57343)) || (1114111 <? cChar)) eqn:E;
      [discriminate|]. intros [= <- _].
    apply orb_false_iff in E as [Ea Eb]. to_props.
    split; [|lia].
    unfold is_scalar_value.
    apply andb_true_iff; split; [apply andb_true_iff; split; lia|].
    rewrite Ea. reflexivity. }
  to_props. lia.
Qed.

End ParseUtfFacts.

(** Witness of X8. *)
Lemma parse_utf_yields_scalar_values_witness :
  Utf.parse_utf Examples.hex_41 1 = Ok (Some 65, mk_ifakestream "41" 2)
  /\ is_scalar_value 65 = true.
Proof.
  assert (H : Utf.parse_utf Examples.hex_41 1 = Ok (Some 65, mk_ifakestream "41" 2))
    by reflexivity.
  split; [exact H |].
  exact (proj1 (parse_utf_yields_scalar_values Examples.hex_41 1 65 _ (or_introl eq_refl) H)).
Defined.

(** ** The line of a position and the message
    ([shell_parser_exception.cpp]) *)

Section LineFacts.

Lemma find_from_bound c s : forall i pos j,
  find_from c s i pos = Some j -> i <= j /\ pos <= j /\ j < i + str_size s.
Proof.
  induction s as [|a s IH]; intros i pos j; cbn [find_from]; [discriminate|].
  rewrite str_size_String. pose proof (str_size_nonneg s).
  destruct ((pos <=? i) && Ascii.eqb a c) eqn:E.
  - intros [= <-]. apply andb_true_iff in E as [E _]. apply Z.leb_le in E. lia.
  - intros H'. apply IH in H'. lia.
Qed.

Lemma find_from_none c s : forall i pos,
  str_forall (fun a => negb (Ascii.eqb a c)) s = true -> find_from c s i pos = None.
Proof.
  induction s as [|a s IH]; intros i pos; cbn [find_from str_forall]; [reflexivity|].
  intros [Ha Hs]%andb_true_iff. apply negb_true_iff in Ha. rewrite Ha, andb_false_r.
  apply IH. exact Hs.
Qed.

Lemma find_from_past c s i pos : i + str_size s <= pos -> find_from c s i pos = None.
Proof.
  intros H. destruct (find_from c s i pos) as [j|] eqn:E; [|reflexivity].
  apply find_from_bound in E. lia.
Qed.

Lemma find_from_app c a : forall b i pos,
  find_from c (a +:+ b) i pos
  = match find_from c a i pos with
    | Some j => Some j
    | None => find_from c b (i + str_size a) pos
    end.
Proof.
  induction a as [|x a IH]; intros b i pos.
  - rewrite append_nil_l. cbn [find_from]. change (str_size EmptyString) with 0.
    rewrite Z.add_0_r. reflexivity.
  - rewrite append_cons. cbn [find_from]. destruct ((pos <=? i) && Ascii.eqb x c); [reflexivity|].
    rewrite IH, str_size_String. replace (i + 1 + str_size a) with (i + (str_size a + 1)) by lia.
    reflexivity.
Qed.

Lemma rfind_from_none c s : forall i pos,
  str_forall (fun a => negb (Ascii.eqb a c)) s = true -> rfind_from c s i pos = None.
Proof.
  induction s as [|a s IH]; intros i pos; cbn [rfind_from str_forall]; [reflexivity|].
  intros [Ha Hs]%andb_true_iff. apply negb_true_iff in Ha. rewrite IH by exact Hs.
  rewrite Ha, andb_false_r. reflexivity.
Qed.

Lemma rfind_from_before c s i pos : pos < i -> rfind_from c s i pos = None.
Proof.
  intros H. destruct (rfind_from c s i pos) as [j|] eqn:E; [|reflexivity].
  apply rfind_from_bound in E. lia.
Qed.

Lemma rfind_from_app c a : forall b i pos,
  rfind_from c (a +:+ b) i pos
  = match rfind_from c b (i + str_size a) pos with
    | Some j => Some j
    | None => rfind_from c a i pos
    end.
Proof.
  induction a as [|x a IH]; intros b i pos.
  - rewrite append_nil_l. cbn [rfind_from]. change (str_size EmptyString) with 0.
    rewrite Z.add_0_r. destruct (rfind_from c b i pos); reflexivity.
  - rewrite append_cons. cbn [rfind_from]. rewrite IH, str_size_String.
    replace (i + 1 + str_size a) with (i + (str_size a + 1)) by lia.
    destruct (rfind_from c b (i + (str_size a + 1)) pos); reflexivity.
Qed.

Lemma str_drop_app a : forall b, str_drop (a +:+ b) (str_size a) = b.
Proof.
  induction a as [|x a IH]; intros b.
  - rewrite append_nil_l. destruct b; reflexivity.
  - rewrite append_cons, str_size_String. cbn [str_drop]. pose proof (str_size_nonneg a).
    destruct (Z.leb_spec (str_size a + 1) 0); [lia|].
    replace (str_size a + 1 - 1) with (str_size a) by lia. apply IH.
Qed.

Lemma str_take_app a : forall b, str_take (a +:+ b) (str_size a) = a.
Proof.
  induction a as [|x a IH]; intros b.
  - rewrite append_nil_l. destruct b; reflexivity.
  - rewrite append_cons, str_size_String. cbn [str_take]. pose proof (str_size_nonneg a).
    destruct (Z.leb_spec (str_size a + 1) 0); [lia|].
    replace (str_size a + 1 - 1) with (str_size a) by lia. rewrite IH. reflexivity.
Qed.

Lemma str_take_all s : forall n, str_size s <= n -> str_take s n = s.
Proof.
  induction s as [|x s IH]; intros n Hn; [reflexivity|].
  rewrite str_size_String in Hn. pose proof (str_size_nonneg s). cbn [str_take].
  destruct (Z.leb_spec n 0); [lia|]. rewrite IH by lia. reflexivity.
Qed.

(** The last newline at or before a position inside [sLine], in a text
    [front ++ sLine ++ back] whose [front] is empty or ends with a
    newline. *)
Lemma line_start_in_line front sLine back nPos :
  ends_lines front -> str_forall not_newline sLine = true ->
  str_size front <= nPos < str_size front + str_size sLine ->
  line_start (front +:+ (sLine +:+ back)) nPos = str_size front.
Proof.
  intros Hfront Hline Hpos. unfold line_start, str_rfind.
  rewrite rfind_from_app, rfind_from_app. rewrite Z.add_0_l.
  rewrite (rfind_from_before LF back) by lia.
  rewrite (rfind_from_none LF sLine) by exact Hline.
  destruct Hfront as [-> | [front' ->]]; [reflexivity|].
  rewrite rfind_from_app. rewrite Z.add_0_l. cbn [rfind_from].
  rewrite str_size_app in Hpos |- *. change (str_size (String LF EmptyString)) with 1 in *.
  destruct (Z.leb_spec (str_size front') nPos); [|lia].
  unfold LF at 1. rewrite Ascii.eqb_refl. cbn [andb]. lia.
Qed.

Lemma line_end_in_line front sLine back nPos :
  starts_line_break back -> str_forall not_newline sLine = true ->
  str_size front <= nPos < str_size front + str_size sLine ->
  line_end (front +:+ (sLine +:+ back)) nPos = str_size front + str_size sLine.
Proof.
  intros Hback Hline Hpos. unfold line_end, str_find.
  rewrite find_from_app, find_from_app. rewrite Z.add_0_l.
  rewrite (find_from_past LF front) by lia.
  rewrite (find_from_none LF sLine) by exact Hline.
  destruct Hback as [-> | [back' ->]].
  - cbn [find_from]. rewrite !str_size_app. change (str_size EmptyString) with 0. lia.
  - cbn [find_from].
    destruct (Z.leb_spec nPos (str_size front + str_size sLine)); [|lia].
    unfold LF at 1. rewrite Ascii.eqb_refl. reflexivity.
Qed.

(** X9.  [getLineFromPosition] at a position inside a line returns that
    line: the bytes between the newline before the position, or the start
    of the text, and the newline after it, or the end of the text. *)
Theorem getLineFromPosition_returns_the_line (front sLine back : string) (nPos : Z) :
  ends_lines front -> starts_line_break back ->
  str_forall not_newline sLine = true ->
  str_size front <= nPos < str_size front + str_size sLine ->
  str_size sLine < size_t_mod ->
  getLineFromPosition (front +:+ (sLine +:+ back)) nPos = Ok sLine.
Proof.
  intros Hfront Hback Hline Hpos Hmax. unfold getLineFromPosition.
  pose proof (str_size_nonneg front). pose proof (str_size_nonneg back).
  rewrite !str_size_app.
  destruct (Z.leb_spec (str_size front + (str_size sLine + str_size back)) nPos); [lia|].
  rewrite line_start_in_line, line_end_in_line by assumption.
  unfold substr. rewrite !str_size_app.
  destruct (Z.ltb_spec (str_size front + (str_size sLine + str_size back)) (str_size front));
    [lia|].
  rewrite str_drop_app. rewrite size_t_sub_exact by lia.
  replace (str_size front + str_size sLine - str_size front) with (str_size sLine) by lia.
  rewrite str_take_app. reflexivity.
Qed.

(** X10.  [getLineFromPosition] at the position of a newline returns all
    the text after that newline, however many lines it holds: the start
    found is one past the end found, and their difference wraps. *)
Theorem getLineFromPosition_on_a_newline (front back : string) :
  str_size back < size_t_mod ->
  getLineFromPosition (front +:+ String LF back) (str_size front) = Ok back.
Proof.
  intros Hsize. unfold getLineFromPosition.
  pose proof (str_size_nonneg front). pose proof (str_size_nonneg back).
  rewrite str_size_app, str_size_String.
  destruct (Z.leb_spec (str_size front + (str_size back + 1)) (str_size front)); [lia|].
  assert (Hstart : line_start (front +:+ String LF back) (str_size front) = str_size front + 1).
  { unfold line_start, str_rfind. rewrite rfind_from_app, Z.add_0_l. cbn [rfind_from].
    rewrite rfind_from_before by lia.
    rewrite Z.leb_refl. unfold LF at 1. rewrite Ascii.eqb_refl. reflexivity. }
  assert (Hend : line_end (front +:+ String LF back) (str_size front) = str_size front).
  { unfold line_end, str_find. rewrite find_from_app, Z.add_0_l.
    rewrite find_from_past by lia. cbn [find_from].
    rewrite Z.leb_refl. unfold LF at 1. rewrite Ascii.eqb_refl. reflexivity. }
  rewrite Hstart, Hend. unfold substr. rewrite str_size_app, str_size_String.
  destruct (Z.ltb_spec (str_size front + (str_size back + 1)) (str_size front + 1)); [lia|].
  replace (front +:+ String LF back) with ((front +:+ String LF EmptyString) +:+ back)
    by (rewrite append_assoc'; reflexivity).
  replace (str_size front + 1) with (str_size (front +:+ String LF EmptyString))
    by (rewrite str_size_app; reflexivity).
  rewrite str_drop_app. rewrite str_size_app. change (str_size (String LF EmptyString)) with 1.
  unfold size_t_sub.
  replace ((str_size front - (str_size front + 1)) mod size_t_mod) with (size_t_mod - 1).
  - rewrite str_take_all by lia. reflexivity.
  - replace (str_size front - (str_size front + 1)) with (-1) by lia. reflexivity.
Qed.

(** The count that [getCodePointAtByte] returns is at most the byte
    position it was asked for. *)
Lemma getCodePointAtByte_loop_bound sCommand nPos :
  forall fuel nByteIndex nCharIndex n,
    0 <= nCharIndex <= nByteIndex -> nByteIndex <= nPos ->
    getCodePointAtByte_loop fuel sCommand nPos nByteIndex nCharIndex = Ok n ->
    0 <= n <= nPos.
Proof.
  induction fuel as [|fuel IH]; intros nByteIndex nCharIndex n Hc Hb; simpl; [discriminate |].
  destruct (nByteIndex <? str_size sCommand); [| discriminate].
  destruct (str_at sCommand nByteIndex) as [c|]; [| discriminate].
  destruct (utf8_length (byte_of c)) as [k|] eqn:Elen; [| intros [= <-]; lia].
  apply utf8_length_positive in Elen.
  destruct (Z.leb_spec nByteIndex nPos); [| lia]. simpl.
  destruct (Z.ltb_spec nPos (nByteIndex + k)).
  - intros [= <-]. lia.
  - apply IH; lia.
Qed.

Lemma getCodePointAtByte_bound sCommand nPos n :
  0 <= nPos -> getCodePointAtByte sCommand nPos = Ok n -> 0 <= n <= nPos.
Proof.
  intros Hpos. unfold getCodePointAtByte.
  destruct (str_size sCommand <=? nPos); [intros [= <-]; lia |].
  apply getCodePointAtByte_loop_bound; lia.
Qed.

(** X11.  Building a [shell_parser_exception] at a position of the text
    (from its first byte to its end) does not fail: [substr] is not called
    beyond the text, the loop of [getCodePointAtByte] does not run off its
    end, and the two counts it returns are at most the position, so that
    the line of spaces before the caret is no longer than the text.  The
    message holds the status line, the line, the caret line and the two
    numbers; [what()] returns it, and a [throw] of the parser throws the
    exception it names. *)
Theorem parser_exception_message_is_built (nStatus : shell_status) (sCommand : string)
    (nPos : Z) :
  0 <= nPos <= str_size sCommand ->
  exists (sLine : string) (nCodePoint nAbsoluteCodePoint : Z),
    getLineFromPosition sCommand nPos = Ok sLine
    /\ (getCodePointAtByte sLine nPos = Ok nCodePoint /\ 0 <= nCodePoint <= nPos)
    /\ (getCodePointAtByte sCommand nPos = Ok nAbsoluteCodePoint
        /\ 0 <= nAbsoluteCodePoint <= nPos)
    /\ makeMessage nStatus sCommand nPos
       = Ok (errorMessage nStatus
             +:+ String LF sLine
             +:+ String LF (str_fill nCodePoint SPACE) +:+ "^~~~"
             +:+ String LF "Code point: " +:+ to_string_unsigned nAbsoluteCodePoint
             +:+ String LF "Byte: " +:+ to_string_unsigned nPos +:+ String LF EmptyString)
    /\ what (mk_parser_exception nStatus sCommand nPos)
       = makeMessage nStatus sCommand nPos
    /\ forall A : Type,
         @throw_parser_exception A nStatus sCommand nPos
         = Throw (parser_exception (mk_parser_exception nStatus sCommand nPos)).
Proof.
  intros [Hpos Hsize].
  destruct (getLineFromPosition_ok sCommand nPos Hpos) as [sLine Hline].
  destruct (getCodePointAtByte_ok sLine nPos Hpos) as [n1 Hn1].
  destruct (getCodePointAtByte_ok sCommand nPos Hpos) as [n2 Hn2].
  exists sLine, n1, n2.
  split; [exact Hline |].
  split; [split; [exact Hn1 | exact (getCodePointAtByte_bound _ _ _ Hpos Hn1)] |].
  split; [split; [exact Hn2 | exact (getCodePointAtByte_bound _ _ _ Hpos Hn2)] |].
  split.
  { unfold makeMessage. rewrite Hline. cbn [mbind outcome_mbind outcome_bind].
    rewrite Hn1, Hn2. reflexivity. }
  split; [reflexivity |].
  intros A. apply throw_parser_exception_throws. exact Hpos.
Qed.

End LineFacts.

(** Witness of X9. *)
Lemma getLineFromPosition_returns_the_line_witness :
  ends_lines (String "a" (String LF EmptyString))
  /\ starts_line_break (String LF "c")
  /\ getLineFromPosition
       (String "a" (String LF EmptyString) +:+ ("bb" +:+ String LF "c")) 3 = Ok "bb".
Proof.
  assert (H1 : ends_lines (String "a" (String LF EmptyString)))
    by (right; exists "a"; reflexivity).
  assert (H2 : starts_line_break (String LF "c")) by (right; exists "c"; reflexivity).
  split; [exact H1 | split; [exact H2 |]].
  exact (getLineFromPosition_returns_the_line _ "bb" _ 3 H1 H2 eq_refl
           ltac:(change (2 <= 3 < 2 + 2); lia) ltac:(change (2 < 2 ^ 64); lia)).
Defined.

(** Witness of X10. *)
Lemma getLineFromPosition_on_a_newline_witness :
  str_size (String "b" (String LF "c")) < size_t_mod
  /\ getLineFromPosition ("a" +:+ String LF (String "b" (String LF "c"))) 1
     = Ok (String "b" (String LF "c")).
Proof.
  assert (H : str_size (String "b" (String LF "c")) < size_t_mod)
    by (change (3 < 2 ^ 64); lia).
  split; [exact H |].
  exact (getLineFromPosition_on_a_newline "a" _ H).
Defined.

(** Witness of X11: the end of the text [a)]. *)
Lemma parser_exception_message_is_built_witness :
  0 <= 2 <= str_size "a)"
  /\ exists (sLine : string) (nCodePoint nAbsoluteCodePoint : Z),
       getLineFromPosition "a)" 2 = Ok sLine
       /\ (getCodePointAtByte sLine 2 = Ok nCodePoint /\ 0 <= nCodePoint <= 2)
       /\ (getCodePointAtByte "a)" 2 = Ok nAbsoluteCodePoint
           /\ 0 <= nAbsoluteCodePoint <= 2)
       /\ makeMessage SHELL_ERROR_SYNTAX_ERROR_UNEXPECTED_TOKEN "a)" 2
          = Ok (errorMessage SHELL_ERROR_SYNTAX_ERROR_UNEXPECTED_TOKEN
                +:+ String LF sLine
                +:+ String LF (str_fill nCodePoint SPACE) +:+ "^~~~"
                +:+ String LF "Code point: " +:+ to_string_unsigned nAbsoluteCodePoint
                +:+ String LF "Byte: " +:+ to_string_unsigned 2 +:+ String LF EmptyString)
       /\ what (mk_parser_exception SHELL_ERROR_SYNTAX_ERROR_UNEXPECTED_TOKEN "a)" 2)
          = makeMessage SHELL_ERROR_SYNTAX_ERROR_UNEXPECTED_TOKEN "a)" 2
       /\ forall A : Type,
            @throw_parser_exception A SHELL_ERROR_SYNTAX_ERROR_UNEXPECTED_TOKEN "a)" 2
            = Throw (parser_exception
                       (mk_parser_exception SHELL_ERROR_SYNTAX_ERROR_UNEXPECTED_TOKEN "a)" 2)).
Proof.
  assert (H : 0 <= 2 <= str_size "a)") by (change (0 <= 2 <= 2); lia).
  split; [exact H |].
  exact (parser_exception_message_is_built SHELL_ERROR_SYNTAX_ERROR_UNEXPECTED_TOKEN "a)" 2 H).
Defined.

(** ** Variables: [shell_var.h], [shell_env.h], [command_var.cpp],
    [command_env.cpp] *)

Section VariableFacts.
Import Session.

Lemma var_of_set_var s' s x v σ :
  var_of s' (set_var s x v σ)
  = if bool_decide (m_pVar s' = m_pVar s) then <[x := v]> (var_of s σ) else var_of s' σ.
Proof.
  unfold var_of, set_var. cbn [st_var set_st_var].
  destruct (bool_decide_reflect (m_pVar s' = m_pVar s)) as [->|Hne].
  - rewrite lookup_insert_eq. reflexivity.
  - rewrite lookup_insert_ne by congruence. reflexivity.
Qed.

Lemma env_of_set_env s' s x v σ :
  env_of s' (set_env s x v σ)
  = if bool_decide (m_pEnv s' = m_pEnv s) then <[x := v]> (env_of s σ) else env_of s' σ.
Proof.
  unfold env_of, set_env. cbn [st_env set_st_env].
  destruct (bool_decide_reflect (m_pEnv s' = m_pEnv s)) as [->|Hne].
  - rewrite lookup_insert_eq. reflexivity.
  - rewrite lookup_insert_ne by congruence. reflexivity.
Qed.

(** X12.  Writing a local through a session is seen through exactly the
    sessions that hold the same [shell_var] object, and there under that
    name only; likewise for the environment; writing a local never
    changes an environment, nor the other way round. *)
Theorem set_var_reaches_the_sharing_sessions (s s' : shell_session) (σ : store)
    (sVariable sValue sOther : string) :
  (get_var s' (set_var s sVariable sValue σ) sOther
   = if bool_decide (m_pVar s' = m_pVar s) && String.eqb sOther sVariable
     then sValue else get_var s' σ sOther)
  /\ (has_var s' (set_var s sVariable sValue σ) sOther
      = (bool_decide (m_pVar s' = m_pVar s) && String.eqb sOther sVariable)
        || has_var s' σ sOther)
  /\ (get_env s' (set_env s sVariable sValue σ) sOther
      = if bool_decide (m_pEnv s' = m_pEnv s) && String.eqb sOther sVariable
        then sValue else get_env s' σ sOther)
  /\ (has_env s' (set_env s sVariable sValue σ) sOther
      = (bool_decide (m_pEnv s' = m_pEnv s) && String.eqb sOther sVariable)
        || has_env s' σ sOther)
  /\ env_of s' (set_var s sVariable sValue σ) = env_of s' σ
  /\ var_of s' (set_env s sVariable sValue σ) = var_of s' σ.
Proof.
  unfold get_var, has_var, get_env, has_env.
  rewrite var_of_set_var, env_of_set_env.
  repeat split.
  - destruct (bool_decide_reflect (m_pVar s' = m_pVar s)) as [Heq|Hne]; cbn [andb]; [|reflexivity].
    destruct (String.eqb_spec sOther sVariable) as [->|Hx].
    + rewrite lookup_insert_eq. reflexivity.
    + rewrite lookup_insert_ne by congruence. unfold var_of. rewrite Heq. reflexivity.
  - destruct (bool_decide_reflect (m_pVar s' = m_pVar s)) as [Heq|Hne]; cbn [andb orb]; [|reflexivity].
    destruct (String.eqb_spec sOther sVariable) as [->|Hx]; cbn [orb].
    + rewrite lookup_insert_eq. apply bool_decide_eq_true. eauto.
    + rewrite lookup_insert_ne by congruence. unfold var_of. rewrite Heq. reflexivity.
  - destruct (bool_decide_reflect (m_pEnv s' = m_pEnv s)) as [Heq|Hne]; cbn [andb]; [|reflexivity].
    destruct (String.eqb_spec sOther sVariable) as [->|Hx].
    + rewrite lookup_insert_eq. reflexivity.
    + rewrite lookup_insert_ne by congruence. unfold env_of. rewrite Heq. reflexivity.
  - destruct (bool_decide_reflect (m_pEnv s' = m_pEnv s)) as [Heq|Hne]; cbn [andb orb]; [|reflexivity].
    destruct (String.eqb_spec sOther sVariable) as [->|Hx]; cbn [orb].
    + rewrite lookup_insert_eq. apply bool_decide_eq_true. eauto.
    + rewrite lookup_insert_ne by congruence. unfold env_of. rewrite Heq. reflexivity.
Qed.

Lemma set_then_get_same_name s x v σ :
  get_var s (set_var s x v σ) x = v
  /\ has_var s (set_var s x v σ) x = true
  /\ get_env s (set_env s x v σ) x = v
  /\ has_env s (set_env s x v σ) x = true
  /\ env_of s (set_var s x v σ) = env_of s σ
  /\ var_of s (set_env s x v σ) = var_of s σ.
Proof.
  unfold get_var, has_var, get_env, has_env.
  rewrite var_of_set_var, env_of_set_env.
  rewrite (bool_decide_eq_true_2 (m_pVar s = m_pVar s)) by reflexivity.
  rewrite (bool_decide_eq_true_2 (m_pEnv s = m_pEnv s)) by reflexivity.
  rewrite !lookup_insert_eq. cbn [default].
  repeat split; apply bool_decide_eq_true; eauto.
Qed.

End VariableFacts.

Section VariableCommandFacts.
Import Eval Command.

Lemma ostream_write_frame l text σ :
  st_env (ostream_write l text σ) = st_env σ
  /\ st_var (ostream_write l text σ) = st_var σ
  /\ st_arg (ostream_write l text σ) = st_arg σ
  /\ st_vtable (ostream_write l text σ) = st_vtable σ.
Proof. repeat split. Qed.

(** X13.  With a valid name, [setvar] sets the local and [getvar] then
    writes its value, which is also what [$name] expands to; [setenv]
    sets the environment variable and [getenv] then writes its value,
    while [$name] expands to it only when no local of that name hides it;
    [getvar] reads locals only and does not fall back to the
    environment. *)
Theorem setvar_then_getvar (sVariable sValue : string) (s : shell_session) (σ : store) :
  is_var sVariable = true ->
  let σ1 := Session.set_var s sVariable sValue σ in
  command_setvar_run [sVariable; sValue] s σ = (Ok SHELL_SUCCESS, s, σ1)
  /\ command_getvar_run [sVariable] s σ1
     = (Ok SHELL_SUCCESS, s, ostream_write (m_oStdOut s) sValue σ1)
  /\ variable_get_value sVariable s σ1 = sValue
  /\ let σ2 := Session.set_env s sVariable sValue σ in
     command_setenv_run [sVariable; sValue] s σ = (Ok SHELL_SUCCESS, s, σ2)
     /\ command_getenv_run [sVariable] s σ2
        = (Ok SHELL_SUCCESS, s, ostream_write (m_oStdOut s) sValue σ2)
     /\ variable_get_value sVariable s σ2
        = (if Session.has_var s σ sVariable then Session.get_var s σ sVariable else sValue)
     /\ command_getvar_run [sVariable] s σ2
        = (Ok SHELL_SUCCESS, s,
           ostream_write (m_oStdOut s) (Session.get_var s σ sVariable) σ2).
Proof.
  intros Hvar σ1.
  destruct (set_then_get_same_name s sVariable sValue σ)
    as (Hgv & Hhv & Hge & Hhe & Henv & Hvar').
  unfold command_setvar_run, command_getvar_run, command_setenv_run, command_getenv_run.
  rewrite Hvar. cbn [negb].
  unfold bind, update, read, write_out, ret. subst σ1.
  rewrite Hgv.
  repeat split.
  - unfold variable_get_value. rewrite Hhv. exact Hgv.
  - rewrite Hge. reflexivity.
  - unfold variable_get_value. unfold Session.has_var, Session.get_var.
    rewrite Hvar'. fold (Session.has_var s σ sVariable). fold (Session.get_var s σ sVariable).
    destruct (Session.has_var s σ sVariable); [reflexivity|]. rewrite Hhe. exact Hge.
Qed.

Ltac run_variable_command :=
  unfold command_getvar_run, command_setvar_run, command_getenv_run, command_setenv_run,
    msg_error_var_param_number, msg_error_variable_name,
    bind, update, read, write_out, write_err, ret;
  repeat match goal with
         | |- context [match ?v with [] => _ | _ :: _ => _ end] => destruct v
         | |- context [if negb (is_var ?x) then _ else _] => destruct (is_var x)
         end;
  cbn [negb fst snd].

(** X14.  Whatever their arguments, [getvar] and [getenv] change no
    variable, [setvar] changes no environment and [setenv] no local
    variable; a [setvar] or [setenv] that does not return
    [SHELL_SUCCESS] changes no variable at all. *)
Theorem variable_commands_keep_to_their_namespace (vArgs : list string)
    (s : shell_session) (σ : store) :
  (let r := command_getvar_run vArgs s σ in
   st_var (snd r) = st_var σ /\ st_env (snd r) = st_env σ)
  /\ (let r := command_getenv_run vArgs s σ in
      st_var (snd r) = st_var σ /\ st_env (snd r) = st_env σ)
  /\ (let r := command_setvar_run vArgs s σ in
      st_env (snd r) = st_env σ
      /\ (fst (fst r) <> Ok SHELL_SUCCESS -> st_var (snd r) = st_var σ))
  /\ (let r := command_setenv_run vArgs s σ in
      st_var (snd r) = st_var σ
      /\ (fst (fst r) <> Ok SHELL_SUCCESS -> st_env (snd r) = st_env σ)).
Proof.
  repeat split; run_variable_command; try reflexivity; intros Hs; congruence.
Qed.

End VariableCommandFacts.

(** Witness of X13. *)
Lemma setvar_then_getvar_witness :
  is_var "x" = true
  /\ Command.command_setvar_run ["x"; "1"] Examples.session0 Examples.store0
     = (Ok SHELL_SUCCESS, Examples.session0,
        Session.set_var Examples.session0 "x" "1" Examples.store0).
Proof.
  assert (H : is_var "x" = true) by reflexivity.
  split; [exact H |].
  exact (proj1 (setvar_then_getvar "x" "1" Examples.session0 Examples.store0 H)).
Defined.

(** Witness of X14. *)
Lemma variable_commands_keep_to_their_namespace_witness :
  fst (fst (Command.command_setvar_run [] Examples.session0 Examples.store0))
  <> Ok SHELL_SUCCESS
  /\ st_var (snd (Command.command_setvar_run [] Examples.session0 Examples.store0))
     = st_var Examples.store0.
Proof.
  assert (H : fst (fst (Command.command_setvar_run [] Examples.session0 Examples.store0))
              <> Ok SHELL_SUCCESS) by discriminate.
  split; [exact H |].
  exact (proj2 (proj1 (proj2 (proj2
           (variable_commands_keep_to_their_namespace [] Examples.session0 Examples.store0))))
           H).
Defined.

(** ** Commands in a program ([shell_node_evaluate.cpp], [command.cpp]) *)

Section EvaluationFacts.
Context `{Collaborators}.
Variable pShell : shell.
Import Eval Interp.

(** X15.  A command whose name is not registered writes the message
    on the error stream and returns [SHELL_ERROR_COMMAND_NOT_FOUND]
    without throwing and without recording a last result; the block it
    stands in goes on with the next command, in every shell, whatever its
    stop-on-command-not-found flag. *)
Theorem unknown_command_does_not_stop_a_block (fuel : nat) (pCommand : expandable)
    (sName : string) (vArgs : list string) (s s1 : shell_session) (σ σ1 : store)
    (nPos : Z) (rest : list (option evaluable)) :
  expand pShell fuel pCommand [] true s σ = (Ok (sName :: vArgs), s1, σ1) ->
  get_command pShell sName = None ->
  let σ2 := ostream_write (m_oStdErr s1)
              ("shell: " +:+ LDQUO +:+ sName +:+ RDQUO +:+ ": not found." +:+ endl) σ1 in
  evaluate pShell (S fuel) (shell_node_command pCommand) s σ
  = (Ok SHELL_ERROR_COMMAND_NOT_FOUND, s1, σ2)
  /\ evaluate pShell (S (S fuel))
       (shell_node_command_block nPos (Some (shell_node_command pCommand) :: rest)) s σ
     = evaluate pShell (S (S fuel)) (shell_node_command_block nPos rest) s1 σ2.
Proof.
  intros Hexp Hnone σ2.
  assert (Hcmd : evaluate pShell (S fuel) (shell_node_command pCommand) s σ
                 = (Ok SHELL_ERROR_COMMAND_NOT_FOUND, s1, σ2)).
  { cbn [evaluate]. erewrite bind_ok by exact Hexp. cbv beta iota. rewrite Hnone. reflexivity. }
  split; [exact Hcmd|].
  change (evaluate pShell (S (S fuel))
            (shell_node_command_block nPos (Some (shell_node_command pCommand) :: rest)))
    with (bind (block_loop (evaluate pShell (S fuel))
                  (Some (shell_node_command pCommand) :: rest))
            (fun _ => read (fun s _ => Session.get_last_command_result s))).
  change (evaluate pShell (S (S fuel)) (shell_node_command_block nPos rest))
    with (bind (block_loop (evaluate pShell (S fuel)) rest)
            (fun _ => read (fun s _ => Session.get_last_command_result s))).
  unfold bind at 1. cbn [block_loop]. erewrite bind_ok by exact Hcmd. reflexivity.
Qed.

(** X16.  [eval] on a text that does not parse, as a command of a
    program: the exception leaves [command_eval::run] before the depth is
    decreased and is caught by [shell_node_command::evaluate], which
    writes its message and keeps the initial status.  The command returns
    [SHELL_SUCCESS] and the session's depth counter stays one higher. *)
Theorem eval_of_a_syntax_error (fuel : nat) (pCommand : expandable)
    (vArgs : list string) (s s1 : shell_session) (σ σ1 : store)
    (e : shell_parser_exception) (sMessage : string) :
  expand pShell fuel pCommand [] true s σ = (Ok ("eval" :: vArgs), s1, σ1) ->
  get_command pShell "eval" = Some command_eval ->
  Parser.parse (mk_ifakestream (fold_left ofs_write vArgs EmptyString) 0)
  = Throw (parser_exception e) ->
  what e = Ok sMessage ->
  0 <= m_nCurrentDepth s1 < 16 ->
  evaluate pShell (S fuel) (shell_node_command pCommand) s σ
  = (Ok SHELL_SUCCESS,
     Session.set_last_command_result
       (Session.set_depth s1 (m_nCurrentDepth s1 + 1)) SHELL_SUCCESS,
     ostream_write (m_oStdErr s1) sMessage σ1).
Proof.
  intros Hexp Hcmd Hparse Hwhat Hdepth.
  cbn [evaluate]. erewrite bind_ok by exact Hexp. cbv beta iota. rewrite Hcmd.
  unfold bind at 1. unfold run_normalized, command_run, Command.command_eval_run.
  rewrite increase_shell_depth_below by exact Hdepth. cbn [negb].
  unfold eval. unfold bind at 2. unfold bind at 2. unfold lift. rewrite Hparse.
  unfold msg_error_syntax_error, bind, lift, write_err, update, ret, update_session.
  rewrite Hwhat. reflexivity.
Qed.

End EvaluationFacts.

(** Witness of X15. *)
Lemma unknown_command_does_not_stop_a_block_witness :
  @Interp.expand Examples.absent_collaborators Examples.the_shell 2 Examples.nosuch_expression
    [] true Examples.session0 Examples.store0
  = (Ok ["nosuch"], Examples.session0, Examples.store0)
  /\ get_command Examples.the_shell "nosuch" = None
  /\ fst (fst (@Interp.evaluate Examples.absent_collaborators Examples.the_shell 3
                 (shell_node_command Examples.nosuch_expression)
                 Examples.session0 Examples.store0))
     = Ok SHELL_ERROR_COMMAND_NOT_FOUND.
Proof.
  assert (H1 : @Interp.expand Examples.absent_collaborators Examples.the_shell 2
                 Examples.nosuch_expression [] true Examples.session0 Examples.store0
               = (Ok ["nosuch"], Examples.session0, Examples.store0)) by reflexivity.
  assert (H2 : get_command Examples.the_shell "nosuch" = None) by reflexivity.
  split; [exact H1 | split; [exact H2 |]].
  exact (f_equal (fun r => fst (fst r))
           (proj1 (@unknown_command_does_not_stop_a_block Examples.absent_collaborators
                     Examples.the_shell 2 Examples.nosuch_expression "nosuch" []
                     Examples.session0 Examples.session0 Examples.store0 Examples.store0
                     0 [] H1 H2))).
Defined.

(** Witness of X16. *)
Lemma eval_of_a_syntax_error_witness :
  Parser.parse (mk_ifakestream (fold_left ofs_write [")"] EmptyString) 0)
  = Throw (parser_exception Examples.stray_exception)
  /\ m_nCurrentDepth
       (snd (fst (@Interp.evaluate Examples.absent_collaborators Examples.the_shell 3
                    (shell_node_command Examples.eval_stray_expression)
                    Examples.session0 Examples.store0))) = 1
  /\ fst (fst (@Interp.evaluate Examples.absent_collaborators Examples.the_shell 3
                 (shell_node_command Examples.eval_stray_expression)
                 Examples.session0 Examples.store0)) = Ok SHELL_SUCCESS.
Proof.
  assert (H1 : @Interp.expand Examples.absent_collaborators Examples.the_shell 2
                 Examples.eval_stray_expression [] true Examples.session0 Examples.store0
               = (Ok ["eval"; ")"], Examples.session0, Examples.store0)) by reflexivity.
  assert (H2 : get_command Examples.the_shell "eval" = Some command_eval) by reflexivity.
  assert (H3 : Parser.parse (mk_ifakestream (fold_left ofs_write [")"] EmptyString) 0)
               = Throw (parser_exception Examples.stray_exception)) by (vm_compute; reflexivity).
  assert (H4 : exists sMessage, what Examples.stray_exception = Ok sMessage)
    by (eexists; vm_compute; reflexivity).
  destruct H4 as [sMessage H4].
  assert (H5 : 0 <= m_nCurrentDepth Examples.session0 < 16) by (change (0 <= 0 < 16); lia).
  pose proof (@eval_of_a_syntax_error Examples.absent_collaborators Examples.the_shell 2
                Examples.eval_stray_expression [")"] Examples.session0 Examples.session0
                Examples.store0 Examples.store0 Examples.stray_exception sMessage
                H1 H2 H3 H4 H5) as H.
  split; [exact H3 | split].
  - rewrite H. reflexivity.
  - rewrite H. reflexivity.
Defined.

(** ** Functions ([shell_node_evaluate.cpp], [command_fcall.cpp],
    [shell_vtable.h]) and quoted strings ([shell_node_expand.cpp]) *)

Section FunctionFacts.
Context `{Collaborators}.
Variable pShell : shell.
Import Eval Interp.

Lemma get_func_set_func s sName pBody σ σ1 sOther :
  Session.set_func s sName pBody σ = Ok σ1 ->
  Session.get_func s σ1 sOther
  = if String.eqb sOther sName then Ok (Some pBody) else Session.get_func s σ sOther.
Proof.
  unfold Session.set_func, Session.get_func, Session.vtable_of.
  destruct (m_pVtable s) as [l|]; [|discriminate]. intros [= <-].
  cbn [st_vtable set_st_vtable]. rewrite lookup_insert_eq. simpl.
  destruct (String.eqb_spec sOther sName) as [->|Hne].
  - rewrite lookup_insert_eq. reflexivity.
  - rewrite lookup_insert_ne by congruence. reflexivity.
Qed.

Lemma evaluate_function_eq fuel nPos pName pBody :
  evaluate pShell (S fuel) (shell_node_function nPos pName pBody)
  = bind (expand pShell fuel pName [] true) (fun vName =>
    match vName with
    | [sName] =>
        if is_var sName then
          bind (fun s σ =>
                  match Session.set_func s sName (st_tree σ, pBody) σ with
                  | Ok σ' => (Ok tt, s, σ')
                  | Throw x => (Throw x, s, σ)
                  | Undefined why => (Undefined why, s, σ)
                  | OutOfFuel => (OutOfFuel, s, σ)
                  end) (fun _ => ret SHELL_SUCCESS)
        else
          bind (msg_error_invalid_function_name (concat_vector EmptyString vName))
            (fun _ => ret SHELL_ERROR_SYNTAX_ERROR_INVALID_FUNCTION_NAME)
    | _ =>
        bind (msg_error_invalid_function_name (concat_vector EmptyString vName))
          (fun _ => ret SHELL_ERROR_SYNTAX_ERROR_INVALID_FUNCTION_NAME)
    end).
Proof. reflexivity. Qed.

(** [fcall] on a name of the table, up to the call through the pointer. *)
Lemma fcall_of_a_function run_body sName vArgs s σ t pBody :
  Session.get_func s σ sName = Ok (Some (t, pBody)) ->
  let σc := cout_write ("FCALL" +:+ endl) σ in
  let pSession := fst (Session.make_function_call s (sName :: vArgs) σc) in
  let σ2 := snd (Session.make_function_call s (sName :: vArgs) σc) in
  let σ3 := cout_write ("arg 1: " +:+ Session.get_arg pSession σ2 1 +:+ endl) σ2 in
  st_trees σ3 = st_trees σ
  /\ Command.command_fcall_run run_body (sName :: vArgs) s σ
     = if bool_decide (t ∈ st_trees σ)
       then in_tree t (in_session pSession (run_body pBody)) s σ3
       else (Undefined "call through a dangling function pointer", s, σ3).
Proof.
  intros Hget σc pSession σ2 σ3. split; [reflexivity |].
  unfold Command.command_fcall_run. unfold bind at 1, update at 1. cbv beta iota.
  unfold bind at 1.
  change (Session.get_func s (cout_write ("FCALL" +:+ endl) σ) sName)
    with (Session.get_func s σ sName).
  rewrite Hget. cbv beta iota.
  fold σc. subst σ3 σ2 pSession.
  destruct (Session.make_function_call s (sName :: vArgs) σc) as [pSession σ2] eqn:Hmk.
  cbn [fst snd].
  assert (Htrees : st_trees σ2 = st_trees σ).
  { unfold Session.make_function_call, alloc in Hmk. injection Hmk as _ <-. reflexivity. }
  change (st_trees (cout_write ("arg 1: " +:+ Session.get_arg pSession σ2 1 +:+ endl) σ2))
    with (st_trees σ2).
  rewrite Htrees. reflexivity.
Qed.

(** Functions across calls of [shell::run] and of [eval]: a function is
    called in the run that defined it; called in a later run, or after the
    [eval] that defined it has returned, its body is gone. *)
Lemma functions_across_runs (fuel : nat) :
  Examples.run_var_sources (20 + fuel) "function f { echo -n a }; fcall f" "echo -n b"
  = (Ok SHELL_SUCCESS, Ok SHELL_SUCCESS, "ab")
  /\ Examples.run_var_sources (20 + fuel) "function f { echo -n a }" "fcall f"
     = (Ok SHELL_SUCCESS, Undefined "call through a dangling function pointer", EmptyString)
  /\ Examples.run_var_sources (20 + fuel) "eval 'function f { echo -n a }; fcall f'"
       "echo -n b"
     = (Ok SHELL_SUCCESS, Ok SHELL_SUCCESS, "ab")
  /\ Examples.run_var_sources (20 + fuel) "eval 'function f { echo -n a }'; fcall f"
       "echo -n b"
     = (Undefined "call through a dangling function pointer", Ok SHELL_SUCCESS, "b").
Proof. repeat split; vm_compute; reflexivity. Qed.

(** The function tests of [test_shell.cpp], whose session has [std::cout]
    as its error stream: the output is what the tests expect, and
    [std::cout] has received the three lines of [fcall]. *)
Lemma function_tests (fuel : nat) :
  Examples.run_cout_source (30 + fuel) Examples.echon_quoted_source
  = (Ok SHELL_SUCCESS, "Hello World!",
     ("FCALL" +:+ endl) +:+ ("fcall " +:+ endl) +:+ ("arg 1: Hello World!" +:+ endl))
  /\ Examples.run_cout_source (30 + fuel) Examples.echon_all_source
     = (Ok SHELL_SUCCESS, "Hello World!",
        ("FCALL" +:+ endl) +:+ ("fcall " +:+ endl) +:+ ("arg 1: Hello" +:+ endl))
  /\ Examples.run_cout_source (30 + fuel) "function ignore{} fcall ignore"
     = (Ok SHELL_SUCCESS, EmptyString,
        ("FCALL" +:+ endl) +:+ ("fcall " +:+ endl) +:+ ("arg 1: " +:+ endl)).
Proof. repeat split; vm_compute; reflexivity. Qed.

Lemma fcall_errors_on_cout (fuel : nat) :
  Examples.run_cout_source (10 + fuel) "fcall nosuch"
  = (Ok SHELL_CMD_ERROR_FCALL_FUNCTION_NOT_FOUND, EmptyString,
     ("FCALL" +:+ endl) +:+ ("fcall: nosuch: function not found." +:+ endl))
  /\ Examples.run_cout_source (10 + fuel) "fcall"
     = (Ok SHELL_CMD_ERROR_FCALL_PARAM_NUMBER, EmptyString,
        ("FCALL" +:+ endl)
        +:+ ("fcall: takes >=1 parameters, but received 0." +:+ endl)).
Proof. repeat split; vm_compute; reflexivity. Qed.

(** X17.  A function definition whose name expands to one valid name
    [sName], evaluated in a session that has a function table and live
    objects, returns [SHELL_SUCCESS] and records under [sName] the pointer
    to its body, a node of the tree under evaluation; it changes no other
    function, no variable, argument, stream or tree.  While that tree is
    alive, [fcall sName args] runs exactly that body, in a session whose
    arguments are [sName] followed by [args], whose locals are empty, and
    which has the caller's environment, function table and streams; the
    caller's variables are as before the definition, and [std::cout] has
    received the three lines that [fcall] prints.  In a session whose
    function table is null the definition dereferences the null pointer.
    A call through a pointer whose tree has been freed is undefined: this
    is a function called in a later [shell::run] than the one that
    defined it, or after the [eval] that defined it.  The function tests
    of [test_shell.cpp], which define and call in one [shell::run], give
    the output they expect. *)
Theorem function_definition_then_call (fuel : nat) (nPos : Z) (pName : expandable)
    (pBody : evaluable) (sName : string) (vArgs : list string)
    (s s1 : shell_session) (σ σ0 : store) (run_body : evaluable -> M shell_status) :
  expand pShell fuel pName [] true s σ = (Ok [sName], s1, σ0) ->
  is_var sName = true ->
  (m_pVtable s1 = None ->
     evaluate pShell (S fuel) (shell_node_function nPos pName pBody) s σ
     = (Undefined "null m_pVtable", s1, σ0))
  /\ (Session.wf s1 σ0 ->
      exists σ1,
        evaluate pShell (S fuel) (shell_node_function nPos pName pBody) s σ
        = (Ok SHELL_SUCCESS, s1, σ1)
        /\ Session.get_func s1 σ1 sName = Ok (Some (st_tree σ0, pBody))
        /\ (forall sOther, sOther <> sName ->
              Session.get_func s1 σ1 sOther = Session.get_func s1 σ0 sOther)
        /\ (st_var σ1 = st_var σ0 /\ st_env σ1 = st_env σ0 /\ st_arg σ1 = st_arg σ0
            /\ st_istream σ1 = st_istream σ0 /\ st_ostream σ1 = st_ostream σ0
            /\ st_trees σ1 = st_trees σ0 /\ st_tree σ1 = st_tree σ0)
        /\ (st_tree σ0 ∈ st_trees σ0 ->
            exists pSession σ2,
              Command.command_fcall_run run_body (sName :: vArgs) s1 σ1
              = in_tree (st_tree σ0) (in_session pSession (run_body pBody)) s1 σ2
              /\ Session.arg_of pSession σ2 = sName :: vArgs
              /\ Session.var_of pSession σ2 = ∅
              /\ (m_pEnv pSession = m_pEnv s1 /\ m_pVtable pSession = m_pVtable s1)
              /\ (m_oStdIn pSession = m_oStdIn s1 /\ m_oStdOut pSession = m_oStdOut s1
                  /\ m_oStdErr pSession = m_oStdErr s1)
              /\ (Session.env_of s1 σ2 = Session.env_of s1 σ0
                  /\ Session.var_of s1 σ2 = Session.var_of s1 σ0
                  /\ Session.arg_of s1 σ2 = Session.arg_of s1 σ0)
              /\ st_ostream σ2
                 = st_ostream
                     (cout_write ("arg 1: " +:+ default EmptyString (vArgs !! 0%nat) +:+ endl)
                        (cout_write ("fcall " +:+ Session.get_arg s1 σ0 1 +:+ endl)
                           (cout_write ("FCALL" +:+ endl) σ0)))))
  /\ (forall (s' : shell_session) (σ' : store) (t : tree) (pFunc : evaluable),
        Session.get_func s' σ' sName = Ok (Some (t, pFunc)) ->
        t ∉ st_trees σ' ->
        fst (fst (Command.command_fcall_run run_body (sName :: vArgs) s' σ'))
        = Undefined "call through a dangling function pointer")
  /\ (forall fuel',
        Examples.run_var_sources (20 + fuel') "function f { echo -n a }; fcall f"
          "echo -n b"
        = (Ok SHELL_SUCCESS, Ok SHELL_SUCCESS, "ab")
        /\ Examples.run_var_sources (20 + fuel') "function f { echo -n a }" "fcall f"
           = (Ok SHELL_SUCCESS, Undefined "call through a dangling function pointer",
              EmptyString)
        /\ Examples.run_var_sources (20 + fuel')
             "eval 'function f { echo -n a }; fcall f'" "echo -n b"
           = (Ok SHELL_SUCCESS, Ok SHELL_SUCCESS, "ab")
        /\ Examples.run_var_sources (20 + fuel')
             "eval 'function f { echo -n a }'; fcall f" "echo -n b"
           = (Undefined "call through a dangling function pointer", Ok SHELL_SUCCESS,
              "b"))
  /\ (forall fuel',
        Examples.run_cout_source (30 + fuel') Examples.echon_quoted_source
        = (Ok SHELL_SUCCESS, "Hello World!",
           ("FCALL" +:+ endl) +:+ ("fcall " +:+ endl) +:+ ("arg 1: Hello World!" +:+ endl))
        /\ Examples.run_cout_source (30 + fuel') Examples.echon_all_source
           = (Ok SHELL_SUCCESS, "Hello World!",
              ("FCALL" +:+ endl) +:+ ("fcall " +:+ endl) +:+ ("arg 1: Hello" +:+ endl))
        /\ Examples.run_cout_source (30 + fuel') "function ignore{} fcall ignore"
           = (Ok SHELL_SUCCESS, EmptyString,
              ("FCALL" +:+ endl) +:+ ("fcall " +:+ endl) +:+ ("arg 1: " +:+ endl))).
Proof.
  intros Hexp Hvar. refine (conj _ (conj _ (conj _ (conj _ _)))).
  - intros Hnull. rewrite evaluate_function_eq. unfold bind at 1. rewrite Hexp.
    cbv beta iota. rewrite Hvar. unfold bind. unfold Session.set_func. rewrite Hnull.
    reflexivity.
  - intros (Henv & Harg & Hvar' & l & Hl & Hvt).
    set (σ1 := set_st_vtable σ0
                 (<[l := <[sName := (st_tree σ0, pBody)]> (default ∅ (st_vtable σ0 !! l))]>
                    (st_vtable σ0))).
    assert (Hset : Session.set_func s1 sName (st_tree σ0, pBody) σ0 = Ok σ1)
      by (unfold Session.set_func; rewrite Hl; reflexivity).
    exists σ1.
    pose proof (get_func_set_func s1 sName (st_tree σ0, pBody) σ0 σ1) as Hget.
    refine (conj _ (conj _ (conj _ (conj _ _)))).
    + rewrite evaluate_function_eq. unfold bind at 1. rewrite Hexp.
      cbv beta iota. rewrite Hvar. unfold bind. rewrite Hset. reflexivity.
    + rewrite (Hget sName Hset), String.eqb_refl. reflexivity.
    + intros sOther Hne. rewrite (Hget sOther Hset).
      destruct (String.eqb_spec sOther sName); [contradiction | reflexivity].
    + repeat split.
    + intros Hlive.
      assert (Hwf1 : Session.wf s1 (cout_write ("FCALL" +:+ endl) σ1)).
      { refine (conj Henv (conj Harg (conj Hvar' _))). exists l. split; [exact Hl |].
        change (is_Some (st_vtable σ1 !! l)). subst σ1. cbn [st_vtable set_st_vtable].
        rewrite lookup_insert_eq. eauto. }
      destruct (fcall_of_a_function run_body sName vArgs s1 σ1 (st_tree σ0) pBody)
        as [Htrees Hcall].
      { rewrite (Hget sName Hset), String.eqb_refl. reflexivity. }
      destruct (make_function_call_spec s1 (cout_write ("FCALL" +:+ endl) σ1)
                  (sName :: vArgs) Hwf1)
        as (Hshare & Hlocals & Hargs & Hstreams & Hframe & Hio & Hwe & Hwv).
      cbv zeta in Htrees, Hcall, Hshare, Hlocals, Hargs, Hstreams, Hframe, Hio.
      destruct (Session.make_function_call s1 (sName :: vArgs)
                  (cout_write ("FCALL" +:+ endl) σ1)) as [pSession σ2] eqn:Hmk.
      cbn [fst snd] in *.
      exists pSession, (cout_write ("arg 1: " +:+ Session.get_arg pSession σ2 1 +:+ endl) σ2).
      split.
      { rewrite Hcall. rewrite bool_decide_eq_true_2 by exact Hlive. reflexivity. }
      destruct Hshare as [Hse Hsv]. destruct Hlocals as [_ Hl0]. destruct Hargs as [_ Ha0].
      destruct Hframe as (Hfe & Hfv & _ & Hfa). destruct Hio as (_ & Hout & _).
      refine (conj Ha0 (conj Hl0 (conj (conj Hse Hsv) (conj Hstreams (conj _ _))))).
      * refine (conj _ (conj _ _)).
        -- transitivity (Session.env_of s1 σ2); [reflexivity |]. rewrite Hfe. reflexivity.
        -- transitivity (Session.var_of s1 σ2); [reflexivity |]. rewrite Hfv. reflexivity.
        -- transitivity (Session.arg_of s1 σ2); [reflexivity |]. rewrite Hfa. reflexivity.
      * assert (Harg1 : Session.get_arg pSession σ2 1 = default EmptyString (vArgs !! 0%nat)).
        { unfold Session.get_arg, Session.get_arg_size.
          change (Session.arg_of pSession σ2) with
            (Session.arg_of pSession σ2) in *.
          rewrite Ha0. cbn [List.length].
          destruct vArgs as [|a rest]; cbn -[Z.of_nat]; [reflexivity |].
          destruct (Z.ltb_spec 1 (Z.of_nat (S (S (List.length rest))))); [reflexivity | lia]. }
        rewrite Harg1.
        unfold cout_write at 1. unfold ostream_write at 1. cbn [st_ostream set_st_ostream].
        rewrite Hout. reflexivity.
  - intros s' σ' t pFunc Hget Hdead.
    destruct (fcall_of_a_function run_body sName vArgs s' σ' t pFunc Hget) as [_ Hcall].
    cbv zeta in Hcall. rewrite Hcall. rewrite bool_decide_eq_false_2 by exact Hdead.
    reflexivity.
  - apply functions_across_runs.
  - apply function_tests.
Qed.

End FunctionFacts.

(** Witness of X17: [function f { echo -n a }] evaluated as a node of a
    live tree. *)
Lemma function_definition_then_call_witness :
  Parser.parse (mk_ifakestream "function f { echo -n a }" 0)
  = Ok (shell_node_function 0 Examples.name_f Examples.body_echo_a)
  /\ @Interp.expand Examples.absent_collaborators Examples.the_shell 2 Examples.name_f [] true
    Examples.session0 Examples.store_in_tree
  = (Ok ["f"], Examples.session0, Examples.store_in_tree)
  /\ is_var "f" = true
  /\ Session.wf Examples.session0 Examples.store_in_tree
  /\ st_tree Examples.store_in_tree ∈ st_trees Examples.store_in_tree
  /\ exists σ1,
       @Interp.evaluate Examples.absent_collaborators Examples.the_shell 3
         (shell_node_function 0 Examples.name_f Examples.body_echo_a)
         Examples.session0 Examples.store_in_tree
       = (Ok SHELL_SUCCESS, Examples.session0, σ1)
       /\ Session.get_func Examples.session0 σ1 "f"
          = Ok (Some (st_tree Examples.store_in_tree, Examples.body_echo_a))
       /\ exists pSession σ2,
            Command.command_fcall_run
              (@Interp.evaluate Examples.absent_collaborators Examples.the_shell 5)
              ["f"; "b"] Examples.session0 σ1
            = Eval.in_tree (st_tree Examples.store_in_tree)
                (Eval.in_session pSession
                   (@Interp.evaluate Examples.absent_collaborators Examples.the_shell 5
                      Examples.body_echo_a))
                Examples.session0 σ2
            /\ Session.arg_of pSession σ2 = ["f"; "b"].
Proof.
  assert (Hexp : @Interp.expand Examples.absent_collaborators Examples.the_shell 2
                   Examples.name_f [] true Examples.session0 Examples.store_in_tree
                 = (Ok ["f"], Examples.session0, Examples.store_in_tree)) by reflexivity.
  assert (Hvar : is_var "f" = true) by reflexivity.
  assert (Hwf : Session.wf Examples.session0 Examples.store_in_tree)
    by exact (new_session_wf 0%nat 1%nat 2%nat Examples.host_store).
  assert (Hlive : st_tree Examples.store_in_tree ∈ st_trees Examples.store_in_tree)
    by (vm_compute; reflexivity).
  refine (conj _ (conj Hexp (conj Hvar (conj Hwf (conj Hlive _)))));
    [vm_compute; reflexivity |].
  destruct (proj1 (proj2 (@function_definition_then_call Examples.absent_collaborators
              Examples.the_shell 2 0 Examples.name_f Examples.body_echo_a "f" ["b"]
              Examples.session0 Examples.session0 Examples.store_in_tree
              Examples.store_in_tree
              (@Interp.evaluate Examples.absent_collaborators Examples.the_shell 5)
              Hexp Hvar)) Hwf) as (σ1 & H1 & H2 & _ & _ & H5).
  exists σ1. refine (conj H1 (conj H2 _)).
  destruct (H5 Hlive) as (pSession & σ2 & H6 & H7 & _).
  exists pSession, σ2. exact (conj H6 H7).
Defined.

Section QuoteFacts.
Context `{Collaborators}.
Variable pShell : shell.
Import Eval Interp.

Lemma expand_plain_child fuel n s σ sText :
  text_of n s σ = Some sText ->
  expand pShell (S fuel) n [] false s σ = (Ok [sText], s, σ).
Proof.
  destruct n; cbn [text_of get_value expand]; intros Ht; try discriminate;
    try (injection Ht as <-; reflexivity);
    try (destruct (arg_dhop_get_value _ _ _); try discriminate;
         injection Ht as <-; reflexivity);
    try (destruct (variable_dhop_get_value _ _ _); try discriminate;
         injection Ht as <-; reflexivity).
Qed.

Lemma str_loop_plain fuel s σ : forall m_vChildren vTexts oOstream,
  Forall2 (fun n sText => text_of n s σ = Some sText) m_vChildren vTexts ->
  str_loop (fun pChild => expand pShell (S fuel) pChild [] false) m_vChildren oOstream s σ
  = (Ok (oOstream +:+ str_concat vTexts), s, σ).
Proof.
  intros m_vChildren vTexts oOstream Hall. revert oOstream.
  induction Hall as [|n sText children texts Hn Hrest IH]; intros oOstream.
  - cbn [str_loop]. unfold str_concat. cbn [fold_right]. rewrite append_nil_r. reflexivity.
  - cbn [str_loop]. erewrite bind_ok by (apply expand_plain_child; exact Hn).
    cbn [fold_left]. rewrite IH. unfold ofs_write.
    change (str_concat (sText :: texts)) with (sText +:+ str_concat texts).
    rewrite append_assoc'. reflexivity.
Qed.

(** X18.  A quoted string whose parts are words, characters and
    references to the session expands to exactly one word, the texts of
    its parts put end to end: blanks in a value do not split it, and a
    string without text gives one empty word. *)
Theorem quoted_string_expands_to_one_word (fuel : nat) (nPos : Z)
    (m_vChildren : list expandable) (vTexts vTokens : list string) (bSplit : bool)
    (s : shell_session) (σ : store) :
  Forall2 (fun n sText => text_of n s σ = Some sText) m_vChildren vTexts ->
  expand pShell (S (S fuel)) (shell_node_str_double nPos m_vChildren) vTokens bSplit s σ
  = (Ok (vTokens ++ [str_concat vTexts]), s, σ)
  /\ expand pShell (S (S fuel)) (shell_node_str_simple nPos m_vChildren) vTokens bSplit s σ
     = (Ok (vTokens ++ [str_concat vTexts]), s, σ).
Proof.
  intros Hall. split; cbn [expand];
    (erewrite bind_ok by (apply str_loop_plain; exact Hall));
    rewrite append_nil_l; reflexivity.
Qed.

(** X19.  A function definition whose name does not expand to exactly
    one valid variable name (no token, several tokens, or one token that
    is not a name) defines nothing, writes the invalid-function-name
    message with the tokens joined by spaces on the session's error
    stream, and returns [SHELL_ERROR_SYNTAX_ERROR_INVALID_FUNCTION_NAME].
    [fcall] first prints a line on [std::cout]; then, on a name that the
    table does not hold it runs nothing and returns
    [SHELL_CMD_ERROR_FCALL_FUNCTION_NOT_FOUND], without arguments it
    returns [SHELL_CMD_ERROR_FCALL_PARAM_NUMBER], each with its message on
    the error stream, and in a session whose function table is null it
    dereferences the null pointer.  When the session's error stream is
    [std::cout] itself, as in the function tests of [test_shell.cpp], that
    stream holds the printed line followed by the message. *)
Theorem function_and_fcall_errors (fuel : nat) (nPos : Z) (pName : expandable)
    (pBody : evaluable) (vName : list string) (sName : string) (vArgs : list string)
    (s s1 : shell_session) (σ σ0 : store) (run_body : evaluable -> M shell_status) :
  (expand pShell fuel pName [] true s σ = (Ok vName, s1, σ0) ->
   invalid_function_name vName = true ->
   evaluate pShell (S fuel) (shell_node_function nPos pName pBody) s σ
   = (Ok SHELL_ERROR_SYNTAX_ERROR_INVALID_FUNCTION_NAME, s1,
      ostream_write (m_oStdErr s1)
        ("shell: " +:+ LDQUO +:+ concat_vector EmptyString vName +:+ RDQUO
         +:+ ": invalid function name." +:+ endl) σ0))
  /\ (Session.get_func s σ sName = Ok None ->
      Command.command_fcall_run run_body (sName :: vArgs) s σ
      = (Ok SHELL_CMD_ERROR_FCALL_FUNCTION_NOT_FOUND, s,
         ostream_write (m_oStdErr s) ("fcall: " +:+ sName +:+ ": function not found." +:+ endl)
           (cout_write ("FCALL" +:+ endl) σ)))
  /\ Command.command_fcall_run run_body [] s σ
     = (Ok SHELL_CMD_ERROR_FCALL_PARAM_NUMBER, s,
        ostream_write (m_oStdErr s)
          ("fcall: takes >=1 parameters, but received 0." +:+ endl)
          (cout_write ("FCALL" +:+ endl) σ))
  /\ (m_pVtable s = None ->
      Command.command_fcall_run run_body (sName :: vArgs) s σ
      = (Undefined "null m_pVtable", s, cout_write ("FCALL" +:+ endl) σ))
  /\ (m_oStdErr s = std_cout ->
      ostream_str std_cout (snd (Command.command_fcall_run run_body [] s σ))
      = (ostream_str std_cout σ +:+ ("FCALL" +:+ endl))
        +:+ ("fcall: takes >=1 parameters, but received 0." +:+ endl))
  /\ (m_oStdErr s <> std_cout ->
      ostream_str std_cout (snd (Command.command_fcall_run run_body [] s σ))
      = ostream_str std_cout σ +:+ ("FCALL" +:+ endl)
      /\ ostream_str (m_oStdErr s) (snd (Command.command_fcall_run run_body [] s σ))
         = ostream_str (m_oStdErr s) σ
           +:+ ("fcall: takes >=1 parameters, but received 0." +:+ endl))
  /\ (forall fuel',
        Examples.run_cout_source (10 + fuel') "fcall nosuch"
        = (Ok SHELL_CMD_ERROR_FCALL_FUNCTION_NOT_FOUND, EmptyString,
           ("FCALL" +:+ endl) +:+ ("fcall: nosuch: function not found." +:+ endl))
        /\ Examples.run_cout_source (10 + fuel') "fcall"
           = (Ok SHELL_CMD_ERROR_FCALL_PARAM_NUMBER, EmptyString,
              ("FCALL" +:+ endl)
              +:+ ("fcall: takes >=1 parameters, but received 0." +:+ endl))).
Proof.
  refine (conj _ (conj _ (conj _ (conj _ (conj _ (conj _ _)))))).
  - intros Hexp Hinv. rewrite evaluate_function_eq. unfold bind at 1. rewrite Hexp.
    cbv beta iota.
    destruct vName as [|sOne [|sTwo rest]]; [reflexivity | | reflexivity].
    cbn [invalid_function_name] in Hinv.
    destruct (is_var sOne); [discriminate | reflexivity].
  - intros Hnone. unfold Command.command_fcall_run. unfold bind at 1, update at 1.
    cbv beta iota. unfold bind at 1.
    change (Session.get_func s (cout_write ("FCALL" +:+ endl) σ) sName)
      with (Session.get_func s σ sName).
    rewrite Hnone. reflexivity.
  - reflexivity.
  - intros Hnull. unfold Command.command_fcall_run. unfold bind at 1, update at 1.
    cbv beta iota. unfold bind at 1.
    unfold Session.get_func, Session.vtable_of. rewrite Hnull. reflexivity.
  - intros Herr.
    change (snd (Command.command_fcall_run run_body [] s σ))
      with (ostream_write (m_oStdErr s)
              ("fcall: takes >=1 parameters, but received 0." +:+ endl)
              (cout_write ("FCALL" +:+ endl) σ)).
    rewrite Herr. unfold cout_write, ostream_write, ostream_str.
    cbn [st_ostream set_st_ostream]. rewrite !lookup_insert_eq. reflexivity.
  - intros Herr.
    change (snd (Command.command_fcall_run run_body [] s σ))
      with (ostream_write (m_oStdErr s)
              ("fcall: takes >=1 parameters, but received 0." +:+ endl)
              (cout_write ("FCALL" +:+ endl) σ)).
    unfold cout_write, ostream_write, ostream_str.
    cbn [st_ostream set_st_ostream]. split.
    + rewrite lookup_insert_ne by exact Herr. rewrite lookup_insert_eq. reflexivity.
    + rewrite lookup_insert_eq. rewrite lookup_insert_ne by congruence. reflexivity.
  - apply fcall_errors_on_cout.
Qed.

End QuoteFacts.

(** Witness of X18. *)
Lemma quoted_string_expands_to_one_word_witness :
  Forall2 (fun n sText =>
             @text_of Examples.absent_collaborators n Examples.session0 Examples.store_multi
             = Some sText)
    [shell_node_word 1 "a "; shell_node_dollar_variable 3 "multi"] ["a "; "x y"]
  /\ @Interp.expand Examples.absent_collaborators Examples.the_shell 2
       (shell_node_str_double 0 [shell_node_word 1 "a "; shell_node_dollar_variable 3 "multi"])
       [] true Examples.session0 Examples.store_multi
     = (Ok ["a x y"], Examples.session0, Examples.store_multi).
Proof.
  assert (H : Forall2 (fun n sText =>
             @text_of Examples.absent_collaborators n Examples.session0 Examples.store_multi
             = Some sText)
    [shell_node_word 1 "a "; shell_node_dollar_variable 3 "multi"] ["a "; "x y"])
    by (repeat constructor).
  split; [exact H |].
  exact (proj1 (@quoted_string_expands_to_one_word Examples.absent_collaborators
                  Examples.the_shell 0 0 _ _ [] true _ _ H)).
Defined.

(** Witness of X19: [function $multi { echo -n a }], whose name expands
    to two tokens. *)
Lemma function_and_fcall_errors_witness :
  (exists pBody,
     Parser.parse (mk_ifakestream "function $multi { echo -n a }" 0)
     = Ok (shell_node_function 0 Examples.name_multi pBody))
  /\ @Interp.expand Examples.absent_collaborators Examples.the_shell 2 Examples.name_multi
    [] true Examples.session0 Examples.store_multi
  = (Ok ["x"; "y"], Examples.session0, Examples.store_multi)
  /\ invalid_function_name ["x"; "y"] = true
  /\ @Interp.evaluate Examples.absent_collaborators Examples.the_shell 3
       (shell_node_function 0 Examples.name_multi Examples.body_echo_a)
       Examples.session0 Examples.store_multi
     = (Ok SHELL_ERROR_SYNTAX_ERROR_INVALID_FUNCTION_NAME, Examples.session0,
        ostream_write (m_oStdErr Examples.session0)
          ("shell: " +:+ Eval.LDQUO +:+ concat_vector EmptyString ["x"; "y"] +:+ Eval.RDQUO
           +:+ ": invalid function name." +:+ endl) Examples.store_multi).
Proof.
  assert (Hexp : @Interp.expand Examples.absent_collaborators Examples.the_shell 2
                   Examples.name_multi [] true Examples.session0 Examples.store_multi
                 = (Ok ["x"; "y"], Examples.session0, Examples.store_multi))
    by (vm_compute; reflexivity).
  assert (Hinv : invalid_function_name ["x"; "y"] = true) by reflexivity.
  refine (conj _ (conj Hexp (conj Hinv _)));
    [eexists; vm_compute; reflexivity |].
  exact (proj1 (@function_and_fcall_errors Examples.absent_collaborators Examples.the_shell
                  2 0 Examples.name_multi Examples.body_echo_a ["x"; "y"] "f" []
                  Examples.session0 Examples.session0 Examples.store_multi
                  Examples.store_multi (fun _ => Eval.ret SHELL_SUCCESS)) Hexp Hinv).
Defined.

(** ** The command [seq] ([command_seq.cpp]) *)

Section SeqFacts.
Import Eval Command.

Lemma stoll_digits_all bNegative s :
  s <> EmptyString -> str_forall is_digit s = true -> str_size s <= 18 ->
  stoll_digits bNegative s
  = Ok (if bNegative then - digits_value 0 s else digits_value 0 s)
  /\ 0 <= digits_value 0 s < 10 ^ 18.
Proof.
  intros Hne Hs Hsize. unfold stoll_digits. rewrite leading_digits_all by exact Hs.
  pose proof (digits_value_bound s 0 Hs ltac:(lia)) as Hb.
  assert (10 ^ str_size s <= 10 ^ 18)
    by (apply Z.pow_le_mono_r; [lia | exact Hsize]).
  destruct s as [|c s]; [congruence|].
  assert (Hin : in_int64 (if bNegative then - digits_value 0 (String c s)
                          else digits_value 0 (String c s)) = true).
  { unfold in_int64, INT64_MIN, INT64_MAX. destruct bNegative;
      apply andb_true_iff; split; apply Z.leb_le; lia. }
  rewrite Hin. split; [reflexivity | lia].
Qed.

Lemma stoll_integer_text sArg :
  is_integer_text sArg = true ->
  stoll sArg = Ok (signed_value sArg) /\ - 10 ^ 18 < signed_value sArg < 10 ^ 18.
Proof.
  unfold is_integer_text. intros [Hnum Hlone]%andb_true_iff. apply negb_true_iff in Hlone.
  destruct sArg as [|c rest]; [discriminate|].
  unfold is_number in Hnum. unfold stoll, signed_value.
  destruct (Ascii.eqb c "+"%char || Ascii.eqb c "-"%char) eqn:Hsign.
  - destruct (Z.ltb_spec 19 (str_size (String c rest))) as [|Hsize]; [discriminate|].
    rewrite str_size_String in Hsize.
    assert (Hrest : rest <> EmptyString).
    { intros ->. unfold is_lone_sign in Hlone.
      apply orb_true_iff in Hsign as [H|H]; apply Ascii.eqb_eq in H; subst; discriminate. }
    cbn [skip_space]. rewrite (sign_not_space c Hsign).
    destruct (Ascii.eqb c "+"%char) eqn:Hplus.
    + destruct (stoll_digits_all false rest Hrest Hnum ltac:(lia)) as [-> Hb]. split; [reflexivity|lia].
    + cbn [orb] in Hsign. rewrite Hsign.
      destruct (stoll_digits_all true rest Hrest Hnum ltac:(lia)) as [-> Hb]. split; [reflexivity|lia].
  - destruct (Z.ltb_spec 18 (str_size (String c rest))) as [|Hsize]; [discriminate|].
    apply orb_false_iff in Hsign as [Hplus Hminus]. rewrite Hplus, Hminus.
    pose proof Hnum as Hall. cbn [str_forall] in Hnum. apply andb_true_iff in Hnum as [Hc _].
    cbn [skip_space]. rewrite (is_digit_not_space c Hc). rewrite Hplus, Hminus.
    destruct (stoll_digits_all false (String c rest) ltac:(congruence) Hall Hsize) as [-> Hb].
    split; [reflexivity|lia].
Qed.

Lemma seq_parse_ints_ok vArgs s σ :
  Forall (fun sArg => is_integer_text sArg = true) vArgs ->
  seq_parse_ints vArgs s σ = (Ok (Some (map signed_value vArgs)), s, σ).
Proof.
  induction 1 as [|sArg rest Harg Hrest IH]; [reflexivity|].
  cbn [seq_parse_ints map].
  pose proof Harg as Hnum. unfold is_integer_text in Hnum.
  apply andb_true_iff in Hnum as [Hnum _]. rewrite Hnum. cbn [negb].
  destruct (stoll_integer_text sArg Harg) as [Hst _].
  unfold bind at 1, lift. rewrite Hst. unfold bind at 1. rewrite IH. reflexivity.
Qed.

Lemma ostream_write_twice l a b σ :
  ostream_write l b (ostream_write l a σ) = ostream_write l (a +:+ b) σ.
Proof.
  unfold ostream_write. cbn [st_ostream set_st_ostream]. unfold set_st_ostream. cbn.
  rewrite lookup_insert_eq. cbn [default]. rewrite insert_insert_eq.
  simpl. rewrite append_assoc'. reflexivity.
Qed.

Lemma seq_loop_spec bUp nStep nEnd s l : forall (n : nat) fuel nIter sWritten σ,
  m_oStdOut s = l ->
  (n < fuel)%nat ->
  - 10 ^ 18 < nStep < 10 ^ 18 -> - 10 ^ 18 < nEnd < 10 ^ 18 ->
  (bUp = true ->
     0 < nStep /\ - 10 ^ 18 < nIter
     /\ nIter + (Z.of_nat n - 1) * nStep <= nEnd < nIter + Z.of_nat n * nStep) ->
  (bUp = false ->
     nStep < 0 /\ nIter < 10 ^ 18
     /\ nIter + Z.of_nat n * nStep < nEnd <= nIter + (Z.of_nat n - 1) * nStep) ->
  seq_loop fuel bUp nIter nStep nEnd s (ostream_write l sWritten σ)
  = (Ok tt, s,
     ostream_write l
       (concat_vector_tail sWritten (map to_string_int (progression nIter nStep n))) σ).
Proof.
  induction n as [|n IH]; intros fuel nIter sWritten σ Hl Hfuel Hstep Hend Hup Hdown;
    (destruct fuel as [|fuel]; [lia|]); cbn [seq_loop progression map concat_vector_tail].
  - destruct bUp.
    + specialize (Hup eq_refl). destruct (Z.leb_spec nIter nEnd); [lia | reflexivity].
    + specialize (Hdown eq_refl). destruct (Z.leb_spec nEnd nIter); [lia | reflexivity].
  - assert (Hcond : (if bUp then nIter <=? nEnd else nEnd <=? nIter) = true
                    /\ - 2 ^ 63 <= nIter + nStep <= 2 ^ 63 - 1).
    { destruct bUp; [specialize (Hup eq_refl) | specialize (Hdown eq_refl)];
        (split; [apply Z.leb_le; nia | nia]). }
    destruct Hcond as [Hcond [H1 H2]]. rewrite Hcond.
    assert (Hadd : int64_add nIter nStep = Ok (nIter + nStep)).
    { unfold int64_add, in_int64, INT64_MIN, INT64_MAX.
      apply Z.leb_le in H1, H2. rewrite H1, H2. reflexivity. }
    unfold bind at 1, write_out at 1, update. rewrite Hl, ostream_write_twice.
    unfold bind at 1, write_out at 1, update. rewrite Hl, ostream_write_twice.
    unfold bind at 1, lift. rewrite Hadd.
    rewrite (IH fuel (nIter + nStep) _ σ Hl ltac:(lia) Hstep Hend).
    + unfold ofs_write, ofs_put. reflexivity.
    + intros ->. specialize (Hup eq_refl). apply Z.leb_le in Hcond. repeat split; try lia; nia.
    + intros ->. specialize (Hdown eq_refl). apply Z.leb_le in Hcond. repeat split; try lia; nia.
Qed.

Lemma seq_count_up a st b :
  a < b -> 0 < st ->
  exists n : nat,
    seq_count a st b = S n
    /\ (a + st) + (Z.of_nat n - 1) * st <= b < (a + st) + Z.of_nat n * st
    /\ Z.of_nat n <= b - a.
Proof.
  intros Hab Hst. unfold seq_count.
  pose proof (Z.div_mod (b - a) st ltac:(lia)) as Hdm.
  pose proof (Z.mod_pos_bound (b - a) st Hst) as Hmod.
  assert (Hq : 0 <= (b - a) / st) by (apply Z.div_pos; lia).
  exists (Z.to_nat ((b - a) / st)).
  rewrite Z2Nat.id by exact Hq. split; [|split].
  - rewrite Z2Nat.inj_add by lia. change (Z.to_nat 1) with 1%nat. lia.
  - nia.
  - nia.
Qed.

Lemma seq_count_down a st b :
  b < a -> st < 0 ->
  exists n : nat,
    seq_count a st b = S n
    /\ (a + st) + Z.of_nat n * st < b <= (a + st) + (Z.of_nat n - 1) * st
    /\ Z.of_nat n <= a - b.
Proof.
  intros Hab Hst. unfold seq_count.
  pose proof (Z.div_mod (b - a) st ltac:(lia)) as Hdm.
  pose proof (Z.mod_neg_bound (b - a) st Hst) as Hmod.
  assert (Hq : 0 <= (b - a) / st).
  { destruct (Z.lt_ge_cases ((b - a) / st) 0); [nia | lia]. }
  exists (Z.to_nat ((b - a) / st)).
  rewrite Z2Nat.id by exact Hq. split; [|split].
  - rewrite Z2Nat.inj_add by lia. change (Z.to_nat 1) with 1%nat. lia.
  - nia.
  - nia.
Qed.

Lemma seq_print_spec nBegin nStep nEnd s σ :
  - 10 ^ 18 < nBegin < 10 ^ 18 -> - 10 ^ 18 < nStep < 10 ^ 18 ->
  - 10 ^ 18 < nEnd < 10 ^ 18 ->
  (nBegin < nEnd -> 0 < nStep) -> (nEnd < nBegin -> nStep < 0) ->
  seq_print nBegin nStep nEnd s σ
  = (Ok SHELL_SUCCESS, s,
     ostream_write (m_oStdOut s)
       (concat_vector EmptyString
          (map to_string_int (progression nBegin nStep (seq_count nBegin nStep nEnd)))) σ).
Proof.
  intros Ha Hst Hb Hup Hdown. unfold seq_print.
  unfold bind at 1, write_out at 1, update.
  assert (Hadd : (nBegin < nEnd \/ nEnd < nBegin) ->
                 int64_add nBegin nStep = Ok (nBegin + nStep)).
  { intros _. unfold int64_add, in_int64, INT64_MIN, INT64_MAX.
    assert (- 2 ^ 63 <= nBegin + nStep <= 2 ^ 63 - 1) as [H1 H2] by lia.
    apply Z.leb_le in H1, H2. rewrite H1, H2. reflexivity. }
  destruct (Z.ltb_spec nBegin nEnd) as [Hlt|Hge].
  - destruct (seq_count_up nBegin nStep nEnd Hlt (Hup Hlt)) as (n & Hn & Hrange & Hle).
    rewrite Hn. cbn [progression map concat_vector].
    unfold bind at 1. unfold bind at 1, lift. rewrite Hadd by auto.
    rewrite (seq_loop_spec true nStep nEnd s (m_oStdOut s) n); try assumption;
      try reflexivity; try discriminate.
    + unfold seq_fuel. rewrite Z.abs_eq by lia. lia.
    + intros _. specialize (Hup Hlt). repeat split; lia.
  - destruct (Z.ltb_spec nEnd nBegin) as [Hgt|Hle'].
    + destruct (seq_count_down nBegin nStep nEnd Hgt (Hdown Hgt)) as (n & Hn & Hrange & Hle).
      rewrite Hn. cbn [progression map concat_vector].
      unfold bind at 1. unfold bind at 1, lift. rewrite Hadd by auto.
      rewrite (seq_loop_spec false nStep nEnd s (m_oStdOut s) n); try assumption;
        try reflexivity; try discriminate.
      * unfold seq_fuel. rewrite Z.abs_neq by lia. lia.
      * intros _. specialize (Hdown Hgt). repeat split; lia.
    + assert (nBegin = nEnd) as -> by lia.
      unfold seq_count. rewrite Z.sub_diag, Zdiv.Zdiv_0_l. reflexivity.
Qed.

(** X20.  [seq begin step end], on integers in text whose step goes
    from [begin] towards [end], writes the terms of the progression from
    [begin] by [step] that do not pass [end], separated by single spaces
    and with no end of line, and returns [SHELL_SUCCESS]; no addition
    overflows. *)
Theorem seq_prints_the_progression (sBegin sStep sEnd : string)
    (s : shell_session) (σ : store) :
  is_integer_text sBegin = true -> is_integer_text sStep = true ->
  is_integer_text sEnd = true ->
  let nBegin := signed_value sBegin in
  let nStep := signed_value sStep in
  let nEnd := signed_value sEnd in
  (nBegin < nEnd -> 0 < nStep) -> (nEnd < nBegin -> nStep < 0) ->
  command_seq_run [sBegin; sStep; sEnd] s σ
  = (Ok SHELL_SUCCESS, s,
     ostream_write (m_oStdOut s)
       (concat_vector EmptyString
          (map to_string_int (progression nBegin nStep (seq_count nBegin nStep nEnd)))) σ).
Proof.
  intros H1 H2 H3 nBegin nStep nEnd Hup Hdown.
  destruct (stoll_integer_text sBegin H1) as [_ Ha].
  destruct (stoll_integer_text sStep H2) as [_ Hst].
  destruct (stoll_integer_text sEnd H3) as [_ Hb].
  unfold command_seq_run.
  change (Z.of_nat (List.length [sBegin; sStep; sEnd])) with 3.
  change (negb (3 =? 2) && negb (3 =? 3)) with false. cbv iota.
  unfold bind at 1. rewrite seq_parse_ints_ok by (repeat constructor; assumption).
  cbn [map]. fold nBegin nStep nEnd.
  destruct ((nEnd <? nBegin) && (0 <=? nStep) || (nBegin <? nEnd) && (nStep <=? 0)) eqn:E.
  - exfalso. apply orb_true_iff in E as [E|E]; apply andb_true_iff in E as [E1 E2].
    + apply Z.ltb_lt in E1. apply Z.leb_le in E2. specialize (Hdown E1). lia.
    + apply Z.ltb_lt in E1. apply Z.leb_le in E2. specialize (Hup E1). lia.
  - apply seq_print_spec; assumption.
Qed.

(** X21.  [seq begin end] writes every integer from [begin] to [end],
    upwards or downwards, [begin] alone when they are equal. *)
Theorem seq_counts_from_begin_to_end (sBegin sEnd : string)
    (s : shell_session) (σ : store) :
  is_integer_text sBegin = true -> is_integer_text sEnd = true ->
  let nBegin := signed_value sBegin in
  let nEnd := signed_value sEnd in
  let nStep := if nEnd <? nBegin then -1 else 1 in
  command_seq_run [sBegin; sEnd] s σ
  = (Ok SHELL_SUCCESS, s,
     ostream_write (m_oStdOut s)
       (concat_vector EmptyString
          (map to_string_int
             (progression nBegin nStep (S (Z.to_nat (Z.abs (nEnd - nBegin))))))) σ).
Proof.
  intros H1 H3 nBegin nEnd nStep.
  destruct (stoll_integer_text sBegin H1) as [_ Ha].
  destruct (stoll_integer_text sEnd H3) as [_ Hb].
  unfold command_seq_run.
  change (Z.of_nat (List.length [sBegin; sEnd])) with 2.
  change (negb (2 =? 2) && negb (2 =? 3)) with false. cbv iota.
  unfold bind at 1. rewrite seq_parse_ints_ok by (repeat constructor; assumption).
  cbn [map]. fold nBegin nEnd. fold nStep.
  assert (Hcount : seq_count nBegin nStep nEnd = S (Z.to_nat (Z.abs (nEnd - nBegin)))).
  { unfold seq_count, nStep. destruct (Z.ltb_spec nEnd nBegin).
    - replace ((nEnd - nBegin) / -1) with (nBegin - nEnd)
        by (apply Z.div_unique with (r := 0); lia).
      rewrite Z.abs_neq by lia. rewrite Z2Nat.inj_add by lia.
      change (Z.to_nat 1) with 1%nat. replace (- (nEnd - nBegin)) with (nBegin - nEnd) by lia. lia.
    - rewrite Z.div_1_r. rewrite Z.abs_eq by lia. rewrite Z2Nat.inj_add by lia.
      change (Z.to_nat 1) with 1%nat. lia. }
  rewrite <- Hcount. apply seq_print_spec; try assumption.
  - unfold nStep. destruct (nEnd <? nBegin); lia.
  - unfold nStep. destruct (Z.ltb_spec nEnd nBegin); lia.
  - unfold nStep. destruct (Z.ltb_spec nEnd nBegin); lia.
Qed.

Lemma seq_parse_ints_prefix vGood vRest s σ :
  Forall (fun sArg => is_integer_text sArg = true) vGood ->
  seq_parse_ints (vGood ++ vRest) s σ
  = match seq_parse_ints vRest s σ with
    | (Ok (Some v), s', σ') => (Ok (Some (map signed_value vGood ++ v)), s', σ')
    | r => r
    end.
Proof.
  induction 1 as [|sArg rest Harg Hrest IH].
  - cbn [app map]. destruct (seq_parse_ints vRest s σ) as [[[[v|]| | |] s'] σ']; reflexivity.
  - cbn [app seq_parse_ints map].
    pose proof Harg as Hnum. unfold is_integer_text in Hnum.
    apply andb_true_iff in Hnum as [Hnum _]. rewrite Hnum. cbn [negb].
    destruct (stoll_integer_text sArg Harg) as [Hst _].
    unfold bind at 1, lift. rewrite Hst. unfold bind at 1. rewrite IH.
    destruct (seq_parse_ints vRest s σ) as [[[[v|]| | |] s'] σ']; reflexivity.
Qed.

(** X22.  The errors of [seq]: any number of arguments other than two
    or three; the first argument that is not a number, after which
    nothing is printed; a lone sign, on which [std::stoll] throws
    [std::invalid_argument]; a step that does not lead from [begin] to
    [end]. *)
Theorem seq_errors (vArgs : list string) (s : shell_session) (σ : store) :
  (List.length vArgs <> 2%nat -> List.length vArgs <> 3%nat ->
     command_seq_run vArgs s σ
     = (Ok SHELL_CMD_ERROR_SEQ_PARAM_NUMBER, s,
        ostream_write (m_oStdErr s)
          ("seq: takes 2-3 parameters, but received "
           +:+ to_string_unsigned (Z.of_nat (List.length vArgs)) +:+ "." +:+ endl) σ))
  /\ (forall vGood sBad vRest,
        vArgs = vGood ++ sBad :: vRest ->
        (List.length vArgs = 2%nat \/ List.length vArgs = 3%nat) ->
        Forall (fun sArg => is_integer_text sArg = true) vGood ->
        (is_number sBad = false ->
           command_seq_run vArgs s σ
           = (Ok SHELL_CMD_ERROR_SEQ_INVALID_INT_FORMAT, s,
              ostream_write (m_oStdErr s)
                ("seq: value " +:+ LDQUO +:+ sBad +:+ RDQUO +:+ " is no integer") σ))
        /\ (is_lone_sign sBad = true ->
            command_seq_run vArgs s σ = (Throw (std_invalid_argument "stoll"), s, σ)))
  /\ (forall sBegin sStep sEnd,
        vArgs = [sBegin; sStep; sEnd] ->
        Forall (fun sArg => is_integer_text sArg = true) vArgs ->
        let nBegin := signed_value sBegin in
        let nStep := signed_value sStep in
        let nEnd := signed_value sEnd in
        (nEnd < nBegin /\ 0 <= nStep) \/ (nBegin < nEnd /\ nStep <= 0) ->
        command_seq_run vArgs s σ
        = (Ok SHELL_CMD_ERROR_SEQ_ITERATION_LOGIC, s,
           ostream_write (m_oStdErr s)
             ("seq: can not iterate: [ " +:+ to_string_int nBegin +:+ " : "
              +:+ to_string_int nStep +:+ " : " +:+ to_string_int nEnd +:+ " ]" +:+ endl) σ)).
Proof.
  split; [|split].
  - intros H2 H3. unfold command_seq_run.
    destruct (Z.eqb_spec (Z.of_nat (List.length vArgs)) 2); [lia|].
    destruct (Z.eqb_spec (Z.of_nat (List.length vArgs)) 3); [lia|]. reflexivity.
  - intros vGood sBad vRest -> Hlen Hgood.
    assert (Hsize : negb (Z.of_nat (List.length (vGood ++ sBad :: vRest)) =? 2)
                    && negb (Z.of_nat (List.length (vGood ++ sBad :: vRest)) =? 3) = false).
    { destruct Hlen as [-> | ->]; reflexivity. }
    unfold command_seq_run. rewrite Hsize. split.
    + intros Hbad. unfold bind at 1.
      rewrite seq_parse_ints_prefix by exact Hgood. cbn [seq_parse_ints].
      rewrite Hbad. reflexivity.
    + intros Hlone. unfold bind at 1.
      rewrite seq_parse_ints_prefix by exact Hgood. cbn [seq_parse_ints].
      unfold is_lone_sign in Hlone.
      apply orb_true_iff in Hlone as [E|E]; apply String.eqb_eq in E; subst; reflexivity.
  - intros sBegin sStep sEnd -> Hall nBegin nStep nEnd Hbad.
    unfold command_seq_run.
    change (Z.of_nat (List.length [sBegin; sStep; sEnd])) with 3.
    change (negb (3 =? 2) && negb (3 =? 3)) with false. cbv iota.
    unfold bind at 1. rewrite seq_parse_ints_ok by exact Hall.
    cbn [map]. fold nBegin nStep nEnd.
    assert (E : (nEnd <? nBegin) && (0 <=? nStep) || (nBegin <? nEnd) && (nStep <=? 0) = true).
    { apply orb_true_iff. destruct Hbad as [[H1 H2]|[H1 H2]]; [left|right];
        apply andb_true_iff; split; first [apply Z.ltb_lt | apply Z.leb_le]; assumption. }
    rewrite E. reflexivity.
Qed.

End SeqFacts.

(** Witness of X20. *)
Lemma seq_prints_the_progression_witness :
  is_integer_text "10" = true /\ is_integer_text "-3" = true /\ is_integer_text "0" = true
  /\ Command.command_seq_run ["10"; "-3"; "0"] Examples.session0 Examples.store0
     = (Ok SHELL_SUCCESS, Examples.session0,
        ostream_write (m_oStdOut Examples.session0) "10 7 4 1" Examples.store0).
Proof.
  assert (H1 : is_integer_text "10" = true) by reflexivity.
  assert (H2 : is_integer_text "-3" = true) by reflexivity.
  assert (H3 : is_integer_text "0" = true) by reflexivity.
  split; [exact H1 | split; [exact H2 | split; [exact H3 |]]].
  exact (seq_prints_the_progression "10" "-3" "0" Examples.session0 Examples.store0
           H1 H2 H3 ltac:(change (10 < 0 -> 0 < -3); lia)
           ltac:(change (0 < 10 -> -3 < 0); lia)).
Defined.

(** Witness of X21. *)
Lemma seq_counts_from_begin_to_end_witness :
  is_integer_text "1" = true /\ is_integer_text "5" = true
  /\ Command.command_seq_run ["1"; "5"] Examples.session0 Examples.store0
     = (Ok SHELL_SUCCESS, Examples.session0,
        ostream_write (m_oStdOut Examples.session0) "1 2 3 4 5" Examples.store0).
Proof.
  assert (H1 : is_integer_text "1" = true) by reflexivity.
  assert (H2 : is_integer_text "5" = true) by reflexivity.
  split; [exact H1 | split; [exact H2 |]].
  exact (seq_counts_from_begin_to_end "1" "5" Examples.session0 Examples.store0 H1 H2).
Defined.

(** Witness of X22. *)
Lemma seq_errors_witness :
  List.length ["1"] <> 2%nat /\ List.length ["1"] <> 3%nat
  /\ Command.command_seq_run ["1"] Examples.session0 Examples.store0
     = (Ok SHELL_CMD_ERROR_SEQ_PARAM_NUMBER, Examples.session0,
        ostream_write (m_oStdErr Examples.session0)
          ("seq: takes 2-3 parameters, but received 1." +:+ endl) Examples.store0).
Proof.
  assert (H2 : List.length ["1"] <> 2%nat) by discriminate.
  assert (H3 : List.length ["1"] <> 3%nat) by discriminate.
  split; [exact H2 | split; [exact H3 |]].
  exact (proj1 (seq_errors ["1"] Examples.session0 Examples.store0) H2 H3).
Defined.

(** ** What an evaluation writes ([shell_node_evaluate.cpp],
    [shell_node_expand.cpp], [shell_session.h], the commands) *)

Section FootprintFacts.
Import Eval Interp.

Lemma kept_refl {V : Type} (W : loc -> Prop) (m : gmap loc V) : kept W m m.
Proof. intros l Hl. split; [exact Hl | reflexivity]. Qed.

Lemma kept_trans {V : Type} (W1 W2 W : loc -> Prop) (m0 m1 m2 : gmap loc V) :
  kept W1 m0 m1 -> kept W2 m1 m2 ->
  (forall l, is_Some (m0 !! l) -> W1 l \/ W2 l -> W l) ->
  kept W m0 m2.
Proof.
  intros H1 H2 HW l Hl. destruct (H1 l Hl) as [Hl1 Hk1].
  destruct (H2 l Hl1) as [Hl2 Hk2]. split; [exact Hl2 |].
  intros Hn. rewrite Hk2, Hk1; [reflexivity | |]; intros Hw; apply Hn, HW; auto.
Qed.

Lemma kept_insert {V : Type} (W : loc -> Prop) (m : gmap loc V) (p : loc) (v : V) :
  W p -> kept W m (<[p := v]> m).
Proof.
  intros Hp l Hl. destruct (decide (l = p)) as [->|Hne].
  - rewrite lookup_insert_eq. split; [eauto | intros Hn; destruct (Hn Hp)].
  - rewrite lookup_insert_ne by congruence. split; [exact Hl | reflexivity].
Qed.

Lemma kept_alloc {V : Type} (W : loc -> Prop) (m : gmap loc V) (v : V) :
  kept W m (snd (alloc m v)).
Proof.
  intros l Hl. destruct (alloc_other m v l Hl) as [_ Hk]. rewrite Hk.
  split; [exact Hl | reflexivity].
Qed.

Lemma writes_only_refl E V T O σ : writes_only E V T O σ σ.
Proof. constructor; apply kept_refl. Qed.

Lemma writes_only_trans E1 V1 T1 O1 E2 V2 T2 O2 (E V T O : loc -> Prop) σ0 σ1 σ2 :
  writes_only E1 V1 T1 O1 σ0 σ1 -> writes_only E2 V2 T2 O2 σ1 σ2 ->
  (forall l, is_Some (st_env σ0 !! l) -> E1 l \/ E2 l -> E l) ->
  (forall l, is_Some (st_var σ0 !! l) -> V1 l \/ V2 l -> V l) ->
  (forall l, is_Some (st_vtable σ0 !! l) -> T1 l \/ T2 l -> T l) ->
  (forall l, is_Some (st_ostream σ0 !! l) -> O1 l \/ O2 l -> O l) ->
  writes_only E V T O σ0 σ2.
Proof.
  intros [] [] HE HV HT HO. constructor.
  - eapply kept_trans; eauto.
  - eapply kept_trans; eauto. tauto.
  - eapply kept_trans; eauto.
  - eapply kept_trans; eauto.
  - eapply kept_trans; eauto.
Qed.

Lemma extends_trans σ0 σ1 σ2 :
  writes_only (fun _ => False) (fun _ => False) (fun _ => False) (fun _ => False) σ0 σ1 ->
  writes_only (fun _ => False) (fun _ => False) (fun _ => False) (fun _ => False) σ1 σ2 ->
  writes_only (fun _ => False) (fun _ => False) (fun _ => False) (fun _ => False) σ0 σ2.
Proof.
  intros H1 H2.
  eapply writes_only_trans; [exact H1 | exact H2 | | | |]; cbv beta; intros l _; tauto.
Qed.

Lemma same_objects_refl s : same_objects s s.
Proof. repeat split. Qed.

Lemma same_objects_trans s0 s1 s2 :
  same_objects s0 s1 -> same_objects s1 s2 -> same_objects s0 s2.
Proof. unfold same_objects. intuition congruence. Qed.

Lemma footprint_refl s σ : footprint s σ σ.
Proof. apply writes_only_refl. Qed.

Lemma footprint_trans s s' σ0 σ1 σ2 :
  same_objects s s' -> footprint s σ0 σ1 -> footprint s' σ1 σ2 -> footprint s σ0 σ2.
Proof.
  intros (He & _ & Hv & Ht & _ & Ho & Hr) H1 H2.
  eapply writes_only_trans; [exact H1 | exact H2 | | | |]; cbv beta; intros l _;
    rewrite ?He, ?Hv, ?Ht, ?Ho, ?Hr; tauto.
Qed.

(** *** The steps of the monad *)

Lemma confined_ret {A : Type} (a : A) : confined (ret a).
Proof. intros s σ. split; [apply same_objects_refl | apply footprint_refl]. Qed.

Lemma confined_lift {A : Type} (o : outcome A) : confined (lift o).
Proof. intros s σ. split; [apply same_objects_refl | apply footprint_refl]. Qed.

Lemma confined_read {A : Type} (f : shell_session -> store -> A) : confined (read f).
Proof. intros s σ. split; [apply same_objects_refl | apply footprint_refl]. Qed.

Lemma confined_pure {A : Type} (m : M A) :
  (forall s σ, exists o, m s σ = (o, s, σ)) -> confined m.
Proof.
  intros Hm s σ. destruct (Hm s σ) as [o ->].
  split; [apply same_objects_refl | apply footprint_refl].
Qed.

Lemma confined_update f :
  (forall s σ, footprint s σ (f s σ)) -> confined (update f).
Proof. intros Hf s σ. split; [apply same_objects_refl | apply Hf]. Qed.

Lemma confined_update_session f :
  (forall s, same_objects s (f s)) -> confined (update_session f).
Proof. intros Hf s σ. split; [apply Hf | apply footprint_refl]. Qed.

Lemma confined_bind {A B : Type} (m : M A) (k : A -> M B) :
  confined m -> (forall a, confined (k a)) -> confined (bind m k).
Proof.
  intros Hm Hk s σ. unfold bind. destruct (Hm s σ) as [Hs Hf].
  destruct (m s σ) as [[o s1] σ1]. unfold session_after in *. simpl in Hs, Hf.
  destruct o as [a| | |]; try (split; assumption).
  destruct (Hk a s1 σ1) as [Hs' Hf']. split.
  - eapply same_objects_trans; eassumption.
  - eapply footprint_trans; eassumption.
Qed.

Lemma footprint_ostream_write s l text σ :
  l = m_oStdOut s \/ l = m_oStdErr s -> footprint s σ (ostream_write l text σ).
Proof.
  intros Hl. constructor; try apply kept_refl.
  unfold ostream_write. cbn [st_ostream set_st_ostream]. apply kept_insert. tauto.
Qed.

Lemma writes_only_cout_write E V T (O : loc -> Prop) text σ :
  O std_cout -> writes_only E V T O σ (cout_write text σ).
Proof.
  intros Hc. constructor; try apply kept_refl.
  unfold cout_write, ostream_write. cbn [st_ostream set_st_ostream].
  apply kept_insert. exact Hc.
Qed.

Lemma footprint_cout_write s text σ : footprint s σ (cout_write text σ).
Proof. apply writes_only_cout_write. auto. Qed.

Lemma confined_write_out text : confined (write_out text).
Proof. apply confined_update. intros s σ. apply footprint_ostream_write. auto. Qed.

Lemma confined_write_err text : confined (write_err text).
Proof. apply confined_update. intros s σ. apply footprint_ostream_write. auto. Qed.

Lemma footprint_set_var s x v σ : footprint s σ (Session.set_var s x v σ).
Proof.
  constructor; try apply kept_refl.
  unfold Session.set_var. cbn [st_var set_st_var]. apply kept_insert. reflexivity.
Qed.

Lemma footprint_set_env s x v σ : footprint s σ (Session.set_env s x v σ).
Proof.
  constructor; try apply kept_refl.
  unfold Session.set_env. cbn [st_env set_st_env]. apply kept_insert. reflexivity.
Qed.

Lemma footprint_set_func s x f σ σ' :
  Session.set_func s x f σ = Ok σ' -> footprint s σ σ'.
Proof.
  unfold Session.set_func. destruct (m_pVtable s) as [l|] eqn:Hl; [|discriminate].
  intros [= <-]. constructor; try apply kept_refl.
  cbn [st_vtable set_st_vtable]. apply kept_insert. exact Hl.
Qed.

Lemma confined_set_result n :
  confined (update_session (fun s => Session.set_last_command_result s n)).
Proof. apply confined_update_session. intros s. repeat split. Qed.

Lemma confined_try_iteration body : confined body -> confined (try_iteration body).
Proof.
  intros Hb s σ. unfold try_iteration. specialize (Hb s σ).
  destruct (body s σ) as [[o s'] σ']. destruct o as [a|x|why|]; try exact Hb.
  destruct x; exact Hb.
Qed.

Lemma confined_msg_error_syntax_error e : confined (msg_error_syntax_error e).
Proof.
  unfold msg_error_syntax_error. apply confined_bind; [apply confined_lift |].
  intros a. apply confined_write_err.
Qed.

Lemma confined_run_normalized run : confined run -> confined (run_normalized run).
Proof.
  intros Hr s σ. unfold run_normalized. specialize (Hr s σ).
  destruct (run s σ) as [[o s'] σ']. destruct o as [a|x|why|]; try exact Hr.
  destruct x; try exact Hr.
  unfold session_after in *. simpl in Hr. destruct Hr as [Hs Hf].
  assert (Hk : confined (bind (msg_error_syntax_error e) (fun _ => ret SHELL_SUCCESS))).
  { apply confined_bind; [apply confined_msg_error_syntax_error |].
    intros _. apply confined_ret. }
  destruct (Hk s' σ') as [Hs' Hf']. split.
  - eapply same_objects_trans; eassumption.
  - eapply footprint_trans; eassumption.
Qed.

Lemma confined_for_loop body sVariable vSequence :
  confined body -> confined (for_loop body sVariable vSequence).
Proof.
  intros Hb. induction vSequence as [|sItem rest IH]; simpl.
  - apply confined_ret.
  - apply confined_bind.
    { apply confined_update. intros s σ. apply footprint_set_var. }
    intros _. apply confined_bind; [apply confined_try_iteration, Hb |].
    intros [|]; [exact IH | apply confined_ret].
Qed.

Lemma confined_while_loop fuel bUntil condition body :
  confined condition -> confined body ->
  confined (while_loop fuel bUntil condition body).
Proof.
  intros Hc Hb. induction fuel as [|fuel IH]; simpl.
  - apply confined_lift.
  - apply confined_bind; [exact Hc |]. intros nCondition.
    destruct (xorb (nCondition =? SHELL_SUCCESS) bUntil); [| apply confined_ret].
    apply confined_bind; [apply confined_try_iteration, Hb |].
    intros [|]; [exact IH | apply confined_ret].
Qed.

Lemma confined_block_loop evaluate children :
  (forall n, confined (evaluate n)) -> confined (block_loop evaluate children).
Proof.
  intros He. induction children as [|[c|] rest IH]; simpl.
  - apply confined_ret.
  - apply confined_bind; [apply He |]. intros _. exact IH.
  - apply confined_lift.
Qed.

Lemma confined_expression_loop expand_child children :
  (forall n, confined (expand_child n)) ->
  forall acc, confined (expression_loop expand_child children acc).
Proof.
  intros He. induction children as [|[c|] rest IH]; intros acc; simpl.
  - apply confined_ret.
  - apply confined_bind; [apply He |]. intros v. apply IH.
  - apply IH.
Qed.

Lemma confined_str_loop expand_child children :
  (forall n, confined (expand_child n)) ->
  forall o, confined (str_loop expand_child children o).
Proof.
  intros He. induction children as [|c rest IH]; intros o; simpl.
  - apply confined_ret.
  - apply confined_bind; [apply He |]. intros v. apply IH.
Qed.

(** *** Derived sessions *)

(** A step run in another session [sub], from a store [σ1] reached from
    [σ0]: what it writes among the objects of [σ0]. *)
Lemma in_session_writes {A : Type} (m : M A) (sub s : shell_session) (σ0 σ1 : store)
    (E V T O : loc -> Prop) :
  confined m ->
  writes_only E V T O σ0 σ1 ->
  (is_Some (st_env σ0 !! m_pEnv sub) -> E (m_pEnv sub)) ->
  (is_Some (st_var σ0 !! m_pVar sub) -> V (m_pVar sub)) ->
  (forall l, m_pVtable sub = Some l -> is_Some (st_vtable σ0 !! l) -> T l) ->
  (is_Some (st_ostream σ0 !! m_oStdOut sub) -> O (m_oStdOut sub)) ->
  (is_Some (st_ostream σ0 !! m_oStdErr sub) -> O (m_oStdErr sub)) ->
  O std_cout ->
  session_after (in_session sub m s σ1) = s
  /\ writes_only E V T O σ0 (snd (in_session sub m s σ1)).
Proof.
  intros Hm Hext HE HV HT Hout Herr Hcout. unfold in_session.
  destruct (Hm sub σ1) as [_ Hf]. destruct (m sub σ1) as [[o s'] σ2].
  unfold session_after. simpl in *. split; [reflexivity |].
  eapply writes_only_trans; [exact Hext | exact Hf | | | |]; cbv beta.
  - intros l Hl [HEl| ->]; auto.
  - intros l Hl [HVl| ->]; auto.
  - intros l Hl [HTl| Hs]; eauto.
  - intros l Hl [HOl| [-> | [-> | ->]]]; auto.
Qed.

(** A step on the nodes of a tree writes what the step writes. *)
Lemma confined_in_tree {A : Type} (t : tree) (m : M A) :
  confined m -> confined (in_tree t m).
Proof.
  intros Hm s σ. unfold in_tree. destruct (Hm s (set_st_tree σ t)) as [Hs Hf].
  destruct (m s (set_st_tree σ t)) as [[r s'] σ']. split; [exact Hs |].
  destruct Hf. constructor; assumption.
Qed.

Lemma confined_in_parsed_tree {A : Type} (m : M A) :
  confined m -> confined (in_parsed_tree m).
Proof.
  intros Hm s σ. unfold in_parsed_tree.
  set (t := fresh (st_trees σ ∪ vtable_trees σ)).
  destruct (confined_in_tree t m Hm s (set_st_trees σ ({[t]} ∪ st_trees σ))) as [Hs Hf].
  destruct (in_tree t m s (set_st_trees σ ({[t]} ∪ st_trees σ))) as [[r s'] σ'].
  split; [exact Hs |]. destruct Hf. constructor; assumption.
Qed.

Lemma in_tree_in_session {A : Type} (t : tree) (sub : shell_session) (m : M A) s σ :
  in_tree t (in_session sub m) s σ = in_session sub (in_tree t m) s σ.
Proof.
  unfold in_tree, in_session. destruct (m sub (set_st_tree σ t)) as [[r s'] σ'].
  reflexivity.
Qed.

Lemma writes_only_weaken (E V T O E' V' T' O' : loc -> Prop) σ σ' :
  writes_only E V T O σ σ' ->
  (forall l, E l -> E' l) -> (forall l, V l -> V' l) ->
  (forall l, T l -> T' l) -> (forall l, O l -> O' l) ->
  writes_only E' V' T' O' σ σ'.
Proof.
  intros Hw HE HV HT HO.
  eapply writes_only_trans; [exact Hw | apply (writes_only_refl E' V' T' O') | | | |];
    cbv beta; intros l _ [Hl|Hl]; auto.
Qed.

Lemma extends_writes_only (E V T O : loc -> Prop) σ σ' :
  writes_only (fun _ => False) (fun _ => False) (fun _ => False) (fun _ => False) σ σ' ->
  writes_only E V T O σ σ'.
Proof.
  intros Hw. eapply writes_only_weaken; [exact Hw | | | |]; cbv beta; intros l [].
Qed.

Lemma make_subsession_fresh s oStdIn oStdOut oStdErr σ sub σ' :
  Session.make_subsession s oStdIn oStdOut oStdErr σ = Ok (sub, σ') ->
  writes_only (fun _ => False) (fun _ => False) (fun _ => False) (fun _ => False) σ σ'
  /\ st_env σ !! m_pEnv sub = None
  /\ st_var σ !! m_pVar sub = None
  /\ (forall l, m_pVtable sub = Some l -> st_vtable σ !! l = None)
  /\ m_oStdOut sub = oStdOut /\ m_oStdErr sub = oStdErr.
Proof.
  unfold Session.make_subsession.
  destruct (Session.vtable_of s σ) as [t|]; [|discriminate].
  pose proof (alloc_fresh (st_env σ) (Session.env_of s σ)) as Hfe.
  pose proof (alloc_fresh (st_var σ) (Session.var_of s σ)) as Hfv.
  pose proof (alloc_fresh (st_vtable σ) t) as Hft.
  pose proof (kept_alloc (fun _ => False) (st_env σ) (Session.env_of s σ)) as Hke.
  pose proof (kept_alloc (fun _ => False) (st_var σ) (Session.var_of s σ)) as Hkv.
  pose proof (kept_alloc (fun _ => False) (st_vtable σ) t) as Hkt.
  destruct (alloc (st_env σ) (Session.env_of s σ)) as [pEnv envs].
  destruct (alloc (st_var σ) (Session.var_of s σ)) as [pVar vars].
  destruct (alloc (st_vtable σ) t) as [pVtable vtables].
  simpl in *. intros [= <- <-]. unfold Session.derived. simpl.
  split; [constructor; simpl; first [assumption | apply kept_refl] |].
  split; [exact Hfe |]. split; [exact Hfv |].
  split; [intros l [= <-]; exact Hft |]. split; reflexivity.
Qed.

(** A sub-command of a subshell block: [make_subsession], then the
    command in the new session. *)
Lemma subshell_step_writes (evaluate : evaluable -> M shell_status) (c : evaluable) s σ :
  (forall n, confined (evaluate n)) ->
  let r := bind (make_subsession m_oStdIn m_oStdOut m_oStdErr)
             (fun pSubSession => in_session pSubSession (evaluate c)) s σ in
  session_after r = s
  /\ writes_only (fun _ => False) (fun _ => False) (fun _ => False)
       (fun l => l = m_oStdOut s \/ l = m_oStdErr s \/ l = std_cout) σ (snd r).
Proof.
  intros He. unfold bind, make_subsession.
  destruct (Session.make_subsession s (m_oStdIn s) (m_oStdOut s) (m_oStdErr s) σ)
    as [[sub σ1]| | |] eqn:Hsub; cbv zeta; unfold session_after; simpl;
    try (split; [reflexivity | apply writes_only_refl]).
  destruct (make_subsession_fresh _ _ _ _ _ _ _ Hsub) as (Hext & Hfe & Hfv & Hft & Ho & Hr).
  apply in_session_writes; try (apply extends_writes_only; exact Hext); try apply He.
  - rewrite Hfe. intros [? [=]].
  - rewrite Hfv. intros [? [=]].
  - intros l Hl. rewrite (Hft l Hl). intros [? [=]].
  - rewrite Ho. auto.
  - rewrite Hr. auto.
  - auto.
Qed.

Lemma subshell_loop_writes (evaluate : evaluable -> M shell_status) children :
  (forall n, confined (evaluate n)) ->
  forall s σ,
    session_after (subshell_loop evaluate children s σ) = s
    /\ writes_only (fun _ => False) (fun _ => False) (fun _ => False)
         (fun l => l = m_oStdOut s \/ l = m_oStdErr s \/ l = std_cout) σ
         (snd (subshell_loop evaluate children s σ)).
Proof.
  intros He. induction children as [|[c|] rest IH]; intros s σ; simpl.
  - split; [reflexivity | apply writes_only_refl].
  - pose proof (subshell_step_writes evaluate c s σ He) as Hstep. cbv zeta in Hstep.
    unfold bind in *. unfold session_after in *.
    destruct (make_subsession m_oStdIn m_oStdOut m_oStdErr s σ) as [[o s1] σ1].
    destruct o as [sub| | |]; simpl in Hstep |- *;
      try (destruct Hstep as [-> Hw]; split; [reflexivity | exact Hw]).
    destruct (in_session sub (evaluate c) s1 σ1) as [[o2 s2] σ2]. simpl in Hstep.
    destruct Hstep as [-> Hw].
    destruct o2; simpl; try (split; [reflexivity | exact Hw]).
    destruct (IH s σ2) as [Hs Hw']. split; [exact Hs |].
    eapply writes_only_trans; [exact Hw | exact Hw' | | | |]; cbv beta; intros l _; tauto.
  - split; [reflexivity | apply writes_only_refl].
Qed.

Lemma new_ostringstream_fresh σ :
  writes_only (fun _ => False) (fun _ => False) (fun _ => False) (fun _ => False) σ
    (snd (new_ostringstream σ))
  /\ st_ostream σ !! fst (new_ostringstream σ) = None
  /\ st_env (snd (new_ostringstream σ)) = st_env σ
  /\ st_var (snd (new_ostringstream σ)) = st_var σ
  /\ st_vtable (snd (new_ostringstream σ)) = st_vtable σ.
Proof.
  unfold new_ostringstream. cbn [fst snd].
  set (l := fresh ({[std_cout]} ∪ dom (st_ostream σ))).
  assert (Hf : st_ostream σ !! l = None).
  { apply not_elem_of_dom. intros Hin.
    apply (is_fresh ({[std_cout]} ∪ dom (st_ostream σ))). apply elem_of_union_r. exact Hin. }
  split.
  { constructor; try apply kept_refl. cbn [st_ostream set_st_ostream].
    intros l' Hl'. split.
    - destruct (decide (l' = l)) as [->|Hne];
        [rewrite lookup_insert_eq; eauto | rewrite lookup_insert_ne by congruence; exact Hl'].
    - intros _. apply lookup_insert_ne. intros ->. rewrite Hf in Hl'.
      destruct Hl' as [? [=]]. }
  split; [exact Hf |]. repeat split.
Qed.

(** A command substitution writes to the stream handed over as error
    stream, and to no object that was there before. *)
Lemma substitute_writes (evaluate : evaluable -> M shell_status) pCommand (oStdErr : shell_session -> loc)
    vTokens bSplit s σ :
  (forall n, confined (evaluate n)) ->
  let r := substitute evaluate pCommand oStdErr vTokens bSplit s σ in
  session_after r = s
  /\ writes_only (fun _ => False) (fun _ => False) (fun _ => False)
       (fun l => l = oStdErr s \/ l = std_cout) σ (snd r).
Proof.
  intros He. unfold substitute, bind, make_subsession.
  destruct (new_ostringstream_fresh σ) as (Hext0 & Hfo & Hee & Hev & Het).
  destruct (new_ostringstream σ) as [oStdOut σ0]. simpl in Hext0, Hfo, Hee, Hev, Het.
  destruct (Session.make_subsession s (m_oStdIn s) oStdOut (oStdErr s) σ0)
    as [[sub σ1]| | |] eqn:Hsub; cbv zeta; unfold session_after; simpl;
    try (split; [reflexivity |];
         eapply writes_only_weaken; [exact Hext0 | | | |]; cbv beta; tauto).
  destruct (make_subsession_fresh _ _ _ _ _ _ _ Hsub) as (Hext & Hfe & Hfv & Hft & Ho & Hr).
  rewrite Hee in Hfe. rewrite Hev in Hfv. rewrite Het in Hft.
  assert (Hext1 : writes_only (fun _ => False) (fun _ => False) (fun _ => False)
                    (fun _ => False) σ σ1).
  { eapply extends_trans; eassumption. }
  pose proof (in_session_writes (evaluate pCommand) sub s σ σ1
                (fun _ => False) (fun _ => False) (fun _ => False)
                (fun l => l = oStdErr s \/ l = std_cout) (He pCommand)
                (extends_writes_only _ _ _ _ _ _ Hext1)) as Hin.
  destruct Hin as [Hs Hw].
  - rewrite Hfe. intros [? [=]].
  - rewrite Hfv. intros [? [=]].
  - intros l Hl. rewrite (Hft l Hl). intros [? [=]].
  - rewrite Ho, Hfo. intros [? [=]].
  - rewrite Hr. auto.
  - auto.
  - unfold session_after in Hs.
    destruct (in_session sub (evaluate pCommand) s σ1) as [[o s'] σ2]. simpl in Hs, Hw.
    destruct o; simpl; split; assumption.
Qed.

Lemma confined_substitute evaluate pCommand (oStdErr : shell_session -> loc)
    vTokens bSplit :
  (forall n, confined (evaluate n)) ->
  (forall s, oStdErr s = m_oStdOut s \/ oStdErr s = m_oStdErr s) ->
  confined (substitute evaluate pCommand oStdErr vTokens bSplit).
Proof.
  intros He Herr s σ.
  destruct (substitute_writes evaluate pCommand oStdErr vTokens bSplit s σ He) as [Hs Hw].
  rewrite Hs. split; [apply same_objects_refl |].
  eapply writes_only_weaken; [exact Hw | | | |]; cbv beta; try tauto.
  intros l [-> | ->]; [destruct (Herr s); auto | auto].
Qed.

Lemma confined_subshell_loop evaluate children :
  (forall n, confined (evaluate n)) -> confined (subshell_loop evaluate children).
Proof.
  intros He s σ. destruct (subshell_loop_writes evaluate children He s σ) as [Hs Hw].
  split; [rewrite Hs; apply same_objects_refl |].
  eapply writes_only_weaken; [exact Hw | | | |]; cbv beta; tauto.
Qed.

(** *** The commands *)

Lemma confined_echo vArgs : confined (Command.command_echo_run vArgs).
Proof.
  unfold Command.command_echo_run.
  destruct (match vArgs with
            | [] => (true, 0%nat)
            | first :: _ => if (first =? "-n")%string then (false, 1%nat) else (true, 0%nat)
            end) as [bUseEndl nBegin].
  apply confined_bind; [apply confined_write_out |]. intros _. apply confined_ret.
Qed.

Lemma same_objects_set_depth s d : same_objects s (Session.set_depth s d).
Proof. repeat split. Qed.

Lemma confined_eval run vArgs :
  (forall sCommand, confined (run sCommand)) ->
  confined (Command.command_eval_run run vArgs).
Proof.
  intros Hrun s σ. unfold Command.command_eval_run, Session.increase_shell_depth.
  destruct (size_t_add (m_nCurrentDepth s) 1 <=? SHELL_MAX_DEPTH); cbn [negb].
  - assert (Hk : confined
        (bind (run (fold_left ofs_write vArgs EmptyString)) (fun nStatus =>
         bind (update_session Session.decrease_shell_depth) (fun _ => ret nStatus)))).
    { apply confined_bind; [apply Hrun |]. intros nStatus.
      apply confined_bind; [| intros _; apply confined_ret].
      apply confined_update_session. intros s0. unfold Session.decrease_shell_depth.
      destruct (0 <? m_nCurrentDepth s0);
        [apply same_objects_set_depth | apply same_objects_refl]. }
    destruct (Hk (Session.set_depth s (size_t_add (m_nCurrentDepth s) 1)) σ) as [Hs Hf].
    split.
    + eapply same_objects_trans; [apply same_objects_set_depth | exact Hs].
    + eapply footprint_trans; [apply same_objects_set_depth | apply footprint_refl | exact Hf].
  - apply (confined_bind Command.msg_error_max_depth_reached
             (fun _ => ret SHELL_ERROR_MAX_DEPTH_REACHED)).
    + apply confined_write_err.
    + intros _. apply confined_ret.
Qed.

Lemma make_function_call_fresh s vArgs σ :
  let r := Session.make_function_call s vArgs σ in
  writes_only (fun l => l = m_pEnv s) (fun _ => False) (fun l => m_pVtable s = Some l)
    (fun l => l = m_oStdOut s \/ l = m_oStdErr s \/ l = std_cout) σ (snd r)
  /\ m_pEnv (fst r) = m_pEnv s
  /\ st_var σ !! m_pVar (fst r) = None
  /\ m_pVtable (fst r) = m_pVtable s
  /\ m_oStdOut (fst r) = m_oStdOut s /\ m_oStdErr (fst r) = m_oStdErr s.
Proof.
  unfold Session.make_function_call.
  set (σc := cout_write ("fcall " +:+ Session.get_arg s σ 1 +:+ endl) σ).
  pose proof (alloc_fresh (st_var σc) ∅) as Hfv.
  pose proof (kept_alloc (fun _ => False) (st_arg σc) vArgs) as Hka.
  pose proof (kept_alloc (fun _ => False) (st_var σc) ∅) as Hkv.
  destruct (alloc (st_arg σc) vArgs) as [pArg args].
  destruct (alloc (st_var σc) ∅) as [pVar vars].
  simpl in *. split.
  { constructor; simpl; try first [assumption | apply kept_refl].
    apply kept_insert. auto. }
  repeat split. exact Hfv.
Qed.

(** [fcall] writes through the caller's environment, function table and
    streams, and on [std::cout]; the locals it writes are new. *)
Lemma fcall_writes (evaluate : evaluable -> M shell_status) vArgs s σ :
  (forall n, confined (evaluate n)) ->
  let r := Command.command_fcall_run evaluate vArgs s σ in
  same_objects s (session_after r)
  /\ writes_only (fun l => l = m_pEnv s) (fun _ => False)
       (fun l => m_pVtable s = Some l)
       (fun l => l = m_oStdOut s \/ l = m_oStdErr s \/ l = std_cout) σ (snd r).
Proof.
  intros He.
  set (W := writes_only (fun l => l = m_pEnv s) (fun _ => False)
              (fun l => m_pVtable s = Some l)
              (fun l => l = m_oStdOut s \/ l = m_oStdErr s \/ l = std_cout)).
  set (P := fun r : outcome shell_status * shell_session * store =>
              same_objects s (session_after r) /\ W σ (snd r)).
  change (P (Command.command_fcall_run evaluate vArgs s σ)).
  unfold Command.command_fcall_run.
  unfold bind at 1. unfold update at 1.
  set (σc := cout_write ("FCALL" +:+ endl) σ).
  assert (Hc : W σ σc) by (apply writes_only_cout_write; auto).
  assert (Hstep : forall σ0 σ1 σ2, W σ0 σ1 -> W σ1 σ2 -> W σ0 σ2).
  { intros σ0 σ1 σ2 H1 H2. unfold W in *.
    eapply writes_only_trans; [exact H1 | exact H2 | | | |]; cbv beta; intros l _; tauto. }
  assert (Hmsg : forall text (n : shell_status),
            P (bind (write_err text) (fun _ => ret n) s σc)).
  { intros text n. unfold P, bind, write_err, update, ret, session_after. simpl.
    split; [apply same_objects_refl |]. apply (Hstep σ σc); [exact Hc |].
    constructor; try apply kept_refl.
    unfold ostream_write. cbn [st_ostream set_st_ostream]. apply kept_insert. auto. }
  destruct vArgs as [|sName rest].
  - apply Hmsg.
  - unfold bind at 1. destruct (Session.get_func s σc sName) as [[[t pFunc]|]| | |];
      try (unfold P, session_after; simpl; split; [apply same_objects_refl | exact Hc]).
    + destruct (make_function_call_fresh s (sName :: rest) σc)
        as (Hext & Henv & Hvar & Hvt & Hout & Herr). cbv zeta in *.
      destruct (Session.make_function_call s (sName :: rest) σc) as [pSession σ1].
      simpl in Hext, Henv, Hvar, Hvt, Hout, Herr.
      set (σ2 := cout_write ("arg 1: " +:+ Session.get_arg pSession σ1 1 +:+ endl) σ1).
      assert (Hext2 : W σ σ2).
      { apply (Hstep σ σc); [exact Hc |]. apply (Hstep σc σ1); [exact Hext |].
        apply writes_only_cout_write. auto. }
      case_bool_decide;
        [| unfold P, session_after; simpl; split; [apply same_objects_refl | exact Hext2]].
      rewrite in_tree_in_session.
      destruct (in_session_writes (in_tree t (evaluate pFunc)) pSession s σ σ2
                  (fun l => l = m_pEnv s) (fun _ => False)
                  (fun l => m_pVtable s = Some l)
                  (fun l => l = m_oStdOut s \/ l = m_oStdErr s \/ l = std_cout)
                  (confined_in_tree t _ (He pFunc)) Hext2)
        as [Hs Hw].
      * intros _. exact Henv.
      * rewrite Hvar. intros [? [=]].
      * intros l Hl _. rewrite <- Hvt. exact Hl.
      * intros _. left. exact Hout.
      * intros _. right. left. exact Herr.
      * auto.
      * unfold P. rewrite Hs. split; [apply same_objects_refl | exact Hw].
    + apply Hmsg.
Qed.

Lemma confined_fcall evaluate vArgs :
  (forall n, confined (evaluate n)) -> confined (Command.command_fcall_run evaluate vArgs).
Proof.
  intros He s σ. destruct (fcall_writes evaluate vArgs s σ He) as [Hs Hw].
  split; [exact Hs |].
  eapply writes_only_weaken; [exact Hw | | | |]; cbv beta; tauto.
Qed.

Lemma confined_pipe (left right : M shell_status) :
  confined left -> confined right ->
  confined
    (bind (fun s σ => let '(l, σ') := new_ostringstream σ in (Ok l, s, σ'))
       (fun oStdOut =>
     bind (fun s σ => in_session (Session.make_pipe_left s oStdOut) left s σ)
       (fun _ =>
     bind (fun s σ =>
             let '(l, σ') := new_istringstream (ostream_str oStdOut σ) σ in
             (Ok l, s, σ')) (fun oStdIn =>
     fun s σ => in_session (Session.make_pipe_right s oStdIn) right s σ)))).
Proof.
  intros Hl Hr s σ.
  match goal with |- _ /\ footprint _ _ (snd ?r) => remember r as res eqn:Hres end.
  unfold bind in Hres.
  destruct (new_ostringstream_fresh σ) as (Hext0 & Hfo & _).
  destruct (new_ostringstream σ) as [oStdOut σ0]. simpl in Hext0, Hfo.
  destruct (in_session_writes left (Session.make_pipe_left s oStdOut) s σ σ0
              (fun l => l = m_pEnv s) (fun l => l = m_pVar s)
              (fun l => m_pVtable s = Some l)
              (fun l => l = m_oStdOut s \/ l = m_oStdErr s \/ l = std_cout) Hl
              (extends_writes_only _ _ _ _ _ _ Hext0))
    as [Hs1 Hw1].
  { intros _. reflexivity. }
  { intros _. reflexivity. }
  { intros l Hv _. exact Hv. }
  { simpl. rewrite Hfo. intros [? [=]]. }
  { intros _. right. left. reflexivity. }
  { auto. }
  unfold session_after in *.
  destruct (in_session (Session.make_pipe_left s oStdOut) left s σ0) as [[o1 s1] σ1].
  simpl in Hs1, Hw1. subst s1.
  destruct o1; try (subst res; simpl; split; [apply same_objects_refl | exact Hw1]).
  unfold new_istringstream in Hres.
  destruct (alloc (st_istream σ1) (ostream_str oStdOut σ1)) as [oStdIn ins].
  cbv beta iota zeta in Hres.
  assert (Hext2 : writes_only (fun _ => False) (fun _ => False) (fun _ => False)
                    (fun _ => False) σ1 (set_st_istream σ1 ins))
    by (constructor; apply kept_refl).
  destruct (in_session_writes right (Session.make_pipe_right s oStdIn) s σ1
              (set_st_istream σ1 ins)
              (fun l => l = m_pEnv s) (fun l => l = m_pVar s)
              (fun l => m_pVtable s = Some l)
              (fun l => l = m_oStdOut s \/ l = m_oStdErr s \/ l = std_cout) Hr
              (extends_writes_only _ _ _ _ _ _ Hext2))
    as [Hs2 Hw2].
  { intros _. reflexivity. }
  { intros _. reflexivity. }
  { intros l Hv _. exact Hv. }
  { intros _. left. reflexivity. }
  { intros _. right. left. reflexivity. }
  { auto. }
  rewrite <- Hres in Hs2, Hw2. unfold session_after in Hs2. rewrite Hs2. split; [apply same_objects_refl |].
  eapply writes_only_trans; [exact Hw1 | exact Hw2 | | | |]; cbv beta; intros l _; tauto.
Qed.

Section WithShell.
Context `{Collaborators}.
Variable pShell : shell.
Hypothesis Hshell : confined_shell pShell.

Lemma confined_command_run evaluate sName pCommand vArgs :
  (forall n, confined (evaluate n)) ->
  get_command pShell sName = Some pCommand ->
  confined (command_run evaluate pCommand vArgs).
Proof.
  intros He Hget. destruct pCommand; simpl.
  - apply confined_echo.
  - apply confined_eval. intros sCommand. unfold eval.
    apply confined_bind; [apply confined_lift |].
    intros pMainNode. apply confined_in_parsed_tree, He.
  - apply confined_fcall, He.
  - apply (proj2 Hshell sName run Hget).
Qed.

Lemma evaluate_expand_confined :
  forall fuel,
    (forall n, confined (evaluate pShell fuel n))
    /\ (forall n vTokens bSplit, confined (expand pShell fuel n vTokens bSplit)).
Proof.
  induction fuel as [|fuel [IHev IHex]].
  - split; intros; apply confined_lift.
  - split.
    + intros n. destruct n; simpl.
      * apply confined_bind; [apply confined_set_result | intros; apply confined_ret].
      * apply confined_bind; [apply IHex |]. intros [|sName vArgs]; [apply confined_lift |].
        destruct (get_command pShell sName) as [pCommand|] eqn:Hget.
        -- apply confined_bind.
           ++ apply confined_run_normalized. eapply confined_command_run; [exact IHev | exact Hget].
           ++ intros nStatus. apply confined_bind; [apply confined_set_result |].
              intros _. apply confined_ret.
        -- apply confined_bind; [apply confined_write_err |]. intros _. apply confined_ret.
      * apply confined_bind; [apply confined_block_loop, IHev |]. intros _. apply confined_read.
      * apply confined_bind; [apply confined_subshell_loop, IHev |]. intros _. apply confined_read.
      * apply confined_ret.
      * assert (Hl : confined (match m_pLeft with
                               | Some pLeft => evaluate pShell fuel pLeft
                               | None => lift (Undefined "null left operand")
                               end)) by (destruct m_pLeft; [apply IHev | apply confined_lift]).
        assert (Hr : confined (match m_pRight with
                               | Some pRight => evaluate pShell fuel pRight
                               | None => lift (Undefined "null right operand")
                               end)) by (destruct m_pRight; [apply IHev | apply confined_lift]).
        destruct nType; try apply confined_lift.
        -- apply confined_bind; [exact Hl |]. intros nLeft.
           destruct (nLeft =? SHELL_SUCCESS); [exact Hr | apply confined_ret].
        -- apply confined_pipe; assumption.
        -- apply confined_bind; [exact Hl |]. intros nLeft.
           destruct (negb (nLeft =? SHELL_SUCCESS)); [exact Hr | apply confined_ret].
      * apply confined_bind; [apply IHex |]. intros vTokens.
        apply confined_bind.
        -- apply confined_run_normalized.
           destruct (get_command pShell "test") as [pTest|] eqn:Hget.
           ++ eapply confined_command_run; [exact IHev | exact Hget].
           ++ apply (proj1 Hshell).
        -- intros nStatus. apply confined_bind; [apply confined_set_result |].
           intros _. apply confined_ret.
      * apply confined_bind; [apply IHev |]. intros nCondition.
        destruct (nCondition =? SHELL_SUCCESS); [apply IHev |].
        destruct m_pCaseElse; [apply IHev | apply confined_read].
      * apply confined_bind; [apply IHex |]. intros vSequence.
        apply confined_bind; [apply confined_for_loop, IHev |]. intros _.
        apply confined_read.
      * apply confined_bind; [apply confined_while_loop; apply IHev |]. intros _.
        apply confined_read.
      * apply confined_bind; [apply confined_while_loop; apply IHev |]. intros _.
        apply confined_read.
      * apply confined_lift.
      * apply confined_lift.
      * apply confined_bind; [apply IHex |]. intros vName.
        assert (Herr : confined
                  (bind (msg_error_invalid_function_name (concat_vector EmptyString vName))
                     (fun _ => ret SHELL_ERROR_SYNTAX_ERROR_INVALID_FUNCTION_NAME))).
        { apply confined_bind; [apply confined_write_err |]. intros _. apply confined_ret. }
        destruct vName as [|sName [|]]; try exact Herr.
        destruct (is_var sName); [| exact Herr].
        apply confined_bind; [| intros _; apply confined_ret].
        intros s σ. unfold session_after.
        destruct (Session.set_func s sName (st_tree σ, n) σ) as [σ'| | |] eqn:Hset; simpl;
          (split; [apply same_objects_refl |]);
          [eapply footprint_set_func; exact Hset | apply footprint_refl ..].
    + intros n vTokens bSplit. destruct n; simpl;
        try apply confined_ret;
        try (apply confined_substitute; [exact IHev | intros s; auto]);
        try (apply confined_pure; intros s σ;
             first [ eexists; reflexivity
                   | match goal with
                     | |- context [match ?v with Ok _ => _ | _ => _ end] => destruct v
                     end; eexists; reflexivity ]).
      * apply confined_bind; [apply confined_expression_loop; intros; apply IHex |].
        intros acc. apply confined_ret.
      * apply confined_bind; [apply confined_str_loop; intros; apply IHex |].
        intros o. apply confined_ret.
      * apply confined_bind; [apply confined_str_loop; intros; apply IHex |].
        intros o. apply confined_ret.
Qed.

End WithShell.
End FootprintFacts.

Section IsolationFacts.
Import Eval Interp.

Lemma writes_only_unchanged (E V T O : loc -> Prop) σ σ' s0 :
  writes_only E V T O σ σ' -> Session.wf s0 σ ->
  ~ E (m_pEnv s0) -> ~ V (m_pVar s0) -> (forall l, m_pVtable s0 = Some l -> ~ T l) ->
  unchanged_for s0 σ σ'.
Proof.
  intros [He Ha Hv Ht _] (Henv & Harg & Hvar & lt & Hlt & Hvt) HE HV HT.
  unfold unchanged_for, Session.env_of, Session.var_of, Session.vtable_of, Session.arg_of.
  rewrite (proj2 (He _ Henv) HE), (proj2 (Hv _ Hvar) HV).
  rewrite (proj2 (Ha _ Harg) (fun F => F)). rewrite Hlt.
  rewrite (proj2 (Ht _ Hvt) (HT _ Hlt)). repeat split.
Qed.

Lemma confined_getvar vArgs : confined (Command.command_getvar_run vArgs).
Proof.
  unfold Command.command_getvar_run, Command.msg_error_var_param_number,
    Command.msg_error_variable_name.
  destruct vArgs as [|sVariable [|]];
    try (apply confined_bind; [apply confined_write_err | intros _; apply confined_ret]).
  destruct (negb (is_var sVariable)).
  - apply confined_bind; [apply confined_write_err | intros _; apply confined_ret].
  - apply confined_bind; [apply confined_read |]. intros sValue.
    apply confined_bind; [apply confined_write_out | intros _; apply confined_ret].
Qed.

Lemma confined_getenv vArgs : confined (Command.command_getenv_run vArgs).
Proof.
  unfold Command.command_getenv_run, Command.msg_error_var_param_number,
    Command.msg_error_variable_name.
  destruct vArgs as [|sVariable [|]];
    try (apply confined_bind; [apply confined_write_err | intros _; apply confined_ret]).
  destruct (negb (is_var sVariable)).
  - apply confined_bind; [apply confined_write_err | intros _; apply confined_ret].
  - apply confined_bind; [apply confined_read |]. intros sValue.
    apply confined_bind; [apply confined_write_out | intros _; apply confined_ret].
Qed.

Lemma confined_setvar vArgs : confined (Command.command_setvar_run vArgs).
Proof.
  unfold Command.command_setvar_run, Command.msg_error_var_param_number,
    Command.msg_error_variable_name.
  destruct vArgs as [|sVariable [|sValue [|]]];
    try (apply confined_bind; [apply confined_write_err | intros _; apply confined_ret]).
  destruct (negb (is_var sVariable)).
  - apply confined_bind; [apply confined_write_err | intros _; apply confined_ret].
  - apply confined_bind; [| intros _; apply confined_ret].
    apply confined_update. intros s σ. apply footprint_set_var.
Qed.

Lemma confined_setenv vArgs : confined (Command.command_setenv_run vArgs).
Proof.
  unfold Command.command_setenv_run, Command.msg_error_var_param_number,
    Command.msg_error_variable_name.
  destruct vArgs as [|sVariable [|sValue [|]]];
    try (apply confined_bind; [apply confined_write_err | intros _; apply confined_ret]).
  destruct (negb (is_var sVariable)).
  - apply confined_bind; [apply confined_write_err | intros _; apply confined_ret].
  - apply confined_bind; [| intros _; apply confined_ret].
    apply confined_update. intros s σ. apply footprint_set_env.
Qed.

(** The shell of the examples, with its four variable commands, is
    confined. *)
Lemma var_shell_confined :
  @confined_shell Examples.absent_collaborators Examples.var_shell.
Proof.
  split.
  - intros vArgs. apply confined_lift.
  - intros sName run. unfold get_command, Examples.var_shell, Examples.the_shell.
    cbn [m_mCommands].
    repeat (rewrite lookup_insert; case_decide;
            [intros [= <-]; first [apply confined_getvar | apply confined_setvar
                                  | apply confined_getenv | apply confined_setenv]
            | try discriminate]).
Qed.

Section WithShell.
Context `{Collaborators}.
Variable pShell : shell.

(** X23.  In a shell whose host commands write through the session they
    are given or on [std::cout], evaluating a node and expanding a node
    leave the session on the objects it held, destroy no object, change
    no argument vector, and change no environment, locals, function table
    or output stream that was there before, other than the session's own
    environment, locals, function table, output stream and error stream,
    and [std::cout], on which [fcall] prints. *)
Theorem evaluation_writes_through_the_session (fuel : nat) (n : evaluable)
    (pExpandable : expandable) (vTokens : list string) (bSplit : bool)
    (s : shell_session) (σ : store) :
  confined_shell pShell ->
  (let r := evaluate pShell fuel n s σ in
   same_objects s (session_after r) /\ footprint s σ (snd r))
  /\ (let r := expand pShell fuel pExpandable vTokens bSplit s σ in
      same_objects s (session_after r) /\ footprint s σ (snd r)).
Proof.
  intros Hshell. destruct (evaluate_expand_confined pShell Hshell fuel) as [Hev Hex].
  split.
  - apply Hev.
  - apply Hex.
Qed.

(** X24.  A subshell block [( ... )], a [$( ... )] and a back-quoted
    command change nothing that a session well formed before them reads:
    its environment, its locals, its function table and its arguments
    hold what they held, and the session object of the caller is the
    same afterwards.  The status of a subshell block that returns is the
    last result the session had before the block. *)
Theorem subshells_change_no_variable (fuel : nat) (nPos : Z)
    (m_vSubCommands : list (option evaluable)) (m_pCommand : evaluable)
    (vTokens : list string) (bSplit : bool) (s s0 : shell_session) (σ : store) :
  confined_shell pShell -> Session.wf s0 σ ->
  (let r := evaluate pShell fuel (shell_node_command_block_subshell nPos m_vSubCommands) s σ in
   unchanged_for s0 σ (snd r) /\ session_after r = s
   /\ forall nStatus, fst (fst r) = Ok nStatus -> nStatus = m_nLastCommandResult s)
  /\ (let r := expand pShell fuel (shell_node_dollar_command nPos m_pCommand)
                 vTokens bSplit s σ in
      unchanged_for s0 σ (snd r) /\ session_after r = s)
  /\ (let r := expand pShell fuel (shell_node_str_back nPos m_pCommand)
                 vTokens bSplit s σ in
      unchanged_for s0 σ (snd r) /\ session_after r = s).
Proof.
  intros Hshell Hwf. destruct fuel as [|fuel].
  { simpl. unfold lift, session_after. simpl.
    repeat split; try discriminate. }
  destruct (evaluate_expand_confined pShell Hshell fuel) as [Hev _].
  simpl. split; [| split].
  - destruct (subshell_loop_writes (evaluate pShell fuel) m_vSubCommands Hev s σ)
      as [Hs Hw].
    unfold bind, read, session_after in *.
    destruct (subshell_loop (evaluate pShell fuel) m_vSubCommands s σ) as [[o s1] σ1].
    simpl in Hs, Hw. subst s1.
    assert (Hu : unchanged_for s0 σ σ1).
    { eapply writes_only_unchanged; [exact Hw | exact Hwf | | |]; cbv beta; tauto. }
    destruct o; simpl; (split; [exact Hu | split; [reflexivity |]]);
      intros nStatus [= <-]. reflexivity.
  - destruct (substitute_writes (evaluate pShell fuel) m_pCommand m_oStdErr
                vTokens bSplit s σ Hev) as [Hs Hw].
    split; [| exact Hs].
    eapply writes_only_unchanged; [exact Hw | exact Hwf | | |]; cbv beta; tauto.
  - destruct (substitute_writes (evaluate pShell fuel) m_pCommand m_oStdOut
                vTokens bSplit s σ Hev) as [Hs Hw].
    split; [| exact Hs].
    eapply writes_only_unchanged; [exact Hw | exact Hwf | | |]; cbv beta; tauto.
Qed.

(** X25.  [fcall] changes no locals and no argument vector that were
    there before the call, whatever the function does, and up to the
    point where the call is undefined when the pointer it finds dangles:
    the locals and the arguments of a session that was well formed before
    the call hold what they held, and the caller's session is on the same
    objects.  When the table holds a pointer under the name, the call is
    undefined if the tree of that pointer has been freed; otherwise the
    body runs, as a node of its tree, in a session whose locals are a new,
    empty object, which is not the locals of a session that was there
    before. *)
Theorem function_call_keeps_the_callers_locals (fuel : nat) (vArgs : list string)
    (s s0 : shell_session) (σ : store) :
  confined_shell pShell -> Session.wf s0 σ ->
  let r := Command.command_fcall_run (evaluate pShell fuel) vArgs s σ in
  Session.var_of s0 (snd r) = Session.var_of s0 σ
  /\ Session.arg_of s0 (snd r) = Session.arg_of s0 σ
  /\ same_objects s (session_after r)
  /\ forall sName vRest t pFunc,
       vArgs = sName :: vRest ->
       Session.get_func s σ sName = Ok (Some (t, pFunc)) ->
       (t ∉ st_trees σ ->
        fst (fst r) = Undefined "call through a dangling function pointer")
       /\ (t ∈ st_trees σ ->
           exists pSession σ2,
             r = in_tree t (in_session pSession (evaluate pShell fuel pFunc)) s σ2
             /\ Session.var_of pSession σ2 = ∅
             /\ m_pVar pSession <> m_pVar s0
             /\ Session.var_of s0 σ2 = Session.var_of s0 σ).
Proof.
  intros Hshell (_ & Harg & Hvar & _) r.
  destruct (evaluate_expand_confined pShell Hshell fuel) as [Hev _].
  destruct (fcall_writes (evaluate pShell fuel) vArgs s σ Hev) as [Hs [_ Ha Hv _ _]].
  fold r in Hs, Ha, Hv.
  refine (conj _ (conj _ (conj _ _))).
  - unfold Session.var_of. rewrite (proj2 (Hv _ Hvar) (fun F => F)). reflexivity.
  - unfold Session.arg_of. rewrite (proj2 (Ha _ Harg) (fun F => F)). reflexivity.
  - exact Hs.
  - intros sName vRest t pFunc -> Hget.
    destruct (fcall_of_a_function (evaluate pShell fuel) sName vRest s σ t pFunc Hget)
      as [_ Hcall].
    cbv zeta in Hcall. fold r in Hcall. split.
    + intros Hdead. rewrite Hcall. rewrite bool_decide_eq_false_2 by exact Hdead.
      reflexivity.
    + intros Hlive. rewrite bool_decide_eq_true_2 in Hcall by exact Hlive.
      eexists _, _. split; [exact Hcall |].
      destruct (alloc_other (st_var σ) ∅ _ Hvar) as [Hne Hkeep].
      unfold Session.make_function_call, alloc, Session.derived, Session.var_of in *.
      cbn in *. rewrite lookup_insert_eq. rewrite Hkeep.
      refine (conj eq_refl (conj _ eq_refl)). congruence.
Qed.

End WithShell.
End IsolationFacts.

(** Witness of X23: a program that defines a function and calls it. *)
Lemma evaluation_writes_through_the_session_witness :
  @confined_shell Examples.absent_collaborators Examples.var_shell
  /\ (let r := @Interp.evaluate Examples.absent_collaborators Examples.var_shell 20
                 (Examples.parsed Examples.set_in_function)
                 Examples.session0 Examples.store_in_tree in
      same_objects Examples.session0 (session_after r)
      /\ footprint Examples.session0 Examples.store_in_tree (snd r)).
Proof.
  split; [exact var_shell_confined |].
  exact (proj1 (@evaluation_writes_through_the_session Examples.absent_collaborators
                  Examples.var_shell 20 (Examples.parsed Examples.set_in_function)
                  (shell_node_word 0 "a") [] true Examples.session0
                  Examples.store_in_tree var_shell_confined)).
Defined.

(** Witness of X24. *)
Lemma subshells_change_no_variable_witness :
  @confined_shell Examples.absent_collaborators Examples.var_shell
  /\ Session.wf Examples.session0 Examples.store0
  /\ unchanged_for Examples.session0 Examples.store0
       (snd (@Interp.evaluate Examples.absent_collaborators Examples.var_shell 5
               (shell_node_command_block_subshell 0 [Some (Examples.simple_command 1 "a")])
               Examples.session0 Examples.store0)).
Proof.
  assert (Hwf : Session.wf Examples.session0 Examples.store0)
    by exact (new_session_wf 0%nat 1%nat 2%nat Examples.host_store).
  split; [exact var_shell_confined | split; [exact Hwf |]].
  exact (proj1 (proj1 (@subshells_change_no_variable Examples.absent_collaborators
                         Examples.var_shell 5 0 [Some (Examples.simple_command 1 "a")]
                         (Examples.simple_command 1 "a") [] true
                         Examples.session0 Examples.session0 Examples.store0
                         var_shell_confined Hwf))).
Defined.

(** Witness of X25: the caller's local [x] holds [0]; the function [f],
    whose tree is alive, sets a local [x] to [1] and prints it. *)
Lemma function_call_keeps_the_callers_locals_witness :
  @confined_shell Examples.absent_collaborators Examples.var_shell
  /\ Session.wf Examples.session0 Examples.store_with_f
  /\ (let r := Command.command_fcall_run
                 (@Interp.evaluate Examples.absent_collaborators Examples.var_shell 20)
                 ["f"] Examples.session0 Examples.store_with_f in
      (fst (fst r) = Ok SHELL_SUCCESS /\ Examples.stdout_of r = "1")
      /\ Session.var_of Examples.session0 Examples.store_with_f !! "x" = Some "0"
      /\ Session.var_of Examples.session0 (snd r)
         = Session.var_of Examples.session0 Examples.store_with_f).
Proof.
  assert (Hwf : Session.wf Examples.session0 Examples.store_with_f).
  { refine (conj _ (conj _ (conj _ _))); vm_compute; eauto. }
  split; [exact var_shell_confined | split; [exact Hwf |]].
  refine (conj _ (conj _ _)).
  - split; vm_compute; reflexivity.
  - vm_compute. reflexivity.
  - exact (proj1 (@function_call_keeps_the_callers_locals Examples.absent_collaborators
                    Examples.var_shell 20 ["f"] Examples.session0 Examples.session0
                    Examples.store_with_f var_shell_confined Hwf)).
Defined.

(** ** A command substitution at work ([shell_node_expand.cpp],
    [command.cpp], [shell_tools.h]) *)

Section SubstitutionFacts.
Context `{Collaborators}.
Variable pShell : shell.
Import Eval Interp.

Lemma split_string_loop_newline oString : forall vStrings pending,
  split_string_loop vStrings pending (oString +:+ endl)
  = split_string_loop vStrings pending oString.
Proof.
  induction oString as [|c rest IH]; intros vStrings pending.
  - rewrite append_nil_l. unfold endl. cbn [split_string_loop].
    change (is_blank LF) with true. cbn [ofs_empty]. reflexivity.
  - rewrite append_cons. cbn [split_string_loop]. destruct (is_blank c); apply IH.
Qed.

Lemma expand_word_eq fuel nPos sText vTokens bSplit :
  expand pShell (S fuel) (shell_node_word nPos sText) vTokens bSplit
  = ret (vTokens ++ [sText]).
Proof. reflexivity. Qed.

Lemma expand_expression_eq fuel m_vChildren vTokens bSplit :
  expand pShell (S fuel) (shell_node_command_expression m_vChildren) vTokens bSplit
  = bind (expression_loop (fun pChild => expand pShell fuel pChild [] true) m_vChildren
            (vTokens, EmptyString)) (fun acc => ret (glue_finish acc)).
Proof. reflexivity. Qed.

Lemma expression_loop_words fuel (vWords : list (Z * string)) : forall vTokens s σ,
  expression_loop (fun pChild => expand pShell (S fuel) pChild [] true)
    (flat_map (fun w => [None; Some (shell_node_word (fst w) (snd w))]) vWords)
    (vTokens, EmptyString) s σ
  = (Ok (vTokens ++ map snd vWords, EmptyString), s, σ).
Proof.
  induction vWords as [|[p w] rest IH]; intros vTokens s σ.
  - cbn [flat_map expression_loop map]. rewrite app_nil_r. reflexivity.
  - cbn [flat_map app expression_loop glue_step ofs_empty negb fst snd map].
    rewrite expand_word_eq. unfold bind, ret.
    cbn [glue_step app removelast last ofs_write]. rewrite append_nil_l.
    rewrite app_nil_r. rewrite IH. rewrite <- app_assoc. reflexivity.
Qed.

Lemma words_expression_expands fuel nPos sName vWords vTokens bSplit s σ :
  expand pShell (S (S fuel)) (words_expression nPos sName vWords) vTokens bSplit s σ
  = (Ok (vTokens ++ sName :: map snd vWords), s, σ).
Proof.
  unfold words_expression. rewrite expand_expression_eq. unfold bind at 1.
  cbn [expression_loop]. rewrite expand_word_eq. unfold bind at 1. unfold ret at 1.
  cbn [glue_step app removelast last ofs_write]. rewrite append_nil_l, app_nil_r.
  rewrite expression_loop_words. unfold ret. cbn [glue_finish ofs_empty negb].
  rewrite <- app_assoc. reflexivity.
Qed.

Lemma evaluate_command_eq fuel m_pCommand :
  evaluate pShell (S fuel) (shell_node_command m_pCommand)
  = bind (expand pShell fuel m_pCommand [] true) (fun vTokens =>
    match vTokens with
    | [] => lift (Undefined "vTokens[0] on an empty vector")
    | sName :: vArgs =>
        match get_command pShell sName with
        | None =>
            bind (msg_error_command_not_found sName) (fun _ =>
            ret SHELL_ERROR_COMMAND_NOT_FOUND)
        | Some pCommand =>
            bind (run_normalized (command_run (evaluate pShell fuel) pCommand vArgs))
              (fun nStatus =>
            bind (update_session (fun s => Session.set_last_command_result s nStatus))
              (fun _ => ret nStatus))
        end
    end).
Proof. reflexivity. Qed.

(** [echo] as a command of a program, on words: what it writes. *)
Lemma evaluate_echo_words fuel nPos (vWords : list (Z * string)) s σ :
  get_command pShell "echo" = Some command_echo ->
  head (map snd vWords) <> Some "-n" ->
  evaluate pShell (S (S (S fuel)))
    (shell_node_command (words_expression nPos "echo" vWords)) s σ
  = (Ok SHELL_SUCCESS, Session.set_last_command_result s SHELL_SUCCESS,
     ostream_write (m_oStdOut s) (concat_vector EmptyString (map snd vWords) +:+ endl) σ).
Proof.
  intros Hecho Hn. rewrite evaluate_command_eq.
  erewrite bind_ok by apply words_expression_expands. cbn [app]. rewrite Hecho.
  unfold bind at 1. unfold run_normalized. cbn [command_run].
  unfold Command.command_echo_run.
  assert (Hopt : match map snd vWords with
                 | [] => (true, 0%nat)
                 | first :: _ =>
                     if (first =? "-n")%string then (false, 1%nat) else (true, 0%nat)
                 end = (true, 0%nat)).
  { destruct (map snd vWords) as [|first rest]; [reflexivity |].
    destruct (String.eqb_spec first "-n") as [->|]; [| reflexivity].
    destruct Hn. reflexivity. }
  rewrite Hopt. cbn [drop]. unfold bind, write_out, update, ret, update_session.
  reflexivity.
Qed.

Lemma evaluate_block_eq fuel nPos m_vSubCommands :
  evaluate pShell (S fuel) (shell_node_command_block nPos m_vSubCommands)
  = bind (block_loop (evaluate pShell fuel) m_vSubCommands) (fun _ =>
    read (fun s _ => Session.get_last_command_result s)).
Proof. reflexivity. Qed.

Lemma evaluate_echo_block fuel nBlock nPos (vWords : list (Z * string)) s σ :
  get_command pShell "echo" = Some command_echo ->
  head (map snd vWords) <> Some "-n" ->
  evaluate pShell (S (S (S (S fuel))))
    (shell_node_command_block nBlock
       [Some (shell_node_command (words_expression nPos "echo" vWords))]) s σ
  = (Ok SHELL_SUCCESS, Session.set_last_command_result s SHELL_SUCCESS,
     ostream_write (m_oStdOut s) (concat_vector EmptyString (map snd vWords) +:+ endl) σ).
Proof.
  intros Hecho Hn. rewrite evaluate_block_eq. cbn [block_loop].
  unfold bind at 1. unfold bind at 1.
  rewrite (evaluate_echo_words fuel nPos vWords s σ Hecho Hn). reflexivity.
Qed.

Lemma split_string_loop_joined vFields vStrings :
  Forall (fun w => is_field w = true) vFields ->
  split_string_loop vStrings EmptyString (concat_vector EmptyString vFields)
  = vStrings ++ vFields.
Proof.
  intros Hall. destruct vFields as [|w vFields]; simpl.
  - rewrite app_nil_r. reflexivity.
  - inversion Hall as [|? ? Hw Hall']; subst.
    unfold is_field in Hw. apply andb_true_iff in Hw as [Hne Hw].
    rewrite concat_vector_tail_app. unfold ofs_write. simpl.
    rewrite split_string_loop_field by exact Hw. simpl.
    apply split_string_loop_tail; assumption.
Qed.

Lemma make_subsession_ostream s oStdIn oStdOut oStdErr σ sub σ' :
  Session.make_subsession s oStdIn oStdOut oStdErr σ = Ok (sub, σ') ->
  st_ostream σ' = st_ostream σ.
Proof.
  unfold Session.make_subsession.
  destruct (alloc (st_env σ) (Session.env_of s σ)) as [pEnv envs].
  destruct (alloc (st_var σ) (Session.var_of s σ)) as [pVar vars].
  destruct (Session.vtable_of s σ) as [t|]; [| discriminate].
  destruct (alloc (st_vtable σ) t) as [pVtable vtables].
  intros [= <- <-]. reflexivity.
Qed.

(** A command substitution whose command is [echo] on words. *)
Lemma substitute_echo_words fuel nBlock nPos (vWords : list (Z * string))
    (oStdErr : shell_session -> loc) s σ :
  Session.wf s σ ->
  get_command pShell "echo" = Some command_echo ->
  head (map snd vWords) <> Some "-n" ->
  exists σ',
    unchanged_for s σ σ'
    /\ forall vTokens bSplit,
         substitute (evaluate pShell (S (S (S (S fuel)))))
           (shell_node_command_block nBlock
              [Some (shell_node_command (words_expression nPos "echo" vWords))])
           oStdErr vTokens bSplit s σ
         = (Ok (push_value vTokens bSplit
                  (concat_vector EmptyString (map snd vWords) +:+ endl)), s, σ').
Proof.
  intros Hwf Hecho Hn. unfold substitute.
  unfold bind at 1. unfold new_ostringstream.
  set (l := fresh ({[std_cout]} ∪ dom (st_ostream σ))).
  set (outs := <[l := EmptyString]> (st_ostream σ)).
  assert (Hl : outs !! l = Some EmptyString) by apply lookup_insert_eq.
  set (σ0 := set_st_ostream σ outs).
  assert (Hwf0 : Session.wf s σ0) by exact Hwf.
  destruct (make_subsession_spec s σ0 (m_oStdIn s) l (oStdErr s) Hwf0)
    as (sub & σ1 & Hsub & _ & _ & _ & _ & (_ & Hout & _) & Hsame & _).
  pose proof (make_subsession_ostream _ _ _ _ _ _ _ Hsub) as Hos.
  exists (ostream_write l (concat_vector EmptyString (map snd vWords) +:+ endl) σ1).
  split; [exact Hsame |].
  intros vTokens bSplit.
  unfold bind at 1. unfold make_subsession. rewrite Hsub.
  unfold in_session. rewrite (evaluate_echo_block fuel nBlock nPos vWords sub σ1 Hecho Hn).
  rewrite Hout. unfold ostream_str, ostream_write. cbn [st_ostream set_st_ostream].
  rewrite lookup_insert_eq. rewrite Hos. change (st_ostream σ0) with outs.
  rewrite Hl. cbn [default]. rewrite append_nil_l. reflexivity.
Qed.

Lemma expand_dollar_command_eq fuel nPos m_pCommand vTokens bSplit :
  expand pShell (S fuel) (shell_node_dollar_command nPos m_pCommand) vTokens bSplit
  = substitute (evaluate pShell fuel) m_pCommand m_oStdErr vTokens bSplit.
Proof. reflexivity. Qed.

Lemma expand_str_double_eq fuel nPos m_vChildren vTokens bSplit :
  expand pShell (S fuel) (shell_node_str_double nPos m_vChildren) vTokens bSplit
  = bind (str_loop (fun pChild => expand pShell fuel pChild [] false) m_vChildren EmptyString)
      (fun oOstream => ret (vTokens ++ [oOstream])).
Proof. reflexivity. Qed.

(** X26.  [$(echo w1 ... wn)], for words without blanks of which the
    first is not [-n]: expanded with splitting it appends the words
    [w1 ... wn], the end of line that [echo] wrote being dropped;
    expanded without splitting, as inside double quotes, it appends one
    word, the words joined by single spaces followed by that end of line.
    Nothing the session reads has changed. *)
Theorem substitution_of_echo (fuel : nat) (nPos nBlock nEcho nQuote : Z)
    (vWords : list (Z * string)) (s : shell_session) (σ : store) :
  Session.wf s σ ->
  get_command pShell "echo" = Some command_echo ->
  let vArgs := map snd vWords in
  Forall (fun w => is_field w = true) vArgs ->
  head vArgs <> Some "-n" ->
  let pSubstitution :=
    shell_node_dollar_command nPos
      (shell_node_command_block nBlock
         [Some (shell_node_command (words_expression nEcho "echo" vWords))]) in
  let sOutput := concat_vector EmptyString vArgs +:+ endl in
  exists σ',
    unchanged_for s σ σ'
    /\ forall vTokens,
         expand pShell (5 + fuel) pSubstitution vTokens true s σ
         = (Ok (vTokens ++ vArgs), s, σ')
         /\ expand pShell (5 + fuel) pSubstitution vTokens false s σ
            = (Ok (vTokens ++ [sOutput]), s, σ')
         /\ forall bSplit,
              expand pShell (6 + fuel) (shell_node_str_double nQuote [pSubstitution])
                vTokens bSplit s σ
              = (Ok (vTokens ++ [sOutput]), s, σ').
Proof.
  intros Hwf Hecho vArgs Hfields Hn pSubstitution sOutput.
  destruct (substitute_echo_words fuel nBlock nEcho vWords m_oStdErr s σ Hwf Hecho Hn)
    as (σ' & Hsame & Hsub).
  exists σ'. split; [exact Hsame |]. intros vTokens.
  change (5 + fuel)%nat with (S (S (S (S (S fuel))))).
  change (6 + fuel)%nat with (S (S (S (S (S (S fuel)))))).
  unfold pSubstitution. split; [| split].
  - rewrite expand_dollar_command_eq, Hsub. unfold push_value, split_string.
    rewrite split_string_loop_newline, split_string_loop_joined by exact Hfields.
    reflexivity.
  - rewrite expand_dollar_command_eq, Hsub. reflexivity.
  - intros bSplit. rewrite expand_str_double_eq. cbn [str_loop].
    unfold bind at 1. unfold bind at 1.
    rewrite expand_dollar_command_eq, Hsub. unfold push_value.
    cbn [app fold_left ofs_write]. rewrite append_nil_l. reflexivity.
Qed.

End SubstitutionFacts.

(** Witness of X26. *)
Lemma substitution_of_echo_witness :
  Session.wf Examples.session0 Examples.store0
  /\ get_command Examples.the_shell "echo" = Some command_echo
  /\ Forall (fun w => is_field w = true) (map snd [(7, "a"); (10, "bc")])
  /\ head (map snd [(7, "a"); (10, "bc")]) <> Some "-n"
  /\ Parser.parse (mk_ifakestream "$(echo a  bc)" 0)
     = Ok (shell_node_command_block 0
             [Some (shell_node_command
                      (shell_node_command_expression
                         [Some (shell_node_dollar_command 1
                                  (shell_node_command_block 2
                                     [Some (shell_node_command
                                              (words_expression 2 "echo"
                                                 [(7, "a"); (10, "bc")]))]))]))])
  /\ exists σ',
       @Interp.expand Examples.absent_collaborators Examples.the_shell 5
         (shell_node_dollar_command 1
            (shell_node_command_block 2
               [Some (shell_node_command
                        (words_expression 2 "echo" [(7, "a"); (10, "bc")]))]))
         [] true Examples.session0 Examples.store0
       = (Ok ["a"; "bc"], Examples.session0, σ').
Proof.
  assert (Hwf : Session.wf Examples.session0 Examples.store0)
    by exact (new_session_wf 0%nat 1%nat 2%nat Examples.host_store).
  assert (Hecho : get_command Examples.the_shell "echo" = Some command_echo)
    by reflexivity.
  assert (Hfields : Forall (fun w => is_field w = true) (map snd [(7, "a"); (10, "bc")]))
    by (repeat constructor).
  assert (Hn : head (map snd [(7, "a"); (10, "bc")]) <> Some "-n") by discriminate.
  split; [exact Hwf | split; [exact Hecho | split; [exact Hfields | split; [exact Hn |]]]].
  split; [vm_compute; reflexivity |].
  destruct (@substitution_of_echo Examples.absent_collaborators Examples.the_shell
              0 1 2 2 0 [(7, "a"); (10, "bc")] Examples.session0 Examples.store0
              Hwf Hecho Hfields Hn) as (σ' & _ & Hex).
  exists σ'. exact (proj1 (Hex [])).
Defined.

(** ** Words and blanks in the tokenizer ([shell_tokenizer.cpp]) *)

Section TokenizerFacts.
Import Fakestream Tokenizer.

Lemma get_inside pre c rest :
  str_size (pre +:+ String c rest) < size_t_mod - 1 ->
  get (mk_ifakestream (pre +:+ String c rest) (str_size pre))
  = (char_value c, mk_ifakestream (pre +:+ String c rest) (str_size pre + 1)).
Proof.
  intros Hsize. unfold get, peek, size. cbn [fs_pData fs_nPos].
  pose proof (str_size_nonneg pre). pose proof (str_size_nonneg rest).
  rewrite str_size_app, str_size_String in *.
  destruct (Z.ltb_spec (str_size pre) (str_size pre + (str_size rest + 1))); [| lia].
  replace (str_size pre) with (str_size pre + 0) at 1 by lia.
  rewrite str_at_app by lia. cbn [str_at]. rewrite Z.eqb_refl.
  rewrite size_t_add_exact by lia. reflexivity.
Qed.

Lemma get_at_end text :
  str_size text < size_t_mod - 1 ->
  get (mk_ifakestream text (str_size text))
  = (EOF_VALUE, mk_ifakestream text (str_size text + 1)).
Proof.
  intros Hsize. unfold get, peek, size. cbn [fs_pData fs_nPos].
  pose proof (str_size_nonneg text).
  rewrite Z.ltb_irrefl. rewrite size_t_add_exact by lia. reflexivity.
Qed.

(** One turn of the loop of [tokens] on a byte of a word or of a run of
    blanks, and at the end of the text. *)
Lemma tokens_loop_word fuel vTokens oStdIn nStartPos nBegin cChar :
  get_token_type cChar = TK_WORD -> cChar <> EOF_VALUE -> cChar <> 0 ->
  tokens_loop (S fuel) vTokens oStdIn 0 nStartPos nBegin cChar
  = (let '(cNext, oNext) := get oStdIn in
     tokens_loop fuel (add_word vTokens oStdIn nBegin) oNext 0 nStartPos nBegin cNext).
Proof.
  intros Htype Heof Hzero. cbn [tokens_loop].
  destruct (Z.eqb_spec cChar EOF_VALUE) as [|_]; [contradiction |].
  destruct (Z.eqb_spec cChar 0) as [|_]; [contradiction |].
  cbn [negb andb]. rewrite Htype. reflexivity.
Qed.

Lemma tokens_loop_space fuel vTokens oStdIn nStartPos nBegin cChar :
  get_token_type cChar = TK_SPACE -> cChar <> EOF_VALUE -> cChar <> 0 ->
  tokens_loop (S fuel) vTokens oStdIn 0 nStartPos nBegin cChar
  = (let '(cNext, oNext) := get oStdIn in
     tokens_loop fuel (add_space vTokens oStdIn) oNext 0 nStartPos nBegin cNext).
Proof.
  intros Htype Heof Hzero. cbn [tokens_loop].
  destruct (Z.eqb_spec cChar EOF_VALUE) as [|_]; [contradiction |].
  destruct (Z.eqb_spec cChar 0) as [|_]; [contradiction |].
  cbn [negb andb]. rewrite Htype. reflexivity.
Qed.

Lemma tokens_loop_end fuel vTokens oStdIn nStartPos nBegin cChar :
  (cChar =? EOF_VALUE) || (cChar =? 0) = true ->
  tokens_loop (S fuel) vTokens oStdIn 0 nStartPos nBegin cChar = Ok (vTokens, oStdIn).
Proof.
  intros Hstop. cbn [tokens_loop].
  destruct (cChar =? EOF_VALUE); [reflexivity |].
  cbn [orb] in Hstop. rewrite Hstop. reflexivity.
Qed.

Lemma tokens_loop_piece_byte fuel nType vTokens oStdIn c :
  nType = TK_WORD \/ nType = TK_SPACE ->
  is_byte_of nType c = true ->
  tokens_loop (S fuel) vTokens oStdIn 0 0 0 (char_value c)
  = (let '(cNext, oNext) := get oStdIn in
     tokens_loop fuel (add_piece_byte nType vTokens oStdIn) oNext 0 0 0 cNext).
Proof.
  intros Hkind Hc. unfold is_byte_of in Hc.
  apply andb_true_iff in Hc as [Hc Hzero]. apply andb_true_iff in Hc as [Htype Heof].
  apply bool_decide_eq_true in Htype.
  apply negb_true_iff, Z.eqb_neq in Heof. apply negb_true_iff, Z.eqb_neq in Hzero.
  destruct Hkind as [-> | ->].
  - apply tokens_loop_word; assumption.
  - apply tokens_loop_space; assumption.
Qed.

Lemma back_is_snoc vTokens t nType :
  back_is (vTokens ++ [t]) nType = bool_decide (m_nType t = nType).
Proof. unfold back_is. rewrite last_snoc. reflexivity. Qed.

Lemma extend_back_snoc vTokens t n :
  extend_back (vTokens ++ [t]) n
  = vTokens ++ [mk_token (m_nType t) (tk_nPos t)
                  (mk_view (sv_data (m_sTokenText t))
                     (size_t_add (sv_length (m_sTokenText t)) n))].
Proof. unfold extend_back. rewrite reverse_snoc, reverse_involutive. reflexivity. Qed.

(** The first byte of a piece starts a token. *)
Lemma add_piece_byte_first nType vTokens text j :
  nType = TK_WORD \/ nType = TK_SPACE ->
  back_is vTokens nType = false ->
  0 <= j < str_size text -> str_size text < size_t_mod - 1 ->
  add_piece_byte nType vTokens (mk_ifakestream text (j + 1))
  = vTokens ++ [mk_token nType j (mk_view j 1)].
Proof.
  intros Hkind Hback Hj Hsize.
  assert (Hpos : size_t_sub (tell (mk_ifakestream text (j + 1))) 1 = j).
  { unfold tell. cbn [fs_nPos]. rewrite size_t_sub_exact by lia. lia. }
  assert (Hview : sub_view (mk_ifakestream text (j + 1)) j 1 = mk_view j 1).
  { unfold sub_view, size. cbn [fs_pData]. rewrite size_t_add_exact by lia.
    destruct (Z.ltb_spec (str_size text) (j + 1)); [lia | reflexivity]. }
  destruct Hkind as [-> | ->]; unfold add_piece_byte, add_word, add_space, emplace_back;
    rewrite Hpos, Hview, Hback.
  - rewrite andb_false_r. reflexivity.
  - reflexivity.
Qed.

(** A further byte of the piece makes its token one byte longer. *)
Lemma add_piece_byte_more nType vTokens oStdIn i k :
  nType = TK_WORD \/ nType = TK_SPACE ->
  0 <= k -> k + 1 < size_t_mod ->
  add_piece_byte nType (vTokens ++ [mk_token nType i (mk_view i k)]) oStdIn
  = vTokens ++ [mk_token nType i (mk_view i (k + 1))].
Proof.
  intros Hkind Hk Hk1.
  assert (Hn : (0 <? vsize (vTokens ++ [mk_token nType i (mk_view i k)])) = true).
  { unfold vsize. rewrite length_app. cbn [List.length]. apply Z.ltb_lt. lia. }
  destruct Hkind as [-> | ->]; unfold add_piece_byte, add_word, add_space;
    rewrite ?Hn, back_is_snoc; cbn [m_nType];
    (rewrite bool_decide_eq_true_2 by reflexivity); cbn [andb negb];
    rewrite extend_back_snoc; cbn [m_nType tk_nPos m_sTokenText sv_data sv_length];
    (rewrite size_t_add_exact by lia); reflexivity.
Qed.

(** The bytes of a piece after its first one. *)
Lemma loop_from_piece nType (more : string) : forall fuel vTokens pre rest i k,
  nType = TK_WORD \/ nType = TK_SPACE ->
  str_forall (is_byte_of nType) more = true ->
  str_size (pre +:+ (more +:+ rest)) < size_t_mod - 1 ->
  0 <= k <= str_size pre ->
  loop_from (String.length more + fuel)
    (vTokens ++ [mk_token nType i (mk_view i k)]) (pre +:+ (more +:+ rest)) (str_size pre)
  = loop_from fuel
      (vTokens ++ [mk_token nType i (mk_view i (k + str_size more))])
      (pre +:+ (more +:+ rest)) (str_size pre + str_size more).
Proof.
  induction more as [|c more IH]; intros fuel vTokens pre rest i k Hkind Hall Hsize Hk.
  - cbn [String.length Nat.add]. change (str_size EmptyString) with 0.
    rewrite !Z.add_0_r. reflexivity.
  - cbn [str_forall] in Hall. apply andb_true_iff in Hall as [Hc Hall].
    rewrite append_cons in *. cbn [String.length Nat.add].
    unfold loop_from at 1. rewrite get_inside by exact Hsize.
    rewrite (tokens_loop_piece_byte _ nType) by assumption.
    pose proof (str_size_nonneg pre). pose proof (str_size_nonneg more).
    pose proof (str_size_nonneg rest).
    assert (Hlen : str_size (pre +:+ String c (more +:+ rest))
                   = str_size pre + 1 + str_size more + str_size rest).
    { rewrite str_size_app, str_size_String, str_size_app. lia. }
    rewrite add_piece_byte_more by (try assumption; lia).
    assert (Hpre : pre +:+ String c (more +:+ rest)
                   = (pre +:+ String c EmptyString) +:+ (more +:+ rest)).
    { rewrite append_assoc'. reflexivity. }
    assert (Hpsize : str_size (pre +:+ String c EmptyString) = str_size pre + 1).
    { rewrite str_size_app. reflexivity. }
    fold (loop_from (String.length more + fuel)
            (vTokens ++ [mk_token nType i (mk_view i (k + 1))])
            (pre +:+ String c (more +:+ rest)) (str_size pre + 1)).
    rewrite Hpre, <- Hpsize.
    rewrite IH; try assumption.
    + rewrite Hpsize, str_size_String.
      replace (k + 1 + str_size more) with (k + (str_size more + 1)) by lia.
      replace (str_size pre + 1 + str_size more)
        with (str_size pre + (str_size more + 1)) by lia.
      reflexivity.
    + rewrite <- Hpre. exact Hsize.
    + lia.
Qed.

Lemma str_length_app a b :
  String.length (a +:+ b) = (String.length a + String.length b)%nat.
Proof.
  induction a as [|c a IH]; [reflexivity |].
  rewrite append_cons. cbn [String.length]. rewrite IH. reflexivity.
Qed.

Lemma pieces_text_cons p ps : pieces_text (p :: ps) = snd p +:+ pieces_text ps.
Proof. reflexivity. Qed.

(** The loop on the pieces that are left. *)
Lemma loop_from_pieces ps tail : forall fuel vTokens pre,
  Forall (fun p => is_piece p = true) ps -> alternate ps = true ->
  stops tail = true ->
  match ps with p :: _ => back_is vTokens (fst p) = false | [] => True end ->
  str_size (pre +:+ (pieces_text ps +:+ tail)) < size_t_mod - 1 ->
  loop_from (S (String.length (pieces_text ps) + fuel)) vTokens
    (pre +:+ (pieces_text ps +:+ tail)) (str_size pre)
  = Ok (vTokens ++ piece_tokens (str_size pre) ps,
        mk_ifakestream (pre +:+ (pieces_text ps +:+ tail))
          (str_size pre + str_size (pieces_text ps) + 1)).
Proof.
  induction ps as [|[nType t] ps IH]; intros fuel vTokens pre Hall Halt Hstop Hback Hsize.
  - unfold pieces_text, str_concat in *. cbn [map fold_right] in *.
    rewrite append_nil_l in *. change (str_size EmptyString) with 0. rewrite Z.add_0_r.
    cbn [piece_tokens]. rewrite app_nil_r. unfold loop_from.
    destruct tail as [|c tail].
    + rewrite append_nil_r in *. rewrite get_at_end by exact Hsize.
      apply tokens_loop_end. reflexivity.
    + rewrite get_inside by exact Hsize. apply tokens_loop_end. exact Hstop.
  - inversion Hall as [|? ? Hp Hall']; subst. unfold is_piece in Hp. cbn [fst snd] in Hp, Hback.
    apply andb_true_iff in Hp as [Hp Hbytes]. apply andb_true_iff in Hp as [Hne Hkind].
    assert (Hk : nType = TK_WORD \/ nType = TK_SPACE).
    { apply orb_true_iff in Hkind as [Hk | Hk]; apply bool_decide_eq_true in Hk; auto. }
    destruct t as [|c more]; [discriminate |].
    cbn [str_forall] in Hbytes. apply andb_true_iff in Hbytes as [Hc Hmore].
    rewrite pieces_text_cons in *. cbn [snd] in *. rewrite !append_cons in *.
    rewrite append_assoc' in *.
    set (rest := pieces_text ps +:+ tail) in *.
    pose proof (str_size_nonneg pre). pose proof (str_size_nonneg more).
    pose proof (str_size_nonneg rest). pose proof (str_size_nonneg (pieces_text ps)).
    assert (Hlen : str_size (pre +:+ String c (more +:+ rest))
                   = str_size pre + 1 + str_size more + str_size rest).
    { rewrite str_size_app, str_size_String, str_size_app. lia. }
    cbn [String.length].
    unfold loop_from at 1. rewrite get_inside by exact Hsize.
    rewrite (tokens_loop_piece_byte _ nType) by assumption.
    rewrite add_piece_byte_first by (try assumption; lia).
    assert (Hpre : pre +:+ String c (more +:+ rest)
                   = (pre +:+ String c EmptyString) +:+ (more +:+ rest)).
    { rewrite append_assoc'. reflexivity. }
    assert (Hpsize : str_size (pre +:+ String c EmptyString) = str_size pre + 1).
    { rewrite str_size_app. reflexivity. }
    match goal with
    | |- (let '(cNext, oNext) := get ?o in tokens_loop ?f ?v oNext 0 0 0 cNext) = ?r =>
        change (loop_from f v (pre +:+ String c (more +:+ rest)) (str_size pre + 1) = r)
    end.
    rewrite Hpre, <- Hpsize.
    replace (S (String.length (more +:+ pieces_text ps)) + fuel)%nat
      with (String.length more + S (String.length (pieces_text ps) + fuel))%nat
      by (rewrite str_length_app; lia).
    rewrite (loop_from_piece nType more) by (try assumption; rewrite <- ?Hpre; lia || exact Hsize).
    assert (Hpre2 : (pre +:+ String c EmptyString) +:+ (more +:+ rest)
                    = (pre +:+ String c more) +:+ rest).
    { rewrite !append_assoc'. reflexivity. }
    assert (Hpsize2 : str_size (pre +:+ String c more) = str_size pre + 1 + str_size more).
    { rewrite str_size_app, str_size_String. lia. }
    rewrite Hpre2. rewrite Hpsize, <- Hpsize2. subst rest.
    rewrite IH.
    + cbn [piece_tokens fst snd]. rewrite <- app_assoc. cbn [app].
      rewrite Hpsize2, !str_size_String, str_size_app.
      replace (1 + str_size more) with (str_size more + 1) by lia.
      replace (str_size pre + 1 + str_size more)
        with (str_size pre + (str_size more + 1)) by lia.
      replace (str_size pre + (str_size more + str_size (pieces_text ps) + 1) + 1)
        with (str_size pre + (str_size more + 1) + str_size (pieces_text ps) + 1) by lia.
      reflexivity.
    + exact Hall'.
    + cbn [alternate] in Halt. destruct ps; [reflexivity |].
      apply andb_true_iff in Halt as [_ Halt]. exact Halt.
    + exact Hstop.
    + destruct ps as [|q ps']; [exact I |]. cbn [alternate] in Halt.
      apply andb_true_iff in Halt as [Hdiff _]. cbn [fst] in Hdiff.
      rewrite back_is_snoc. cbn [m_nType]. apply negb_true_iff in Hdiff. exact Hdiff.
    + rewrite <- Hpre2, <- Hpre. exact Hsize.
Qed.

(** X27.  On a text made of words and runs of blanks that alternate,
    [tokens] returns one [TK_WORD] token for each word and one [TK_SPACE]
    token for each run of blanks, each with the position of its first
    byte and its length in bytes.  A byte 0 or a byte 255 after them ends
    the reading as the end of the text does: what follows it gives no
    token. *)
Theorem tokens_of_words_and_blanks (ps : list (shell_token_type * string))
    (tail : string) :
  Forall (fun p => is_piece p = true) ps -> alternate ps = true ->
  stops tail = true ->
  str_size (pieces_text ps +:+ tail) < size_t_mod - 1 ->
  tokens (mk_ifakestream (pieces_text ps +:+ tail) 0)
  = Ok (piece_tokens 0 ps,
        mk_ifakestream (pieces_text ps +:+ tail) (str_size (pieces_text ps) + 1)).
Proof.
  intros Hall Halt Hstop Hsize. unfold tokens, tokens_fuel. cbn [fs_pData].
  replace (2 * String.length (pieces_text ps +:+ tail) + 4)%nat
    with (S (S (String.length (pieces_text ps)
                + (String.length (pieces_text ps) + 2 * String.length tail + 2))))
    by (rewrite str_length_app; lia).
  cbn [tokens_delimited]. unfold tell, vsize. cbn [fs_nPos List.length].
  change (Z.of_nat 0) with 0.
  pose proof (loop_from_pieces ps tail
                (String.length (pieces_text ps) + 2 * String.length tail + 2)
                [] EmptyString Hall Halt Hstop) as Hloop.
  rewrite append_nil_l in Hloop. change (str_size EmptyString) with 0 in Hloop.
  rewrite Z.add_0_l in Hloop.
  apply Hloop; [| exact Hsize].
  destruct ps; [exact I | reflexivity].
Qed.

End TokenizerFacts.

(** Witness of X27. *)
Lemma tokens_of_words_and_blanks_witness :
  Forall (fun p => is_piece p = true) [(TK_WORD, "echo"); (TK_SPACE, "  "); (TK_WORD, "a")]
  /\ alternate [(TK_WORD, "echo"); (TK_SPACE, "  "); (TK_WORD, "a")] = true
  /\ stops (String (ascii_of_nat 0) "b") = true
  /\ str_size (pieces_text [(TK_WORD, "echo"); (TK_SPACE, "  "); (TK_WORD, "a")]
               +:+ String (ascii_of_nat 0) "b") < size_t_mod - 1
  /\ Tokenizer.tokens
       (mk_ifakestream
          (pieces_text [(TK_WORD, "echo"); (TK_SPACE, "  "); (TK_WORD, "a")]
           +:+ String (ascii_of_nat 0) "b") 0)
     = Ok ([mk_token TK_WORD 0 (mk_view 0 4); mk_token TK_SPACE 4 (mk_view 4 2);
            mk_token TK_WORD 6 (mk_view 6 1)],
           mk_ifakestream
             (pieces_text [(TK_WORD, "echo"); (TK_SPACE, "  "); (TK_WORD, "a")]
              +:+ String (ascii_of_nat 0) "b") 8).
Proof.
  assert (H1 : Forall (fun p => is_piece p = true)
                 [(TK_WORD, "echo"); (TK_SPACE, "  "); (TK_WORD, "a")])
    by (repeat constructor).
  assert (H2 : alternate [(TK_WORD, "echo"); (TK_SPACE, "  "); (TK_WORD, "a")] = true)
    by reflexivity.
  assert (H3 : stops (String (ascii_of_nat 0) "b") = true) by reflexivity.
  assert (H4 : str_size (pieces_text [(TK_WORD, "echo"); (TK_SPACE, "  "); (TK_WORD, "a")]
                         +:+ String (ascii_of_nat 0) "b") < size_t_mod - 1)
    by (vm_compute; reflexivity).
  split; [exact H1 | split; [exact H2 | split; [exact H3 | split; [exact H4 |]]]].
  exact (tokens_of_words_and_blanks
           [(TK_WORD, "echo"); (TK_SPACE, "  "); (TK_WORD, "a")]
           (String (ascii_of_nat 0) "b") H1 H2 H3 H4).
Defined.

(** ** The empty program ([shell_parser.cpp], [shell.cpp]) *)

Lemma parse_block_one_space text p n :
  fst (Parser.parse_block 80 TK_EOF
         (mk_parser (mk_ifakestream text p)
            (mk_holder [mk_token TK_SPACE 0 (mk_view 0 n)] (-1)) 0))
  = Ok None.
Proof. vm_compute. reflexivity. Qed.

Section BlankFacts.
Context `{Collaborators}.
Variable pShell : shell.
Import Eval Interp.

(** The tokens of a text of blanks: one [TK_SPACE] token. *)
Lemma tokens_of_blanks c more :
  str_forall (is_byte_of TK_SPACE) (String c more) = true ->
  str_size (String c more) < size_t_mod - 1 ->
  Tokenizer.tokens (mk_ifakestream (String c more) 0)
  = Ok ([mk_token TK_SPACE 0 (mk_view 0 (str_size (String c more)))],
        mk_ifakestream (String c more) (str_size (String c more) + 1)).
Proof.
  intros Hblank Hsize. set (text := String c more) in *.
  assert (Htext : pieces_text [(TK_SPACE, text)] +:+ EmptyString = text).
  { unfold pieces_text, str_concat. cbn [map fold_right snd]. rewrite !append_nil_r.
    reflexivity. }
  assert (Hpieces : str_size (pieces_text [(TK_SPACE, text)]) = str_size text).
  { unfold pieces_text, str_concat. cbn [map fold_right snd]. rewrite append_nil_r.
    reflexivity. }
  assert (Hlen : String.length (pieces_text [(TK_SPACE, text)]) = String.length text).
  { unfold pieces_text, str_concat. cbn [map fold_right snd]. rewrite append_nil_r.
    reflexivity. }
  pose proof (loop_from_pieces [(TK_SPACE, text)] EmptyString
                (String.length text + 2) [] EmptyString) as Hloop.
  rewrite append_nil_l, Htext, Hpieces, Hlen in Hloop.
  change (str_size EmptyString) with 0 in Hloop. rewrite Z.add_0_l in Hloop.
  cbn [piece_tokens app fst snd] in Hloop.
  unfold Tokenizer.tokens, Tokenizer.tokens_fuel. cbn [fs_pData].
  replace (2 * String.length text + 4)%nat
    with (S (S (String.length text + (String.length text + 2)))) by lia.
  cbn [Tokenizer.tokens_delimited]. unfold Fakestream.tell, Tokenizer.vsize.
  cbn [fs_nPos List.length]. change (Z.of_nat 0) with 0.
  apply Hloop; try reflexivity; try exact Hsize.
  constructor; [| constructor]. unfold is_piece. cbn [fst snd].
  rewrite Hblank. reflexivity.
Qed.

(** A tree that is parsed and freed leaves the store as it was, when
    the evaluation of its nodes changes nothing in the store. *)
Lemma in_parsed_tree_restores {A : Type} (m : M A) (r : outcome A)
    (s s' : shell_session) (σ : store) :
  (forall σ0, m s σ0 = (r, s', σ0)) -> in_parsed_tree m s σ = (r, s', σ).
Proof.
  intros Hm. unfold in_parsed_tree, in_tree. rewrite Hm.
  pose proof (is_fresh (st_trees σ ∪ vtable_trees σ)) as Hfresh.
  set (t := fresh (st_trees σ ∪ vtable_trees σ)) in *.
  f_equal. destruct σ as [envs args vars vtables ins outs trees current].
  unfold set_st_trees, set_st_tree. cbn.
  f_equal. cbn in Hfresh. apply set_eq. intros x.
  rewrite elem_of_difference, elem_of_union, !elem_of_singleton.
  split; [intros [[->|Hx] Hne]; [contradiction | exact Hx] |].
  intros Hx. split; [right; exact Hx |].
  intros ->. apply Hfresh. apply elem_of_union_l. exact Hx.
Qed.

(** X28.  A program text that is empty or holds only spaces and tabs
    parses to the null command, and running it returns [SHELL_SUCCESS],
    records it as the last result and changes nothing else. *)
Theorem blank_program_does_nothing (text : string) (fuel : nat)
    (s : shell_session) (σ : store) :
  str_forall (is_byte_of TK_SPACE) text = true ->
  str_size text < size_t_mod - 1 ->
  Parser.parse (mk_ifakestream text 0) = Ok (shell_node_null_command 0)
  /\ run_string pShell (S fuel) text s σ
     = (Ok SHELL_SUCCESS, Session.set_last_command_result s SHELL_SUCCESS, σ).
Proof.
  intros Hblank Hsize.
  assert (Hparse : Parser.parse (mk_ifakestream text 0) = Ok (shell_node_null_command 0)).
  { destruct text as [|c more].
    - vm_compute. reflexivity.
    - unfold Parser.parse. rewrite (tokens_of_blanks c more Hblank Hsize).
      change (fst (Parser.parse_block 80 TK_EOF
                     (mk_parser
                        (mk_ifakestream (String c more) (str_size (String c more) + 1))
                        (mk_holder
                           [mk_token TK_SPACE 0 (mk_view 0 (str_size (String c more)))]
                           (-1)) 0))
              ≫= (fun pEvaluable : option evaluable =>
                    match pEvaluable with
                    | Some e => Ok e
                    | None => Ok (shell_node_null_command 0)
                    end)
              = Ok (shell_node_null_command 0)).
      rewrite parse_block_one_space. reflexivity. }
  split; [exact Hparse |].
  unfold run_string, eval, bind, lift. rewrite Hparse.
  apply in_parsed_tree_restores. intros σ0. reflexivity.
Qed.

End BlankFacts.

(** Witness of X28. *)
Lemma blank_program_does_nothing_witness :
  str_forall (is_byte_of TK_SPACE) "   " = true
  /\ str_size "   " < size_t_mod - 1
  /\ @Interp.run_string Examples.absent_collaborators Examples.the_shell 1 "   "
       Examples.session0 Examples.store0
     = (Ok SHELL_SUCCESS,
        Session.set_last_command_result Examples.session0 SHELL_SUCCESS, Examples.store0).
Proof.
  assert (H1 : str_forall (is_byte_of TK_SPACE) "   " = true) by reflexivity.
  assert (H2 : str_size "   " < size_t_mod - 1) by (vm_compute; reflexivity).
  split; [exact H1 | split; [exact H2 |]].
  exact (proj2 (@blank_program_does_nothing Examples.absent_collaborators Examples.the_shell
                  "   " 0 Examples.session0 Examples.store0 H1 H2)).
Defined.
